(** * Travel planner: the itinerary pipeline of [travel_planner_app.py]

    A shallow embedding of [parse_llm_json], [get_weather],
    [review_itinerary] and the data path of [create_itinerary], together
    with the parts of Python's [re], [str] and [json] that these
    functions call; and of the code that shows the result:
    [display_itinerary_day], [display_map_day] and the handler of the
    button.

    Modelling conventions.
    - A Python [str] is a list of Unicode code points ([N]).
    - A value produced by [json.loads] is a [pyval]; a [dict] keeps its
      insertion order in an association list with distinct keys.
    - A [float] is kept as the decimal literal it was read from; binary
      rounding is not modelled: how a float is written, and which float
      a literal denotes, are parameters.
    - Interpreter resource limits (recursion depth, the digit limit on
      [int] conversion) are not modelled.
    - Calls that leave the process (the LLM client, the HTTP request,
      the geocoder) are operations on an abstract world state that
      either return or raise.
    - The page is the sequence of the calls made to Streamlit. *)

From Stdlib Require Import String Ascii.
From Stdlib Require Import List NArith ZArith Lia Bool.
From Stdlib Require Import DecimalFacts DecimalPos DecimalN.
Import ListNotations.

#[local] Set Warnings "-register-all".

(* ================================================================== *)
(** ** Python strings *)

Abbreviation char := N.
Abbreviation str := (list N).

(** [L "abc"] is the Python literal ['abc'] (ASCII only). *)
Fixpoint L (s : string) : str :=
  match s with
  | EmptyString => []
  | String a r => N_of_ascii a :: L r
  end.
Arguments L : simpl never.

Abbreviation QUOTE := 34%N.      (* the double quote *)
Abbreviation BACKSLASH := 92%N.
Abbreviation BACKTICK := 96%N.
Abbreviation DEGREE := 176%N.    (* U+00B0 *)

Fixpoint str_eqb (a b : str) : bool :=
  match a, b with
  | [], [] => true
  | x :: a', y :: b' => N.eqb x y && str_eqb a' b'
  | _, _ => false
  end.

(** [strip_prefix p s] is [Some r] when [s = p ++ r]. *)
Fixpoint strip_prefix (p s : str) : option str :=
  match p, s with
  | [], _ => Some s
  | a :: p', b :: s' => if N.eqb a b then strip_prefix p' s' else None
  | _ :: _, [] => None
  end.

Definition startswith (s p : str) : bool :=
  match strip_prefix p s with Some _ => true | None => false end.

(** [occurs p s]: [p in s]. *)
Fixpoint occurs (p s : str) : bool :=
  startswith s p ||
  match s with
  | [] => false
  | _ :: r => occurs p r
  end.

Definition endswith (s p : str) : bool := startswith (rev s) (rev p).

(** Left-to-right replacement of non-overlapping matches, as [re.sub] and
    [str.replace] do it.  [m s] is the length of the match that starts
    at the head of [s], if any; [skip] counts the characters of the
    current match still to be dropped. *)
Fixpoint sub_matches (m : str -> option nat) (repl : str) (skip : nat)
         (s : str) : str :=
  match s with
  | [] => []
  | c :: rest =>
      match skip with
      | S k => sub_matches m repl k rest
      | O =>
          match m s with
          | Some (S k) => repl ++ sub_matches m repl k rest
          | _ => c :: sub_matches m repl 0 rest
          end
      end
  end.

(** The pattern [```(?:json)?]: three backticks, then greedily an
    optional [json]. *)
Definition fence_re (s : str) : option nat :=
  match strip_prefix (L "```") s with
  | Some r =>
      match strip_prefix (L "json") r with
      | Some _ => Some 7
      | None => Some 3
      end
  | None => None
  end.

Definition re_sub_fence (repl s : str) : str := sub_matches fence_re repl 0 s.

(** [s.replace(old, new)] for a non-empty [old]. *)
Definition str_replace (old new s : str) : str :=
  sub_matches
    (fun t => if startswith t old then Some (length old) else None) new 0 s.

(** [str.isspace] on one code point. *)
Definition py_isspace (c : char) : bool :=
  ((9 <=? c) && (c <=? 13) || (28 <=? c) && (c <=? 32) ||
   (c =? 133) || (c =? 160) || (c =? 5760) ||
   (8192 <=? c) && (c <=? 8202) || (c =? 8232) || (c =? 8233) ||
   (c =? 8239) || (c =? 8287) || (c =? 12288))%N.

Fixpoint lstrip_by (p : char -> bool) (s : str) : str :=
  match s with
  | [] => []
  | c :: r => if p c then lstrip_by p r else s
  end.

Definition rstrip_by (p : char -> bool) (s : str) : str :=
  rev (lstrip_by p (rev s)).

Definition strip_by (p : char -> bool) (s : str) : str :=
  rstrip_by p (lstrip_by p s).

(** [s.strip()] *)
Definition str_strip (s : str) : str := strip_by py_isspace s.

(** [s.strip(chars)] *)
Definition str_strip_chars (chars s : str) : str :=
  strip_by (fun c => existsb (N.eqb c) chars) s.

(* ================================================================== *)
(** ** Python values built by [json.loads] *)

Inductive pyval : Type :=
| PNone
| PBool (b : bool)
| PInt (z : Z)
| PFloat (lexeme : str)
| PStr (s : str)
| PList (l : list pyval)
| PDict (d : list (str * pyval)).

Abbreviation dict := (list (str * pyval)).

Fixpoint dict_get (d : dict) (k : str) : option pyval :=
  match d with
  | [] => None
  | (k', v) :: d' => if str_eqb k' k then Some v else dict_get d' k
  end.

(** [d[k] = v]: an existing key keeps its position. *)
Fixpoint dict_set (d : dict) (k : str) (v : pyval) : dict :=
  match d with
  | [] => [(k, v)]
  | (k', v') :: d' =>
      if str_eqb k' k then (k', v) :: d' else (k', v') :: dict_set d' k v
  end.

(** [dict(pairs)] *)
Definition dict_of_pairs (pairs : list (str * pyval)) : dict :=
  fold_left (fun d kv => dict_set d (fst kv) (snd kv)) pairs [].

Definition is_list (v : pyval) : bool :=
  match v with PList _ => true | _ => false end.
Definition is_dict (v : pyval) : bool :=
  match v with PDict _ => true | _ => false end.
Definition is_str (v : pyval) : bool :=
  match v with PStr _ => true | _ => false end.

(* ================================================================== *)
(** ** [json.loads] *)

Module Json.

Definition is_ws (c : char) : bool :=
  ((c =? 32) || (c =? 9) || (c =? 10) || (c =? 13))%N.

Fixpoint skip_ws (s : str) : str :=
  match s with
  | [] => []
  | c :: r => if is_ws c then skip_ws r else s
  end.

Definition is_digit (c : char) : bool := ((48 <=? c) && (c <=? 57))%N.

Definition hexval (c : char) : option N :=
  (if (48 <=? c) && (c <=? 57) then Some (c - 48)
   else if (97 <=? c) && (c <=? 102) then Some (c - 87)
   else if (65 <=? c) && (c <=? 70) then Some (c - 55)
   else None)%N.

Definition hex4 (a b c d : char) : option N :=
  match hexval a, hexval b, hexval c, hexval d with
  | Some x, Some y, Some z, Some w => Some (((x * 16 + y) * 16 + z) * 16 + w)%N
  | _, _, _, _ => None
  end.

Definition is_high_surrogate (u : N) : bool := ((55296 <=? u) && (u <=? 56319))%N.
Definition is_low_surrogate (u : N) : bool := ((56320 <=? u) && (u <=? 57343))%N.
Definition join_surrogates (hi lo : N) : N :=
  (65536 + ((hi - 55296) * 1024 + (lo - 56320)))%N.

Definition push {A B : Type} (a : A) (r : option (list A * B)) : option (list A * B) :=
  match r with
  | Some (l, rest) => Some (a :: l, rest)
  | None => None
  end.

Definition simple_escape (e : char) : option char :=
  (if e =? QUOTE then Some QUOTE
   else if e =? BACKSLASH then Some BACKSLASH
   else if e =? 47 then Some 47
   else if e =? 98 then Some 8
   else if e =? 102 then Some 12
   else if e =? 110 then Some 10
   else if e =? 114 then Some 13
   else if e =? 116 then Some 9
   else None)%N.

(** [scanstring] in strict mode, entered after the opening quote: the
    decoded text and the input after the closing quote. *)
Fixpoint scanstring (s : str) : option (str * str) :=
  match s with
  | [] => None
  | c :: r =>
      if (c =? QUOTE)%N then Some ([], r)
      else if (c =? BACKSLASH)%N then
        match r with
        | [] => None
        | e :: r1 =>
            if (e =? 117)%N then
              match r1 with
              | h1 :: h2 :: h3 :: h4 :: r2 =>
                  match hex4 h1 h2 h3 h4 with
                  | None => None
                  | Some u =>
                      let single := push u (scanstring r2) in
                      if is_high_surrogate u then
                        match r2 with
                        | b :: x :: g1 :: g2 :: g3 :: g4 :: r3 =>
                            if ((b =? BACKSLASH) && (x =? 117))%N then
                              match hex4 g1 g2 g3 g4 with
                              | Some u2 =>
                                  if is_low_surrogate u2
                                  then push (join_surrogates u u2) (scanstring r3)
                                  else single
                              | None => None
                              end
                            else single
                        | _ => single
                        end
                      else single
                  end
              | _ => None
              end
            else
              match simple_escape e with
              | Some d => push d (scanstring r1)
              | None => None
              end
        end
      else if (c <? 32)%N then None
      else push c (scanstring r)
  end.

Fixpoint span_digits (s : str) : str * str :=
  match s with
  | [] => ([], [])
  | c :: r =>
      if is_digit c then let (ds, r') := span_digits r in (c :: ds, r')
      else ([], s)
  end.

Definition is_nil {A : Type} (l : list A) : bool :=
  match l with [] => true | _ => false end.

(** The three groups of [NUMBER_RE]: an integer part (optional minus,
    then a lone zero or a digit string without a leading zero), an
    optional fraction (a dot and digits) and an optional exponent. *)
Definition match_integer (s : str) : option (str * str) :=
  let (sign, s1) :=
    match s with
    | c :: r => if (c =? 45)%N then ([c], r) else ([], s)
    | [] => ([], s)
    end in
  match s1 with
  | c :: r =>
      if (c =? 48)%N then Some (sign ++ [c], r)
      else if is_digit c then
        let (ds, r') := span_digits r in Some (sign ++ c :: ds, r')
      else None
  | [] => None
  end.

Definition match_frac (s : str) : str * str :=
  match s with
  | c :: r =>
      if (c =? 46)%N then
        match span_digits r with
        | ([], _) => ([], s)
        | (ds, r') => (c :: ds, r')
        end
      else ([], s)
  | [] => ([], s)
  end.

Definition match_exp (s : str) : str * str :=
  match s with
  | e :: r =>
      if ((e =? 101) || (e =? 69))%N then
        let (sg, r1) :=
          match r with
          | c :: r' => if ((c =? 45) || (c =? 43))%N then ([c], r') else ([], r)
          | [] => ([], r)
          end in
        match span_digits r1 with
        | ([], _) => ([], s)
        | (ds, r2) => (e :: sg ++ ds, r2)
        end
      else ([], s)
  | [] => ([], s)
  end.

Fixpoint uint_of_digits (ds : str) : Decimal.uint :=
  match ds with
  | [] => Decimal.Nil
  | c :: r =>
      let u := uint_of_digits r in
      (if c =? 48 then Decimal.D0 u else if c =? 49 then Decimal.D1 u
       else if c =? 50 then Decimal.D2 u else if c =? 51 then Decimal.D3 u
       else if c =? 52 then Decimal.D4 u else if c =? 53 then Decimal.D5 u
       else if c =? 54 then Decimal.D6 u else if c =? 55 then Decimal.D7 u
       else if c =? 56 then Decimal.D8 u else Decimal.D9 u)%N
  end.

(** [int(lexeme)] for a lexeme of the integer group. *)
Definition parse_int (lexeme : str) : Z :=
  match lexeme with
  | c :: r =>
      if (c =? 45)%N then Z.opp (Z.of_N (N.of_uint (uint_of_digits r)))
      else Z.of_N (N.of_uint (uint_of_digits lexeme))
  | [] => 0%Z
  end.

Definition match_number (s : str) : option (pyval * str) :=
  match match_integer s with
  | None => None
  | Some (integer, r) =>
      let (frac, r1) := match_frac r in
      let (exp, r2) := match_exp r1 in
      if is_nil frac && is_nil exp
      then Some (PInt (parse_int integer), r2)
      else Some (PFloat (integer ++ frac ++ exp), r2)
  end.

Definition literal (word : string) (v : pyval) (s : str) : option (pyval * str) :=
  match strip_prefix (L word) s with
  | Some r => Some (v, r)
  | None => None
  end.

Section Containers.
(** The loops of [JSONArray] and [JSONObject] over a given [scan_once];
    [n] bounds the number of iterations. *)
Variable scan : str -> option (pyval * str).

Fixpoint array_items (n : nat) (s : str) : option (list pyval * str) :=
  match n with
  | O => None
  | S n' =>
      match scan s with
      | None => None
      | Some (value, r) =>
          match skip_ws r with
          | c :: r' =>
              if (c =? 93)%N then Some ([value], r')
              else if (c =? 44)%N then push value (array_items n' (skip_ws r'))
              else None
          | [] => None
          end
      end
  end.

Definition parse_array (n : nat) (s : str) : option (pyval * str) :=
  match skip_ws s with
  | c :: r =>
      if (c =? 93)%N then Some (PList [], r)
      else
        match array_items n (skip_ws s) with
        | Some (values, r') => Some (PList values, r')
        | None => None
        end
  | [] => None
  end.

(** Entered after the opening quote of a key. *)
Fixpoint object_pairs (n : nat) (s : str) : option (list (str * pyval) * str) :=
  match n with
  | O => None
  | S n' =>
      match scanstring s with
      | None => None
      | Some (key, r) =>
          match skip_ws r with
          | c :: r1 =>
              if (c =? 58)%N then
                match scan (skip_ws r1) with
                | None => None
                | Some (value, r2) =>
                    match skip_ws r2 with
                    | c2 :: r3 =>
                        if (c2 =? 125)%N then Some ([(key, value)], r3)
                        else if (c2 =? 44)%N then
                          match skip_ws r3 with
                          | q :: r4 =>
                              if (q =? QUOTE)%N
                              then push (key, value) (object_pairs n' r4)
                              else None
                          | [] => None
                          end
                        else None
                    | [] => None
                    end
                end
              else None
          | [] => None
          end
      end
  end.

Definition parse_object (n : nat) (s : str) : option (pyval * str) :=
  match skip_ws s with
  | c :: r =>
      if (c =? 125)%N then Some (PDict [], r)
      else if (c =? QUOTE)%N then
        match object_pairs n r with
        | Some (pairs, r') => Some (PDict (dict_of_pairs pairs), r')
        | None => None
        end
      else None
  | [] => None
  end.
End Containers.

(** [scan_once]; [fuel] bounds the nesting depth and the loop lengths. *)
Fixpoint scan_once (fuel : nat) (s : str) : option (pyval * str) :=
  match fuel with
  | O => None
  | S fuel' =>
      match s with
      | [] => None
      | c :: r =>
          if (c =? QUOTE)%N then
            match scanstring r with
            | Some (t, r') => Some (PStr t, r')
            | None => None
            end
          else if (c =? 123)%N then parse_object (scan_once fuel') fuel' r
          else if (c =? 91)%N then parse_array (scan_once fuel') fuel' r
          else if startswith s (L "null") then literal "null" PNone s
          else if startswith s (L "true") then literal "true" (PBool true) s
          else if startswith s (L "false") then literal "false" (PBool false) s
          else
            match match_number s with
            | Some res => Some res
            | None =>
                if startswith s (L "NaN") then literal "NaN" (PFloat (L "NaN")) s
                else if startswith s (L "Infinity")
                then literal "Infinity" (PFloat (L "Infinity")) s
                else if startswith s (L "-Infinity")
                then literal "-Infinity" (PFloat (L "-Infinity")) s
                else None
            end
      end
  end.

(** [JSONDecoder.decode]: leading white space, one value, trailing white
    space, nothing else.  No value nests deeper, and no loop runs longer,
    than the text is long, so this fuel never runs out ([loads_fuel]
    below). *)
Definition loads (s : str) : option pyval :=
  match scan_once (S (length s)) (skip_ws s) with
  | Some (v, r) => if is_nil (skip_ws r) then Some v else None
  | None => None
  end.

End Json.

(* ================================================================== *)
(** ** [parse_llm_json] *)

Definition clean_llm_text (text : str) : str :=
  let cleaned := re_sub_fence [] text in
  str_strip (str_replace (L "```") [] cleaned).

Definition fallback_itinerary (text : str) : pyval :=
  PList [PDict [(L "day", PInt 1);
                (L "activities",
                  PList [PDict [(L "time", PStr (L "All day"));
                                (L "place_name", PStr (L "Unknown"));
                                (L "description", PStr text)]]);
                (L "notes", PStr [])]].

Definition parse_llm_json (text : str) : pyval :=
  match Json.loads (clean_llm_text text) with
  | Some v => v
  | None => fallback_itinerary text
  end.

(* ================================================================== *)
(** ** [json.dumps] *)

Module Encoder.

Fixpoint digits_of_uint (u : Decimal.uint) : str :=
  match u with
  | Decimal.Nil => []
  | Decimal.D0 r => 48%N :: digits_of_uint r
  | Decimal.D1 r => 49%N :: digits_of_uint r
  | Decimal.D2 r => 50%N :: digits_of_uint r
  | Decimal.D3 r => 51%N :: digits_of_uint r
  | Decimal.D4 r => 52%N :: digits_of_uint r
  | Decimal.D5 r => 53%N :: digits_of_uint r
  | Decimal.D6 r => 54%N :: digits_of_uint r
  | Decimal.D7 r => 55%N :: digits_of_uint r
  | Decimal.D8 r => 56%N :: digits_of_uint r
  | Decimal.D9 r => 57%N :: digits_of_uint r
  end.

(** [int.__repr__] *)
Definition int_repr (z : Z) : str :=
  match z with
  | Zneg p => 45%N :: digits_of_uint (N.to_uint (Npos p))
  | _ => digits_of_uint (N.to_uint (Z.to_N z))
  end.

Definition hexdigit (n : N) : char := (if n <? 10 then 48 + n else 87 + n)%N.

(** ['\\u{0:04x}'.format(n)] for [n < 0x10000]. *)
Definition u_escape (n : N) : str :=
  [BACKSLASH; 117%N; hexdigit (n / 4096); hexdigit ((n / 256) mod 16);
   hexdigit ((n / 16) mod 16); hexdigit (n mod 16)]%N.

(** The replacement of one character by [encode_basestring_ascii]. *)
Definition escape_char (c : char) : str :=
  (if c =? QUOTE then [BACKSLASH; QUOTE]
   else if c =? BACKSLASH then [BACKSLASH; BACKSLASH]
   else if c =? 8 then [BACKSLASH; 98]
   else if c =? 12 then [BACKSLASH; 102]
   else if c =? 10 then [BACKSLASH; 110]
   else if c =? 13 then [BACKSLASH; 114]
   else if c =? 9 then [BACKSLASH; 116]
   else if (32 <=? c) && (c <=? 126) then [c]
   else if c <? 65536 then u_escape c
   else
     let n := c - 65536 in
     u_escape (55296 + (n / 1024) mod 1024) ++ u_escape (56320 + n mod 1024))%N.

Definition encode_basestring_ascii (s : str) : str :=
  QUOTE :: flat_map escape_char s ++ [QUOTE].

Fixpoint join (sep : str) (parts : list str) : str :=
  match parts with
  | [] => []
  | [p] => p
  | p :: rest => p ++ sep ++ join sep rest
  end.

Section Dumps.
(** [floatstr] of the encoder, on the float a literal denotes. *)
Variable floatstr : str -> str.

(** [json.dumps(obj)] with the default separators. *)
Fixpoint dumps (o : pyval) : str :=
  match o with
  | PNone => L "null"
  | PBool true => L "true"
  | PBool false => L "false"
  | PInt z => int_repr z
  | PFloat f => floatstr f
  | PStr s => encode_basestring_ascii s
  | PList l => L "[" ++ join (L ", ") (map dumps l) ++ L "]"
  | PDict d =>
      L "{" ++
      join (L ", ")
        (map (fun kv => encode_basestring_ascii (fst kv) ++ L ": " ++ dumps (snd kv)) d)
      ++ L "}"
  end.

Definition newline_indent (level : nat) : str := 10%N :: repeat 32%N (2 * level).

(** [json.dumps(obj, indent=2)], at nesting level [level]. *)
Fixpoint dumps_indent (level : nat) (o : pyval) : str :=
  match o with
  | PList [] => L "[]"
  | PList l =>
      L "[" ++ newline_indent (S level) ++
      join (L "," ++ newline_indent (S level)) (map (dumps_indent (S level)) l) ++
      newline_indent level ++ L "]"
  | PDict [] => L "{}"
  | PDict d =>
      L "{" ++ newline_indent (S level) ++
      join (L "," ++ newline_indent (S level))
        (map (fun kv => encode_basestring_ascii (fst kv) ++ L ": " ++
                        dumps_indent (S level) (snd kv)) d) ++
      newline_indent level ++ L "}"
  | _ => dumps o
  end.
End Dumps.

End Encoder.

(* ================================================================== *)
(** ** Exceptions and the world *)

Inductive exn : Type :=
| TypeError
| KeyError
| IndexError
| ExternalError (tag : N).   (* any [Exception] raised by a library call *)

Inductive outcome (A : Type) : Type :=
| Ret (a : A)
| Raise (e : exn).
Arguments Ret {A} a.
Arguments Raise {A} e.

Definition obind {A B : Type} (m : outcome A) (k : A -> outcome B) : outcome B :=
  match m with
  | Ret a => k a
  | Raise e => Raise e
  end.

Declare Scope py_scope.
Delimit Scope py_scope with py.
Notation "x <~ m ;; k" := (obind m (fun x => k))
  (at level 61, m at next level, right associativity) : py_scope.

(** ** Subscription, concatenation and formatting *)

(** [v[key]] for a text key. *)
Definition getitem_key (v : pyval) (key : str) : outcome pyval :=
  match v with
  | PDict d => match dict_get d key with Some x => Ret x | None => Raise KeyError end
  | _ => Raise TypeError
  end.

(** [v[0]] *)
Definition getitem_0 (v : pyval) : outcome pyval :=
  match v with
  | PList (x :: _) => Ret x
  | PList [] => Raise IndexError
  | PStr (c :: _) => Ret (PStr [c])
  | PStr [] => Raise IndexError
  | PDict _ => Raise KeyError
  | _ => Raise TypeError
  end.

(** [d.get(key, default)] *)
Definition dict_get_default (d : dict) (key : str) (default : pyval) : pyval :=
  match dict_get d key with Some x => x | None => default end.

(** [a + b] where [b] is text. *)
Definition add_str (a : pyval) (b : str) : outcome str :=
  match a with
  | PStr s => Ret (s ++ b)
  | _ => Raise TypeError
  end.

(* ================================================================== *)
(** ** The pipeline *)

(** The coercion of [create_itinerary] (the [isinstance] chain). *)
Definition placeholder_day (description : str) : pyval :=
  PDict [(L "day", PInt 1);
         (L "activities",
           PList [PDict [(L "time", PStr (L "All Day"));
                         (L "place_name", PStr (L "Unknown"));
                         (L "category", PStr (L "Sightseeing"));
                         (L "description", PStr description)]]);
         (L "notes", PStr [])].

Definition coerce_shape (itinerary_json : pyval) : pyval :=
  match itinerary_json with
  | PDict _ => PList [itinerary_json]
  | PStr s => PList [placeholder_day s]
  | PList _ => itinerary_json
  | _ => PList [placeholder_day (L "Invalid response format.")]
  end.

(** The body of the annotation loop for one element. *)
Definition annotate_day (weather : str) (day : pyval) : outcome pyval :=
  match day with
  | PDict d =>
      (s <~ add_str (dict_get_default d (L "notes") (PStr []))
                    (L " | Weather: " ++ weather) ;;
       Ret (PDict (dict_set d (L "notes") (PStr (str_strip_chars (L " |") s)))))%py
  | _ => Ret day
  end.

Fixpoint annotate_days (weather : str) (days : list pyval) : outcome (list pyval) :=
  match days with
  | [] => Ret []
  | day :: rest =>
      (day' <~ annotate_day weather day ;;
       rest' <~ annotate_days weather rest ;;
       Ret (day' :: rest'))%py
  end.

(** [for day in itinerary_json: ...]: a list is walked element by element;
    the items of a text or the keys of a mapping are texts, which the
    loop body leaves alone; nothing else can be iterated. *)
Definition add_weather (weather : str) (itinerary_json : pyval) : outcome pyval :=
  match itinerary_json with
  | PList days => (days' <~ annotate_days weather days ;; Ret (PList days'))%py
  | PStr _ | PDict _ => Ret itinerary_json
  | _ => Raise TypeError
  end.

(** The address that [get_weather] requests, from the quoted city. *)
Definition wttr_url (q : str) : str := L "https://wttr.in/" ++ q ++ L "?format=j1".

Section World.
(** The state of everything outside the process. *)
Variable World : Type.

Definition Py (A : Type) : Type := World -> outcome A * World.

Definition ret {A : Type} (a : A) : Py A := fun w => (Ret a, w).
Definition lift {A : Type} (o : outcome A) : Py A := fun w => (o, w).
Definition bind {A B : Type} (m : Py A) (k : A -> Py B) : Py B :=
  fun w =>
    match m w with
    | (Ret a, w') => k a w'
    | (Raise e, w') => (Raise e, w')
    end.
(** [try: body except Exception: handler] *)
Definition try_except {A : Type} (body : Py A) (handler : Py A) : Py A :=
  fun w =>
    match body w with
    | (Ret a, w') => (Ret a, w')
    | (Raise _, w') => handler w'
    end.

Notation "x <- m ;; k" := (bind m (fun x => k))
  (at level 61, m at next level, right associativity).

(** Library operations.  [quote] is [urllib.parse.quote];
    [requests_get_json url] is [requests.get(url, timeout=5).json()];
    [from_messages] and [format_messages] are those of
    [ChatPromptTemplate].  The constructor reads the text of every
    message as an f-string template and raises on a text that is none
    (a brace that is not closed, a field inside a field):
    [template_error m] is that exception, if there is one, and
    [from_messages m] the prompt that is built otherwise.  Formatting
    may raise, as it does for a field that is given no value.
    [llm_invoke m] is [llm.invoke(m).content];
    [floatstr], [float_str] and [container_str] are the encoder's float
    rendering and [str()] on floats and on lists and mappings. *)
Variable quote : str -> outcome str.
Variable requests_get_json : str -> Py pyval.
Variable Template Messages : Type.
Variable from_messages : list (str * str) -> Template.
Variable template_error : list (str * str) -> option exn.
Variable format_messages : Template -> list (str * pyval) -> outcome Messages.
Variable llm_invoke : Messages -> Py str.
Variable floatstr : str -> str.
Variable float_str : str -> str.
Variable container_str : pyval -> str.
(** The system message of the generation prompt: a constant text of the
    program in which every brace that is meant as a brace is doubled,
    so that the constructor accepts it; its fields are [days], [city]
    and [interests]. *)
Variable GENERATION_SYSTEM : str.

(** [f"{v}"] *)
Definition format_value (v : pyval) : str :=
  match v with
  | PStr s => s
  | PInt z => Encoder.int_repr z
  | PBool true => L "True"
  | PBool false => L "False"
  | PNone => L "None"
  | PFloat f => float_str f
  | _ => container_str v
  end.

Definition weather_line (desc temp : pyval) : str :=
  format_value desc ++ L ", " ++ format_value temp ++ [DEGREE] ++ L "C".

Definition WEATHER_UNAVAILABLE : str := L "Weather data unavailable".

(** The body of the [try] of [get_weather]. *)
Definition fetch_weather (city : str) : Py str :=
  q <- lift (quote city) ;;
  let url := wttr_url q in
  data <- requests_get_json url ;;
  lift (current_condition <~ getitem_key data (L "current_condition") ;;
        cond <~ getitem_0 current_condition ;;
        weatherDesc <~ getitem_key cond (L "weatherDesc") ;;
        first <~ getitem_0 weatherDesc ;;
        desc <~ getitem_key first (L "value") ;;
        temp <~ getitem_key cond (L "temp_C") ;;
        Ret (weather_line desc temp))%py.

Definition get_weather (city : str) : Py str :=
  try_except (fetch_weather city) (ret WEATHER_UNAVAILABLE).

Definition REVIEW_SYSTEM : str :=
  L "You are a travel expert. Review and fix the following itinerary for realism, logical flow, and accurate place naming.".

(** The two messages of the review prompt; the second holds the
    itinerary, serialized with [indent=2]. *)
Definition review_messages (itinerary_json : pyval) : list (str * str) :=
  [(L "system", REVIEW_SYSTEM);
   (L "human",
     L "Here is the itinerary:" ++ [10%N] ++
     Encoder.dumps_indent floatstr 0 itinerary_json)].

(** [ChatPromptTemplate.from_messages([...])], which stands before the
    [try] of [review_itinerary]. *)
Definition review_prompt (itinerary_json : pyval) : outcome Template :=
  match template_error (review_messages itinerary_json) with
  | Some e => Raise e
  | None => Ret (from_messages (review_messages itinerary_json))
  end.

(** The body of the [try] of [review_itinerary]. *)
Definition review_call (prompt : Template) (itinerary_json : pyval) : Py pyval :=
  messages <- lift (format_messages prompt []) ;;
  content <- llm_invoke messages ;;
  let revised := parse_llm_json content in
  ret (if is_list revised then revised else itinerary_json).

Definition review_itinerary (itinerary_json : pyval) : Py pyval :=
  prompt <- lift (review_prompt itinerary_json) ;;
  try_except (review_call prompt itinerary_json) (ret itinerary_json).

(** The generation prompt, built from two constant texts. *)
Definition generation_prompt : Template :=
  from_messages
    [(L "system", GENERATION_SYSTEM); (L "human", L "Generate the itinerary.")].

Definition create_itinerary (city : str) (days : Z) (interests : str) : Py pyval :=
  messages <- lift (format_messages generation_prompt
                      [(L "city", PStr city); (L "days", PInt days);
                       (L "interests", PStr interests)]) ;;
  content <- llm_invoke messages ;;
  let itinerary_json := coerce_shape (parse_llm_json content) in
  weather <- get_weather city ;;
  itinerary_json <- lift (add_weather weather itinerary_json) ;;
  review_itinerary itinerary_json.

End World.

(* ================================================================== *)
(** ** The shapes of the data model *)

(** A field that may be absent and, when present, satisfies [p]. *)
Definition field_ok (d : dict) (k : string) (p : pyval -> bool) : bool :=
  match dict_get d (L k) with
  | Some x => p x
  | None => true
  end.

Definition is_int (v : pyval) : bool :=
  match v with PInt _ => true | _ => false end.

Definition activity_shaped (v : pyval) : bool :=
  match v with
  | PDict d =>
      field_ok d "time" is_str && field_ok d "place_name" is_str &&
      field_ok d "category" is_str && field_ok d "description" is_str
  | _ => false
  end.

Definition activities_shaped (v : pyval) : bool :=
  match v with
  | PList l => forallb activity_shaped l
  | _ => false
  end.

(** A Day: a mapping whose fields, where present, have the types of the
    data model. *)
Definition day_shaped (v : pyval) : bool :=
  match v with
  | PDict d =>
      field_ok d "day" is_int && field_ok d "activities" activities_shaped &&
      field_ok d "notes" is_str
  | _ => false
  end.

(** A sequence of Days. *)
Definition days_sequence (v : pyval) : bool :=
  match v with
  | PList l => forallb day_shaped l
  | _ => false
  end.

(** A sequence of mappings, whatever their fields. *)
Definition mappings_sequence (v : pyval) : bool :=
  match v with
  | PList l => forallb is_dict l
  | _ => false
  end.

(** The [notes] of a mapping are absent or text. *)
Definition notes_text (v : pyval) : bool :=
  match v with
  | PDict d => field_ok d "notes" is_str
  | _ => true
  end.

(** The single activity of a one-day itinerary, when it has this form. *)
Definition single_activity (v : pyval) : option dict :=
  match v with
  | PList [PDict d] =>
      match dict_get d (L "activities") with
      | Some (PList [PDict a]) => Some a
      | _ => None
      end
  | _ => None
  end.

(** Quoted JSON text: [Q s] is [s] between double quotes. *)
Definition Q (s : str) : str := QUOTE :: s ++ [QUOTE].

(** What the annotation loop leaves in place of [day]: a mapping has its
    [notes] replaced by a text that ends with the weather suffix, and
    that is the bare suffix when the notes were empty or absent;
    anything else is untouched. *)
Definition annotated (weather : str) (day day' : pyval) : Prop :=
  match day with
  | PDict d =>
      exists s,
        day' = PDict (dict_set d (L "notes") (PStr s)) /\
        getitem_key day' (L "notes") = Ret (PStr s) /\
        endswith s (L "Weather: " ++ weather) = true /\
        (dict_get_default d (L "notes") (PStr []) = PStr [] ->
         s = L "Weather: " ++ weather)
  | _ => day' = day
  end.

(** A text whose last character is neither a space nor a bar. *)
Definition ends_plain (s : str) : Prop :=
  exists front c, s = front ++ [c] /\ c <> 32%N /\ c <> 124%N.

(** The Day of the specification's first scenario (its activities left
    out) and a reply whose [notes] are a number. *)
Definition scenario_day : pyval :=
  PDict [(L "day", PInt 1); (L "activities", PList []); (L "notes", PStr [])].

Definition non_text_notes_reply : str :=
  L "[{" ++ Q (L "day") ++ L ": 1, " ++ Q (L "notes") ++ L ": 5}]".

(** A reply whose [notes] hold a closing brace. *)
Definition brace_notes_reply : str :=
  L "[{" ++ Q (L "day") ++ L ": 1, " ++ Q (L "activities") ++ L ": [], " ++
  Q (L "notes") ++ L ": " ++ Q (L "Have fun :-}") ++ L "}]".

(** ** What can follow a serialized value *)

(** The text after a number does not continue it. *)
Definition follow_ok (rest : str) : bool :=
  match rest with
  | [] => true
  | h :: _ => negb (Json.is_digit h || (h =? 46) || (h =? 101) || (h =? 69))%N
  end.

(** ** Values that can be serialized and read back *)

(** A code point of a Python text. *)
Definition valid_char (c : char) : bool := (c <? 1114112)%N.

(** No high surrogate is directly followed by a low surrogate. *)
Fixpoint pair_free (s : str) : bool :=
  match s with
  | a :: (b :: _) as r =>
      negb (Json.is_high_surrogate a && Json.is_low_surrogate b) && pair_free r
  | _ => true
  end.

(** The encoded text [r2] does not begin with the escape of a low
    surrogate. *)
Definition no_low_escape (r2 : str) : bool :=
  match r2 with
  | b :: x :: g1 :: g2 :: g3 :: g4 :: _ =>
      negb ((b =? BACKSLASH) && (x =? 117))%N ||
      match Json.hex4 g1 g2 g3 g4 with
      | Some u2 => negb (Json.is_low_surrogate u2)
      | None => false
      end
  | _ => true
  end.

(** A text of valid code points, without a surrogate pair written as two
    code points and without three backticks in a row. *)
Definition text_ok (s : str) : bool :=
  forallb valid_char s && pair_free s && negb (occurs (L "```") s).

(** A value without floats all of whose texts and keys are [text_ok]. *)
Fixpoint plain (v : pyval) : bool :=
  match v with
  | PFloat _ => false
  | PStr s => text_ok s
  | PList l => forallb plain l
  | PDict d => forallb (fun kv => text_ok (fst kv) && plain (snd kv)) d
  | _ => true
  end.

Fixpoint has_key (d : dict) (k : str) : bool :=
  match d with
  | [] => false
  | (k', _) :: d' => str_eqb k' k || has_key d' k
  end.

Fixpoint distinct_keys (d : dict) : bool :=
  match d with
  | [] => true
  | (k, _) :: d' => negb (has_key d' k) && distinct_keys d'
  end.

(** The representation invariant of a [dict]: its keys are distinct, at
    every level. *)
Fixpoint wf (v : pyval) : bool :=
  match v with
  | PList l => forallb wf l
  | PDict d => distinct_keys d && forallb (fun kv => wf (snd kv)) d
  | _ => true
  end.

(** The number of values in a value. *)
Fixpoint size (v : pyval) : nat :=
  match v with
  | PList l => S (list_sum (map size l))
  | PDict d => S (list_sum (map (fun kv => size (snd kv)) d))
  | _ => 1
  end.

(** [scan] reads the serialized [x] back in front of any admissible
    rest. *)
Definition read_back (floatstr : str -> str)
           (scan : str -> option (pyval * str)) (x : pyval) : Prop :=
  plain x = true /\
  forall rest, follow_ok rest = true ->
               scan (Encoder.dumps floatstr x ++ rest) = Some (x, rest).

(** One member of a serialized mapping. *)
Definition member (floatstr : str -> str) (kv : str * pyval) : str :=
  Encoder.encode_basestring_ascii (fst kv) ++ L ": " ++
  Encoder.dumps floatstr (snd kv).

(** [has_run k s]: three backticks in a row occur in [s] when [k]
    backticks stand directly in front of it. *)
Fixpoint has_run (k : nat) (s : str) : bool :=
  match s with
  | [] => false
  | c :: r =>
      if (c =? BACKTICK)%N then
        match k with
        | S (S _) => true
        | _ => has_run (S k) r
        end
      else has_run 0 r
  end.

(** A piece of output that holds no fence after [k] backticks and does
    not end with a backtick. *)
Definition sealed (k : nat) (a : str) : Prop :=
  has_run k a = false /\
  exists front c, a = front ++ [c] /\ N.eqb c BACKTICK = false.

(** Valid JSON without a fence whose text value is three backticks,
    written with escapes. *)
Definition escaped_fence : str := Q (L "\u0060\u0060\u0060").

(** Valid JSON without a fence whose text holds a high surrogate as a
    code point followed by the escape of a low surrogate. *)
Definition split_pair : str := QUOTE :: 55357%N :: L "\ude00" ++ [QUOTE].

(** The reply of the specification's first scenario, without its
    activity. *)
Definition scenario_reply : str :=
  L "[{" ++ Q (L "day") ++ L ":1," ++ Q (L "activities") ++ L ":[]," ++
  Q (L "notes") ++ L ":" ++ Q [] ++ L "}]".

(** A text that ends with a digit. *)
Definition ends_with_digit (lex : str) : Prop :=
  exists front d, lex = front ++ [d] /\ Json.is_digit d = true.

(** A text whose first and last characters are not white space. *)
Definition solid (core : str) : Prop :=
  (exists c t, core = c :: t /\ py_isspace c = false) /\
  (exists front c, core = front ++ [c] /\ py_isspace c = false).

(** ** Floats *)

(** A float literal of JSON: a number with a fraction or an exponent, or
    one of the three names. *)
Definition float_literal (f : str) : bool :=
  match Json.match_number f with
  | Some (PFloat g, []) => str_eqb g f
  | Some _ => false
  | None =>
      str_eqb f (L "NaN") || str_eqb f (L "Infinity") ||
      str_eqb f (L "-Infinity")
  end.

(** Every float of [v] satisfies [p]. *)
Fixpoint floats_ok (p : str -> bool) (v : pyval) : bool :=
  match v with
  | PFloat f => p f
  | PList l => forallb (floats_ok p) l
  | PDict d => forallb (fun kv => floats_ok p (snd kv)) d
  | _ => true
  end.

(** The literal of the float that is no number. *)
Definition not_nan (f : str) : bool := negb (str_eqb f (L "NaN")).

(** All the texts and keys of [v] are [text_ok]. *)
Fixpoint texts_ok (v : pyval) : bool :=
  match v with
  | PStr s => text_ok s
  | PList l => forallb texts_ok l
  | PDict d => forallb (fun kv => text_ok (fst kv) && texts_ok (snd kv)) d
  | _ => true
  end.

(** [v] with every float in the text that the encoder writes for it. *)
Fixpoint rewritten (floatstr : str -> str) (v : pyval) : pyval :=
  match v with
  | PFloat f => PFloat (floatstr f)
  | PList l => PList (map (rewritten floatstr) l)
  | PDict d => PDict (map (fun kv => (fst kv, rewritten floatstr (snd kv))) d)
  | _ => v
  end.

(** Two values that [==] holds for: they are built alike, and floats at
    the same place denote the same float, which is a number
    ([float_of f] is the float that the literal [f] denotes). *)
Fixpoint same_value {Float : Type} (float_of : str -> Float) (v v' : pyval)
  : Prop :=
  match v, v' with
  | PNone, PNone => True
  | PBool b, PBool b' => b = b'
  | PInt z, PInt z' => z = z'
  | PFloat f, PFloat f' => not_nan f = true /\ float_of f = float_of f'
  | PStr s, PStr s' => s = s'
  | PList l, PList l' =>
      (fix all (l l' : list pyval) : Prop :=
         match l, l' with
         | [], [] => True
         | x :: l, x' :: l' => same_value float_of x x' /\ all l l'
         | _, _ => False
         end) l l'
  | PDict d, PDict d' =>
      (fix all (d d' : dict) : Prop :=
         match d, d' with
         | [], [] => True
         | (k, x) :: d, (k', x') :: d' =>
             k = k' /\ same_value float_of x x' /\ all d d'
         | _, _ => False
         end) d d'
  | _, _ => False
  end.

(** A value that [json.dumps] writes as a text that can be read back:
    its texts and keys are [text_ok], and its floats are written as
    float literals. *)
Fixpoint writable (floatstr : str -> str) (v : pyval) : bool :=
  match v with
  | PFloat f => float_literal (floatstr f)
  | PStr s => text_ok s
  | PList l => forallb (writable floatstr) l
  | PDict d =>
      forallb (fun kv => text_ok (fst kv) && writable floatstr (snd kv)) d
  | _ => true
  end.

(** [scan] reads the serialized [x] back in front of any admissible
    rest, its floats in the texts that the encoder wrote. *)
Definition read_back_as (floatstr : str -> str)
           (scan : str -> option (pyval * str)) (x : pyval) : Prop :=
  writable floatstr x = true /\
  forall rest, follow_ok rest = true ->
               scan (Encoder.dumps floatstr x ++ rest)
               = Some (rewritten floatstr x, rest).

(** ** The ends of a JSON document *)

(** The characters a JSON value can begin with and end with. *)
Definition value_first (c : char) : bool :=
  existsb (N.eqb c) (QUOTE :: L "{[-0123456789ntfNI").

Definition value_last (c : char) : bool :=
  existsb (N.eqb c) (QUOTE :: L "}]0123456789leNy").

(** ** What the annotation loop keeps *)

(** The characters that [strip(" |")] removes. *)
Definition blank_or_bar (c : char) : bool := existsb (N.eqb c) (L " |").

(** [day'] is [day] but for its [notes]: the other keys keep their
    values and their order, and [notes] stands where it stood, or last
    when it was absent.  What is no mapping is the same. *)
Definition same_but_notes (day day' : pyval) : Prop :=
  match day with
  | PDict d =>
      exists d',
        day' = PDict d' /\
        (forall k, str_eqb k (L "notes") = false -> dict_get d' k = dict_get d k) /\
        map fst d' = if has_key d (L "notes") then map fst d
                     else map fst d ++ [L "notes"]
  | _ => day' = day
  end.

(** ** The indented serialization *)

(** [scan] reads the serialization of [x] with [indent=2], at nesting
    level [level], back in front of any admissible rest. *)
Definition read_back_indent (floatstr : str -> str) (level : nat)
           (scan : str -> option (pyval * str)) (x : pyval) : Prop :=
  plain x = true /\
  forall rest, follow_ok rest = true ->
               scan (Encoder.dumps_indent floatstr level x ++ rest) = Some (x, rest).

(** One member of a mapping serialized with [indent=2]. *)
Definition member_indent (floatstr : str -> str) (level : nat)
           (kv : str * pyval) : str :=
  Encoder.encode_basestring_ascii (fst kv) ++ L ": " ++
  Encoder.dumps_indent floatstr level (snd kv).

(* ================================================================== *)
(** ** The page: [display_itinerary_day], [display_map_day] and the
    button handler *)

Abbreviation NL := 10%N.

(** The card of one activity in [display_itinerary_day] (lines 180-186). *)
Definition day_card_html (time_slot maps_url place desc category : str) : str :=
  [NL] ++ L "            <div style=" ++ [QUOTE] ++
  L "margin-bottom: 10px; padding: 10px; border-radius: 10px; background-color: #f8f9fa;" ++
  [QUOTE] ++ L ">" ++ [NL] ++ L "                <b>" ++ [128338%N] ++ L " " ++
  time_slot ++ L "</b> " ++ [8212%N] ++ L " <a href=" ++ [QUOTE] ++ maps_url ++
  [QUOTE] ++ L " target=" ++ [QUOTE] ++ L "_blank" ++ [QUOTE] ++ L "><b>" ++ place ++
  L "</b></a><br>" ++ [NL] ++ L "                <span style=" ++ [QUOTE] ++
  L "color: #555;" ++ [QUOTE] ++ L ">" ++ desc ++ L "</span><br>" ++ [NL] ++
  L "                <i style=" ++ [QUOTE] ++ L "color: #007bff;" ++ [QUOTE] ++
  L ">Category: " ++ category ++ L "</i>" ++ [NL] ++
  L "            </div>" ++ [NL] ++ L "            ".

(** The heading of one day on the page (lines 256-260). *)
Definition day_header_html (label : str) : str :=
  [NL] ++ L "                <div style=" ++ [QUOTE] ++ L "margin-top: 40px;" ++
  [QUOTE] ++ L ">" ++ [NL] ++ L "                    <h2 style=" ++ [QUOTE] ++
  L "font-size: 28px; font-weight: 700;" ++ [QUOTE] ++ L ">" ++ [129351%N] ++
  L " Day " ++ label ++ L "</h2>" ++ [NL] ++
  L "                </div>" ++ [NL] ++ L "                ".

(** The card of one activity on the page (lines 275-294). *)
Definition activity_card_html (time_slot maps_url place desc category : str) : str :=
  [NL] ++ L "                        <div style=" ++ [QUOTE; NL] ++
  L "                            background-color: #1e1e1e;" ++ [NL] ++
  L "                            border-radius: 12px;" ++ [NL] ++
  L "                            padding: 16px;" ++ [NL] ++
  L "                            margin-bottom: 15px;" ++ [NL] ++
  L "                            border: 1px solid #333;" ++ [NL] ++
  L "                        " ++ [QUOTE] ++ L ">" ++ [NL] ++
  L "                            <div style=" ++ [QUOTE] ++
  L "color: #bbb; font-size: 13px;" ++ [QUOTE] ++ L ">" ++ [128338%N] ++ L " " ++
  time_slot ++ L "</div>" ++ [NL] ++ L "                            <div style=" ++
  [QUOTE] ++ L "font-size: 17px; font-weight: 600; margin-top: 2px;" ++ [QUOTE] ++
  L ">" ++ [NL] ++ L "                                <a href=" ++ [QUOTE] ++
  maps_url ++ [QUOTE] ++ L " target=" ++ [QUOTE] ++ L "_blank" ++ [QUOTE] ++
  L " style=" ++ [QUOTE] ++ L "color: #4da3ff; text-decoration: none;" ++ [QUOTE] ++
  L ">" ++ [NL] ++ L "                                    " ++ place ++ [NL] ++
  L "                                </a>" ++ [NL] ++
  L "                            </div>" ++ [NL] ++
  L "                            <div style=" ++ [QUOTE] ++
  L "color: #ccc; margin-top: 5px;" ++ [QUOTE] ++ L ">" ++ desc ++ L "</div>" ++
  [NL] ++ L "                            <div style=" ++ [QUOTE] ++
  L "color: #00bfff; font-size: 13px; margin-top: 5px;" ++ [QUOTE] ++ L ">" ++ [NL] ++
  L "                                " ++ [127991%N; 65039%N] ++ L " " ++ category ++
  [NL] ++ L "                            </div>" ++ [NL] ++
  L "                        </div>" ++ [NL] ++
  L "                        ".

(** The box with the notes of one day on the page (lines 300-311). *)
Definition notes_box_html (notes : str) : str :=
  [NL] ++ L "                        <div style=" ++ [QUOTE; NL] ++
  L "                            background-color: #102A43;" ++ [NL] ++
  L "                            border-left: 5px solid #00BFFF;" ++ [NL] ++
  L "                            color: #E6F1FF;" ++ [NL] ++
  L "                            padding: 12px;" ++ [NL] ++
  L "                            border-radius: 10px;" ++ [NL] ++
  L "                            margin-top: 10px;" ++ [NL] ++
  L "                        " ++ [QUOTE] ++ L ">" ++ [NL] ++
  L "                            " ++ [128161%N] ++ L " " ++ notes ++ [NL] ++
  L "                        </div>" ++ [NL] ++
  L "                        ".

(** The title of one day in [display_itinerary_day] (line 170). *)
Definition day_title (label : str) : str :=
  L "### " ++ [128197%N] ++ L " Day " ++ label.

(** The link of an activity (lines 177 and 272), from the quoted query. *)
Definition maps_search_url (query : str) : str :=
  L "https://www.google.com/maps/search/?api=1&query=" ++ query.

(** The text of the notes box in [display_itinerary_day] (line 191). *)
Definition notes_info (notes : str) : str :=
  [128161%N] ++ L " " ++ notes.

(** The popup of a marker (line 218). *)
Definition popup_html (place desc : str) : str :=
  L "<b>" ++ place ++ L "</b><br>" ++ desc.

(** The message for a blank city (line 245). *)
Definition CITY_ERROR : str :=
  [10060%N] ++ L " Please enter a valid city name.".

(** The text of the spinner (line 247). *)
Definition spinner_text (days city : str) : str :=
  L "Creating your " ++ days ++ L "-day plan for " ++ city ++ L "...".

(** The success message (line 250). *)
Definition success_text (days city : str) : str :=
  [127881%N] ++ L " Your " ++ days ++ L "-day itinerary for **" ++ city ++
  L "** is ready!".

(** The exceptions of the display code: those of the pipeline and
    [AttributeError]. *)
Inductive ui_exn : Type :=
| AttributeError
| Exn (e : exn).

Inductive ui_outcome (A : Type) : Type :=
| Done (a : A)
| Failed (e : ui_exn).
Arguments Done {A} a.
Arguments Failed {A} e.

(** A context manager entered by [with]: the spinner, or a column of the
    latest [st.columns]. *)
Inductive st_context : Type :=
| st_spinner (text : str)
| st_column (i : nat).

(** A call to Streamlit.  The page is the sequence of the calls made;
    the widgets that only collect input (lines 231-243) are not part of
    it, their values are the arguments of the handler. *)
Inductive st_call : Type :=
| st_markdown (body : str) (unsafe_allow_html : bool)
| st_info (body : str)
| st_error (body : str)
| st_success (body : str)
| st_divider
| st_columns (spec : list pyval)
| st_html (html : str) (height : Z)
| st_enter (c : st_context)
| st_exit (c : st_context).

Abbreviation page := (list st_call).

(** What the geocoder finds: [geopy]'s [Location], its two floats kept
    as literals. *)
Record Location : Type := { latitude : str; longitude : str }.

(** The objects of [folium], as the values they are built from. *)
Record Icon : Type := { icon_color : str; icon_name : str }.
Record Popup : Type := { popup_body : str; popup_max_width : Z }.
Record Marker : Type := {
  marker_location : list pyval;
  marker_popup : Popup;
  marker_tooltip : pyval;
  marker_icon : Icon
}.
Record FoliumMap : Type := {
  map_location : list pyval;
  map_zoom_start : Z;
  map_children : list Marker
}.

Definition new_map (location : list pyval) : FoliumMap :=
  {| map_location := location; map_zoom_start := 12; map_children := [] |}.

(** [marker.add_to(fmap)] *)
Definition add_to (m : Marker) (fmap : FoliumMap) : FoliumMap :=
  {| map_location := map_location fmap;
     map_zoom_start := map_zoom_start fmap;
     map_children := map_children fmap ++ [m] |}.

Definition DEFAULT_CENTER : list pyval :=
  [PFloat (L "19.0760"); PFloat (L "72.8777")].

Definition COLORS : list str :=
  [L "red"; L "blue"; L "green"; L "purple"; L "orange"; L "darkred";
   L "cadetblue"].

(** [l[i]] for a list and an [int]. *)
Definition list_getitem {A : Type} (l : list A) (i : Z) : outcome A :=
  let n := Z.of_nat (length l) in
  let j := if (i <? 0)%Z then (i + n)%Z else i in
  if ((0 <=? j) && (j <? n))%Z then
    match nth_error l (Z.to_nat j) with
    | Some x => Ret x
    | None => Raise IndexError
    end
  else Raise IndexError.

(** [colors[(v - 1) % len(colors)]]: on an [int] (or a [bool]) the index
    is an [int]; on a [float] it is a [float], which is no index; from
    anything else 1 cannot be subtracted. *)
Definition color_of_day (v : pyval) : outcome str :=
  match v with
  | PInt z => list_getitem COLORS ((z - 1) mod Z.of_nat (length COLORS))
  | PBool b => list_getitem COLORS ((Z.b2z b - 1) mod Z.of_nat (length COLORS))
  | _ => Raise TypeError
  end.

(** [v.get(key, default)]: only a mapping has the method. *)
Definition get_method (v : pyval) (key : str) (default : pyval) : ui_outcome pyval :=
  match v with
  | PDict d => Done (dict_get_default d key default)
  | _ => Failed AttributeError
  end.

(** The elements that [for x in v] walks over: those of a list, the
    characters of a text, the keys of a mapping. *)
Definition iterate (v : pyval) : ui_outcome (list pyval) :=
  match v with
  | PList l => Done l
  | PStr s => Done (map (fun c => PStr [c]) s)
  | PDict d => Done (map (fun kv => PStr (fst kv)) d)
  | _ => Failed (Exn TypeError)
  end.

Section App.
Variable World : Type.
Variable quote : str -> outcome str.
Variable requests_get_json : str -> Py World pyval.
Variable Template Messages : Type.
Variable from_messages : list (str * str) -> Template.
Variable template_error : list (str * str) -> option exn.
Variable format_messages : Template -> list (str * pyval) -> outcome Messages.
Variable llm_invoke : Messages -> Py World str.
Variable floatstr : str -> str.
Variable float_str : str -> str.
Variable container_str : pyval -> str.
Variable GENERATION_SYSTEM : str.
(** [float_bool] is [bool()] on the float a literal denotes;
    [geocode q] is the rate-limited [geolocator.geocode(q)], which finds
    a location, finds none, or raises; [repr_html] is [_repr_html_] of a
    map.  Building the objects of [geopy] and [folium] is taken to
    succeed. *)
Variable float_bool : str -> bool.
Variable geocode : str -> Py World (option Location).
Variable repr_html : FoliumMap -> str.

Local Abbreviation format_value := (format_value float_str container_str).
Local Abbreviation create_itinerary :=
  (create_itinerary World quote requests_get_json Template Messages
     from_messages template_error format_messages llm_invoke floatstr
     float_str container_str GENERATION_SYSTEM).

(** Computations of the display code: they act on the world and add to
    the page. *)
Definition UI (A : Type) : Type := World * page -> ui_outcome A * (World * page).

Definition ui_ret {A : Type} (a : A) : UI A := fun s => (Done a, s).
Definition ui_lift {A : Type} (o : ui_outcome A) : UI A := fun s => (o, s).
Definition ui_pure {A : Type} (o : outcome A) : UI A :=
  fun s => match o with
           | Ret a => (Done a, s)
           | Raise e => (Failed (Exn e), s)
           end.
Definition ui_bind {A B : Type} (m : UI A) (k : A -> UI B) : UI B :=
  fun s =>
    match m s with
    | (Done a, s') => k a s'
    | (Failed e, s') => (Failed e, s')
    end.
Definition in_world {A : Type} (m : Py World A) : UI A :=
  fun s =>
    match m (fst s) with
    | (Ret a, w') => (Done a, (w', snd s))
    | (Raise e, w') => (Failed (Exn e), (w', snd s))
    end.
Definition emit (c : st_call) : UI unit :=
  fun s => (Done tt, (fst s, snd s ++ [c])).
(** [try: body except: handler] (a bare [except]) *)
Definition ui_try {A : Type} (body handler : UI A) : UI A :=
  fun s =>
    match body s with
    | (Done a, s') => (Done a, s')
    | (Failed _, s') => handler s'
    end.
(** [with c: body] *)
Definition with_block {A : Type} (c : st_context) (body : UI A) : UI A :=
  fun s =>
    match body (fst s, snd s ++ [st_enter c]) with
    | (r, s') => (r, (fst s', snd s' ++ [st_exit c]))
    end.

Notation "x <- m ;; k" := (ui_bind m (fun x => k))
  (at level 61, m at next level, right associativity).

(** [bool(v)] *)
Definition truthy (v : pyval) : bool :=
  match v with
  | PNone => false
  | PBool b => b
  | PInt z => negb (z =? 0)%Z
  | PFloat f => float_bool f
  | PStr s => negb (Json.is_nil s)
  | PList l => match l with [] => false | _ :: _ => true end
  | PDict d => match d with [] => false | _ :: _ => true end
  end.

(** The body of the loop over the activities of a day, on lines 172-188
    and again on lines 268-296; the two differ in the card they draw. *)
Definition render_activity
           (card : str -> str -> str -> str -> str -> str)
           (city : str) (act : pyval) : UI unit :=
  place <- ui_lift (get_method act (L "place_name") (PStr (L "Unknown Place"))) ;;
  time_slot <- ui_lift (get_method act (L "time") (PStr [])) ;;
  desc <- ui_lift (get_method act (L "description") (PStr [])) ;;
  category <- ui_lift (get_method act (L "category") (PStr [])) ;;
  query <- ui_pure (place_comma <~ add_str place (L ", ") ;;
                    quote (place_comma ++ city))%py ;;
  emit (st_markdown
          (card (format_value time_slot) (maps_search_url query)
                (format_value place) (format_value desc) (format_value category))
          true).

Fixpoint render_activities
         (card : str -> str -> str -> str -> str -> str)
         (city : str) (acts : list pyval) : UI unit :=
  match acts with
  | [] => ui_ret tt
  | act :: rest =>
      _ <- render_activity card city act ;;
      render_activities card city rest
  end.

Definition display_itinerary_day (day : pyval) (city : str) : UI unit :=
  label <- ui_lift (get_method day (L "day") (PStr (L "?"))) ;;
  _ <- emit (st_markdown (day_title (format_value label)) false) ;;
  activities <- ui_lift (get_method day (L "activities") (PList [])) ;;
  acts <- ui_lift (iterate activities) ;;
  _ <- render_activities day_card_html city acts ;;
  notes <- ui_lift (get_method day (L "notes") PNone) ;;
  _ <- (if truthy notes then
          n <- ui_pure (getitem_key day (L "notes")) ;;
          emit (st_info (notes_info (format_value n)))
        else ui_ret tt) ;;
  emit st_divider.

(** The activity has a [place_name] that counts as true. *)
Definition has_place (act : pyval) : bool :=
  match act with
  | PDict a => truthy (dict_get_default a (L "place_name") (PStr []))
  | _ => false
  end.

(** [colors[(day["day"] - 1) % len(colors)]] *)
Definition day_color (day : pyval) : outcome str :=
  (v <~ getitem_key day (L "day") ;; color_of_day v)%py.

(** The body of the [try] on lines 214-221. *)
Definition place_marker (day : pyval) (city : str) (place desc : pyval)
           (fmap : FoliumMap) : UI FoliumMap :=
  loc <- in_world (geocode (format_value place ++ L ", " ++ city)) ;;
  match loc with
  | Some loc =>
      color <- ui_pure (day_color day) ;;
      ui_ret
        (add_to
           {| marker_location := [PFloat (latitude loc); PFloat (longitude loc)];
              marker_popup :=
                {| popup_body := popup_html (format_value place) (format_value desc);
                   popup_max_width := 250 |};
              marker_tooltip := place;
              marker_icon := {| icon_color := color; icon_name := L "map-marker" |} |}
           fmap)
  | None => ui_ret fmap
  end.

(** The loop of [display_map_day]; [fmap] is the map so far. *)
Fixpoint map_activities (day : pyval) (city : str) (acts : list pyval)
         (fmap : FoliumMap) : UI FoliumMap :=
  match acts with
  | [] => ui_ret fmap
  | act :: rest =>
      place <- ui_lift (get_method act (L "place_name") (PStr [])) ;;
      desc <- ui_lift (get_method act (L "description") (PStr [])) ;;
      if truthy place then
        fmap' <- ui_try (place_marker day city place desc fmap) (ui_ret fmap) ;;
        map_activities day city rest fmap'
      else map_activities day city rest fmap
  end.

(** The body of the [try] on lines 202-203: [None] has no [latitude]. *)
Definition city_map (city : str) : UI FoliumMap :=
  city_loc <- in_world (geocode city) ;;
  match city_loc with
  | Some loc => ui_ret (new_map [PFloat (latitude loc); PFloat (longitude loc)])
  | None => ui_lift (Failed AttributeError)
  end.

Definition display_map_day (day : pyval) (city : str) : UI unit :=
  fmap <- ui_try (city_map city) (ui_ret (new_map DEFAULT_CENTER)) ;;
  activities <- ui_lift (get_method day (L "activities") (PList [])) ;;
  acts <- ui_lift (iterate activities) ;;
  fmap <- map_activities day city acts fmap ;;
  emit (st_html (repr_html fmap) 500).

(** The body of [with col1:] on lines 266-313: the cards of the day and
    the box with its notes. *)
Definition day_details (city : str) (day : pyval) : UI unit :=
  activities <- ui_lift (get_method day (L "activities") (PList [])) ;;
  acts <- ui_lift (iterate activities) ;;
  _ <- render_activities activity_card_html city acts ;;
  notes <- ui_lift (get_method day (L "notes") PNone) ;;
  if truthy notes then
    n <- ui_pure (getitem_key day (L "notes")) ;;
    emit (st_markdown (notes_box_html (format_value n)) true)
  else ui_ret tt.

(** The body of the loop over the days on lines 254-318. *)
Definition render_day (city : str) (day : pyval) : UI unit :=
  label <- ui_lift (get_method day (L "day") (PStr (L "?"))) ;;
  _ <- emit (st_markdown (day_header_html (format_value label)) true) ;;
  _ <- emit (st_columns [PFloat (L "1.3"); PInt 1]) ;;
  _ <- with_block (st_column 1) (day_details city day) ;;
  _ <- with_block (st_column 2) (display_map_day day city) ;;
  emit (st_markdown (L "---") false).

Fixpoint render_days (city : str) (days : list pyval) : UI unit :=
  match days with
  | [] => ui_ret tt
  | day :: rest =>
      _ <- render_day city day ;;
      render_days city rest
  end.

(** Lines 243-318: what the script does with the value of the button
    and of the three input widgets. *)
Definition generate_button (clicked : bool) (city : str) (days : Z)
           (interests : str) : UI unit :=
  if clicked then
    if Json.is_nil (str_strip city) then emit (st_error CITY_ERROR)
    else
      itinerary <- with_block
                     (st_spinner (spinner_text (Encoder.int_repr days) city))
                     (in_world (create_itinerary city days interests)) ;;
      _ <- emit (st_success (success_text (Encoder.int_repr days) city)) ;;
      _ <- emit (st_markdown (L "---") false) ;;
      days_list <- ui_lift (iterate itinerary) ;;
      render_days city days_list
  else ui_ret tt.

End App.

(** ** What the page shows for a day *)

(** The activities of a day, when they are a list. *)
Definition activities_of (day : pyval) : list pyval :=
  match day with
  | PDict d =>
      match dict_get_default d (L "activities") (PList []) with
      | PList l => l
      | _ => []
      end
  | _ => []
  end.

(** The calls that draw one day completely: the heading, the two
    columns, in the first one card for each activity and at most one box
    with the notes, in the second the map, and the rule. *)
Definition day_drawn (day : pyval) (calls : page) : Prop :=
  exists label cards notes html,
    calls =
      [st_markdown (day_header_html label) true;
       st_columns [PFloat (L "1.3"); PInt 1];
       st_enter (st_column 1)] ++
      cards ++ notes ++
      [st_exit (st_column 1); st_enter (st_column 2); st_html html 500;
       st_exit (st_column 2); st_markdown (L "---") false] /\
    length cards = length (activities_of day) /\
    Forall (fun c => exists body, c = st_markdown body true) cards /\
    (notes = [] \/ exists body, notes = [st_markdown body true]).

(* ================================================================== *)
(** ** A scripted world for concrete runs *)

Module Mock.

(** The replies the LLM will give, in order, and the reply of the
    weather service. *)
Record World : Type := {
  llm_replies : list (outcome str);
  http_reply : outcome pyval
}.

Definition quote (s : str) : outcome str := Ret s.
Definition requests_get_json (url : str) : Py World pyval :=
  fun w => (http_reply w, w).
Definition floatstr (f : str) : str := f.
Definition float_str (f : str) : str := f.
Definition container_str (v : pyval) : str := L "<object>".

(** A float rendering that writes [2.50] as [repr] does and every other
    literal as it stands. *)
Definition short_repr (f : str) : str :=
  if str_eqb f (L "2.50") then L "2.5" else f.

(** The template reader of the scripted world, after
    [string.Formatter.parse] and the checks of the constructor: two
    braces of a kind stand for one; [{name}] is a field, and so is a
    name followed by a colon or an exclamation mark and a format; a
    brace that is not closed or not opened is an error and so is a
    field inside a field.  A field without a value is a [KeyError]
    when the prompt is formatted. *)
Inductive part : Type :=
| Literal (s : str)
| Field (name : str).

Inductive place : Type := InText | InName | InFormat.

Fixpoint template_parts (at_ : place) (acc name : str) (s : str)
  : option (list part) :=
  match s with
  | [] =>
      match at_ with
      | InText => Some [Literal (rev acc)]
      | _ => None
      end
  | c :: t =>
      match at_ with
      | InText =>
          if (c =? 123)%N then
            match t with
            | c' :: t' =>
                if (c' =? 123)%N then template_parts InText (c :: acc) [] t'
                else option_map (cons (Literal (rev acc)))
                       (template_parts InName [] [] t)
            | [] => None
            end
          else if (c =? 125)%N then
            match t with
            | c' :: t' =>
                if (c' =? 125)%N then template_parts InText (c :: acc) [] t'
                else None
            | [] => None
            end
          else template_parts InText (c :: acc) [] t
      | InName =>
          if (c =? 123)%N then None
          else if (c =? 125)%N then
            option_map (cons (Field (rev acc))) (template_parts InText [] [] t)
          else if ((c =? 58) || (c =? 33))%N then
            template_parts InFormat [] (rev acc) t
          else template_parts InName (c :: acc) [] t
      | InFormat =>
          if (c =? 123)%N then None
          else if (c =? 125)%N then
            option_map (cons (Field name)) (template_parts InText [] [] t)
          else template_parts InFormat [] name t
      end
  end.

Definition VALUE_ERROR : exn := ExternalError 5.

Definition Template : Type := list (str * str).
Definition Messages : Type := list (str * str).
Definition from_messages (m : list (str * str)) : Template := m.
Definition template_error (m : list (str * str)) : option exn :=
  if forallb (fun message =>
                match template_parts InText [] [] (snd message) with
                | Some _ => true
                | None => false
                end) m
  then None else Some VALUE_ERROR.

Definition fill (kw : list (str * pyval)) (p : part) : outcome str :=
  match p with
  | Literal s => Ret s
  | Field name =>
      match dict_get kw name with
      | Some v => Ret (format_value float_str container_str v)
      | None => Raise KeyError
      end
  end.

Fixpoint fill_all (kw : list (str * pyval)) (parts : list part) : outcome str :=
  match parts with
  | [] => Ret []
  | p :: rest =>
      (s <~ fill kw p ;; t <~ fill_all kw rest ;; Ret (s ++ t))%py
  end.

Fixpoint format_messages (t : Template) (kw : list (str * pyval))
  : outcome Messages :=
  match t with
  | [] => Ret []
  | (role, text) :: rest =>
      match template_parts InText [] [] text with
      | Some parts =>
          (s <~ fill_all kw parts ;;
           m <~ format_messages rest kw ;;
           Ret ((role, s) :: m))%py
      | None => Raise VALUE_ERROR
      end
  end.

Definition llm_invoke (m : Messages) : Py World str :=
  fun w =>
    match llm_replies w with
    | r :: rest => (r, {| llm_replies := rest; http_reply := http_reply w |})
    | [] => (Raise (ExternalError 0), w)
    end.
Definition GENERATION_SYSTEM : str :=
  L "Create a {days}-day itinerary for {city}: {interests}.".

Definition get_weather : str -> Py World str :=
  get_weather World quote requests_get_json float_str container_str.
Definition review_prompt : pyval -> outcome Template :=
  review_prompt Template from_messages template_error floatstr.
Definition review_itinerary : pyval -> Py World pyval :=
  review_itinerary World Template Messages from_messages template_error
    format_messages llm_invoke floatstr.
Definition create_itinerary : str -> Z -> str -> Py World pyval :=
  create_itinerary World quote requests_get_json Template Messages
    from_messages template_error format_messages llm_invoke floatstr
    float_str container_str GENERATION_SYSTEM.

(** The generation prompt of the scripted world, formatted. *)
Definition asked (city : str) (days : Z) (interests : str) : Messages :=
  [(L "system",
     L "Create a " ++ Encoder.int_repr days ++ L "-day itinerary for " ++
     city ++ L ": " ++ interests ++ L ".");
   (L "human", L "Generate the itinerary.")].

(** A reply of the weather service with the two fields that are read. *)
Definition weather_json (desc temp : str) : pyval :=
  PDict [(L "current_condition",
           PList [PDict [(L "temp_C", PStr temp);
                         (L "weatherDesc", PList [PDict [(L "value", PStr desc)]])]])].

Definition sunny : outcome pyval := Ret (weather_json (L "Sunny") (L "30")).
Definition timeout : outcome pyval := Raise (ExternalError 1).

End Mock.

(** A world in which the generation call returns notes that are a
    number, the weather request times out and the review call raises;
    and the same world once the generation call has been made. *)
Definition failing_world : Mock.World :=
  {| Mock.llm_replies := [Ret non_text_notes_reply; Raise (ExternalError 2)];
     Mock.http_reply := Mock.timeout |}.

Definition failing_world_1 : Mock.World :=
  {| Mock.llm_replies := [Raise (ExternalError 2)];
     Mock.http_reply := Mock.timeout |}.

(** The geocoder, the float test and the map rendering of the scripted
    world: nothing is found for a query that mentions [Atlantis], a
    query that mentions [Offline] raises, everything else is found at
    one place; a map is rendered as the number of its markers. *)
Module MockUI.

Definition float_bool (f : str) : bool := true.
Definition gateway : Location :=
  {| latitude := L "18.9220"; longitude := L "72.8347" |}.
Definition geocode (q : str) : Py Mock.World (option Location) :=
  fun w =>
    (if occurs (L "Atlantis") q then Ret None
     else if occurs (L "Offline") q then Raise (ExternalError 4)
     else Ret (Some gateway), w).
Definition repr_html (fmap : FoliumMap) : str :=
  L "markers: " ++ Encoder.int_repr (Z.of_nat (length (map_children fmap))).

Definition display_itinerary_day : pyval -> str -> UI Mock.World unit :=
  display_itinerary_day Mock.World Mock.quote Mock.float_str Mock.container_str
    float_bool.
Definition display_map_day : pyval -> str -> UI Mock.World unit :=
  display_map_day Mock.World Mock.float_str Mock.container_str float_bool
    geocode repr_html.
Definition day_details : str -> pyval -> UI Mock.World unit :=
  day_details Mock.World Mock.quote Mock.float_str Mock.container_str float_bool.
Definition render_day : str -> pyval -> UI Mock.World unit :=
  render_day Mock.World Mock.quote Mock.float_str Mock.container_str float_bool
    geocode repr_html.
Definition generate_button : bool -> str -> Z -> str -> UI Mock.World unit :=
  generate_button Mock.World Mock.quote Mock.requests_get_json Mock.Template
    Mock.Messages Mock.from_messages Mock.template_error Mock.format_messages Mock.llm_invoke
    Mock.floatstr Mock.float_str Mock.container_str Mock.GENERATION_SYSTEM
    float_bool geocode repr_html.

(** A day with four activities: one that is found, one that is not, one
    whose lookup raises and one without a place name. *)
Definition busy_day : dict :=
  [(L "day", PInt 9);
   (L "activities",
     PList [PDict [(L "place_name", PStr (L "Gateway of India"))];
            PDict [(L "place_name", PStr (L "Atlantis Cafe"))];
            PDict [(L "place_name", PStr (L "Offline Market"))];
            PDict [(L "description", PStr (L "A walk"))]])].

(** A day whose activities have no place names. *)
Definition quiet_day : dict :=
  [(L "activities",
     PList [PDict [(L "description", PStr (L "A walk"))];
            PDict [(L "place_name", PStr [])]])].

(** A world in which the generation call is answered with [reply] and
    the review call raises. *)
Definition world_of (reply : str) : Mock.World :=
  {| Mock.llm_replies := [Ret reply; Raise (ExternalError 2)];
     Mock.http_reply := Mock.timeout |}.
Definition world_after : Mock.World :=
  {| Mock.llm_replies := []; Mock.http_reply := Mock.timeout |}.

End MockUI.

(* ================================================================== *)
(** * Properties *)

(** ** The response normalizer: [parse_llm_json] *)

Lemma fallback_is_days_sequence (text : str) :
  days_sequence (fallback_itinerary text) = true.
Proof. reflexivity. Qed.

Lemma parse_llm_json_parsed (text : str) (v : pyval) :
  Json.loads (clean_llm_text text) = Some v -> parse_llm_json text = v.
Proof. unfold parse_llm_json; intros ->; reflexivity. Qed.

Lemma parse_llm_json_failed (text : str) :
  Json.loads (clean_llm_text text) = None ->
  parse_llm_json text = fallback_itinerary text.
Proof. unfold parse_llm_json; intros ->; reflexivity. Qed.

(** C1, as stated, fails: the text [42] is valid JSON, so the parsed
    number itself is returned, which is not a sequence.  The same holds
    for a quoted text and for an object. *)
Lemma parse_llm_json_returns_bare_number :
  parse_llm_json (L "42") = PInt 42 /\
  is_list (parse_llm_json (L "42")) = false /\
  days_sequence (parse_llm_json (L "42")) = false.
Proof. vm_compute; repeat split; reflexivity. Qed.

Example parse_llm_json_returns_bare_text :
  parse_llm_json (Q (L "hello")) = PStr (L "hello").
Proof. vm_compute; reflexivity. Qed.

Example parse_llm_json_returns_bare_mapping :
  parse_llm_json (L "{" ++ Q (L "day") ++ L ": 1}") = PDict [(L "day", PInt 1)].
Proof. vm_compute; reflexivity. Qed.

(** C1 (amended): [parse_llm_json] is a total function of its text.  When
    strict parsing of the cleaned text fails, the result is the one-Day
    fallback, a sequence of Days; when it succeeds, the result is the
    parsed value as it is.  So the result is a sequence of Days exactly
    when parsing fails or the parsed value is one already. *)
Theorem parse_llm_json_shape (text : str) :
  (Json.loads (clean_llm_text text) = None ->
   parse_llm_json text = fallback_itinerary text /\
   days_sequence (parse_llm_json text) = true) /\
  (forall v, Json.loads (clean_llm_text text) = Some v ->
             parse_llm_json text = v) /\
  (days_sequence (parse_llm_json text) = true <->
   Json.loads (clean_llm_text text) = None \/
   exists v, Json.loads (clean_llm_text text) = Some v /\ days_sequence v = true).
Proof.
  unfold parse_llm_json.
  destruct (Json.loads (clean_llm_text text)) as [v|] eqn:E.
  - split; [discriminate|]. split.
    + intros v' [= <-]; reflexivity.
    + split.
      * intros H; right; exists v; auto.
      * intros [H | (v' & [= <-] & H)]; [discriminate | exact H].
  - split; [intros _; split; reflexivity|]. split.
    + discriminate.
    + split; [intros _; left; reflexivity | intros _; reflexivity].
Qed.

(** C6: when strict parsing of the cleaned text fails, the result is a
    one-Day itinerary with a single activity whose [description] is the
    raw input, [place_name] is [Unknown] and [time] is [All day], and
    the Day's [notes] are empty. *)
Theorem parse_llm_json_fallback (text : str) :
  Json.loads (clean_llm_text text) = None ->
  parse_llm_json text =
    PList [PDict [(L "day", PInt 1);
                  (L "activities",
                    PList [PDict [(L "time", PStr (L "All day"));
                                  (L "place_name", PStr (L "Unknown"));
                                  (L "description", PStr text)]]);
                  (L "notes", PStr [])]] /\
  exists day activity,
    parse_llm_json text = PList [PDict day] /\
    dict_get day (L "notes") = Some (PStr []) /\
    single_activity (parse_llm_json text) = Some activity /\
    dict_get activity (L "description") = Some (PStr text) /\
    dict_get activity (L "place_name") = Some (PStr (L "Unknown")) /\
    dict_get activity (L "time") = Some (PStr (L "All day")).
Proof.
  intros H. rewrite (parse_llm_json_failed _ H). split; [reflexivity|].
  eexists; eexists. split; [reflexivity|]. repeat split; reflexivity.
Qed.

(** End-to-end scenario 2 of the specification. *)
Lemma parse_llm_json_fallback_sorry :
  Json.loads (clean_llm_text (L "Sorry, I cannot help.")) = None /\
  exists activity,
    single_activity (parse_llm_json (L "Sorry, I cannot help.")) = Some activity /\
    dict_get activity (L "description") = Some (PStr (L "Sorry, I cannot help.")).
Proof.
  assert (H : Json.loads (clean_llm_text (L "Sorry, I cannot help.")) = None)
    by (vm_compute; reflexivity).
  split; [exact H|].
  destruct (parse_llm_json_fallback _ H) as (_ & day & activity & _ & _ & Ha & Hd & _).
  exists activity; split; assumption.
Defined.

Lemma parse_llm_json_shape_runs :
  parse_llm_json (L "not json") = fallback_itinerary (L "not json") /\
  parse_llm_json (L "[]") = PList [].
Proof.
  split.
  - apply (proj1 (parse_llm_json_shape (L "not json"))). vm_compute; reflexivity.
  - apply (proj1 (proj2 (parse_llm_json_shape (L "[]")))). vm_compute; reflexivity.
Defined.

(** ** The coercion step of [create_itinerary] *)

(** C2: the coercion is to ensure a sequence of mappings, and misses
    the elements of a sequence: a sequence is passed through with
    whatever it holds, so the reply [[1]] yields a sequence whose
    element is a number, not a mapping.  Nothing after the coercion
    makes up for it: the annotation loop skips the number, and
    [create_itinerary] returns the sequence as it is. *)
Lemma coerce_shape_keeps_non_mappings :
  coerce_shape (parse_llm_json (L "[1]")) = PList [PInt 1] /\
  mappings_sequence (coerce_shape (parse_llm_json (L "[1]"))) = false /\
  days_sequence (coerce_shape (parse_llm_json (L "[1]"))) = false /\
  Mock.create_itinerary (L "Mumbai") 3 (L "food") (MockUI.world_of (L "[1]"))
    = (Ret (PList [PInt 1]), MockUI.world_after).
Proof.
  assert (E : parse_llm_json (L "[1]") = PList [PInt 1])
    by (vm_compute; reflexivity).
  rewrite E. cbn [coerce_shape mappings_sequence days_sequence forallb
                  is_dict day_shaped andb].
  split; [reflexivity|]. split; [reflexivity|]. split; [reflexivity|].
  vm_compute. reflexivity.
Qed.

Lemma coerce_shape_is_list (v : pyval) : is_list (coerce_shape v) = true.
Proof. destruct v; reflexivity. Qed.

(** The branches of the coercion.  A single mapping is wrapped in a
    one-element sequence; a bare text becomes one placeholder Day whose
    single activity's [description] is that text; any other
    non-sequence becomes one placeholder Day whose description is
    [Invalid response format.]; no branch applies to a sequence. *)
Theorem coerce_shape_cases (v : pyval) :
  is_list (coerce_shape v) = true /\
  match v with
  | PDict _ => coerce_shape v = PList [v]
  | PStr s =>
      coerce_shape v = PList [placeholder_day s] /\
      days_sequence (coerce_shape v) = true /\
      exists activity,
        single_activity (coerce_shape v) = Some activity /\
        dict_get activity (L "description") = Some (PStr s)
  | PList _ => coerce_shape v = v
  | _ =>
      coerce_shape v = PList [placeholder_day (L "Invalid response format.")] /\
      days_sequence (coerce_shape v) = true /\
      exists activity,
        single_activity (coerce_shape v) = Some activity /\
        dict_get activity (L "description") =
          Some (PStr (L "Invalid response format."))
  end.
Proof.
  destruct v; (split; [reflexivity|]); try reflexivity;
    (split; [reflexivity|]); (split; [reflexivity|]);
    eexists; split; reflexivity.
Qed.

(** The coerced value is a sequence of Days exactly when the parsed value
    is a Day, a sequence of Days, or not a mapping or sequence at all. *)
Lemma coerce_shape_days (v : pyval) :
  days_sequence (coerce_shape v) =
    match v with
    | PDict _ => day_shaped v
    | PList _ => days_sequence v
    | _ => true
    end.
Proof.
  destruct v; try reflexivity.
  simpl. rewrite andb_true_r. reflexivity.
Qed.

(** ** Texts: prefixes, suffixes and stripping *)

Lemma str_eqb_refl (a : str) : str_eqb a a = true.
Proof. induction a; simpl; [reflexivity|]. now rewrite N.eqb_refl. Qed.

Lemma str_eqb_eq (a b : str) : str_eqb a b = true <-> a = b.
Proof.
  split; [|intros ->; apply str_eqb_refl].
  revert b; induction a as [|x a IH]; intros [|y b]; simpl; try discriminate; auto.
  intros H; apply andb_true_iff in H as [H1 H2].
  apply N.eqb_eq in H1; subst; f_equal; auto.
Qed.

Lemma strip_prefix_app (p r : str) : strip_prefix p (p ++ r) = Some r.
Proof. induction p; simpl; [reflexivity|]. now rewrite N.eqb_refl. Qed.

Lemma strip_prefix_Some (p s r : str) : strip_prefix p s = Some r -> s = p ++ r.
Proof.
  revert s; induction p as [|a p IH]; intros s; simpl.
  - now intros [= ->].
  - destruct s as [|b s]; [discriminate|].
    destruct (N.eqb_spec a b); [|discriminate].
    intros H; subst; f_equal; auto.
Qed.

Lemma endswith_app (t p : str) : endswith (t ++ p) p = true.
Proof.
  unfold endswith, startswith. now rewrite rev_app_distr, strip_prefix_app.
Qed.

Lemma lstrip_by_app (p : char -> bool) (a b : str) (c : char) (r : str) :
  b = c :: r -> p c = false -> exists t, lstrip_by p (a ++ b) = t ++ b /\
                                         (a = [] -> t = []).
Proof.
  intros -> Hc. induction a as [|x a IH]; simpl.
  - rewrite Hc. exists []; auto.
  - destruct (p x).
    + destruct IH as (t & Ht & _). exists t; split; [exact Ht|discriminate].
    + exists (x :: a); split; [reflexivity|discriminate].
Qed.

Lemma rstrip_by_plain (p : char -> bool) (front : str) (c : char) :
  p c = false -> rstrip_by p (front ++ [c]) = front ++ [c].
Proof.
  intros Hc. unfold rstrip_by. rewrite rev_app_distr; simpl. rewrite Hc.
  simpl. now rewrite rev_involutive.
Qed.

(** The notes written by the annotation loop. *)
Lemma strip_weather_note (notes weather : str) :
  ends_plain weather ->
  exists t,
    str_strip_chars (L " |") (notes ++ L " | Weather: " ++ weather)
      = t ++ L "Weather: " ++ weather /\
    (notes = [] -> t = []).
Proof.
  intros (front & c & -> & H1 & H2).
  unfold str_strip_chars, strip_by.
  set (p := fun c0 : char => existsb (N.eqb c0) (L " |")).
  assert (Hc : p c = false).
  { unfold p. change (L " |") with [32%N; 124%N]. cbn [existsb].
    apply N.eqb_neq in H1, H2. now rewrite H1, H2. }
  destruct (lstrip_by_app p (notes ++ L " | ") (L "Weather: " ++ front ++ [c])
              87%N (L "eather: " ++ front ++ [c]) eq_refl eq_refl) as (t & Ht & Hnil).
  assert (E : notes ++ L " | Weather: " ++ front ++ [c]
              = (notes ++ L " | ") ++ L "Weather: " ++ front ++ [c])
    by (rewrite <- app_assoc; reflexivity).
  rewrite E.
  destruct notes as [|n notes].
  - exists []. split; [|reflexivity].
    change (rstrip_by p (L "Weather: " ++ front ++ [c]) = L "Weather: " ++ front ++ [c]).
    rewrite (app_assoc (L "Weather: ") front [c]).
    now apply rstrip_by_plain.
  - exists t. split; [|discriminate].
    rewrite Ht.
    rewrite (app_assoc t), (app_assoc (t ++ L "Weather: ") front [c]).
    rewrite (rstrip_by_plain p _ c Hc).
    now rewrite <- !app_assoc.
Qed.

(** ** Mappings *)

Lemma dict_get_set_same (d : dict) (k : str) (v : pyval) :
  dict_get (dict_set d k v) k = Some v.
Proof.
  induction d as [|[k' v'] d IH]; simpl.
  - now rewrite str_eqb_refl.
  - destruct (str_eqb k' k) eqn:E; simpl; rewrite E; auto.
Qed.

(** ** The annotation loop *)

Lemma annotate_day_text (weather : str) (day : pyval) :
  ends_plain weather -> notes_text day = true ->
  exists day', annotate_day weather day = Ret day' /\ annotated weather day day'.
Proof.
  intros Hw Hn. destruct day as [| | | | |l|d]; try (eexists; split; reflexivity).
  unfold annotate_day, annotated, getitem_key, notes_text, field_ok,
    dict_get_default in *.
  destruct (dict_get d (L "notes")) as [x|] eqn:E.
  - destruct x; try discriminate. cbn [add_str obind].
    destruct (strip_weather_note s weather Hw) as (t & Ht & Hnil).
    eexists; split; [reflexivity|].
    eexists; split; [reflexivity|].
    split; [now rewrite dict_get_set_same|].
    rewrite Ht. split; [apply endswith_app|].
    intros [= ->]. now rewrite (Hnil eq_refl).
  - cbn [add_str obind].
    destruct (strip_weather_note [] weather Hw) as (t & Ht & Hnil).
    eexists; split; [reflexivity|].
    eexists; split; [reflexivity|].
    split; [now rewrite dict_get_set_same|].
    cbn [app] in Ht |- *. rewrite Ht. split; [apply endswith_app|].
    intros _. now rewrite (Hnil eq_refl).
Qed.

Lemma annotate_days_text (weather : str) (days : list pyval) :
  ends_plain weather -> forallb notes_text days = true ->
  exists days', annotate_days weather days = Ret days' /\
                Forall2 (annotated weather) days days'.
Proof.
  intros Hw. induction days as [|day days IH]; cbn [annotate_days forallb].
  - exists []; split; [reflexivity|constructor].
  - intros H; apply andb_true_iff in H as [H1 H2].
    destruct (annotate_day_text weather day Hw H1) as (day' & -> & Hd).
    destruct (IH H2) as (days' & -> & Hds).
    exists (day' :: days'); split; [reflexivity|now constructor].
Qed.

(** A mapping whose [notes] are present and not text stops the loop. *)
Lemma annotate_day_non_text (weather : str) (day : pyval) :
  notes_text day = false -> annotate_day weather day = Raise TypeError.
Proof.
  destruct day as [| | | | |l|d]; try discriminate.
  unfold annotate_day, notes_text, field_ok, dict_get_default.
  destruct (dict_get d (L "notes")) as [x|]; [|discriminate].
  destruct x; try discriminate; reflexivity.
Qed.

Lemma annotate_day_raises (weather : str) (day : pyval) (e : exn) :
  annotate_day weather day = Raise e -> e = TypeError /\ notes_text day = false.
Proof.
  destruct (notes_text day) eqn:E.
  - intros H.
    destruct day as [| | | | |l|d]; try discriminate.
    unfold annotate_day, notes_text, field_ok, dict_get_default in *.
    destruct (dict_get d (L "notes")) as [x|]; [|discriminate].
    destruct x; discriminate.
  - rewrite (annotate_day_non_text _ _ E). now intros [= <-].
Qed.

Lemma annotate_days_non_text (weather : str) (days : list pyval) :
  forallb notes_text days = false -> annotate_days weather days = Raise TypeError.
Proof.
  induction days as [|day days IH]; cbn [annotate_days forallb]; [discriminate|].
  intros H.
  destruct (notes_text day) eqn:E.
  - cbn [andb] in H.
    destruct (annotate_day weather day) as [day'|e] eqn:Ed; cbn [obind].
    + now rewrite (IH H).
    + now destruct (annotate_day_raises _ _ _ Ed) as [-> _].
  - now rewrite (annotate_day_non_text _ _ E).
Qed.

Lemma annotate_days_raises (weather : str) (days : list pyval) (e : exn) :
  annotate_days weather days = Raise e ->
  e = TypeError /\ forallb notes_text days = false.
Proof.
  destruct (forallb notes_text days) eqn:E.
  - induction days as [|day days IH]; cbn [annotate_days forallb] in *; [discriminate|].
    apply andb_true_iff in E as [E1 E2].
    destruct (annotate_day weather day) as [day'|e'] eqn:Ed; cbn [obind].
    + destruct (annotate_days weather days); [discriminate|].
      intros [= ->]. destruct (IH E2 eq_refl) as [_ H]; discriminate.
    + destruct (annotate_day_raises _ _ _ Ed); congruence.
  - rewrite (annotate_days_non_text _ _ E). now intros [= <-].
Qed.

(** The loop over the coerced value. *)
Lemma add_weather_text (weather : str) (days : list pyval) :
  ends_plain weather -> forallb notes_text days = true ->
  exists days', add_weather weather (PList days) = Ret (PList days') /\
                Forall2 (annotated weather) days days'.
Proof.
  intros Hw H. destruct (annotate_days_text weather days Hw H) as (days' & E & F).
  exists days'. cbn [add_weather]. rewrite E. split; [reflexivity|assumption].
Qed.

Lemma add_weather_non_text (weather : str) (days : list pyval) :
  forallb notes_text days = false ->
  add_weather weather (PList days) = Raise TypeError.
Proof.
  intros H. cbn [add_weather]. now rewrite (annotate_days_non_text _ _ H).
Qed.

(** ** The world-facing steps *)

Section WorldFacts.
Variable World : Type.
Variable quote : str -> outcome str.
Variable requests_get_json : str -> Py World pyval.
Variable Template Messages : Type.
Variable from_messages : list (str * str) -> Template.
Variable template_error : list (str * str) -> option exn.
Variable format_messages : Template -> list (str * pyval) -> outcome Messages.
Variable llm_invoke : Messages -> Py World str.
Variable floatstr : str -> str.
Variable float_str : str -> str.
Variable container_str : pyval -> str.
Variable GENERATION_SYSTEM : str.

Local Abbreviation fetch_weather :=
  (fetch_weather World quote requests_get_json float_str container_str).
Local Abbreviation get_weather :=
  (get_weather World quote requests_get_json float_str container_str).
Local Abbreviation weather_line := (weather_line float_str container_str).
Local Abbreviation review_prompt :=
  (review_prompt Template from_messages template_error floatstr).
Local Abbreviation review_call :=
  (review_call World Template Messages format_messages llm_invoke).
Local Abbreviation review_itinerary :=
  (review_itinerary World Template Messages from_messages template_error
     format_messages llm_invoke floatstr).
Local Abbreviation generation_prompt :=
  (generation_prompt Template from_messages GENERATION_SYSTEM).
Local Abbreviation create_itinerary :=
  (create_itinerary World quote requests_get_json Template Messages
     from_messages template_error format_messages llm_invoke floatstr
     float_str container_str GENERATION_SYSTEM).

Lemma get_weather_of_fetch (city : str) (w : World) :
  get_weather city w =
    match fetch_weather city w with
    | (Ret s, w') => (Ret s, w')
    | (Raise _, w') => (Ret WEATHER_UNAVAILABLE, w')
    end.
Proof. reflexivity. Qed.

Lemma weather_line_ends_plain (desc temp : pyval) :
  ends_plain (weather_line desc temp).
Proof.
  exists (format_value float_str container_str desc ++ L ", " ++
          format_value float_str container_str temp ++ [DEGREE]), 67%N.
  unfold weather_line. rewrite <- !app_assoc.
  split; [reflexivity|split; discriminate].
Qed.

Lemma unavailable_ends_plain : ends_plain WEATHER_UNAVAILABLE.
Proof.
  exists (L "Weather data unavailabl"), 101%N.
  split; [reflexivity|split; discriminate].
Qed.

(** What [fetch_weather] returns is a line built from two fields. *)
Lemma fetch_weather_returns (city : str) (w w' : World) (s : str) :
  fetch_weather city w = (Ret s, w') ->
  exists desc temp, s = weather_line desc temp.
Proof.
  unfold fetch_weather, bind, lift.
  destruct (quote city) as [q|e]; [|discriminate].
  destruct (requests_get_json _ w) as [[data|e] w1]; [|discriminate].
  destruct (getitem_key data _) as [cc|]; [|discriminate]; cbn [obind].
  destruct (getitem_0 cc) as [cond|]; [|discriminate]; cbn [obind].
  destruct (getitem_key cond (L "weatherDesc")) as [wd|]; [|discriminate]; cbn [obind].
  destruct (getitem_0 wd) as [first|]; [|discriminate]; cbn [obind].
  destruct (getitem_key first _) as [desc|]; [|discriminate]; cbn [obind].
  destruct (getitem_key cond _) as [temp|]; [|discriminate]; cbn [obind].
  intros [= <- _]. now exists desc, temp.
Qed.

Lemma get_weather_returns (city : str) (w : World) :
  exists s w',
    get_weather city w = (Ret s, w') /\
    (s = WEATHER_UNAVAILABLE \/ exists desc temp, s = weather_line desc temp).
Proof.
  rewrite get_weather_of_fetch.
  destruct (fetch_weather city w) as [[s|e] w'] eqn:E.
  - exists s, w'. split; [reflexivity|]. right.
    exact (fetch_weather_returns _ _ _ _ E).
  - exists WEATHER_UNAVAILABLE, w'. split; [reflexivity|now left].
Qed.

Lemma get_weather_ends_plain (city : str) (w w' : World) (s : str) :
  get_weather city w = (Ret s, w') -> ends_plain s.
Proof.
  intros H. destruct (get_weather_returns city w) as (s0 & w0 & E & Hs).
  rewrite E in H. injection H as -> _.
  destruct Hs as [-> | (desc & temp & ->)].
  - apply unavailable_ends_plain.
  - apply weather_line_ends_plain.
Qed.

(** C3: [get_weather] never raises.  When the request returns a
    document from which the two fields can be read, the result is the
    description, a comma and a space, the temperature and the two
    characters of degrees Celsius; when the body of the [try] raises
    (the request fails or times out, the document is malformed), the
    result is exactly [Weather data unavailable]. *)
Theorem get_weather_total (city : str) (w : World) :
  (exists s w', get_weather city w = (Ret s, w') /\
     (s = WEATHER_UNAVAILABLE \/ exists desc temp, s = weather_line desc temp)) /\
  (forall q data w' current_condition cond weatherDesc first desc temp,
     quote city = Ret q ->
     requests_get_json (wttr_url q) w = (Ret data, w') ->
     getitem_key data (L "current_condition") = Ret current_condition ->
     getitem_0 current_condition = Ret cond ->
     getitem_key cond (L "weatherDesc") = Ret weatherDesc ->
     getitem_0 weatherDesc = Ret first ->
     getitem_key first (L "value") = Ret desc ->
     getitem_key cond (L "temp_C") = Ret temp ->
     get_weather city w =
       (Ret (format_value float_str container_str desc ++ L ", " ++
             format_value float_str container_str temp ++ [DEGREE] ++ L "C"), w')) /\
  (forall e w', fetch_weather city w = (Raise e, w') ->
     get_weather city w = (Ret (L "Weather data unavailable"), w')) /\
  (forall e, quote city = Raise e ->
     get_weather city w = (Ret (L "Weather data unavailable"), w)) /\
  (forall q e w', quote city = Ret q ->
     requests_get_json (wttr_url q) w = (Raise e, w') ->
     get_weather city w = (Ret (L "Weather data unavailable"), w')) /\
  (forall q data w' e, quote city = Ret q ->
     requests_get_json (wttr_url q) w = (Ret data, w') ->
     getitem_key data (L "current_condition") = Raise e ->
     get_weather city w = (Ret (L "Weather data unavailable"), w')).
Proof.
  split; [apply get_weather_returns|].
  unfold get_weather, try_except, fetch_weather, bind, lift, ret.
  repeat split.
  - intros q data w' cc cond wd first desc temp Hq Hr H1 H2 H3 H4 H5 H6.
    rewrite Hq.
    rewrite Hr, H1; cbn [obind]. rewrite H2; cbn [obind]. rewrite H3; cbn [obind].
    rewrite H4; cbn [obind]. rewrite H5; cbn [obind]. rewrite H6; cbn [obind].
    reflexivity.
  - intros e w' H. rewrite H. reflexivity.
  - intros e Hq. rewrite Hq. reflexivity.
  - intros q e w' Hq Hr. rewrite Hq.
    rewrite Hr. reflexivity.
  - intros q data w' e Hq Hr H1. rewrite Hq.
    rewrite Hr, H1. reflexivity.
Qed.

(** The review prompt is built before the [try]: an exception of the
    constructor leaves [review_itinerary]. *)
Lemma review_itinerary_unbuilt (itinerary : pyval) (e : exn) (w : World) :
  review_prompt itinerary = Raise e ->
  review_itinerary itinerary w = (Raise e, w).
Proof.
  intros H. unfold review_itinerary, bind, lift. now rewrite H.
Qed.

(** Once the prompt is built, [review_itinerary] is its [try]. *)
Lemma review_itinerary_built (itinerary : pyval) (template : Template)
      (w : World) :
  review_prompt itinerary = Ret template ->
  review_itinerary itinerary w =
    try_except World (review_call template itinerary) (ret World itinerary) w.
Proof.
  intros H. unfold review_itinerary, bind, lift. now rewrite H.
Qed.

(** Once the prompt is built, [review_itinerary] returns, and what it
    returns is the itinerary it was given or the sequence read from the
    reply. *)
Lemma review_itinerary_outcome (itinerary : pyval) (template : Template)
      (w : World) :
  review_prompt itinerary = Ret template ->
  exists r w',
    review_itinerary itinerary w = (Ret r, w') /\
    (r = itinerary \/
     exists messages content revised,
       format_messages template [] = Ret messages /\
       llm_invoke messages w = (Ret content, w') /\
       parse_llm_json content = PList revised /\ r = PList revised).
Proof.
  intros Hb. rewrite (review_itinerary_built _ _ _ Hb).
  unfold try_except, review_call, bind, lift, ret.
  destruct (format_messages _ []) as [m|e] eqn:E1.
  - destruct (llm_invoke m w) as [[c|e] w'] eqn:E2.
    + destruct (parse_llm_json c) as [| | | | |l|d] eqn:E3; cbn [is_list];
        try (exists itinerary, w'; split; [reflexivity|now left]).
      exists (PList l), w'; split; [reflexivity|].
      right. exists m, c, l. auto.
    + exists itinerary, w'; split; [reflexivity|now left].
  - exists itinerary, w; split; [reflexivity|now left].
Qed.

(** C4: the review call is made with the prompt that has been built and
    formatted.  Once the prompt is built, [review_itinerary] returns
    the itinerary it was given whenever formatting the prompt or the
    LLM call raises, or the normalized reply is not a sequence; when
    the normalized reply is a sequence, that sequence is returned.
    Nothing else is ever returned. *)
Theorem review_itinerary_cases (itinerary : pyval) (template : Template)
        (w : World) :
  review_prompt itinerary = Ret template ->
  (forall e, format_messages template [] = Raise e ->
     review_itinerary itinerary w = (Ret itinerary, w)) /\
  (forall messages e w',
     format_messages template [] = Ret messages ->
     llm_invoke messages w = (Raise e, w') ->
     review_itinerary itinerary w = (Ret itinerary, w')) /\
  (forall messages content w',
     format_messages template [] = Ret messages ->
     llm_invoke messages w = (Ret content, w') ->
     is_list (parse_llm_json content) = false ->
     review_itinerary itinerary w = (Ret itinerary, w')) /\
  (forall messages content w' revised,
     format_messages template [] = Ret messages ->
     llm_invoke messages w = (Ret content, w') ->
     parse_llm_json content = PList revised ->
     review_itinerary itinerary w = (Ret (PList revised), w')) /\
  (forall r w',
     review_itinerary itinerary w = (Ret r, w') ->
     r = itinerary \/
     exists messages content revised,
       format_messages template [] = Ret messages /\
       llm_invoke messages w = (Ret content, w') /\
       parse_llm_json content = PList revised /\ r = PList revised).
Proof.
  intros Hb.
  assert (Last : forall r w',
             review_itinerary itinerary w = (Ret r, w') ->
             r = itinerary \/
             exists messages content revised,
               format_messages template [] = Ret messages /\
               llm_invoke messages w = (Ret content, w') /\
               parse_llm_json content = PList revised /\ r = PList revised).
  { intros r w' E.
    destruct (review_itinerary_outcome itinerary template w Hb)
      as (r1 & w1 & E1 & H).
    rewrite E1 in E. injection E as <- <-. exact H. }
  rewrite (review_itinerary_built _ _ _ Hb) in *.
  unfold try_except, review_call, bind, lift, ret in *.
  split; [|split; [|split; [|split]]].
  - intros e H. rewrite H. reflexivity.
  - intros m e w' H1 H2. rewrite H1, H2. reflexivity.
  - intros m c w' H1 H2 H3. rewrite H1, H2, H3. reflexivity.
  - intros m c w' r H1 H2 H3. rewrite H1, H2, H3. reflexivity.
  - exact Last.
Qed.

(** Given a sequence, [review_itinerary] returns a sequence, unless the
    constructor of the prompt raises. *)
Lemma review_itinerary_of_list (days : list pyval) (w : World) :
  match review_prompt (PList days) with
  | Ret _ => exists r w', review_itinerary (PList days) w = (Ret (PList r), w')
  | Raise e => review_itinerary (PList days) w = (Raise e, w)
  end.
Proof.
  destruct (review_prompt (PList days)) as [template|e] eqn:Hb.
  - destruct (review_itinerary_outcome (PList days) template w Hb)
      as (r & w' & E & H).
    destruct H as [-> | (_ & _ & l & _ & _ & _ & ->)]; eauto.
  - now apply review_itinerary_unbuilt.
Qed.

(** C5: with the one text that [get_weather] returned, the annotation
    loop over a sequence whose mappings have text (or no) notes
    completes, and every mapping then has notes that end with
    [Weather: ] followed by that text; notes that were empty or absent
    become exactly that suffix.  Other elements are left as they are. *)
Theorem add_weather_suffix (city : str) (w w' : World) (weather : str)
        (days : list pyval) :
  get_weather city w = (Ret weather, w') ->
  forallb notes_text days = true ->
  exists days',
    add_weather weather (PList days) = Ret (PList days') /\
    Forall2 (annotated weather) days days'.
Proof.
  intros Hw Hn. apply add_weather_text; [|exact Hn].
  exact (get_weather_ends_plain _ _ _ _ Hw).
Qed.

(** The run of [create_itinerary] once the generation call has
    returned. *)
Lemma create_itinerary_after_generation
      (city : str) (days : Z) (interests : str) (w w1 : World)
      (messages : Messages) (content : str) :
  format_messages generation_prompt
    [(L "city", PStr city); (L "days", PInt days);
     (L "interests", PStr interests)] = Ret messages ->
  llm_invoke messages w = (Ret content, w1) ->
  create_itinerary city days interests w =
    match get_weather city w1 with
    | (Ret weather, w2) =>
        match add_weather weather (coerce_shape (parse_llm_json content)) with
        | Ret itinerary => review_itinerary itinerary w2
        | Raise e => (Raise e, w2)
        end
    | (Raise e, w2) => (Raise e, w2)
    end.
Proof.
  intros Hf Hl. unfold create_itinerary, bind, lift.
  rewrite Hf, Hl.
  destruct (get_weather city w1) as [[weather|e] w2]; [|reflexivity].
  destruct (add_weather weather _); reflexivity.
Qed.

(** A failure of the generation call propagates to the caller. *)
Lemma create_itinerary_generation_raises
      (city : str) (days : Z) (interests : str) (w w' : World)
      (messages : Messages) (e : exn) :
  format_messages generation_prompt
    [(L "city", PStr city); (L "days", PInt days);
     (L "interests", PStr interests)] = Ret messages ->
  llm_invoke messages w = (Raise e, w') ->
  create_itinerary city days interests w = (Raise e, w').
Proof.
  intros Hf Hl. unfold create_itinerary, bind, lift.
  rewrite Hf, Hl. reflexivity.
Qed.

(** C7: the claim fails in the review step, whose prompt is built
    before the [try] of [review_itinerary].  When the generation call
    has returned, the weather lookup has given its text, the annotation
    loop has completed and the constructor of the review prompt raises,
    that exception leaves [review_itinerary] and [create_itinerary]:
    no itinerary is returned. *)
Theorem create_itinerary_review_aborts
        (city : str) (days : Z) (interests : str) (w w1 w2 : World)
        (messages : Messages) (content weather : str) (itinerary : pyval)
        (e : exn) :
  format_messages generation_prompt
    [(L "city", PStr city); (L "days", PInt days);
     (L "interests", PStr interests)] = Ret messages ->
  llm_invoke messages w = (Ret content, w1) ->
  get_weather city w1 = (Ret weather, w2) ->
  add_weather weather (coerce_shape (parse_llm_json content)) = Ret itinerary ->
  review_prompt itinerary = Raise e ->
  review_itinerary itinerary w2 = (Raise e, w2) /\
  create_itinerary city days interests w = (Raise e, w2).
Proof.
  intros Hf Hl Hw Ha Hb.
  pose proof (review_itinerary_unbuilt itinerary e w2 Hb) as Hr.
  split; [exact Hr|].
  now rewrite (create_itinerary_after_generation _ _ _ _ _ _ _ Hf Hl), Hw, Ha.
Qed.

(** When the generation call and the weather lookup have both gone
    through and some mapping has notes that are not text, the run ends
    in a [TypeError]. *)
Lemma create_itinerary_non_text_notes
      (city : str) (days : Z) (interests : str) (w w1 w2 : World)
      (messages : Messages) (content weather : str) (l : list pyval) :
  format_messages generation_prompt
    [(L "city", PStr city); (L "days", PInt days);
     (L "interests", PStr interests)] = Ret messages ->
  llm_invoke messages w = (Ret content, w1) ->
  get_weather city w1 = (Ret weather, w2) ->
  coerce_shape (parse_llm_json content) = PList l ->
  forallb notes_text l = false ->
  create_itinerary city days interests w = (Raise TypeError, w2).
Proof.
  intros Hf Hl Hw Hc Hn.
  rewrite (create_itinerary_after_generation _ _ _ _ _ _ _ Hf Hl), Hw, Hc.
  now rewrite (add_weather_non_text _ _ Hn).
Qed.

End WorldFacts.

(** ** Concrete runs *)

(** The first end-to-end scenario of the specification: one Day with
    empty notes, weather [Sunny, 30] degrees. *)
Lemma add_weather_suffix_scenario :
  exists days',
    add_weather (L "Sunny, 30" ++ [DEGREE] ++ L "C") (PList [scenario_day])
      = Ret (PList days') /\
    Forall2 (annotated (L "Sunny, 30" ++ [DEGREE] ++ L "C")) [scenario_day] days'.
Proof.
  apply (add_weather_suffix Mock.World Mock.quote Mock.requests_get_json
           Mock.float_str Mock.container_str (L "Mumbai")
           {| Mock.llm_replies := []; Mock.http_reply := Mock.sunny |}
           {| Mock.llm_replies := []; Mock.http_reply := Mock.sunny |}).
  - reflexivity.
  - reflexivity.
Defined.

Example scenario_notes :
  add_weather (L "Sunny, 30" ++ [DEGREE] ++ L "C") (PList [scenario_day]) =
  Ret (PList [PDict [(L "day", PInt 1); (L "activities", PList []);
                     (L "notes", PStr (L "Weather: Sunny, 30" ++ [DEGREE] ++ L "C"))]]).
Proof. vm_compute; reflexivity. Qed.

Lemma get_weather_total_runs :
  Mock.get_weather (L "Mumbai")
    {| Mock.llm_replies := []; Mock.http_reply := Mock.sunny |} =
    (Ret (L "Sunny, 30" ++ [DEGREE] ++ L "C"),
     {| Mock.llm_replies := []; Mock.http_reply := Mock.sunny |}) /\
  Mock.get_weather (L "Mumbai")
    {| Mock.llm_replies := []; Mock.http_reply := Mock.timeout |} =
    (Ret (L "Weather data unavailable"),
     {| Mock.llm_replies := []; Mock.http_reply := Mock.timeout |}).
Proof.
  split.
  - refine (proj1 (proj2 (get_weather_total Mock.World Mock.quote
             Mock.requests_get_json Mock.float_str Mock.container_str
             (L "Mumbai") {| Mock.llm_replies := []; Mock.http_reply := Mock.sunny |}))
             (L "Mumbai") _ _ _ _ _ _ (PStr (L "Sunny")) (PStr (L "30"))
             eq_refl eq_refl eq_refl eq_refl eq_refl eq_refl eq_refl eq_refl).
  - refine (proj1 (proj2 (proj2 (proj2 (proj2 (get_weather_total Mock.World Mock.quote
             Mock.requests_get_json Mock.float_str Mock.container_str
             (L "Mumbai") {| Mock.llm_replies := []; Mock.http_reply := Mock.timeout |})))))
             (L "Mumbai") (ExternalError 1) _ eq_refl eq_refl).
Defined.

(** The prompt of the scripted world is built for an itinerary whose
    serialization holds no brace; then the review call is made.  For
    the Day of the scenario the prompt is built with a field that is
    given no value, and the review call is not made. *)
Lemma review_itinerary_cases_runs :
  Mock.review_itinerary (PList [PStr (L "Day 1: rest"); PInt 2])
    {| Mock.llm_replies := [Raise (ExternalError 2)]; Mock.http_reply := Mock.sunny |} =
    (Ret (PList [PStr (L "Day 1: rest"); PInt 2]),
     {| Mock.llm_replies := []; Mock.http_reply := Mock.sunny |}) /\
  Mock.review_itinerary (PList [PStr (L "Day 1: rest"); PInt 2])
    {| Mock.llm_replies := [Ret (L "3")]; Mock.http_reply := Mock.sunny |} =
    (Ret (PList [PStr (L "Day 1: rest"); PInt 2]),
     {| Mock.llm_replies := []; Mock.http_reply := Mock.sunny |}) /\
  Mock.review_itinerary (PList [PStr (L "Day 1: rest"); PInt 2])
    {| Mock.llm_replies := [Ret (L "[4]")]; Mock.http_reply := Mock.sunny |} =
    (Ret (PList [PInt 4]),
     {| Mock.llm_replies := []; Mock.http_reply := Mock.sunny |}) /\
  Mock.review_itinerary (PList [scenario_day])
    {| Mock.llm_replies := [Ret (L "[4]")]; Mock.http_reply := Mock.sunny |} =
    (Ret (PList [scenario_day]),
     {| Mock.llm_replies := [Ret (L "[4]")]; Mock.http_reply := Mock.sunny |}).
Proof.
  split; [|split; [|split]].
  - refine (proj1 (proj2 (review_itinerary_cases Mock.World Mock.Template
              Mock.Messages Mock.from_messages Mock.template_error
              Mock.format_messages Mock.llm_invoke Mock.floatstr
              (PList [PStr (L "Day 1: rest"); PInt 2])
              (review_messages Mock.floatstr (PList [PStr (L "Day 1: rest"); PInt 2]))
              _ _))
              (review_messages Mock.floatstr (PList [PStr (L "Day 1: rest"); PInt 2]))
              (ExternalError 2) _ _ _); vm_compute; reflexivity.
  - refine (proj1 (proj2 (proj2 (review_itinerary_cases Mock.World Mock.Template
              Mock.Messages Mock.from_messages Mock.template_error
              Mock.format_messages Mock.llm_invoke Mock.floatstr
              (PList [PStr (L "Day 1: rest"); PInt 2])
              (review_messages Mock.floatstr (PList [PStr (L "Day 1: rest"); PInt 2]))
              _ _)))
              (review_messages Mock.floatstr (PList [PStr (L "Day 1: rest"); PInt 2]))
              (L "3") _ _ _ _); vm_compute; reflexivity.
  - refine (proj1 (proj2 (proj2 (proj2 (review_itinerary_cases Mock.World Mock.Template
              Mock.Messages Mock.from_messages Mock.template_error
              Mock.format_messages Mock.llm_invoke Mock.floatstr
              (PList [PStr (L "Day 1: rest"); PInt 2])
              (review_messages Mock.floatstr (PList [PStr (L "Day 1: rest"); PInt 2]))
              _ _))))
              (review_messages Mock.floatstr (PList [PStr (L "Day 1: rest"); PInt 2]))
              (L "[4]") _ [PInt 4] _ _ _); vm_compute; reflexivity.
  - refine (proj1 (review_itinerary_cases Mock.World Mock.Template
              Mock.Messages Mock.from_messages Mock.template_error
              Mock.format_messages Mock.llm_invoke Mock.floatstr
              (PList [scenario_day])
              (review_messages Mock.floatstr (PList [scenario_day]))
              _ _) KeyError _); vm_compute; reflexivity.
Defined.

(** The reply whose notes hold a closing brace, with a failed weather
    lookup: the review call would be answered, and is never made. *)
Lemma create_itinerary_review_aborts_runs :
  Mock.review_itinerary
    (PList [PDict [(L "day", PInt 1); (L "activities", PList []);
                   (L "notes",
                     PStr (L "Have fun :-} | Weather: Weather data unavailable"))]])
    {| Mock.llm_replies := [Ret (L "[]")]; Mock.http_reply := Mock.timeout |}
  = (Raise Mock.VALUE_ERROR,
     {| Mock.llm_replies := [Ret (L "[]")]; Mock.http_reply := Mock.timeout |}) /\
  Mock.create_itinerary (L "Mumbai") 1 (L "food")
    {| Mock.llm_replies := [Ret brace_notes_reply; Ret (L "[]")];
       Mock.http_reply := Mock.timeout |}
  = (Raise Mock.VALUE_ERROR,
     {| Mock.llm_replies := [Ret (L "[]")]; Mock.http_reply := Mock.timeout |}).
Proof.
  apply (create_itinerary_review_aborts Mock.World Mock.quote
           Mock.requests_get_json Mock.Template Mock.Messages
           Mock.from_messages Mock.template_error Mock.format_messages
           Mock.llm_invoke Mock.floatstr Mock.float_str Mock.container_str
           Mock.GENERATION_SYSTEM (L "Mumbai") 1%Z (L "food")
           {| Mock.llm_replies := [Ret brace_notes_reply; Ret (L "[]")];
              Mock.http_reply := Mock.timeout |}
           {| Mock.llm_replies := [Ret (L "[]")]; Mock.http_reply := Mock.timeout |}
           {| Mock.llm_replies := [Ret (L "[]")]; Mock.http_reply := Mock.timeout |}
           (Mock.asked (L "Mumbai") 1 (L "food"))
           brace_notes_reply (L "Weather data unavailable"));
    vm_compute; reflexivity.
Defined.

(** C9: the reply [[{"day": 1, "notes": 5}]] is valid JSON, a list
    holding a mapping whose [notes] are a number.  On it the annotation
    loop raises a [TypeError] whatever the weather text, and so does
    [create_itinerary] in every world in which the generation call
    returns this reply and the weather request succeeds. *)
Theorem create_itinerary_can_raise :
  exists content l d x,
    content = non_text_notes_reply /\
    Json.loads content = Some (PList l) /\ In (PDict d) l /\
    dict_get d (L "notes") = Some x /\ is_str x = false /\
    (forall weather,
       add_weather weather (coerce_shape (parse_llm_json content)) = Raise TypeError) /\
    forall (World : Type) quote requests_get_json (Template Messages : Type)
           from_messages template_error format_messages llm_invoke floatstr float_str
           container_str GENERATION_SYSTEM city days interests
           (w w1 w2 : World) messages weather,
      format_messages (generation_prompt Template from_messages GENERATION_SYSTEM)
        [(L "city", PStr city); (L "days", PInt days);
         (L "interests", PStr interests)] = Ret messages ->
      llm_invoke messages w = (Ret content, w1) ->
      fetch_weather World quote requests_get_json float_str container_str city w1
        = (Ret weather, w2) ->
      create_itinerary World quote requests_get_json Template Messages
        from_messages template_error format_messages llm_invoke floatstr float_str
        container_str GENERATION_SYSTEM city days interests w
        = (Raise TypeError, w2).
Proof.
  exists non_text_notes_reply, [PDict [(L "day", PInt 1); (L "notes", PInt 5)]],
    [(L "day", PInt 1); (L "notes", PInt 5)], (PInt 5).
  split; [reflexivity|].
  split; [vm_compute; reflexivity|].
  split; [left; reflexivity|].
  split; [reflexivity|]. split; [reflexivity|]. split.
  - intros weather.
    change (coerce_shape (parse_llm_json non_text_notes_reply))
      with (PList [PDict [(L "day", PInt 1); (L "notes", PInt 5)]]).
    apply add_weather_non_text. reflexivity.
  - intros World quote requests_get_json Template Messages from_messages template_error
      format_messages llm_invoke floatstr float_str container_str GENERATION_SYSTEM
      city days interests w w1 w2 messages weather Hf Hl Hw.
    apply (create_itinerary_non_text_notes World quote requests_get_json Template
             Messages from_messages template_error format_messages llm_invoke floatstr float_str
             container_str GENERATION_SYSTEM city days interests w w1 w2 messages
             non_text_notes_reply weather
             [PDict [(L "day", PInt 1); (L "notes", PInt 5)]] Hf Hl).
    + rewrite get_weather_of_fetch, Hw. reflexivity.
    + vm_compute; reflexivity.
    + reflexivity.
Qed.

Lemma create_itinerary_can_raise_runs :
  Mock.create_itinerary (L "Mumbai") 1 (L "food")
    {| Mock.llm_replies := [Ret non_text_notes_reply]; Mock.http_reply := Mock.sunny |} =
    (Raise TypeError, {| Mock.llm_replies := []; Mock.http_reply := Mock.sunny |}).
Proof.
  destruct create_itinerary_can_raise as (content & l & d & x & -> & _ & _ & _ & _ & _ & H).
  apply (H Mock.World Mock.quote Mock.requests_get_json Mock.Template Mock.Messages
           Mock.from_messages Mock.template_error Mock.format_messages Mock.llm_invoke Mock.floatstr
           Mock.float_str Mock.container_str Mock.GENERATION_SYSTEM (L "Mumbai") 1%Z
           (L "food")
           {| Mock.llm_replies := [Ret non_text_notes_reply];
              Mock.http_reply := Mock.sunny |}
           {| Mock.llm_replies := []; Mock.http_reply := Mock.sunny |}
           {| Mock.llm_replies := []; Mock.http_reply := Mock.sunny |}
           (Mock.asked (L "Mumbai") 1 (L "food"))
           (L "Sunny, 30" ++ [DEGREE] ++ L "C"));
    reflexivity.
Defined.

(** ** Fence removal *)

Lemma startswith_app (p r : str) : startswith (p ++ r) p = true.
Proof. unfold startswith. now rewrite strip_prefix_app. Qed.

Lemma startswith_true (s p : str) :
  startswith s p = true -> exists r, s = p ++ r.
Proof.
  unfold startswith. destruct (strip_prefix p s) as [r|] eqn:E; [|discriminate].
  intros _. exists r. now apply strip_prefix_Some.
Qed.


Lemma startswith_extend (a b p : str) :
  startswith a p = true -> startswith (a ++ b) p = true.
Proof.
  intros H. destruct (startswith_true _ _ H) as (r & ->).
  rewrite <- app_assoc. apply startswith_app.
Qed.

Lemma occurs_cons (p : str) (c : char) (s : str) :
  occurs p (c :: s) = startswith (c :: s) p || occurs p s.
Proof. reflexivity. Qed.



Lemma occurs_prefix (p a b : str) :
  p <> [] -> occurs p (a ++ b) = false -> occurs p a = false.
Proof.
  intros Hp. induction a as [|c a IH].
  - intros _. destruct p; [congruence|reflexivity].
  - cbn [app]. rewrite !occurs_cons. intros H.
    apply orb_false_iff in H as [H1 H2]. rewrite (IH H2), orb_false_r.
    destruct (startswith (c :: a) p) eqn:E; [|reflexivity].
    pose proof (startswith_extend (c :: a) b p E) as E'. cbn [app] in E'.
    congruence.
Qed.




(** Dropping the rest of a match. *)
Lemma sub_matches_skip (m : str -> option nat) (k : nat) (s : str) :
  sub_matches m [] k s = sub_matches m [] 0 (skipn k s).
Proof.
  revert s; induction k as [|k IH]; intros s; [reflexivity|].
  destruct s as [|c s]; [reflexivity|]. cbn [sub_matches skipn]. apply IH.
Qed.

Lemma re_sub_fence_cons (c : char) (s : str) :
  re_sub_fence [] (c :: s) =
    match fence_re (c :: s) with
    | Some (S k) => re_sub_fence [] (skipn k s)
    | _ => c :: re_sub_fence [] s
    end.
Proof.
  unfold re_sub_fence. cbn [sub_matches].
  destruct (fence_re (c :: s)) as [[|k]|]; try reflexivity.
  cbn [app]. apply sub_matches_skip.
Qed.

Lemma fence_re_cases (s : str) :
  (fence_re s = None /\ startswith s (L "```") = false) \/
  (exists k, fence_re s = Some (S k) /\ startswith s (L "```") = true).
Proof.
  unfold fence_re, startswith.
  destruct (strip_prefix (L "```") s) as [r|]; [right|left; auto].
  destruct (strip_prefix (L "json") r); eexists; split; reflexivity.
Qed.

Lemma startswith_cons (c : char) (s : str) (a : char) (p : str) :
  startswith (c :: s) (a :: p) = N.eqb a c && startswith s p.
Proof.
  unfold startswith. cbn [strip_prefix]. destruct (N.eqb a c); reflexivity.
Qed.

(** A backtick at the head of the output was at the head of the input. *)
Lemma re_sub_fence_head (s t : str) :
  re_sub_fence [] s = BACKTICK :: t -> exists r, s = BACKTICK :: r.
Proof.
  destruct s as [|c s]; [discriminate|].
  rewrite re_sub_fence_cons.
  destruct (fence_re_cases (c :: s)) as [[-> _] | (k & -> & H)].
  - intros [= -> _]. now exists s.
  - intros _. change (L "```") with [BACKTICK; BACKTICK; BACKTICK] in H.
    rewrite startswith_cons in H. apply andb_true_iff in H as [H _].
    apply N.eqb_eq in H. subst c. now exists s.
Qed.

Lemma re_sub_fence_head2 (s t : str) :
  re_sub_fence [] s = BACKTICK :: BACKTICK :: t ->
  exists r, s = BACKTICK :: BACKTICK :: r.
Proof.
  destruct s as [|c s]; [discriminate|].
  rewrite re_sub_fence_cons.
  destruct (fence_re_cases (c :: s)) as [[-> _] | (k & -> & H)].
  - intros [= -> E].
    destruct (re_sub_fence_head s t E) as [r ->].
    now exists r.
  - intros _. change (L "```") with [BACKTICK; BACKTICK; BACKTICK] in H.
    rewrite startswith_cons in H. apply andb_true_iff in H as [H1 H].
    apply N.eqb_eq in H1. subst c.
    destruct s as [|c2 s]; [discriminate|].
    rewrite startswith_cons in H. apply andb_true_iff in H as [H2 _].
    apply N.eqb_eq in H2. subst c2. now exists s.
Qed.

Lemma re_sub_fence_no_fence_bounded (n : nat) (s : str) :
  length s <= n -> occurs (L "```") (re_sub_fence [] s) = false.
Proof.
  revert s; induction n as [|n IH]; intros [|c s] Hn; cbn [length] in *;
    try reflexivity; try lia.
  rewrite re_sub_fence_cons.
  destruct (fence_re_cases (c :: s)) as [[-> Hs] | (k & -> & _)].
  - rewrite occurs_cons, (IH s ltac:(lia)), orb_false_r.
    destruct (startswith (c :: re_sub_fence [] s) (L "```")) eqn:E; [|reflexivity].
    exfalso.
    change (L "```") with [BACKTICK; BACKTICK; BACKTICK] in E, Hs.
    rewrite startswith_cons in E. apply andb_true_iff in E as [E1 E].
    destruct (startswith_true _ _ E) as (t & Et). cbn [app] in Et.
    destruct (re_sub_fence_head2 s t Et) as (r & ->).
    apply N.eqb_eq in E1. subst c.
    discriminate Hs.
  - apply IH. pose proof (length_skipn k s). lia.
Qed.

Lemma re_sub_fence_no_fence (s : str) :
  occurs (L "```") (re_sub_fence [] s) = false.
Proof. apply (re_sub_fence_no_fence_bounded (length s)); auto. Qed.

(** Where nothing matches, [str.replace] changes nothing. *)
Lemma str_replace_absent (old new s : str) :
  occurs old s = false -> str_replace old new s = s.
Proof.
  unfold str_replace. induction s as [|c s IH]; [reflexivity|].
  rewrite occurs_cons. intros H. apply orb_false_iff in H as [H1 H2].
  cbn [sub_matches]. rewrite H1. f_equal. auto.
Qed.

Lemma clean_llm_text_eq (text : str) :
  clean_llm_text text = str_strip (re_sub_fence [] text).
Proof.
  unfold clean_llm_text. now rewrite (str_replace_absent _ _ _ (re_sub_fence_no_fence text)).
Qed.


(** A fence is deleted wherever it stands: in front of it, any text
    without a backtick. *)
Lemma re_sub_fence_plain_prefix (a s : str) :
  existsb (N.eqb BACKTICK) a = false ->
  re_sub_fence [] (a ++ s) = a ++ re_sub_fence [] s.
Proof.
  induction a as [|c a IH]; [reflexivity|].
  cbn [existsb app]. intros H. apply orb_false_iff in H as [H1 H2].
  rewrite re_sub_fence_cons.
  destruct (fence_re_cases (c :: a ++ s)) as [[-> _] | (k & _ & H)].
  - f_equal; auto.
  - change (L "```") with [BACKTICK; BACKTICK; BACKTICK] in H.
    rewrite startswith_cons, H1 in H. discriminate.
Qed.

Lemma fence_re_json (b : str) : fence_re (L "```json" ++ b) = Some 7.
Proof.
  unfold fence_re. change (L "```json" ++ b) with (L "```" ++ (L "json" ++ b)).
  now rewrite !strip_prefix_app.
Qed.

Lemma fence_re_bare (b : str) :
  startswith b (L "json") = false -> fence_re (L "```" ++ b) = Some 3.
Proof.
  intros Hb. unfold fence_re. rewrite strip_prefix_app. unfold startswith in Hb.
  destruct (strip_prefix (L "json") b); [discriminate|reflexivity].
Qed.

Lemma re_sub_fence_json (b : str) :
  re_sub_fence [] (L "```json" ++ b) = re_sub_fence [] b.
Proof.
  unfold re_sub_fence at 1.
  change (L "```json" ++ b) with (BACKTICK :: (L "``json" ++ b)).
  cbn [sub_matches].
  change (fence_re (BACKTICK :: L "``json" ++ b)) with (fence_re (L "```json" ++ b)).
  rewrite fence_re_json. cbn [app]. rewrite sub_matches_skip. reflexivity.
Qed.

Lemma re_sub_fence_bare (b : str) :
  startswith b (L "json") = false ->
  re_sub_fence [] (L "```" ++ b) = re_sub_fence [] b.
Proof.
  intros Hb. unfold re_sub_fence at 1.
  change (L "```" ++ b) with (BACKTICK :: (L "``" ++ b)).
  cbn [sub_matches].
  change (fence_re (BACKTICK :: L "``" ++ b)) with (fence_re (L "```" ++ b)).
  rewrite (fence_re_bare b Hb). cbn [app]. rewrite sub_matches_skip. reflexivity.
Qed.


(** ** Decimal numerals *)

Lemma is_digit_digits (u : Decimal.uint) :
  forallb Json.is_digit (Encoder.digits_of_uint u) = true.
Proof. induction u; cbn [Encoder.digits_of_uint forallb]; auto. Qed.

Lemma uint_of_digits_of_uint (u : Decimal.uint) :
  Json.uint_of_digits (Encoder.digits_of_uint u) = u.
Proof.
  induction u; cbn [Encoder.digits_of_uint Json.uint_of_digits]; [reflexivity| ..];
    rewrite IHu; reflexivity.
Qed.

Lemma span_digits_app (ds rest : str) :
  forallb Json.is_digit ds = true ->
  match rest with [] => true | h :: _ => negb (Json.is_digit h) end = true ->
  Json.span_digits (ds ++ rest) = (ds, rest).
Proof.
  intros Hd Hr. induction ds as [|c ds IH]; cbn [app].
  - destruct rest as [|h rest]; [reflexivity|].
    cbn [Json.span_digits]. apply negb_true_iff in Hr. now rewrite Hr.
  - cbn [forallb] in Hd. apply andb_true_iff in Hd as [H1 H2].
    cbn [Json.span_digits]. rewrite H1, (IH H2). reflexivity.
Qed.

Lemma nzhead_head (d u : Decimal.uint) : Decimal.nzhead d <> Decimal.D0 u.
Proof. induction d; cbn [Decimal.nzhead]; try discriminate; assumption. Qed.

Lemma unorm_head (d u : Decimal.uint) :
  Decimal.unorm d = Decimal.D0 u -> u = Decimal.Nil.
Proof.
  unfold Decimal.unorm. destruct (Decimal.nzhead d) eqn:E; try discriminate.
  - now intros [= <-].
  - now apply nzhead_head in E.
Qed.

Lemma pos_to_uint_head (p : positive) (u : Decimal.uint) :
  Pos.to_uint p <> Decimal.D0 u.
Proof.
  intros E.
  assert (H : N.to_uint (Npos p) = Decimal.unorm (Pos.to_uint p)).
  { rewrite <- (DecimalPos.Unsigned.to_of (Pos.to_uint p)).
    now rewrite DecimalPos.Unsigned.of_to. }
  change (N.to_uint (Npos p)) with (Pos.to_uint p) in H.
  rewrite E in H. symmetry in H. apply unorm_head in H. subst u.
  exact (DecimalPos.Unsigned.to_uint_nonzero p E).
Qed.

Lemma digits_of_uint_head (u : Decimal.uint) :
  u <> Decimal.Nil -> (forall u', u <> Decimal.D0 u') ->
  exists c ds,
    Encoder.digits_of_uint u = c :: ds /\
    Json.is_digit c = true /\ N.eqb c 48 = false /\ N.eqb c 45 = false /\
    forallb Json.is_digit ds = true.
Proof.
  intros Hn H0.
  destruct u; [congruence|exfalso; eapply H0; reflexivity|..];
    (eexists; eexists; split; [reflexivity|];
     repeat split; try reflexivity; apply is_digit_digits).
Qed.

Lemma follow_ok_digit (rest : str) :
  follow_ok rest = true ->
  match rest with [] => true | h :: _ => negb (Json.is_digit h) end = true.
Proof.
  destruct rest as [|h rest]; [reflexivity|]. unfold follow_ok.
  intros H. apply negb_true_iff in H. apply orb_false_iff in H as [H _].
  apply orb_false_iff in H as [H _]. apply orb_false_iff in H as [H _].
  now rewrite H.
Qed.

Lemma match_frac_follow (rest : str) :
  follow_ok rest = true -> Json.match_frac rest = ([], rest).
Proof.
  destruct rest as [|h rest]; [reflexivity|]. unfold follow_ok, Json.match_frac.
  intros H. apply negb_true_iff in H. apply orb_false_iff in H as [H _].
  apply orb_false_iff in H as [H _]. apply orb_false_iff in H as [_ H].
  now rewrite H.
Qed.

Lemma match_exp_follow (rest : str) :
  follow_ok rest = true -> Json.match_exp rest = ([], rest).
Proof.
  destruct rest as [|h rest]; [reflexivity|]. unfold follow_ok, Json.match_exp.
  intros H. apply negb_true_iff in H. apply orb_false_iff in H as [H H3].
  apply orb_false_iff in H as [_ H2].
  now rewrite H2, H3.
Qed.

Lemma match_integer_digits (c : char) (ds rest : str) :
  Json.is_digit c = true -> N.eqb c 48 = false -> N.eqb c 45 = false ->
  forallb Json.is_digit ds = true -> follow_ok rest = true ->
  Json.match_integer (c :: ds ++ rest) = Some (c :: ds, rest) /\
  Json.match_integer (45%N :: c :: ds ++ rest) = Some (45%N :: c :: ds, rest).
Proof.
  intros Hc H48 H45 Hds Hr. unfold Json.match_integer.
  rewrite H45. cbn [N.eqb Pos.eqb]. rewrite H48, Hc.
  rewrite (span_digits_app ds rest Hds (follow_ok_digit rest Hr)).
  split; reflexivity.
Qed.

Lemma parse_int_pos (p : positive) :
  Json.parse_int (Encoder.digits_of_uint (Pos.to_uint p)) = Zpos p /\
  Json.parse_int (45%N :: Encoder.digits_of_uint (Pos.to_uint p)) = Zneg p.
Proof.
  assert (E : N.of_uint (Pos.to_uint p) = Npos p)
    by exact (DecimalN.Unsigned.of_to (Npos p)).
  destruct (digits_of_uint_head (Pos.to_uint p)
              (DecimalPos.Unsigned.to_uint_nonnil p) (pos_to_uint_head p))
    as (c & ds & Ed & _ & _ & H45 & _).
  unfold Json.parse_int. split.
  - rewrite Ed, H45, <- Ed, uint_of_digits_of_uint, E. reflexivity.
  - cbn [N.eqb Pos.eqb]. rewrite uint_of_digits_of_uint, E. reflexivity.
Qed.

(** An integer is read back from its [repr]. *)
Lemma match_number_int_repr (z : Z) (rest : str) :
  follow_ok rest = true ->
  Json.match_number (Encoder.int_repr z ++ rest) = Some (PInt z, rest).
Proof.
  intros Hr. unfold Json.match_number.
  destruct z as [|p|p]; unfold Encoder.int_repr.
  - change (Encoder.digits_of_uint (N.to_uint (Z.to_N 0))) with [48%N].
    cbn [app]. unfold Json.match_integer. cbn [N.eqb Pos.eqb app].
    rewrite (match_frac_follow rest Hr), (match_exp_follow rest Hr). reflexivity.
  - change (N.to_uint (Z.to_N (Z.pos p))) with (Pos.to_uint p).
    destruct (digits_of_uint_head (Pos.to_uint p)
                (DecimalPos.Unsigned.to_uint_nonnil p) (pos_to_uint_head p))
      as (c & ds & Ed & Hc & H48 & H45 & Hds).
    rewrite Ed. cbn [app].
    rewrite (proj1 (match_integer_digits c ds rest Hc H48 H45 Hds Hr)).
    rewrite (match_frac_follow rest Hr), (match_exp_follow rest Hr).
    cbn [Json.is_nil andb]. rewrite <- Ed, (proj1 (parse_int_pos p)). reflexivity.
  - change (N.to_uint (N.pos p)) with (Pos.to_uint p).
    destruct (digits_of_uint_head (Pos.to_uint p)
                (DecimalPos.Unsigned.to_uint_nonnil p) (pos_to_uint_head p))
      as (c & ds & Ed & Hc & H48 & H45 & Hds).
    rewrite Ed. cbn [app].
    rewrite (proj2 (match_integer_digits c ds rest Hc H48 H45 Hds Hr)).
    rewrite (match_frac_follow rest Hr), (match_exp_follow rest Hr).
    cbn [Json.is_nil andb]. rewrite <- Ed, (proj2 (parse_int_pos p)). reflexivity.
Qed.

(** ** Escapes *)

Lemma hexval_hexdigit (d : N) :
  (d < 16)%N -> Json.hexval (Encoder.hexdigit d) = Some d.
Proof.
  intros H. unfold Encoder.hexdigit, Json.hexval.
  destruct (N.ltb_spec d 10) as [E|E].
  - replace (48 <=? 48 + d)%N with true by (symmetry; apply N.leb_le; lia).
    replace (48 + d <=? 57)%N with true by (symmetry; apply N.leb_le; lia).
    cbn [andb]. f_equal. lia.
  - replace (87 + d <=? 57)%N with false by (symmetry; apply N.leb_gt; lia).
    rewrite andb_false_r.
    replace (97 <=? 87 + d)%N with true by (symmetry; apply N.leb_le; lia).
    replace (87 + d <=? 102)%N with true by (symmetry; apply N.leb_le; lia).
    cbn [andb]. f_equal. lia.
Qed.

Lemma hex4_digits (n : N) :
  (n < 65536)%N ->
  Json.hex4 (Encoder.hexdigit (n / 4096)) (Encoder.hexdigit ((n / 256) mod 16))
            (Encoder.hexdigit ((n / 16) mod 16)) (Encoder.hexdigit (n mod 16))
    = Some n.
Proof.
  intros H. unfold Json.hex4.
  rewrite !hexval_hexdigit;
    try (apply N.mod_lt; discriminate);
    try (apply N.Div0.div_lt_upper_bound; exact H).
  f_equal.
  replace (n / 4096)%N with (n / 16 / 16 / 16)%N by (rewrite !N.Div0.div_div; reflexivity).
  replace (n / 256)%N with (n / 16 / 16)%N by (rewrite !N.Div0.div_div; reflexivity).
  pose proof (N.div_mod n 16 ltac:(discriminate)).
  pose proof (N.div_mod (n / 16) 16 ltac:(discriminate)).
  pose proof (N.div_mod (n / 16 / 16) 16 ltac:(discriminate)).
  set (q1 := (n / 16)%N) in *. set (q2 := (q1 / 16)%N) in *.
  set (q3 := (q2 / 16)%N) in *. set (r0 := (n mod 16)%N) in *.
  set (r1 := (q1 mod 16)%N) in *. set (r2 := (q2 mod 16)%N) in *.
  clearbody q1 q2 q3 r0 r1 r2. lia.
Qed.

Lemma join_surrogates_halves (c : N) :
  (65536 <= c)%N -> (c < 1114112)%N ->
  let hi := (55296 + ((c - 65536) / 1024) mod 1024)%N in
  let lo := (56320 + (c - 65536) mod 1024)%N in
  (hi < 65536)%N /\ (lo < 65536)%N /\
  Json.is_high_surrogate hi = true /\ Json.is_low_surrogate lo = true /\
  Json.is_low_surrogate hi = false /\
  Json.join_surrogates hi lo = c.
Proof.
  intros H1 H2 hi lo.
  assert (Hq : ((c - 65536) / 1024 < 1024)%N)
    by (apply N.Div0.div_lt_upper_bound; lia).
  assert (Hr : ((c - 65536) mod 1024 < 1024)%N) by (apply N.mod_lt; discriminate).
  pose proof (N.div_mod (c - 65536) 1024 ltac:(discriminate)) as E.
  subst hi lo. rewrite (N.mod_small _ _ Hq).
  set (q := ((c - 65536) / 1024)%N) in *. set (r := ((c - 65536) mod 1024)%N) in *.
  clearbody q r.
  unfold Json.is_high_surrogate, Json.is_low_surrogate, Json.join_surrogates.
  repeat split; try lia.
  - apply andb_true_iff; split; apply N.leb_le; lia.
  - apply andb_true_iff; split; apply N.leb_le; lia.
  - apply andb_false_iff; left; apply N.leb_gt; lia.
Qed.

(** ** Reading an encoded text back *)

Lemma scanstring_quote (r : str) : Json.scanstring (QUOTE :: r) = Some ([], r).
Proof. reflexivity. Qed.

Lemma scanstring_char (c : char) (r : str) :
  N.eqb c QUOTE = false -> N.eqb c BACKSLASH = false -> N.ltb c 32 = false ->
  Json.scanstring (c :: r) = Json.push c (Json.scanstring r).
Proof. intros H1 H2 H3. cbn [Json.scanstring]. now rewrite H1, H2, H3. Qed.

Lemma scanstring_simple (e d : char) (r : str) :
  N.eqb e 117 = false -> Json.simple_escape e = Some d ->
  Json.scanstring (BACKSLASH :: e :: r) = Json.push d (Json.scanstring r).
Proof.
  intros H1 H2. cbn [Json.scanstring]. cbn [N.eqb Pos.eqb]. now rewrite H1, H2.
Qed.

Lemma scanstring_u_single (h1 h2 h3 h4 : char) (u : N) (r2 : str) :
  Json.hex4 h1 h2 h3 h4 = Some u ->
  Json.is_high_surrogate u = false \/ no_low_escape r2 = true ->
  Json.scanstring (BACKSLASH :: 117%N :: h1 :: h2 :: h3 :: h4 :: r2)
    = Json.push u (Json.scanstring r2).
Proof.
  intros Hh H. cbn [Json.scanstring]. cbn [N.eqb Pos.eqb]. rewrite Hh.
  destruct (Json.is_high_surrogate u); [|reflexivity].
  destruct H as [H|H]; [discriminate|].
  destruct r2 as [|b [|x [|g1 [|g2 [|g3 [|g4 r3]]]]]]; try reflexivity.
  unfold no_low_escape in H.
  destruct ((b =? BACKSLASH) && (x =? 117))%N; [|reflexivity].
  cbn [negb orb] in H.
  destruct (Json.hex4 g1 g2 g3 g4) as [u2|]; [|discriminate].
  apply negb_true_iff in H. now rewrite H.
Qed.

Lemma scanstring_u_pair (h1 h2 h3 h4 g1 g2 g3 g4 : char) (u u2 : N) (r3 : str) :
  Json.hex4 h1 h2 h3 h4 = Some u -> Json.is_high_surrogate u = true ->
  Json.hex4 g1 g2 g3 g4 = Some u2 -> Json.is_low_surrogate u2 = true ->
  Json.scanstring (BACKSLASH :: 117%N :: h1 :: h2 :: h3 :: h4 ::
                   BACKSLASH :: 117%N :: g1 :: g2 :: g3 :: g4 :: r3)
    = Json.push (Json.join_surrogates u u2) (Json.scanstring r3).
Proof.
  intros H1 H2 H3 H4. cbn [Json.scanstring]. cbn [N.eqb Pos.eqb andb].
  now rewrite H1, H2, H3, H4.
Qed.

Lemma escape_char_cases (c : char) :
  valid_char c = true ->
  (exists e, Encoder.escape_char c = [BACKSLASH; e] /\
             N.eqb e 117 = false /\ Json.simple_escape e = Some c) \/
  (Encoder.escape_char c = [c] /\ N.eqb c QUOTE = false /\
   N.eqb c BACKSLASH = false /\ N.ltb c 32 = false /\ N.eqb c BACKTICK = true \/
   Encoder.escape_char c = [c] /\ N.eqb c QUOTE = false /\
   N.eqb c BACKSLASH = false /\ N.ltb c 32 = false /\ N.eqb c BACKTICK = false) \/
  ((c < 65536)%N /\ Encoder.escape_char c = Encoder.u_escape c) \/
  ((65536 <= c)%N /\
   Encoder.escape_char c =
     Encoder.u_escape (55296 + ((c - 65536) / 1024) mod 1024) ++
     Encoder.u_escape (56320 + (c - 65536) mod 1024)).
Proof.
  intros Hv. unfold Encoder.escape_char.
  destruct (N.eqb_spec c QUOTE) as [->|H34].
  { left. exists QUOTE. repeat split. }
  destruct (N.eqb_spec c BACKSLASH) as [->|H92].
  { left. exists BACKSLASH. repeat split. }
  destruct (N.eqb_spec c 8) as [->|H8]. { left. exists 98%N. repeat split. }
  destruct (N.eqb_spec c 12) as [->|H12]. { left. exists 102%N. repeat split. }
  destruct (N.eqb_spec c 10) as [->|H10]. { left. exists 110%N. repeat split. }
  destruct (N.eqb_spec c 13) as [->|H13]. { left. exists 114%N. repeat split. }
  destruct (N.eqb_spec c 9) as [->|H9]. { left. exists 116%N. repeat split. }
  destruct ((32 <=? c) && (c <=? 126))%N eqn:Hp.
  { right; left. apply andb_true_iff in Hp as [Hp _]. apply N.leb_le in Hp.
    assert (H3 : N.ltb c 32 = false) by (apply N.ltb_ge; exact Hp).
    destruct (N.eqb c BACKTICK); [left|right]; repeat split; assumption. }
  destruct (N.ltb_spec c 65536) as [H|H].
  - right; right; left. split; [exact H|reflexivity].
  - right; right; right. split; [exact H|reflexivity].
Qed.

Lemma scanstring_escape_char (c : char) (T : str) :
  valid_char c = true ->
  Json.is_high_surrogate c = false \/ no_low_escape T = true ->
  Json.scanstring (Encoder.escape_char c ++ T) = Json.push c (Json.scanstring T).
Proof.
  intros Hv Hs.
  destruct (escape_char_cases c Hv)
    as [(e & -> & He & Hd) | [[(-> & H1 & H2 & H3 & _)|(-> & H1 & H2 & H3 & _)]
       | [(Hlt & ->) | (Hge & ->)]]].
  - now apply scanstring_simple.
  - now apply scanstring_char.
  - now apply scanstring_char.
  - apply scanstring_u_single; [now apply hex4_digits|exact Hs].
  - apply N.ltb_lt in Hv.
    destruct (join_surrogates_halves c Hge Hv) as (Hh & Hl & H1 & H2 & _ & Ej).
    rewrite <- Ej at 3.
    unfold Encoder.u_escape at 1 2. cbn [app].
    apply scanstring_u_pair; [now apply hex4_digits|exact H1|now apply hex4_digits|exact H2].
Qed.

Lemma no_low_escape_head (b : char) (T : str) :
  N.eqb b BACKSLASH = false -> no_low_escape (b :: T) = true.
Proof.
  intros H. destruct T as [|x [|g1 [|g2 [|g3 [|g4 r3]]]]]; try reflexivity.
  unfold no_low_escape. now rewrite H.
Qed.

Lemma no_low_escape_simple (e : char) (T : str) :
  N.eqb e 117 = false -> no_low_escape (BACKSLASH :: e :: T) = true.
Proof.
  intros H. destruct T as [|g1 [|g2 [|g3 [|g4 r3]]]]; try reflexivity.
  unfold no_low_escape. rewrite H. now rewrite andb_false_r.
Qed.

Lemma no_low_escape_u (n : N) (T : str) :
  (n < 65536)%N -> Json.is_low_surrogate n = false ->
  no_low_escape (Encoder.u_escape n ++ T) = true.
Proof.
  intros Hn Hl. unfold Encoder.u_escape. cbn [app]. unfold no_low_escape.
  rewrite (hex4_digits n Hn), Hl. apply orb_true_r.
Qed.

Lemma no_low_escape_encoded (s rest : str) :
  forallb valid_char s = true ->
  match s with c :: _ => Json.is_low_surrogate c = false | [] => True end ->
  no_low_escape (flat_map Encoder.escape_char s ++ QUOTE :: rest) = true.
Proof.
  destruct s as [|c s]; intros Hv Hl.
  - now apply no_low_escape_head.
  - cbn [forallb] in Hv. apply andb_true_iff in Hv as [Hv _].
    cbn [flat_map]. rewrite <- app_assoc.
    destruct (escape_char_cases c Hv)
      as [(e & -> & He & Hd) | [[(-> & H1 & H2 & H3 & _)|(-> & H1 & H2 & H3 & _)]
         | [(Hlt & ->) | (Hge & ->)]]].
    + now apply no_low_escape_simple.
    + now apply no_low_escape_head.
    + now apply no_low_escape_head.
    + now apply no_low_escape_u.
    + apply N.ltb_lt in Hv.
      destruct (join_surrogates_halves c Hge Hv) as (Hh & _ & _ & _ & Hnl & _).
      rewrite <- app_assoc. now apply no_low_escape_u.
Qed.

(** The decoder undoes the encoder on a text. *)
Lemma scanstring_encoded (s rest : str) :
  forallb valid_char s = true -> pair_free s = true ->
  Json.scanstring (flat_map Encoder.escape_char s ++ QUOTE :: rest) = Some (s, rest).
Proof.
  induction s as [|c s IH]; intros Hv Hp; [reflexivity|].
  cbn [forallb] in Hv. apply andb_true_iff in Hv as [Hc Hv].
  cbn [flat_map]. rewrite <- app_assoc.
  rewrite scanstring_escape_char; [|exact Hc|].
  - rewrite IH; [reflexivity|exact Hv|].
    destruct s; [reflexivity|]. cbn [pair_free] in Hp.
    now apply andb_true_iff in Hp as [_ Hp].
  - destruct (Json.is_high_surrogate c) eqn:Hh; [right|now left].
    apply no_low_escape_encoded; [exact Hv|].
    destruct s as [|b s]; [exact I|]. cbn [pair_free] in Hp.
    apply andb_true_iff in Hp as [Hp _]. rewrite Hh in Hp.
    now apply negb_true_iff in Hp.
Qed.

(** ** Reading a serialized value back *)

Lemma int_repr_head (z : Z) :
  exists c t, Encoder.int_repr z = c :: t /\
              (Json.is_digit c = true \/ c = 45%N).
Proof.
  destruct z as [|p|p]; unfold Encoder.int_repr.
  - exists 48%N, []. split; [reflexivity|now left].
  - change (N.to_uint (Z.to_N (Z.pos p))) with (Pos.to_uint p).
    destruct (digits_of_uint_head (Pos.to_uint p)
                (DecimalPos.Unsigned.to_uint_nonnil p) (pos_to_uint_head p))
      as (c & ds & -> & Hc & _).
    exists c, ds. split; [reflexivity|now left].
  - eexists; eexists. split; [reflexivity|now right].
Qed.

Lemma is_digit_range (c : char) :
  Json.is_digit c = true -> (48 <= c <= 57)%N.
Proof.
  unfold Json.is_digit. intros H. apply andb_true_iff in H as [H1 H2].
  apply N.leb_le in H1, H2. lia.
Qed.

(** What a number starts with is not a quote, a bracket, a brace or the
    first letter of a literal. *)
Lemma number_head_plain (c : char) :
  Json.is_digit c = true \/ c = 45%N ->
  N.eqb c QUOTE = false /\ N.eqb c 123 = false /\ N.eqb c 91 = false /\
  N.eqb c 110 = false /\ N.eqb c 116 = false /\ N.eqb c 102 = false /\
  Json.is_ws c = false /\ N.eqb c 93 = false.
Proof.
  intros H.
  assert (R : (45 <= c <= 57)%N) by (destruct H as [H| ->]; [apply is_digit_range in H|]; lia).
  unfold Json.is_ws.
  repeat split; try (apply N.eqb_neq; lia).
  repeat (apply orb_false_iff; split); apply N.eqb_neq; lia.
Qed.

Lemma startswith_head_differs (c a : char) (s p : str) :
  N.eqb c a = false -> startswith (c :: s) (a :: p) = false.
Proof.
  intros H. rewrite startswith_cons. rewrite N.eqb_sym in H. now rewrite H.
Qed.

Lemma scan_once_number (fuel : nat) (z : Z) (rest : str) :
  follow_ok rest = true ->
  Json.scan_once (S fuel) (Encoder.int_repr z ++ rest) = Some (PInt z, rest).
Proof.
  intros Hr. pose proof (match_number_int_repr z rest Hr) as E.
  destruct (int_repr_head z) as (c & t & Ez & Hc).
  rewrite Ez in *. cbn [app] in *.
  destruct (number_head_plain c Hc) as (H1 & H2 & H3 & H4 & H5 & H6 & _).
  cbn [Json.scan_once]. rewrite H1, H2, H3.
  change (L "null") with (110%N :: L "ull").
  change (L "true") with (116%N :: L "rue").
  change (L "false") with (102%N :: L "alse").
  rewrite !startswith_head_differs by assumption.
  now rewrite E.
Qed.

Section Readback.
Variable floatstr : str -> str.
Local Abbreviation dumps := (Encoder.dumps floatstr).

Lemma dumps_head (v : pyval) :
  plain v = true ->
  exists c t, dumps v = c :: t /\ Json.is_ws c = false /\ N.eqb c 93 = false /\
              N.eqb c 125 = false.
Proof.
  destruct v as [|[|]|z|f|s|l|d]; intros Hp; try discriminate;
    try (eexists; eexists; split; [reflexivity|repeat split]).
  destruct (int_repr_head z) as (c & t & Ez & Hc).
  exists c, t. split; [exact Ez|].
  destruct (number_head_plain c Hc) as (_ & _ & _ & _ & _ & _ & H7 & H8).
  repeat split; try assumption.
  assert (R : (45 <= c <= 57)%N) by (destruct Hc as [H| ->]; [apply is_digit_range in H|]; lia).
  apply N.eqb_neq; lia.
Qed.

Lemma skip_ws_dumps (v : pyval) (T : str) :
  plain v = true -> Json.skip_ws (dumps v ++ T) = dumps v ++ T.
Proof.
  intros Hp. destruct (dumps_head v Hp) as (c & t & -> & Hc & _).
  cbn [app Json.skip_ws]. now rewrite Hc.
Qed.

Local Abbreviation read_back := (read_back floatstr).

Lemma array_items_dumps (scan : str -> option (pyval * str)) (l : list pyval)
      (n : nat) (rest : str) :
  Forall (read_back scan) l -> l <> [] -> length l <= n ->
  Json.array_items scan n
    (Encoder.join (L ", ") (map dumps l) ++ 93%N :: rest) = Some (l, rest).
Proof.
  revert n. induction l as [|x l IH]; intros n Hl Hne Hn; [congruence|].
  destruct n as [|n]; [cbn [length] in Hn; lia|].
  inversion Hl as [|? ? [Hp Hx] Hl']; subst.
  destruct l as [|y l].
  - cbn [map Encoder.join Json.array_items].
    rewrite (Hx (93%N :: rest) eq_refl). reflexivity.
  - change (Encoder.join (L ", ") (map dumps (x :: y :: l)))
      with (dumps x ++ L ", " ++ Encoder.join (L ", ") (map dumps (y :: l))).
    rewrite <- !app_assoc.
    change (L ", " ++ ?X) with (44%N :: 32%N :: X).
    cbn [Json.array_items].
    rewrite Hx by reflexivity.
    cbn [Json.skip_ws Json.is_ws N.eqb Pos.eqb orb].
    assert (Ey : Json.skip_ws (Encoder.join (L ", ") (map dumps (y :: l)) ++ 93%N :: rest)
                 = Encoder.join (L ", ") (map dumps (y :: l)) ++ 93%N :: rest).
    { inversion Hl' as [|? ? [Hpy _] _]; subst.
      destruct l as [|y' l'].
      - cbn [map Encoder.join]. now apply skip_ws_dumps.
      - change (Encoder.join (L ", ") (map dumps (y :: y' :: l')))
          with (dumps y ++ L ", " ++ Encoder.join (L ", ") (map dumps (y' :: l'))).
        rewrite <- app_assoc. now apply skip_ws_dumps. }
    rewrite Ey, IH; [reflexivity|exact Hl'|discriminate|].
    cbn [length] in *. lia.
Qed.

Lemma parse_array_dumps (scan : str -> option (pyval * str)) (l : list pyval)
      (n : nat) (rest : str) :
  Forall (read_back scan) l -> length l <= n ->
  Json.parse_array scan n
    (Encoder.join (L ", ") (map dumps l) ++ 93%N :: rest) = Some (PList l, rest).
Proof.
  intros Hl Hn. unfold Json.parse_array.
  destruct l as [|x l]; [reflexivity|].
  assert (E : exists c t,
             Encoder.join (L ", ") (map dumps (x :: l)) ++ 93%N :: rest = c :: t /\
             Json.is_ws c = false /\ N.eqb c 93 = false).
  { inversion Hl as [|? ? [Hp _] _]; subst.
    destruct (dumps_head x Hp) as (c & t & Ex & Hc & H93 & _).
    destruct l as [|y l]; cbn [map Encoder.join]; rewrite Ex; cbn [app];
      eexists; eexists; (split; [reflexivity|split; assumption]). }
  destruct E as (c & t & E & Hc & H93).
  rewrite E. cbn [Json.skip_ws]. rewrite Hc, H93. rewrite <- E.
  rewrite array_items_dumps; [reflexivity|exact Hl|discriminate|exact Hn].
Qed.

Lemma text_ok_parts (s : str) :
  text_ok s = true ->
  forallb valid_char s = true /\ pair_free s = true /\ occurs (L "```") s = false.
Proof.
  unfold text_ok. intros H. apply andb_true_iff in H as [H H3].
  apply andb_true_iff in H as [H1 H2]. apply negb_true_iff in H3. auto.
Qed.

Lemma members_head (d : dict) (X : str) :
  d <> [] ->
  exists T, Encoder.join (L ", ") (map (member floatstr) d) ++ X = QUOTE :: T.
Proof.
  destruct d as [|kv [|kv2 d]]; [congruence| |]; intros _;
    cbn [map Encoder.join]; unfold member at 1, Encoder.encode_basestring_ascii;
    cbn [app]; eexists; reflexivity.
Qed.

Lemma members_cons (kv : str * pyval) (d : dict) (X : str) :
  Encoder.join (L ", ") (map (member floatstr) (kv :: d)) ++ X =
  QUOTE :: flat_map Encoder.escape_char (fst kv) ++
  QUOTE :: 58%N :: 32%N :: dumps (snd kv) ++
  match d with
  | [] => X
  | _ :: _ => 44%N :: 32%N :: Encoder.join (L ", ") (map (member floatstr) d) ++ X
  end.
Proof.
  destruct d as [|kv2 d].
  - cbn [map Encoder.join]. unfold member, Encoder.encode_basestring_ascii.
    cbn [app]. now rewrite <- !app_assoc.
  - change (Encoder.join (L ", ") (map (member floatstr) (kv :: kv2 :: d)))
      with (member floatstr kv ++ L ", " ++
            Encoder.join (L ", ") (map (member floatstr) (kv2 :: d))).
    unfold member at 1, Encoder.encode_basestring_ascii.
    cbn [app]. now rewrite <- !app_assoc.
Qed.

Lemma object_pairs_dumps (scan : str -> option (pyval * str)) (d : dict)
      (n : nat) (rest T : str) :
  Forall (fun kv => text_ok (fst kv) = true /\ read_back scan (snd kv)) d ->
  d <> [] -> length d <= n ->
  QUOTE :: T = Encoder.join (L ", ") (map (member floatstr) d) ++ 125%N :: rest ->
  Json.object_pairs scan n T = Some (d, rest).
Proof.
  revert n T. induction d as [|[k v] d IH]; intros n T Hd Hne Hn ET; [congruence|].
  destruct n as [|n]; [cbn [length] in Hn; lia|].
  inversion Hd as [|? ? [Hk [Hp Hv]] Hd']; subst. cbn [fst snd] in *.
  destruct (text_ok_parts k Hk) as (Hk1 & Hk2 & _).
  rewrite members_cons in ET. cbn [fst snd] in ET. injection ET as ->.
  cbn [Json.object_pairs]. rewrite (scanstring_encoded k _ Hk1 Hk2).
  cbn [Json.skip_ws Json.is_ws N.eqb Pos.eqb orb].
  rewrite (skip_ws_dumps v _ Hp).
  destruct d as [|kv2 d].
  - rewrite Hv by reflexivity. reflexivity.
  - rewrite Hv by reflexivity.
    cbn [Json.skip_ws Json.is_ws N.eqb Pos.eqb orb].
    destruct (members_head (kv2 :: d) (125%N :: rest) ltac:(discriminate)) as [T2 E2].
    rewrite E2. cbn [Json.skip_ws Json.is_ws N.eqb Pos.eqb orb].
    rewrite (IH n T2); [reflexivity|exact Hd'|discriminate| |now symmetry].
    cbn [length] in *. lia.
Qed.

Lemma str_eqb_sym (a b : str) : str_eqb a b = str_eqb b a.
Proof.
  revert b; induction a as [|x a IH]; intros [|y b]; cbn [str_eqb]; auto.
  now rewrite N.eqb_sym, IH.
Qed.

Lemma has_key_app (a b : dict) (k : str) :
  has_key (a ++ b) k = has_key a k || has_key b k.
Proof.
  induction a as [|[k' v'] a IH]; [reflexivity|].
  cbn [app has_key]. now rewrite IH, orb_assoc.
Qed.

Lemma dict_set_new (d : dict) (k : str) (v : pyval) :
  has_key d k = false -> dict_set d k v = d ++ [(k, v)].
Proof.
  induction d as [|[k' v'] d IH]; [reflexivity|].
  cbn [has_key dict_set app]. intros H. apply orb_false_iff in H as [H1 H2].
  now rewrite H1, (IH H2).
Qed.

Lemma distinct_keys_before (a : dict) (k : str) (v : pyval) (b : dict) :
  distinct_keys (a ++ (k, v) :: b) = true -> has_key a k = false.
Proof.
  induction a as [|[k' v'] a IH]; [reflexivity|].
  cbn [app distinct_keys has_key]. intros H. apply andb_true_iff in H as [H1 H2].
  apply negb_true_iff in H1. rewrite has_key_app in H1.
  apply orb_false_iff in H1 as [_ H1]. cbn [has_key] in H1.
  apply orb_false_iff in H1 as [H1 _].
  rewrite str_eqb_sym in H1. now rewrite H1, (IH H2).
Qed.

Lemma dict_of_pairs_distinct (d : dict) :
  distinct_keys d = true -> dict_of_pairs d = d.
Proof.
  unfold dict_of_pairs.
  change d with ([] ++ d) at 1 3. generalize (@nil (str * pyval)) as acc.
  induction d as [|[k v] d IH]; intros acc H; cbn [fold_left fst snd].
  - now rewrite List.app_nil_r.
  - rewrite (dict_set_new acc k v (distinct_keys_before acc k v d H)).
    rewrite IH; rewrite <- app_assoc; [reflexivity|exact H].
Qed.

Lemma parse_object_dumps (scan : str -> option (pyval * str)) (d : dict)
      (n : nat) (rest : str) :
  Forall (fun kv => text_ok (fst kv) = true /\ read_back scan (snd kv)) d ->
  distinct_keys d = true -> length d <= n ->
  Json.parse_object scan n
    (Encoder.join (L ", ") (map (member floatstr) d) ++ 125%N :: rest)
    = Some (PDict d, rest).
Proof.
  intros Hd Hk Hn. unfold Json.parse_object.
  destruct d as [|kv d]; [reflexivity|].
  destruct (members_head (kv :: d) (125%N :: rest) ltac:(discriminate)) as [T E].
  rewrite E. cbn [Json.skip_ws Json.is_ws N.eqb Pos.eqb orb].
  rewrite (object_pairs_dumps scan (kv :: d) n rest T Hd ltac:(discriminate) Hn
             (eq_sym E)).
  now rewrite (dict_of_pairs_distinct _ Hk).
Qed.

Lemma size_pos (v : pyval) : 1 <= size v.
Proof. destruct v; cbn [size]; lia. Qed.

Lemma list_sum_in {A : Type} (f : A -> nat) (x : A) (l : list A) :
  In x l -> f x <= list_sum (map f l).
Proof.
  unfold list_sum. induction l as [|y l IH]; [contradiction|].
  cbn [map fold_right]. intros [->|H]; [lia|]. specialize (IH H). lia.
Qed.

Lemma list_sum_length {A : Type} (f : A -> nat) (l : list A) :
  (forall x, 1 <= f x) -> length l <= list_sum (map f l).
Proof.
  intros Hf. unfold list_sum. induction l as [|y l IH]; [reflexivity|].
  cbn [map fold_right length]. specialize (Hf y). lia.
Qed.

(** Every well-formed plain value is read back from its serialization,
    with as much fuel as the value has nodes. *)
Lemma scan_once_dumps (n : nat) :
  forall v, size v <= n -> wf v = true -> plain v = true ->
  forall fuel rest, n <= fuel -> follow_ok rest = true ->
  Json.scan_once fuel (dumps v ++ rest) = Some (v, rest).
Proof.
  induction n as [|n IH]; intros v Hs Hw Hp fuel rest Hf Hr.
  { pose proof (size_pos v). lia. }
  destruct fuel as [|fuel]; [lia|].
  destruct v as [|[|]|z|f|s|l|d]; try reflexivity; try discriminate.
  - now apply scan_once_number.
  - destruct (text_ok_parts s Hp) as (H1 & H2 & _).
    cbn [Encoder.dumps]. unfold Encoder.encode_basestring_ascii.
    cbn [app]. rewrite <- app_assoc. cbn [app Json.scan_once N.eqb Pos.eqb].
    now rewrite (scanstring_encoded s rest H1 H2).
  - cbn [Encoder.dumps]. rewrite <- !app_assoc.
    change (L "[" ++ ?X) with (91%N :: X). change (L "]" ++ rest) with (93%N :: rest).
    cbn [Json.scan_once N.eqb Pos.eqb].
    cbn [size wf plain] in Hs, Hw, Hp.
    apply parse_array_dumps.
    + apply Forall_forall. intros x Hx.
      rewrite forallb_forall in Hw, Hp. split; [now apply Hp|].
      intros rest' Hr'. apply IH; auto; try lia.
      pose proof (list_sum_in size x l Hx). lia.
    + pose proof (list_sum_length size l size_pos). lia.
  - cbn [Encoder.dumps]. rewrite <- !app_assoc.
    change (L "{" ++ ?X) with (123%N :: X). change (L "}" ++ rest) with (125%N :: rest).
    cbn [Json.scan_once N.eqb Pos.eqb].
    cbn [size wf plain] in Hs, Hw, Hp.
    apply andb_true_iff in Hw as [Hk Hw].
    apply (parse_object_dumps (Json.scan_once fuel) d fuel rest); [|exact Hk|].
    + apply Forall_forall. intros [k x] Hx.
      rewrite forallb_forall in Hw, Hp.
      specialize (Hw _ Hx). specialize (Hp _ Hx). cbn [fst snd] in *.
      apply andb_true_iff in Hp as [Hpk Hpx].
      split; [exact Hpk|]. split; [exact Hpx|].
      intros rest' Hr'. apply IH; auto; try lia.
      pose proof (list_sum_in (fun kv => size (snd kv)) (k, x) d Hx).
      cbn [snd] in *. lia.
    + pose proof (list_sum_length (fun kv : str * pyval => size (snd kv)) d
                    (fun kv => size_pos (snd kv))). lia.
Qed.
End Readback.

(** ** Backticks in serialized values *)

Lemma startswith_nil (s : str) : startswith s [] = true.
Proof. reflexivity. Qed.

Lemma occurs_fence_has_run (s : str) :
  has_run 0 s = occurs (L "```") s /\
  has_run 1 s = startswith s (L "``") || occurs (L "```") s /\
  has_run 2 s = startswith s (L "`") || occurs (L "```") s.
Proof.
  change (L "```") with [BACKTICK; BACKTICK; BACKTICK].
  change (L "``") with [BACKTICK; BACKTICK].
  change (L "`") with [BACKTICK].
  induction s as [|c s (IH0 & IH1 & IH2)]; [repeat split|].
  cbn [has_run]. rewrite occurs_cons, !startswith_cons, startswith_nil.
  rewrite (N.eqb_sym BACKTICK c).
  destruct (N.eqb c BACKTICK); cbn [andb orb].
  - rewrite IH1, IH2. repeat split.
    destruct s as [|x s]; [reflexivity|].
    rewrite !startswith_cons, startswith_nil.
    destruct (N.eqb BACKTICK x); cbn [andb orb]; [|reflexivity].
    now destruct (startswith s [BACKTICK]).
  - now rewrite IH0.
Qed.

Lemma has_run_occurs (s : str) : has_run 0 s = occurs (L "```") s.
Proof. apply occurs_fence_has_run. Qed.

Lemma has_run_app (k : nat) (front : str) (c : char) (b : str) :
  N.eqb c BACKTICK = false -> has_run k (front ++ [c]) = false ->
  has_run k ((front ++ [c]) ++ b) = has_run 0 b.
Proof.
  intros Hc. revert k. induction front as [|x front IH]; intros k; cbn [app has_run].
  - now rewrite Hc.
  - destruct (N.eqb x BACKTICK).
    + destruct k as [|[|k]]; try discriminate; apply IH.
    + apply IH.
Qed.

Lemma sealed_app (k : nat) (a b : str) :
  sealed k a -> sealed 0 b -> sealed k (a ++ b).
Proof.
  intros [Ha (fa & ca & -> & Hca)] [Hb (fb & cb & -> & Hcb)]. split.
  - now rewrite (has_run_app k fa ca _ Hca Ha).
  - exists ((fa ++ [ca]) ++ fb), cb. split; [now rewrite app_assoc|exact Hcb].
Qed.

Lemma has_run_plain (k : nat) (a : str) :
  existsb (N.eqb BACKTICK) a = false -> has_run k a = false.
Proof.
  revert k. induction a as [|c a IH]; intros k; [reflexivity|].
  cbn [existsb has_run]. intros H. apply orb_false_iff in H as [H1 H2].
  rewrite N.eqb_sym in H1. rewrite H1. now apply IH.
Qed.

Lemma sealed_plain (k : nat) (a : str) :
  a <> [] -> existsb (N.eqb BACKTICK) a = false -> sealed k a.
Proof.
  intros Hne H. split; [now apply has_run_plain|].
  destruct (exists_last Hne) as (front & c & ->).
  exists front, c. split; [reflexivity|].
  rewrite existsb_app in H. apply orb_false_iff in H as [_ H].
  cbn [existsb] in H. rewrite orb_false_r, N.eqb_sym in H. exact H.
Qed.

Lemma has_run_plain_app (k : nat) (a b : str) :
  a <> [] -> existsb (N.eqb BACKTICK) a = false ->
  has_run k (a ++ b) = has_run 0 b.
Proof.
  intros Hne H. destruct (sealed_plain k a Hne H) as [Hr (front & c & -> & Hc)].
  now apply has_run_app.
Qed.

Lemma hexdigit_plain (d : N) : (d < 16)%N -> N.eqb BACKTICK (Encoder.hexdigit d) = false.
Proof.
  intros H. unfold Encoder.hexdigit. apply N.eqb_neq.
  destruct (N.ltb_spec d 10); lia.
Qed.

Lemma u_escape_plain (n : N) :
  (n < 65536)%N -> existsb (N.eqb BACKTICK) (Encoder.u_escape n) = false.
Proof.
  intros H. unfold Encoder.u_escape. cbn [existsb].
  rewrite !hexdigit_plain;
    try (apply N.mod_lt; discriminate);
    try (apply N.Div0.div_lt_upper_bound; exact H).
  reflexivity.
Qed.

(** The encoder neither makes nor breaks a run of backticks. *)
Lemma has_run_escape_char (k : nat) (c : char) (T : str) :
  valid_char c = true ->
  has_run k (Encoder.escape_char c ++ T) =
    if N.eqb c BACKTICK
    then match k with S (S _) => true | _ => has_run (S k) T end
    else has_run 0 T.
Proof.
  intros Hv.
  destruct (escape_char_cases c Hv)
    as [(e & E & He & Hd) | [[(-> & H1 & H2 & H3 & H4)|(-> & H1 & H2 & H3 & H4)]
       | [(Hlt & E) | (Hge & E)]]].
  - assert (Hc : N.eqb c BACKTICK = false).
    { unfold Encoder.escape_char in E.
      destruct (N.eqb_spec c BACKTICK) as [->|]; [discriminate E|reflexivity]. }
    assert (Hb : N.eqb BACKTICK e = false).
    { destruct (N.eqb_spec BACKTICK e) as [<-|]; [discriminate Hd|reflexivity]. }
    rewrite E, Hc. apply has_run_plain_app; [discriminate|].
    cbn [existsb]. now rewrite Hb.
  - rewrite H4. cbn [app has_run]. now rewrite H4.
  - rewrite H4. cbn [app has_run]. now rewrite H4.
  - assert (Hc : N.eqb c BACKTICK = false).
    { unfold Encoder.escape_char in E.
      destruct (N.eqb_spec c BACKTICK) as [->|]; [discriminate E|reflexivity]. }
    rewrite E, Hc. apply has_run_plain_app; [discriminate|now apply u_escape_plain].
  - assert (Hc : N.eqb c BACKTICK = false) by (apply N.eqb_neq; lia).
    apply N.ltb_lt in Hv.
    destruct (join_surrogates_halves c Hge Hv) as (Hh & Hl & _).
    rewrite E, Hc. apply has_run_plain_app; [discriminate|].
    rewrite existsb_app. now rewrite !u_escape_plain.
Qed.

Lemma has_run_encoded (s : str) (k : nat) :
  forallb valid_char s = true ->
  has_run k (flat_map Encoder.escape_char s ++ [QUOTE]) = has_run k s.
Proof.
  revert k. induction s as [|c s IH]; intros k Hv; [reflexivity|].
  cbn [forallb] in Hv. apply andb_true_iff in Hv as [Hc Hv].
  cbn [flat_map]. rewrite <- app_assoc, (has_run_escape_char k c _ Hc).
  cbn [has_run]. rewrite !IH by assumption. reflexivity.
Qed.

Lemma sealed_encoded (s : str) :
  text_ok s = true -> sealed 0 (Encoder.encode_basestring_ascii s).
Proof.
  intros H. destruct (text_ok_parts s H) as (Hv & _ & Hf).
  unfold Encoder.encode_basestring_ascii. split.
  - cbn [has_run N.eqb Pos.eqb]. now rewrite has_run_encoded, has_run_occurs.
  - exists (QUOTE :: flat_map Encoder.escape_char s), QUOTE. split; reflexivity.
Qed.

Lemma int_repr_digits (z : Z) :
  exists sign ds, Encoder.int_repr z = sign ++ ds /\ (sign = [] \/ sign = [45%N]) /\
                  ds <> [] /\ forallb Json.is_digit ds = true.
Proof.
  destruct z as [|p|p]; unfold Encoder.int_repr.
  - exists [], [48%N]. repeat split; [now left|discriminate].
  - exists [], (Encoder.digits_of_uint (N.to_uint (Z.to_N (Z.pos p)))).
    change (N.to_uint (Z.to_N (Z.pos p))) with (Pos.to_uint p).
    repeat split; [now left| |apply is_digit_digits].
    destruct (digits_of_uint_head (Pos.to_uint p)
                (DecimalPos.Unsigned.to_uint_nonnil p) (pos_to_uint_head p))
      as (c & ds & -> & _). discriminate.
  - exists [45%N], (Encoder.digits_of_uint (N.to_uint (N.pos p))).
    change (N.to_uint (N.pos p)) with (Pos.to_uint p).
    repeat split; [now right| |apply is_digit_digits].
    destruct (digits_of_uint_head (Pos.to_uint p)
                (DecimalPos.Unsigned.to_uint_nonnil p) (pos_to_uint_head p))
      as (c & ds & -> & _). discriminate.
Qed.

Lemma digits_plain (ds : str) :
  forallb Json.is_digit ds = true -> existsb (N.eqb BACKTICK) ds = false.
Proof.
  induction ds as [|c ds IH]; [reflexivity|]. cbn [forallb existsb].
  intros H. apply andb_true_iff in H as [H1 H2]. rewrite (IH H2), orb_false_r.
  apply is_digit_range in H1. apply N.eqb_neq. lia.
Qed.

Lemma sealed_int_repr (z : Z) : sealed 0 (Encoder.int_repr z).
Proof.
  destruct (int_repr_digits z) as (sign & ds & -> & Hs & Hne & Hd).
  apply sealed_plain.
  - destruct sign; [exact Hne|discriminate].
  - rewrite existsb_app, (digits_plain ds Hd).
    destruct Hs as [-> | ->]; reflexivity.
Qed.

Lemma sealed_join (sep : str) (parts : list str) :
  sealed 0 sep -> Forall (sealed 0) parts -> parts <> [] ->
  sealed 0 (Encoder.join sep parts).
Proof.
  intros Hsep Hp Hne. induction parts as [|p parts IH]; [congruence|].
  inversion Hp as [|? ? H1 H2]; subst.
  destruct parts as [|q parts]; [exact H1|].
  change (Encoder.join sep (p :: q :: parts))
    with (p ++ sep ++ Encoder.join sep (q :: parts)).
  apply sealed_app; [exact H1|]. apply sealed_app; [exact Hsep|].
  apply IH; [exact H2|discriminate].
Qed.

Section Serialized.
Variable floatstr : str -> str.
Local Abbreviation dumps := (Encoder.dumps floatstr).

Lemma sealed_dumps (n : nat) :
  forall v, size v <= n -> plain v = true -> sealed 0 (dumps v).
Proof.
  induction n as [|n IH]; intros v Hs Hp.
  { pose proof (size_pos v). lia. }
  destruct v as [|[|]|z|f|s|l|d]; try discriminate;
    try (apply sealed_plain; [discriminate|reflexivity]).
  - apply sealed_int_repr.
  - now apply sealed_encoded.
  - cbn [Encoder.dumps]. cbn [size plain] in Hs, Hp.
    destruct l as [|x l]; [apply sealed_plain; [discriminate|reflexivity]|].
    apply sealed_app; [apply sealed_plain; [discriminate|reflexivity]|].
    apply sealed_app; [|apply sealed_plain; [discriminate|reflexivity]].
    apply sealed_join; [apply sealed_plain; [discriminate|reflexivity]| |discriminate].
    apply Forall_map, Forall_forall. intros y Hy.
    rewrite forallb_forall in Hp.
    apply IH; [|now apply Hp].
    pose proof (list_sum_in size y (x :: l) Hy). lia.
  - cbn [Encoder.dumps]. cbn [size plain] in Hs, Hp.
    destruct d as [|kv d]; [apply sealed_plain; [discriminate|reflexivity]|].
    apply sealed_app; [apply sealed_plain; [discriminate|reflexivity]|].
    apply sealed_app; [|apply sealed_plain; [discriminate|reflexivity]].
    apply sealed_join; [apply sealed_plain; [discriminate|reflexivity]| |discriminate].
    apply Forall_map, Forall_forall. intros [k y] Hy.
    rewrite forallb_forall in Hp. specialize (Hp _ Hy). cbn [fst snd] in *.
    apply andb_true_iff in Hp as [Hk Hpy].
    apply sealed_app; [now apply sealed_encoded|].
    apply sealed_app; [apply sealed_plain; [discriminate|reflexivity]|].
    apply IH; [|exact Hpy].
    pose proof (list_sum_in (fun kv => size (snd kv)) (k, y) (kv :: d) Hy).
    cbn [snd] in *. lia.
Qed.

Lemma dumps_no_fence (v : pyval) :
  plain v = true -> occurs (L "```") (dumps v) = false.
Proof.
  intros Hp. rewrite <- has_run_occurs.
  exact (proj1 (sealed_dumps (size v) v (le_n _) Hp)).
Qed.

Lemma join_length (sep : str) (parts : list str) :
  list_sum (map (@length char) parts) <= length (Encoder.join sep parts).
Proof.
  unfold list_sum. induction parts as [|p parts IH]; [reflexivity|].
  destruct parts as [|q parts].
  - cbn [map fold_right Encoder.join]. lia.
  - change (Encoder.join sep (p :: q :: parts))
      with (p ++ sep ++ Encoder.join sep (q :: parts)).
    rewrite !length_app. cbn [map fold_right] in *. lia.
Qed.

Lemma list_sum_le {A : Type} (f g : A -> nat) (l : list A) :
  (forall x, In x l -> f x <= g x) -> list_sum (map f l) <= list_sum (map g l).
Proof.
  unfold list_sum. induction l as [|x l IH]; intros H; [reflexivity|].
  cbn [map fold_right].
  pose proof (H x (or_introl eq_refl)).
  specialize (IH (fun y Hy => H y (or_intror Hy))). lia.
Qed.

(** A serialized value is at least as long as the value has nodes. *)
Lemma dumps_length (n : nat) :
  forall v, size v <= n -> plain v = true -> size v <= length (dumps v).
Proof.
  induction n as [|n IH]; intros v Hs Hp.
  { pose proof (size_pos v). lia. }
  destruct v as [|[|]|z|f|s|l|d]; try discriminate.
  1-3: cbv; lia.
  - destruct (int_repr_head z) as (c & t & E & _).
    cbn [size Encoder.dumps]. rewrite E. cbn [length]. lia.
  - cbn [size Encoder.dumps]. unfold Encoder.encode_basestring_ascii.
    cbn [length]. lia.
  - cbn [Encoder.dumps size]. cbn [size plain] in Hs, Hp.
    rewrite !length_app.
    pose proof (join_length (L ", ") (map dumps l)) as Hj. rewrite map_map in Hj.
    assert (Hl : list_sum (map size l) <= list_sum (map (fun x => length (dumps x)) l)).
    { apply list_sum_le. intros x Hx. rewrite forallb_forall in Hp.
      apply IH; [|now apply Hp]. pose proof (list_sum_in size x l Hx). lia. }
    change (length (L "[")) with 1. lia.
  - cbn [Encoder.dumps size]. cbn [size plain] in Hs, Hp.
    rewrite !length_app.
    pose proof (join_length (L ", ")
                  (map (fun kv => Encoder.encode_basestring_ascii (fst kv) ++
                                  L ": " ++ dumps (snd kv)) d)) as Hj.
    rewrite map_map in Hj.
    assert (Hl : list_sum (map (fun kv => size (snd kv)) d) <=
                 list_sum (map (fun kv => length
                                  (Encoder.encode_basestring_ascii (fst kv) ++
                                   L ": " ++ dumps (snd kv))) d)).
    { apply list_sum_le. intros [k x] Hx. rewrite forallb_forall in Hp.
      specialize (Hp _ Hx). cbn [fst snd] in *.
      apply andb_true_iff in Hp as [_ Hpx].
      pose proof (list_sum_in (fun kv => size (snd kv)) (k, x) d Hx) as Hin.
      cbn [snd] in Hin.
      specialize (IH x ltac:(lia) Hpx). rewrite !length_app. lia. }
    change (length (L "{")) with 1. lia.
Qed.

Lemma printable_not_space (c : char) :
  (33 <= c <= 126)%N -> py_isspace c = false.
Proof.
  intros H. unfold py_isspace.
  repeat match goal with
         | |- context [N.leb ?a ?b] => destruct (N.leb_spec a b); try lia
         | |- context [N.eqb ?a ?b] => destruct (N.eqb_spec a b); try lia
         end; reflexivity.
Qed.

Lemma dumps_first (v : pyval) :
  plain v = true -> exists c t, dumps v = c :: t /\ py_isspace c = false.
Proof.
  destruct v as [|[|]|z|f|s|l|d]; intros Hp; try discriminate;
    try (eexists; eexists; split; [reflexivity|reflexivity]).
  destruct (int_repr_head z) as (c & t & Ez & Hc).
  exists c, t. split; [exact Ez|]. apply printable_not_space.
  destruct Hc as [Hc| ->]; [apply is_digit_range in Hc|]; lia.
Qed.

Lemma dumps_last (v : pyval) :
  plain v = true -> exists front c, dumps v = front ++ [c] /\ py_isspace c = false.
Proof.
  destruct v as [|[|]|z|f|s|l|d]; intros Hp; try discriminate.
  - exists (L "nul"), 108%N. split; reflexivity.
  - exists (L "tru"), 101%N. split; reflexivity.
  - exists (L "fals"), 101%N. split; reflexivity.
  - destruct (int_repr_digits z) as (sign & ds & E & _ & Hne & Hd).
    destruct (exists_last Hne) as (front & c & ->).
    exists (sign ++ front), c. cbn [Encoder.dumps]. rewrite E, app_assoc.
    split; [reflexivity|]. apply printable_not_space.
    rewrite forallb_app in Hd. apply andb_true_iff in Hd as [_ Hd].
    cbn [forallb] in Hd. rewrite andb_true_r in Hd.
    apply is_digit_range in Hd. lia.
  - exists (QUOTE :: flat_map Encoder.escape_char s), QUOTE. split; reflexivity.
  - exists (L "[" ++ Encoder.join (L ", ") (map dumps l)), 93%N.
    cbn [Encoder.dumps]. rewrite <- app_assoc. split; reflexivity.
  - eexists (L "{" ++ Encoder.join (L ", ") _), 125%N.
    cbn [Encoder.dumps]. rewrite <- app_assoc. split; reflexivity.
Qed.

Lemma str_strip_dumps (v : pyval) :
  plain v = true -> str_strip (dumps v) = dumps v.
Proof.
  intros Hp. unfold str_strip, strip_by.
  destruct (dumps_first v Hp) as (c & t & E & Hc).
  destruct (dumps_last v Hp) as (front & c' & E' & Hc').
  rewrite E at 1. cbn [lstrip_by]. rewrite Hc, <- E, E'.
  now apply rstrip_by_plain.
Qed.

Lemma re_sub_fence_absent (s : str) :
  occurs (L "```") s = false -> re_sub_fence [] s = s.
Proof.
  induction s as [|c s IH]; [reflexivity|].
  rewrite occurs_cons. intros H. apply orb_false_iff in H as [H1 H2].
  rewrite re_sub_fence_cons.
  destruct (fence_re_cases (c :: s)) as [[-> _] | (k & _ & H)]; [|congruence].
  f_equal. auto.
Qed.

(** [json.loads] undoes [json.dumps] on a well-formed plain value. *)
Lemma loads_dumps (v : pyval) :
  wf v = true -> plain v = true -> Json.loads (dumps v) = Some v.
Proof.
  intros Hw Hp. unfold Json.loads.
  pose proof (skip_ws_dumps floatstr v [] Hp) as E. rewrite List.app_nil_r in E.
  assert (Hf : size v <= S (length (dumps v)))
    by (pose proof (dumps_length (size v) v (le_n _) Hp); lia).
  pose proof (scan_once_dumps floatstr (size v) v (le_n _) Hw Hp
                (S (length (dumps v))) [] Hf eq_refl) as Hs.
  rewrite List.app_nil_r in Hs. now rewrite E, Hs.
Qed.

(** The normalizer returns a well-formed plain value from its
    serialization. *)
Lemma parse_llm_json_dumps (v : pyval) :
  wf v = true -> plain v = true -> parse_llm_json (dumps v) = v.
Proof.
  intros Hw Hp. unfold parse_llm_json.
  rewrite clean_llm_text_eq, (re_sub_fence_absent _ (dumps_no_fence v Hp)).
  now rewrite (str_strip_dumps v Hp), (loads_dumps v Hw Hp).
Qed.
End Serialized.

(** ** What the parser builds is well formed *)

Lemma has_key_set (d : dict) (k : str) (v : pyval) (k' : str) :
  has_key (dict_set d k v) k' = has_key d k' || str_eqb k k'.
Proof.
  induction d as [|[k0 v0] d IH]; cbn [dict_set has_key].
  - now rewrite orb_false_r.
  - destruct (str_eqb k0 k) eqn:E; cbn [has_key].
    + apply str_eqb_eq in E. subst k0.
      destruct (str_eqb k k'), (has_key d k'); reflexivity.
    + now rewrite IH, orb_assoc.
Qed.

Lemma distinct_keys_set (d : dict) (k : str) (v : pyval) :
  distinct_keys d = true -> distinct_keys (dict_set d k v) = true.
Proof.
  induction d as [|[k0 v0] d IH]; cbn [dict_set distinct_keys]; [reflexivity|].
  intros H. apply andb_true_iff in H as [H1 H2].
  destruct (str_eqb k0 k) eqn:E; cbn [distinct_keys].
  - now rewrite H1, H2.
  - rewrite has_key_set, (IH H2), (str_eqb_sym k k0), E.
    apply negb_true_iff in H1. now rewrite H1.
Qed.

Lemma values_wf_set (d : dict) (k : str) (v : pyval) :
  forallb (fun kv => wf (snd kv)) d = true -> wf v = true ->
  forallb (fun kv => wf (snd kv)) (dict_set d k v) = true.
Proof.
  intros Hd Hv. induction d as [|[k0 v0] d IH]; cbn [dict_set forallb snd].
  - now rewrite Hv.
  - cbn [forallb snd] in Hd. apply andb_true_iff in Hd as [H1 H2].
    destruct (str_eqb k0 k); cbn [forallb snd].
    + now rewrite Hv, H2.
    + now rewrite H1, (IH H2).
Qed.

Lemma dict_of_pairs_wf (pairs : list (str * pyval)) :
  forallb (fun kv => wf (snd kv)) pairs = true ->
  wf (PDict (dict_of_pairs pairs)) = true.
Proof.
  unfold dict_of_pairs. cbn [wf].
  assert (G : forall acc,
             distinct_keys acc = true ->
             forallb (fun kv => wf (snd kv)) acc = true ->
             forallb (fun kv => wf (snd kv)) pairs = true ->
             distinct_keys (fold_left (fun d kv => dict_set d (fst kv) (snd kv)) pairs acc)
             && forallb (fun kv => wf (snd kv))
                  (fold_left (fun d kv => dict_set d (fst kv) (snd kv)) pairs acc) = true).
  { induction pairs as [|[k v] pairs IH]; intros acc H1 H2 H3; cbn [fold_left].
    - now rewrite H1, H2.
    - cbn [forallb snd fst] in *. apply andb_true_iff in H3 as [Hv H3].
      apply IH; [now apply distinct_keys_set|now apply values_wf_set|exact H3]. }
  intros H. now apply G.
Qed.

Section ContainersWf.
Variable scan : str -> option (pyval * str).
Hypothesis scan_wf : forall s v r, scan s = Some (v, r) -> wf v = true.

Lemma array_items_wf (n : nat) :
  forall s l r, Json.array_items scan n s = Some (l, r) -> forallb wf l = true.
Proof.
  induction n as [|n IH]; intros s l r; cbn [Json.array_items]; [discriminate|].
  destruct (scan s) as [[v r1]|] eqn:E; [|discriminate].
  apply scan_wf in E.
  destruct (Json.skip_ws r1) as [|c r2]; [discriminate|].
  destruct (N.eqb c 93).
  - intros [= <- _]. cbn [forallb]. now rewrite E.
  - destruct (N.eqb c 44); [|discriminate].
    destruct (Json.array_items scan n (Json.skip_ws r2)) as [[l' r3]|] eqn:E2;
      [|discriminate].
    cbn [Json.push]. intros [= <- _]. cbn [forallb].
    now rewrite E, (IH _ _ _ E2).
Qed.

Lemma object_pairs_wf (n : nat) :
  forall s pairs r, Json.object_pairs scan n s = Some (pairs, r) ->
                    forallb (fun kv => wf (snd kv)) pairs = true.
Proof.
  induction n as [|n IH]; intros s pairs r; cbn [Json.object_pairs]; [discriminate|].
  destruct (Json.scanstring s) as [[key r0]|]; [|discriminate].
  destruct (Json.skip_ws r0) as [|c r1]; [discriminate|].
  destruct (N.eqb c 58); [|discriminate].
  destruct (scan (Json.skip_ws r1)) as [[v r2]|] eqn:E; [|discriminate].
  apply scan_wf in E.
  destruct (Json.skip_ws r2) as [|c2 r3]; [discriminate|].
  destruct (N.eqb c2 125).
  - intros [= <- _]. cbn [forallb snd]. now rewrite E.
  - destruct (N.eqb c2 44); [|discriminate].
    destruct (Json.skip_ws r3) as [|q r4]; [discriminate|].
    destruct (N.eqb q QUOTE); [|discriminate].
    destruct (Json.object_pairs scan n r4) as [[ps r5]|] eqn:E2; [|discriminate].
    cbn [Json.push]. intros [= <- _]. cbn [forallb snd].
    now rewrite E, (IH _ _ _ E2).
Qed.

Lemma parse_array_wf (n : nat) (s : str) (v : pyval) (r : str) :
  Json.parse_array scan n s = Some (v, r) -> wf v = true.
Proof.
  unfold Json.parse_array.
  destruct (Json.skip_ws s) as [|c r0]; [discriminate|].
  destruct (N.eqb c 93); [now intros [= <- _]|].
  destruct (Json.array_items scan n (c :: r0)) as [[l r1]|] eqn:E; [|discriminate].
  intros [= <- _]. cbn [wf]. exact (array_items_wf _ _ _ _ E).
Qed.

Lemma parse_object_wf (n : nat) (s : str) (v : pyval) (r : str) :
  Json.parse_object scan n s = Some (v, r) -> wf v = true.
Proof.
  unfold Json.parse_object.
  destruct (Json.skip_ws s) as [|c r0]; [discriminate|].
  destruct (N.eqb c 125); [now intros [= <- _]|].
  destruct (N.eqb c QUOTE); [|discriminate].
  destruct (Json.object_pairs scan n r0) as [[ps r1]|] eqn:E; [|discriminate].
  intros [= <- _]. apply dict_of_pairs_wf. exact (object_pairs_wf _ _ _ _ E).
Qed.
End ContainersWf.

Lemma literal_wf (word : string) (v0 v : pyval) (s r : str) :
  wf v0 = true -> Json.literal word v0 s = Some (v, r) -> wf v = true.
Proof.
  unfold Json.literal. intros H.
  destruct (strip_prefix (L word) s); [|discriminate]. now intros [= <- _].
Qed.

Lemma match_number_wf (s : str) (v : pyval) (r : str) :
  Json.match_number s = Some (v, r) -> wf v = true.
Proof.
  unfold Json.match_number.
  destruct (Json.match_integer s) as [[i r0]|]; [|discriminate].
  destruct (Json.match_frac r0) as [fr r1].
  destruct (Json.match_exp r1) as [ex r2].
  destruct (Json.is_nil fr && Json.is_nil ex); now intros [= <- _].
Qed.

Lemma scan_once_wf (fuel : nat) :
  forall s v r, Json.scan_once fuel s = Some (v, r) -> wf v = true.
Proof.
  induction fuel as [|fuel IH]; intros s v r; cbn [Json.scan_once]; [discriminate|].
  destruct s as [|c s]; [discriminate|].
  destruct (N.eqb c QUOTE).
  { destruct (Json.scanstring s) as [[t r']|]; [|discriminate]. now intros [= <- _]. }
  destruct (N.eqb c 123); [now apply parse_object_wf|].
  destruct (N.eqb c 91); [now apply parse_array_wf|].
  destruct (startswith (c :: s) (L "null")); [now apply literal_wf|].
  destruct (startswith (c :: s) (L "true")); [now apply literal_wf|].
  destruct (startswith (c :: s) (L "false")); [now apply literal_wf|].
  destruct (Json.match_number (c :: s)) as [[v' r']|] eqn:E.
  { intros [= <- _]. exact (match_number_wf _ _ _ E). }
  destruct (startswith (c :: s) (L "NaN")); [now apply literal_wf|].
  destruct (startswith (c :: s) (L "Infinity")); [now apply literal_wf|].
  destruct (startswith (c :: s) (L "-Infinity")); [now apply literal_wf|].
  discriminate.
Qed.

Lemma loads_wf (s : str) (v : pyval) : Json.loads s = Some v -> wf v = true.
Proof.
  unfold Json.loads.
  destruct (Json.scan_once _ _) as [[v' r]|] eqn:E; [|discriminate].
  destruct (Json.is_nil _); [|discriminate].
  intros [= <-]. exact (scan_once_wf _ _ _ _ E).
Qed.

Lemma parse_llm_json_wf (text : str) : wf (parse_llm_json text) = true.
Proof.
  unfold parse_llm_json.
  destruct (Json.loads (clean_llm_text text)) as [v|] eqn:E.
  - exact (loads_wf _ _ E).
  - reflexivity.
Qed.

(** ** The fuel of [scan_once] *)

Lemma skip_ws_length (s : str) : length (Json.skip_ws s) <= length s.
Proof.
  induction s as [|c s IH]; [reflexivity|].
  cbn [Json.skip_ws]. destruct (Json.is_ws c); cbn [length]; lia.
Qed.

Lemma push_Some {A B : Type} (a : A) (X : option (list A * B)) (l : list A) (r : B) :
  Json.push a X = Some (l, r) -> exists l', l = a :: l' /\ X = Some (l', r).
Proof.
  destruct X as [[l' r']|]; [|discriminate]. cbn [Json.push].
  intros [= <- <-]. now exists l'.
Qed.

Lemma scanstring_length (n : nat) :
  forall s t r, length s <= n -> Json.scanstring s = Some (t, r) ->
                length r < length s.
Proof.
  induction n as [|n IH]; intros s t r Hn.
  { destruct s; [discriminate|cbn [length] in Hn; lia]. }
  assert (P : forall a s' X, length s' < length s -> X = Json.scanstring s' ->
                             Json.push a X = Some (t, r) -> length r < length s).
  { intros a s' X Hs -> H. apply push_Some in H as (t' & _ & H).
    apply IH in H; lia. }
  destruct s as [|c s]; [discriminate|]. cbn [length] in *.
  cbn [Json.scanstring].
  destruct (N.eqb c QUOTE); [intros [= _ <-]; lia|].
  destruct (N.eqb c BACKSLASH).
  - destruct s as [|e r1]; [discriminate|]. cbn [length] in *.
    destruct (N.eqb e 117).
    + destruct r1 as [|h1 [|h2 [|h3 [|h4 r2]]]]; try discriminate. cbn [length] in *.
      destruct (Json.hex4 h1 h2 h3 h4) as [u|]; [|discriminate].
      destruct (Json.is_high_surrogate u);
        [|apply (P u r2 _ ltac:(lia) eq_refl)].
      destruct r2 as [|b [|x [|g1 [|g2 [|g3 [|g4 r3]]]]]];
        try (eapply P; [|reflexivity]; cbn [length]; lia).
      destruct ((b =? BACKSLASH) && (x =? 117))%N;
        [|eapply P; [|reflexivity]; cbn [length]; lia].
      destruct (Json.hex4 g1 g2 g3 g4) as [u2|]; [|discriminate].
      destruct (Json.is_low_surrogate u2);
        eapply P; try reflexivity; cbn [length]; lia.
    + destruct (Json.simple_escape e) as [d|]; [|discriminate].
      apply (P d r1 _ ltac:(lia) eq_refl).
  - destruct (N.ltb c 32); [discriminate|].
    apply (P c s _ ltac:(lia) eq_refl).
Qed.

Lemma span_digits_length (s ds r : str) :
  Json.span_digits s = (ds, r) -> length r <= length s.
Proof.
  revert ds r. induction s as [|c s IH]; intros ds r; cbn [Json.span_digits].
  - intros [= _ <-]. reflexivity.
  - destruct (Json.is_digit c).
    + destruct (Json.span_digits s) as [ds' r'] eqn:E. intros [= _ <-].
      specialize (IH _ _ eq_refl). cbn [length]. lia.
    + intros [= _ <-]. reflexivity.
Qed.

Lemma match_integer_length (s i r : str) :
  Json.match_integer s = Some (i, r) -> length r < length s.
Proof.
  unfold Json.match_integer.
  assert (G : forall sign s1 bound, length s1 <= bound ->
              match s1 with
              | [] => None
              | c :: r0 =>
                  if (c =? 48)%N then Some (sign ++ [c], r0)
                  else if Json.is_digit c
                       then let (ds, r') := Json.span_digits r0 in Some (sign ++ c :: ds, r')
                       else None
              end = Some (i, r) -> length r < bound).
  { intros sign [|c r0] bound Hl; [discriminate|]. cbn [length] in Hl.
    destruct (N.eqb c 48); [intros [= _ <-]; lia|].
    destruct (Json.is_digit c); [|discriminate].
    destruct (Json.span_digits r0) as [ds r'] eqn:E. intros [= _ <-].
    apply span_digits_length in E. lia. }
  destruct s as [|c s]; [discriminate|].
  destruct (N.eqb c 45).
  - apply (G [c] s). cbn [length]. lia.
  - apply (G [] (c :: s)). lia.
Qed.

Lemma match_frac_length (s fr r : str) :
  Json.match_frac s = (fr, r) -> length r <= length s.
Proof.
  unfold Json.match_frac. destruct s as [|c s]; [intros [= _ <-]; reflexivity|].
  destruct (N.eqb c 46); [|intros [= _ <-]; reflexivity].
  destruct (Json.span_digits s) as [[|d ds] r'] eqn:E;
    intros [= _ <-]; [reflexivity|].
  apply span_digits_length in E. cbn [length]. lia.
Qed.

Lemma match_exp_length (s ex r : str) :
  Json.match_exp s = (ex, r) -> length r <= length s.
Proof.
  unfold Json.match_exp. destruct s as [|e s]; [intros [= _ <-]; reflexivity|].
  destruct ((e =? 101) || (e =? 69))%N; [|intros [= _ <-]; reflexivity].
  destruct s as [|c s'].
  - cbn [Json.span_digits]. intros [= _ <-]. reflexivity.
  - destruct ((c =? 45) || (c =? 43))%N.
    + destruct (Json.span_digits s') as [[|d ds] r'] eqn:E;
        intros [= _ <-]; [reflexivity|].
      apply span_digits_length in E. cbn [length]. lia.
    + destruct (Json.span_digits (c :: s')) as [[|d ds] r'] eqn:E;
        intros [= _ <-]; [reflexivity|].
      apply span_digits_length in E. cbn [length] in *. lia.
Qed.

Lemma match_number_length (s : str) (v : pyval) (r : str) :
  Json.match_number s = Some (v, r) -> length r < length s.
Proof.
  unfold Json.match_number.
  destruct (Json.match_integer s) as [[i r0]|] eqn:E0; [|discriminate].
  destruct (Json.match_frac r0) as [fr r1] eqn:E1.
  destruct (Json.match_exp r1) as [ex r2] eqn:E2.
  apply match_integer_length in E0. apply match_frac_length in E1.
  apply match_exp_length in E2.
  destruct (Json.is_nil fr && Json.is_nil ex); intros [= _ <-]; lia.
Qed.

Lemma strip_prefix_length (p s r : str) :
  strip_prefix p s = Some r -> length s = length p + length r.
Proof.
  intros H. apply strip_prefix_Some in H. subst s. apply length_app.
Qed.

Lemma literal_length (word : string) (v0 v : pyval) (s r : str) :
  L word <> [] -> Json.literal word v0 s = Some (v, r) -> length r < length s.
Proof.
  unfold Json.literal. intros Hw.
  destruct (strip_prefix (L word) s) as [r'|] eqn:E; [|discriminate].
  intros [= _ <-]. apply strip_prefix_length in E.
  destruct (L word); [congruence|]. cbn [length] in E. lia.
Qed.

Section ContainersFuel.
Variable scan1 scan2 : str -> option (pyval * str).
Variable bound : nat.
Hypothesis scan1_length :
  forall s v r, scan1 s = Some (v, r) -> length r < length s.
Hypothesis scan1_scan2 :
  forall s v r, length s <= bound -> scan1 s = Some (v, r) -> scan2 s = Some (v, r).

Lemma array_items_fuel (k : nat) :
  forall s l r, Json.array_items scan1 k s = Some (l, r) ->
  length r < length s /\
  (length s <= bound ->
   forall k', length s <= k' -> Json.array_items scan2 k' s = Some (l, r)).
Proof.
  induction k as [|k IH]; intros s l r; cbn [Json.array_items]; [discriminate|].
  destruct (scan1 s) as [[v r1]|] eqn:E; [|discriminate].
  pose proof (scan1_length _ _ _ E) as Hl.
  pose proof (skip_ws_length r1) as Hw.
  destruct (Json.skip_ws r1) as [|c r2] eqn:Ew; [discriminate|]. cbn [length] in Hw.
  destruct (N.eqb c 93) eqn:E93.
  - intros [= <- <-]. split; [lia|].
    intros Hb [|k'] Hk; [lia|]. cbn [Json.array_items].
    now rewrite (scan1_scan2 _ _ _ Hb E), Ew, E93.
  - destruct (N.eqb c 44) eqn:E44; [|discriminate].
    intros H. destruct (push_Some _ _ _ _ H) as (l' & -> & H').
    destruct (IH _ _ _ H') as [Hl' Hf].
    pose proof (skip_ws_length r2) as Hw2.
    split; [lia|].
    intros Hb [|k'] Hk; [lia|]. cbn [Json.array_items].
    rewrite (scan1_scan2 _ _ _ Hb E), Ew, E93, E44.
    rewrite (Hf ltac:(lia) k' ltac:(lia)). reflexivity.
Qed.

Lemma object_pairs_fuel (k : nat) :
  forall s ps r, Json.object_pairs scan1 k s = Some (ps, r) ->
  length r < length s /\
  (length s <= bound ->
   forall k', length s <= k' -> Json.object_pairs scan2 k' s = Some (ps, r)).
Proof.
  induction k as [|k IH]; intros s ps r; cbn [Json.object_pairs]; [discriminate|].
  destruct (Json.scanstring s) as [[key r0]|] eqn:Es; [|discriminate].
  pose proof (scanstring_length _ _ _ _ (le_n _) Es) as H0.
  pose proof (skip_ws_length r0) as Hw0.
  destruct (Json.skip_ws r0) as [|c r1] eqn:Ew0; [discriminate|]. cbn [length] in Hw0.
  destruct (N.eqb c 58) eqn:E58; [|discriminate].
  pose proof (skip_ws_length r1) as Hw1.
  destruct (scan1 (Json.skip_ws r1)) as [[v r2]|] eqn:E; [|discriminate].
  pose proof (scan1_length _ _ _ E) as Hl.
  pose proof (skip_ws_length r2) as Hw2.
  destruct (Json.skip_ws r2) as [|c2 r3] eqn:Ew2; [discriminate|]. cbn [length] in Hw2.
  destruct (N.eqb c2 125) eqn:E125.
  - intros [= <- <-]. split; [lia|].
    intros Hb [|k'] Hk; [lia|]. cbn [Json.object_pairs].
    rewrite Es, Ew0, E58, (scan1_scan2 (Json.skip_ws r1) v r2 ltac:(lia) E), Ew2, E125. reflexivity.
  - destruct (N.eqb c2 44) eqn:E44; [|discriminate].
    pose proof (skip_ws_length r3) as Hw3.
    destruct (Json.skip_ws r3) as [|q r4] eqn:Ew3; [discriminate|]. cbn [length] in Hw3.
    destruct (N.eqb q QUOTE) eqn:Eq; [|discriminate].
    intros H. destruct (push_Some _ _ _ _ H) as (ps' & -> & H').
    destruct (IH _ _ _ H') as [Hl' Hf].
    split; [lia|].
    intros Hb [|k'] Hk; [lia|]. cbn [Json.object_pairs].
    rewrite Es, Ew0, E58, (scan1_scan2 (Json.skip_ws r1) v r2 ltac:(lia) E), Ew2, E125, E44, Ew3, Eq.
    rewrite (Hf ltac:(lia) k' ltac:(lia)). reflexivity.
Qed.

Lemma parse_array_fuel (k : nat) (s : str) (v : pyval) (r : str) :
  Json.parse_array scan1 k s = Some (v, r) ->
  length r < S (length s) /\
  (length s <= bound ->
   forall k', length s <= k' -> Json.parse_array scan2 k' s = Some (v, r)).
Proof.
  unfold Json.parse_array.
  pose proof (skip_ws_length s) as Hw.
  destruct (Json.skip_ws s) as [|c r0] eqn:Ew; [discriminate|].
  destruct (N.eqb c 93).
  - intros [= <- <-]. cbn [length] in Hw. split; [lia|reflexivity].
  - destruct (Json.array_items scan1 k (c :: r0)) as [[l r1]|] eqn:E; [|discriminate].
    intros [= <- <-]. destruct (array_items_fuel _ _ _ _ E) as [Hl Hf].
    split; [lia|]. intros Hb k' Hk.
    now rewrite (Hf ltac:(lia) k' ltac:(lia)).
Qed.

Lemma parse_object_fuel (k : nat) (s : str) (v : pyval) (r : str) :
  Json.parse_object scan1 k s = Some (v, r) ->
  length r < S (length s) /\
  (length s <= bound ->
   forall k', length s <= k' -> Json.parse_object scan2 k' s = Some (v, r)).
Proof.
  unfold Json.parse_object.
  pose proof (skip_ws_length s) as Hw.
  destruct (Json.skip_ws s) as [|c r0] eqn:Ew; [discriminate|]. cbn [length] in Hw.
  destruct (N.eqb c 125).
  - intros [= <- <-]. split; [lia|reflexivity].
  - destruct (N.eqb c QUOTE); [|discriminate].
    destruct (Json.object_pairs scan1 k r0) as [[ps r1]|] eqn:E; [|discriminate].
    intros [= <- <-]. destruct (object_pairs_fuel _ _ _ _ E) as [Hl Hf].
    split; [lia|]. intros Hb k' Hk.
    now rewrite (Hf ltac:(lia) k' ltac:(lia)).
Qed.
End ContainersFuel.

(** A successful scan consumes input, and any fuel that is at least the
    length of the text gives the same result. *)
Lemma scan_once_fuel (n : nat) :
  forall s v r, Json.scan_once n s = Some (v, r) ->
  length r < length s /\
  forall m, length s <= m -> Json.scan_once m s = Some (v, r).
Proof.
  induction n as [|n IH]; intros s v r; cbn [Json.scan_once]; [discriminate|].
  destruct s as [|c s]; [discriminate|]. cbn [length].
  assert (Hlen : forall s' v' r', Json.scan_once n s' = Some (v', r') ->
                                  length r' < length s')
    by (intros s' v' r' H; exact (proj1 (IH _ _ _ H))).
  assert (Hfuel : forall m s' v' r', length s <= m -> length s' <= length s ->
                    Json.scan_once n s' = Some (v', r') ->
                    Json.scan_once m s' = Some (v', r'))
    by (intros m s' v' r' Hm Hs H; apply (proj2 (IH _ _ _ H)); lia).
  assert (Lit : forall word v0,
            L word <> [] ->
            Json.literal word v0 (c :: s) = Some (v, r) ->
            length r < S (length s))
    by (intros word v0 Hw H; exact (literal_length word v0 v (c :: s) r Hw H)).
  destruct (N.eqb c QUOTE) eqn:E1.
  { destruct (Json.scanstring s) as [[t r']|] eqn:Es; [|discriminate].
    intros [= <- <-]. pose proof (scanstring_length _ _ _ _ (le_n _) Es).
    split; [lia|]. intros [|m] Hm; [lia|]. cbn [Json.scan_once].
    now rewrite E1, Es. }
  destruct (N.eqb c 123) eqn:E2.
  { intros H. split.
    - exact (proj1 (parse_object_fuel (Json.scan_once n) (Json.scan_once n) 0 Hlen
                      (fun _ _ _ _ X => X) n s v r H)).
    - intros [|m] Hm; [lia|]. cbn [Json.scan_once]. rewrite E1, E2.
      apply (proj2 (parse_object_fuel (Json.scan_once n) (Json.scan_once m) (length s)
                      Hlen (fun s' v' r' Hs X => Hfuel m s' v' r' ltac:(lia) Hs X)
                      n s v r H)); lia. }
  destruct (N.eqb c 91) eqn:E3.
  { intros H. split.
    - exact (proj1 (parse_array_fuel (Json.scan_once n) (Json.scan_once n) 0 Hlen
                      (fun _ _ _ _ X => X) n s v r H)).
    - intros [|m] Hm; [lia|]. cbn [Json.scan_once]. rewrite E1, E2, E3.
      apply (proj2 (parse_array_fuel (Json.scan_once n) (Json.scan_once m) (length s)
                      Hlen (fun s' v' r' Hs X => Hfuel m s' v' r' ltac:(lia) Hs X)
                      n s v r H)); lia. }
  intros H.
  assert (Hl : length r < S (length s)).
  { revert H.
    destruct (startswith (c :: s) (L "null")); [now apply Lit|].
    destruct (startswith (c :: s) (L "true")); [now apply Lit|].
    destruct (startswith (c :: s) (L "false")); [now apply Lit|].
    destruct (Json.match_number (c :: s)) as [[v' r']|] eqn:E.
    { intros [= <- <-]. exact (match_number_length _ _ _ E). }
    destruct (startswith (c :: s) (L "NaN")); [now apply Lit|].
    destruct (startswith (c :: s) (L "Infinity")); [now apply Lit|].
    destruct (startswith (c :: s) (L "-Infinity")); [now apply Lit|].
    discriminate. }
  split; [exact Hl|].
  intros [|m] Hm; [lia|]. cbn [Json.scan_once]. now rewrite E1, E2, E3.
Qed.

(** The fuel given by [loads] is enough: it succeeds as soon as any
    amount of fuel lets the scan succeed on the whole text. *)
Lemma loads_fuel (s : str) (v : pyval) :
  Json.loads s = Some v <->
  exists fuel r, Json.scan_once fuel (Json.skip_ws s) = Some (v, r) /\
                 Json.skip_ws r = [].
Proof.
  unfold Json.loads. split.
  - destruct (Json.scan_once _ _) as [[v' r]|] eqn:E; [|discriminate].
    destruct (Json.skip_ws r) eqn:Er; [|discriminate]. intros [= <-].
    exists (S (length s)), r. split; assumption.
  - intros (fuel & r & H & Hr).
    pose proof (skip_ws_length s).
    rewrite (proj2 (scan_once_fuel _ _ _ _ H) (S (length s)) ltac:(lia)).
    now rewrite Hr.
Qed.

(** ** The parser reads no further than it consumes *)

Lemma skip_ws_split (s : str) :
  exists ws, s = ws ++ Json.skip_ws s /\ forallb Json.is_ws ws = true.
Proof.
  induction s as [|c s (ws & E & H)]; [now exists []|].
  cbn [Json.skip_ws]. destruct (Json.is_ws c) eqn:Ec.
  - exists (c :: ws). split; [cbn [app]; now f_equal|].
    cbn [forallb]. now rewrite Ec, H.
  - now exists [].
Qed.

Lemma skip_ws_app (ws x : str) :
  forallb Json.is_ws ws = true -> Json.skip_ws (ws ++ x) = Json.skip_ws x.
Proof.
  induction ws as [|c ws IH]; [reflexivity|].
  cbn [forallb app Json.skip_ws]. intros H. apply andb_true_iff in H as [H1 H2].
  rewrite H1. auto.
Qed.

Lemma skip_ws_head (s : str) (c : char) (t : str) :
  Json.skip_ws s = c :: t -> Json.is_ws c = false.
Proof.
  induction s as [|x s IH]; [discriminate|].
  cbn [Json.skip_ws]. destruct (Json.is_ws x) eqn:E; [exact IH|].
  now intros [= <- _].
Qed.

Lemma skip_ws_solid (c : char) (t : str) :
  Json.is_ws c = false -> Json.skip_ws (c :: t) = c :: t.
Proof. intros H. cbn [Json.skip_ws]. now rewrite H. Qed.

Lemma is_ws_follow_ok (c : char) (t : str) :
  Json.is_ws c = true -> follow_ok (c :: t) = true.
Proof.
  unfold Json.is_ws, follow_ok, Json.is_digit. intros H.
  assert (R : (c = 32 \/ c = 9 \/ c = 10 \/ c = 13)%N).
  { repeat (apply orb_true_iff in H as [H|H]); apply N.eqb_eq in H; auto. }
  apply negb_true_iff.
  repeat match goal with
         | |- context [N.leb ?a ?b] => destruct (N.leb_spec a b); try lia
         | |- context [N.eqb ?a ?b] => destruct (N.eqb_spec a b); try lia
         end; reflexivity.
Qed.

(** The step of [scanstring] at a [\u] escape. *)
Lemma scanstring_u_step (h1 h2 h3 h4 : char) (u : N) (r2 : str) :
  Json.hex4 h1 h2 h3 h4 = Some u ->
  Json.scanstring (BACKSLASH :: 117%N :: h1 :: h2 :: h3 :: h4 :: r2) =
    if Json.is_high_surrogate u && negb (no_low_escape r2)
    then match r2 with
         | _ :: _ :: g1 :: g2 :: g3 :: g4 :: r3 =>
             match Json.hex4 g1 g2 g3 g4 with
             | Some u2 => Json.push (Json.join_surrogates u u2) (Json.scanstring r3)
             | None => None
             end
         | _ => None
         end
    else Json.push u (Json.scanstring r2).
Proof.
  intros Hh. cbn [Json.scanstring]. cbn [N.eqb Pos.eqb]. rewrite Hh.
  destruct (Json.is_high_surrogate u); [|reflexivity]. cbn [andb].
  destruct r2 as [|b [|x [|g1 [|g2 [|g3 [|g4 r3]]]]]]; try reflexivity.
  unfold no_low_escape.
  destruct ((b =? BACKSLASH) && (x =? 117))%N; [|reflexivity].
  cbn [negb orb].
  destruct (Json.hex4 g1 g2 g3 g4) as [u2|]; [|reflexivity].
  destruct (Json.is_low_surrogate u2); reflexivity.
Qed.

Lemma no_low_escape_u_any (h1 h2 h3 h4 : char) (T T' : str) :
  no_low_escape (BACKSLASH :: 117%N :: h1 :: h2 :: h3 :: h4 :: T) =
  no_low_escape (BACKSLASH :: 117%N :: h1 :: h2 :: h3 :: h4 :: T').
Proof. reflexivity. Qed.

(** [scanstring] stops at the closing quote: what follows it plays no
    role. *)
Lemma scanstring_local (n : nat) :
  forall s t r, length s <= n -> Json.scanstring s = Some (t, r) ->
  exists body,
    s = body ++ QUOTE :: r /\
    (forall r', Json.scanstring (body ++ QUOTE :: r') = Some (t, r')) /\
    (forall r', no_low_escape (body ++ QUOTE :: r') = no_low_escape (body ++ QUOTE :: r)).
Proof.
  induction n as [|n IH]; intros s t r Hn.
  { destruct s; [discriminate|cbn [length] in Hn; lia]. }
  destruct s as [|c s]; [discriminate|]. cbn [length] in Hn.
  destruct (N.eqb c QUOTE) eqn:E1.
  { cbn [Json.scanstring]. rewrite E1. intros [= <- <-].
    apply N.eqb_eq in E1. subst c. exists []. repeat split.
    intros r'. cbn [app]. now rewrite !no_low_escape_head. }
  destruct (N.eqb c BACKSLASH) eqn:E2.
  - apply N.eqb_eq in E2. subst c.
    destruct s as [|e r1]; [discriminate|]. cbn [length] in Hn.
    destruct (N.eqb e 117) eqn:E3.
    + apply N.eqb_eq in E3. subst e.
      destruct r1 as [|h1 [|h2 [|h3 [|h4 r2]]]]; try discriminate.
      cbn [length] in Hn.
      destruct (Json.hex4 h1 h2 h3 h4) as [u|] eqn:Eh;
        [|cbn [Json.scanstring]; cbn [N.eqb Pos.eqb]; rewrite Eh; discriminate].
      rewrite (scanstring_u_step _ _ _ _ u r2 Eh).
      destruct (Json.is_high_surrogate u && negb (no_low_escape r2)) eqn:Ep.
      * destruct r2 as [|b [|x [|g1 [|g2 [|g3 [|g4 r3]]]]]]; try discriminate.
        cbn [length] in Hn.
        destruct (Json.hex4 g1 g2 g3 g4) as [u2|] eqn:Eg; [|discriminate].
        intros H. apply push_Some in H as (t' & -> & H).
        destruct (IH r3 t' r ltac:(lia) H) as (body & -> & Hb & _).
        exists (BACKSLASH :: 117%N :: h1 :: h2 :: h3 :: h4 ::
                b :: x :: g1 :: g2 :: g3 :: g4 :: body).
        split; [reflexivity|]. split.
        -- intros r'. cbn [app]. rewrite (scanstring_u_step _ _ _ _ u _ Eh).
           assert (Ep' : Json.is_high_surrogate u &&
                         negb (no_low_escape (b :: x :: g1 :: g2 :: g3 :: g4 ::
                                              body ++ QUOTE :: r')) = true)
             by exact Ep.
           now rewrite Ep', Eg, Hb.
        -- intros r'. reflexivity.
      * intros H. apply push_Some in H as (t' & -> & H).
        destruct (IH r2 t' r ltac:(lia) H) as (body & -> & Hb & Hl).
        exists (BACKSLASH :: 117%N :: h1 :: h2 :: h3 :: h4 :: body).
        split; [reflexivity|]. split.
        -- intros r'. cbn [app]. rewrite (scanstring_u_step _ _ _ _ u _ Eh).
           now rewrite (Hl r'), Ep, Hb.
        -- intros r'. reflexivity.
    + cbn [Json.scanstring]. cbn [N.eqb Pos.eqb]. rewrite E3.
      destruct (Json.simple_escape e) as [d|] eqn:Ed; [|discriminate].
      intros H. apply push_Some in H as (t' & -> & H).
      destruct (IH r1 t' r ltac:(lia) H) as (body & -> & Hb & _).
      exists (BACKSLASH :: e :: body). split; [reflexivity|]. split.
      * intros r'. cbn [app]. now rewrite (scanstring_simple e d _ E3 Ed), Hb.
      * intros r'. cbn [app]. now rewrite !no_low_escape_simple.
  - cbn [Json.scanstring]. rewrite E1, E2.
    destruct (N.ltb c 32) eqn:E3; [discriminate|].
    intros H. apply push_Some in H as (t' & -> & H).
    destruct (IH s t' r ltac:(lia) H) as (body & -> & Hb & _).
    exists (c :: body). split; [reflexivity|]. split.
    + intros r'. cbn [app]. now rewrite (scanstring_char c _ E1 E2 E3), Hb.
    + intros r'. cbn [app]. now rewrite !no_low_escape_head.
Qed.

Lemma span_digits_split (s ds r : str) :
  Json.span_digits s = (ds, r) -> s = ds ++ r /\ forallb Json.is_digit ds = true.
Proof.
  revert ds r. induction s as [|c s IH]; intros ds r; cbn [Json.span_digits].
  - intros [= <- <-]. split; reflexivity.
  - destruct (Json.is_digit c) eqn:Ec.
    + destruct (Json.span_digits s) as [ds' r'] eqn:E. intros [= <- <-].
      destruct (IH _ _ eq_refl) as [-> H]. split; [reflexivity|].
      cbn [forallb]. now rewrite Ec, H.
    + intros [= <- <-]. split; reflexivity.
Qed.

Lemma ends_with_digit_app (a ds : str) :
  ds <> [] -> forallb Json.is_digit ds = true -> ends_with_digit (a ++ ds).
Proof.
  intros Hne Hd. destruct (exists_last Hne) as (front & d & ->).
  exists (a ++ front), d. split; [now rewrite app_assoc|].
  rewrite forallb_app in Hd. apply andb_true_iff in Hd as [_ Hd].
  cbn [forallb] in Hd. now rewrite andb_true_r in Hd.
Qed.

Lemma match_integer_local (s i r : str) :
  Json.match_integer s = Some (i, r) ->
  s = i ++ r /\
  (exists c t, i = c :: t /\ (Json.is_digit c = true \/ c = 45%N)) /\
  ends_with_digit i /\
  forall r', match r' with [] => true | h :: _ => negb (Json.is_digit h) end = true ->
             Json.match_integer (i ++ r') = Some (i, r').
Proof.
  unfold Json.match_integer.
  assert (G : forall sign s1,
              (sign = [] \/ sign = [45%N]) ->
              (sign = [] -> exists c t, s1 = c :: t /\ N.eqb c 45 = false) ->
              match s1 with
              | [] => None
              | c :: r0 =>
                  if (c =? 48)%N then Some (sign ++ [c], r0)
                  else if Json.is_digit c
                       then let (ds, r') := Json.span_digits r0 in Some (sign ++ c :: ds, r')
                       else None
              end = Some (i, r) ->
              sign ++ s1 = i ++ r /\
              (exists c t, i = c :: t /\ (Json.is_digit c = true \/ c = 45%N)) /\
              ends_with_digit i /\
              forall r', match r' with [] => true | h :: _ => negb (Json.is_digit h) end
                         = true ->
                (let (sign0, s2) :=
                   match i ++ r' with
                   | [] => ([], i ++ r')
                   | c :: r0 => if (c =? 45)%N then ([c], r0) else ([], i ++ r')
                   end in
                 match s2 with
                 | [] => None
                 | c :: r0 =>
                     if (c =? 48)%N then Some (sign0 ++ [c], r0)
                     else if Json.is_digit c
                          then let (ds, r'0) := Json.span_digits r0 in
                               Some (sign0 ++ c :: ds, r'0)
                          else None
                 end) = Some (i, r')).
  { intros sign [|c r0] Hs Hh; [discriminate|].
    destruct (N.eqb c 48) eqn:E48.
    - intros [= <- <-]. apply N.eqb_eq in E48. subst c. split; [now rewrite <- app_assoc|].
      split; [|split].
      + destruct Hs as [-> | ->]; eexists; eexists; (split; [reflexivity|]);
          [now left|now right].
      + exists sign, 48%N. split; reflexivity.
      + intros r' _. destruct Hs as [-> | ->]; reflexivity.
    - destruct (Json.is_digit c) eqn:Ec; [|discriminate].
      destruct (Json.span_digits r0) as [ds r1] eqn:E. intros [= <- <-].
      destruct (span_digits_split _ _ _ E) as [-> Hd].
      split; [now rewrite <- app_assoc|]. split; [|split].
      + destruct Hs as [-> | ->]; eexists; eexists; (split; [reflexivity|]);
          [now left|now right].
      + apply (ends_with_digit_app sign (c :: ds)); [discriminate|].
        cbn [forallb]. now rewrite Ec, Hd.
      + intros r' Hr'.
        pose proof (span_digits_app ds r' Hd Hr') as Es.
        destruct Hs as [-> | ->]; cbn [app].
        * destruct (Hh eq_refl) as (c' & t' & [= <- <-] & H45).
          now rewrite H45, E48, Ec, Es.
        * cbn [N.eqb Pos.eqb]. now rewrite E48, Ec, Es. }
  destruct s as [|c s]; [discriminate|].
  destruct (N.eqb c 45) eqn:E45.
  - apply N.eqb_eq in E45. subst c. intros H.
    apply (G [45%N] s); [now right|discriminate|exact H].
  - intros H. apply (G [] (c :: s)); [now left| |exact H].
    intros _. now exists c, s.
Qed.

Lemma match_frac_local (s fr r : str) :
  Json.match_frac s = (fr, r) ->
  s = fr ++ r /\
  (fr = [] \/ ends_with_digit fr /\ exists t, fr = 46%N :: t) /\
  forall X,
    match X with [] => true | h :: _ => negb (Json.is_digit h) end = true ->
    (fr = [] -> Json.match_frac X = ([], X)) ->
    Json.match_frac (fr ++ X) = (fr, X).
Proof.
  unfold Json.match_frac at 1.
  destruct s as [|c s]; [intros [= <- <-]; repeat split; auto|].
  destruct (N.eqb c 46) eqn:E46; [|intros [= <- <-]; repeat split; auto].
  destruct (Json.span_digits s) as [[|d ds] r'] eqn:E;
    intros [= <- <-]; [repeat split; auto|].
  destruct (span_digits_split _ _ _ E) as [-> Hd].
  split; [reflexivity|]. split.
  - right. split.
    + apply (ends_with_digit_app [c] (d :: ds)); [discriminate|exact Hd].
    + apply N.eqb_eq in E46. subst c. now exists (d :: ds).
  - intros X HX _. cbn [app]. unfold Json.match_frac. rewrite E46.
    change (d :: ds ++ X) with ((d :: ds) ++ X).
    now rewrite (span_digits_app (d :: ds) X Hd HX).
Qed.

Lemma match_exp_local (s ex r : str) :
  Json.match_exp s = (ex, r) ->
  s = ex ++ r /\
  (ex = [] \/
   ends_with_digit ex /\
   exists e t, ex = e :: t /\ Json.is_digit e = false /\ N.eqb e 46 = false) /\
  forall X,
    match X with [] => true | h :: _ => negb (Json.is_digit h) end = true ->
    (ex = [] -> Json.match_exp X = ([], X)) ->
    Json.match_exp (ex ++ X) = (ex, X).
Proof.
  unfold Json.match_exp at 1.
  destruct s as [|e s]; [intros [= <- <-]; repeat split; auto|].
  destruct ((e =? 101) || (e =? 69))%N eqn:Ee; [|intros [= <- <-]; repeat split; auto].
  assert (He : Json.is_digit e = false /\ N.eqb e 46 = false).
  { apply orb_true_iff in Ee as [H|H]; apply N.eqb_eq in H; subst e; split; reflexivity. }
  assert (G : forall sg s1,
              (sg = [] /\ (forall c t, s1 = c :: t -> ((c =? 45) || (c =? 43))%N = false)
               \/ sg = [45%N] \/ sg = [43%N]) ->
              match Json.span_digits s1 with
              | ([], _) => ([], e :: sg ++ s1)
              | (ds, r2) => (e :: sg ++ ds, r2)
              end = (ex, r) ->
              e :: sg ++ s1 = ex ++ r /\
              (ex = [] \/
               ends_with_digit ex /\
               exists e0 t, ex = e0 :: t /\ Json.is_digit e0 = false /\ N.eqb e0 46 = false) /\
              forall X,
                match X with [] => true | h :: _ => negb (Json.is_digit h) end = true ->
                (ex = [] -> Json.match_exp X = ([], X)) ->
                Json.match_exp (ex ++ X) = (ex, X)).
  { intros sg s1 Hsg.
    destruct (Json.span_digits s1) as [[|d ds] r2] eqn:E; intros [= <- <-].
    - repeat split; auto.
    - destruct (span_digits_split _ _ _ E) as [-> Hd].
      split; [cbn [app]; now rewrite <- app_assoc|]. split.
      + right. split.
        * change (e :: sg ++ d :: ds) with ((e :: sg) ++ (d :: ds)).
          apply ends_with_digit_app; [discriminate|exact Hd].
        * exists e, (sg ++ d :: ds). now split.
      + intros X HX _. cbn [app]. rewrite <- app_assoc.
        unfold Json.match_exp. rewrite Ee.
        pose proof (span_digits_app (d :: ds) X Hd HX) as Es.
        destruct Hsg as [[-> Hc] | [-> | ->]]; cbn [app N.eqb Pos.eqb orb].
        * rewrite (Hc d (ds ++ r2) eq_refl).
          change (d :: ds ++ X) with ((d :: ds) ++ X). now rewrite Es.
        * change (d :: ds ++ X) with ((d :: ds) ++ X). now rewrite Es.
        * change (d :: ds ++ X) with ((d :: ds) ++ X). now rewrite Es. }
  destruct s as [|c s'].
  - apply (G [] []). left. split; [reflexivity|discriminate].
  - destruct ((c =? 45) || (c =? 43))%N eqn:Ec.
    + assert (Hc : c = 45%N \/ c = 43%N)
        by (apply orb_true_iff in Ec as [X|X]; apply N.eqb_eq in X; auto).
      destruct Hc as [-> | ->]; [apply (G [45%N] s')|apply (G [43%N] s')]; auto.
    + apply (G [] (c :: s')). left. split; [reflexivity|].
      now intros c0 t [= <- <-].
Qed.

(** A number is read the same in front of any rest that cannot
    continue it. *)
Lemma match_number_local (s : str) (v : pyval) (r : str) :
  Json.match_number s = Some (v, r) ->
  exists lex,
    s = lex ++ r /\
    (exists c t, lex = c :: t /\ (Json.is_digit c = true \/ c = 45%N)) /\
    ends_with_digit lex /\
    forall r', follow_ok r' = true -> Json.match_number (lex ++ r') = Some (v, r').
Proof.
  unfold Json.match_number at 1.
  destruct (Json.match_integer s) as [[i r0]|] eqn:E0; [|discriminate].
  destruct (Json.match_frac r0) as [fr r1] eqn:E1.
  destruct (Json.match_exp r1) as [ex r2] eqn:E2.
  destruct (match_integer_local _ _ _ E0) as (-> & Hhead & Hi & Li).
  destruct (match_frac_local _ _ _ E1) as (-> & Hfr & Lf).
  destruct (match_exp_local _ _ _ E2) as (-> & Hex & Le).
  intros Hv.
  assert (Hr : r2 = r /\
               v = if Json.is_nil fr && Json.is_nil ex
                   then PInt (Json.parse_int i) else PFloat (i ++ fr ++ ex))
    by (destruct (Json.is_nil fr && Json.is_nil ex); injection Hv as <- <-; auto).
  destruct Hr as [-> Ev]. clear Hv.
  exists (i ++ fr ++ ex). split; [now rewrite <- !app_assoc|]. split; [|split].
  - destruct Hhead as (c & t & -> & Hc). exists c, (t ++ fr ++ ex). now split.
  - destruct Hex as [-> | [(front & d & -> & Hd) _]].
    + rewrite List.app_nil_r.
      destruct Hfr as [-> | [(front & d & -> & Hd) _]].
      * now rewrite List.app_nil_r.
      * exists (i ++ front), d. split; [now rewrite app_assoc|exact Hd].
    + exists (i ++ fr ++ front), d. split; [now rewrite !app_assoc|exact Hd].
  - intros r' Hr'. unfold Json.match_number.
    pose proof (follow_ok_digit r' Hr') as Hd'.
    assert (HX : match ex ++ r' with [] => true | h :: _ => negb (Json.is_digit h) end
                 = true).
    { destruct Hex as [-> | [_ (e & t & -> & He & _)]]; [exact Hd'|].
      cbn [app]. now rewrite He. }
    assert (HY : match fr ++ ex ++ r' with
                 | [] => true | h :: _ => negb (Json.is_digit h) end = true).
    { destruct Hfr as [-> | [_ (t & ->)]]; [exact HX|reflexivity]. }
    assert (Ef : Json.match_frac (fr ++ ex ++ r') = (fr, ex ++ r')).
    { apply Lf; [exact HX|]. intros ->.
      destruct Hex as [-> | [_ (e & t & -> & _ & He)]].
      - now apply match_frac_follow.
      - cbn [app]. unfold Json.match_frac. now rewrite He. }
    assert (Ee : Json.match_exp (ex ++ r') = (ex, r')).
    { apply Le; [exact Hd'|]. intros ->. now apply match_exp_follow. }
    rewrite <- !app_assoc.
    rewrite (Li _ HY), Ef, Ee, Ev.
    now destruct (Json.is_nil fr && Json.is_nil ex).
Qed.

Lemma is_ws_py_isspace (c : char) : Json.is_ws c = true -> py_isspace c = true.
Proof.
  unfold Json.is_ws. intros H.
  assert (R : (c = 32 \/ c = 9 \/ c = 10 \/ c = 13)%N).
  { repeat (apply orb_true_iff in H as [H|H]); apply N.eqb_eq in H; auto. }
  destruct R as [-> | [-> | [-> | ->]]]; reflexivity.
Qed.

Lemma solid_head_not_ws (core r : str) :
  solid core -> Json.skip_ws (core ++ r) = core ++ r.
Proof.
  intros [(c & t & -> & Hc) _]. cbn [app]. apply skip_ws_solid.
  destruct (Json.is_ws c) eqn:E; [|reflexivity].
  apply is_ws_py_isspace in E. congruence.
Qed.

Lemma solid_wrap (a : char) (body : str) (b : char) :
  py_isspace a = false -> py_isspace b = false -> solid (a :: body ++ [b]).
Proof.
  intros Ha Hb. split.
  - now exists a, (body ++ [b]).
  - now exists (a :: body), b.
Qed.

Lemma follow_ok_ws_app (ws : str) (c : char) (X : str) :
  forallb Json.is_ws ws = true -> follow_ok (c :: X) = true ->
  follow_ok (ws ++ c :: X) = true.
Proof.
  destruct ws as [|w ws]; [auto|]. cbn [forallb app]. intros H _.
  apply andb_true_iff in H as [H _]. now apply is_ws_follow_ok.
Qed.

Lemma same_head (core : str) (a : char) (r r' : str) (h : char) (t : str) :
  core ++ a :: r = h :: t -> exists t', core ++ a :: r' = h :: t'.
Proof.
  destruct core as [|x core]; cbn [app].
  - intros [= -> _]. now exists r'.
  - intros [= -> _]. now exists (core ++ a :: r').
Qed.

Ltac norm_app := repeat first [rewrite <- app_assoc | progress cbn [app]].

Section ContainersLocal.
Variable scan : str -> option (pyval * str).
Hypothesis scan_local :
  forall s v r, scan s = Some (v, r) ->
  exists core, s = core ++ r /\ solid core /\
               forall r', follow_ok r' = true -> scan (core ++ r') = Some (v, r').

Lemma array_items_local (k : nat) :
  forall s l r, Json.array_items scan k s = Some (l, r) ->
  exists core, s = core ++ 93%N :: r /\
               forall r', Json.array_items scan k (core ++ 93%N :: r') = Some (l, r').
Proof.
  induction k as [|k IH]; intros s l r; cbn [Json.array_items]; [discriminate|].
  destruct (scan s) as [[v r1]|] eqn:E; [|discriminate].
  destruct (scan_local _ _ _ E) as (core1 & -> & _ & L1).
  destruct (skip_ws_split r1) as (ws1 & E1 & Hws1).
  destruct (Json.skip_ws r1) as [|c r2] eqn:Ew; [discriminate|].
  destruct (N.eqb c 93) eqn:E93.
  - intros [= <- <-]. apply N.eqb_eq in E93. subst c r1.
    exists (core1 ++ ws1). split; [now rewrite <- app_assoc|].
    intros r'. rewrite <- app_assoc. cbn [Json.array_items].
    rewrite L1 by (now apply follow_ok_ws_app).
    now rewrite (skip_ws_app ws1 _ Hws1).
  - destruct (N.eqb c 44) eqn:E44; [|discriminate].
    apply N.eqb_eq in E44. subst c r1.
    intros H. apply push_Some in H as (l' & -> & H).
    destruct (skip_ws_split r2) as (ws2 & E2 & Hws2).
    destruct (IH _ _ _ H) as (core2 & Ec2 & L2).
    exists (core1 ++ ws1 ++ 44%N :: ws2 ++ core2).
    split.
    + rewrite E2 at 1. rewrite Ec2. now norm_app.
    + intros r'. norm_app.
      cbn [Json.array_items].
      rewrite L1 by (now apply follow_ok_ws_app).
      rewrite (skip_ws_app ws1 _ Hws1). cbn [Json.skip_ws Json.is_ws N.eqb Pos.eqb orb].
      rewrite (skip_ws_app ws2 _ Hws2).
      assert (Eh : Json.skip_ws (core2 ++ 93%N :: r') = core2 ++ 93%N :: r').
      { destruct (Json.skip_ws r2) as [|h t] eqn:Eh.
        - destruct core2; discriminate.
        - destruct (same_head core2 93%N r r' h t (eq_sym Ec2)) as [t' ->].
          apply skip_ws_solid. exact (skip_ws_head _ _ _ Eh). }
      now rewrite Eh, L2.
Qed.

Lemma parse_array_local (k : nat) (s : str) (v : pyval) (r : str) :
  Json.parse_array scan k s = Some (v, r) ->
  exists core, s = core ++ 93%N :: r /\
               forall r', Json.parse_array scan k (core ++ 93%N :: r') = Some (v, r').
Proof.
  unfold Json.parse_array.
  destruct (skip_ws_split s) as (ws & Es & Hws).
  destruct (Json.skip_ws s) as [|c r0] eqn:Ew; [discriminate|].
  destruct (N.eqb c 93) eqn:E93.
  - intros [= <- <-]. apply N.eqb_eq in E93. subst c.
    exists ws. split; [exact Es|]. intros r'.
    now rewrite (skip_ws_app ws _ Hws).
  - destruct (Json.array_items scan k (c :: r0)) as [[l r1]|] eqn:E; [|discriminate].
    intros [= <- <-].
    destruct (array_items_local _ _ _ _ E) as (core1 & Ec & L1).
    exists (ws ++ core1). split; [now rewrite Es, Ec, <- app_assoc|].
    intros r'. rewrite <- app_assoc, (skip_ws_app ws _ Hws).
    destruct (same_head core1 93%N r1 r' c r0 (eq_sym Ec)) as [t' Et].
    rewrite Et, (skip_ws_solid c t' (skip_ws_head _ _ _ Ew)), E93, <- Et.
    now rewrite L1.
Qed.

Lemma object_pairs_local (k : nat) :
  forall s ps r, Json.object_pairs scan k s = Some (ps, r) ->
  exists core, s = core ++ 125%N :: r /\
               forall r', Json.object_pairs scan k (core ++ 125%N :: r') = Some (ps, r').
Proof.
  induction k as [|k IH]; intros s ps r; cbn [Json.object_pairs]; [discriminate|].
  destruct (Json.scanstring s) as [[key r0]|] eqn:Es; [|discriminate].
  destruct (scanstring_local _ _ _ _ (le_n _) Es) as (body & -> & Lb & _).
  destruct (skip_ws_split r0) as (ws0 & E0 & Hws0).
  destruct (Json.skip_ws r0) as [|c r1] eqn:Ew0; [discriminate|].
  destruct (N.eqb c 58) eqn:E58; [|discriminate].
  apply N.eqb_eq in E58. subst c r0.
  destruct (skip_ws_split r1) as (ws1 & E1 & Hws1).
  destruct (scan (Json.skip_ws r1)) as [[v r2]|] eqn:E; [|discriminate].
  destruct (scan_local _ _ _ E) as (corev & Ev & Hsolid & Lv).
  destruct (skip_ws_split r2) as (ws2 & E2 & Hws2).
  destruct (Json.skip_ws r2) as [|c2 r3] eqn:Ew2; [discriminate|].
  assert (Hv : forall c X,
             follow_ok (c :: X) = true ->
             scan (Json.skip_ws (ws1 ++ corev ++ ws2 ++ c :: X))
             = Some (v, ws2 ++ c :: X)).
  { intros c X Hc. rewrite (skip_ws_app ws1 _ Hws1).
    rewrite (solid_head_not_ws corev _ Hsolid).
    apply Lv. now apply follow_ok_ws_app. }
  destruct (N.eqb c2 125) eqn:E125.
  - intros [= <- <-]. apply N.eqb_eq in E125. subst c2.
    exists (body ++ QUOTE :: ws0 ++ 58%N :: ws1 ++ corev ++ ws2).
    split.
    + rewrite E1 at 1. rewrite Ev, E2 at 1. now norm_app.
    + intros r'. norm_app. cbn [Json.object_pairs].
      rewrite Lb, (skip_ws_app ws0 _ Hws0).
      cbn [Json.skip_ws Json.is_ws N.eqb Pos.eqb orb].
      rewrite Hv by reflexivity.
      now rewrite (skip_ws_app ws2 _ Hws2).
  - destruct (N.eqb c2 44) eqn:E44; [|discriminate].
    apply N.eqb_eq in E44. subst c2.
    destruct (skip_ws_split r3) as (ws3 & E3 & Hws3).
    destruct (Json.skip_ws r3) as [|q r4] eqn:Ew3; [discriminate|].
    destruct (N.eqb q QUOTE) eqn:Eq; [|discriminate].
    apply N.eqb_eq in Eq. subst q.
    intros H. apply push_Some in H as (ps' & -> & H).
    destruct (IH _ _ _ H) as (core4 & -> & L4).
    exists (body ++ QUOTE :: ws0 ++ 58%N :: ws1 ++ corev ++ ws2 ++
            44%N :: ws3 ++ QUOTE :: core4).
    split.
    + rewrite E1 at 1. rewrite Ev, E2 at 1. rewrite E3 at 1. now norm_app.
    + intros r'. norm_app. cbn [Json.object_pairs].
      rewrite Lb, (skip_ws_app ws0 _ Hws0).
      cbn [Json.skip_ws Json.is_ws N.eqb Pos.eqb orb].
      rewrite Hv by reflexivity.
      rewrite (skip_ws_app ws2 _ Hws2).
      cbn [Json.skip_ws Json.is_ws N.eqb Pos.eqb orb].
      rewrite (skip_ws_app ws3 _ Hws3).
      cbn [Json.skip_ws Json.is_ws N.eqb Pos.eqb orb].
      now rewrite L4.
Qed.

Lemma parse_object_local (k : nat) (s : str) (v : pyval) (r : str) :
  Json.parse_object scan k s = Some (v, r) ->
  exists core, s = core ++ 125%N :: r /\
               forall r', Json.parse_object scan k (core ++ 125%N :: r') = Some (v, r').
Proof.
  unfold Json.parse_object.
  destruct (skip_ws_split s) as (ws & Es & Hws).
  destruct (Json.skip_ws s) as [|c r0] eqn:Ew; [discriminate|].
  destruct (N.eqb c 125) eqn:E125.
  - intros [= <- <-]. apply N.eqb_eq in E125. subst c.
    exists ws. split; [exact Es|]. intros r'.
    now rewrite (skip_ws_app ws _ Hws).
  - destruct (N.eqb c QUOTE) eqn:Eq; [|discriminate].
    apply N.eqb_eq in Eq. subst c.
    destruct (Json.object_pairs scan k r0) as [[ps r1]|] eqn:E; [|discriminate].
    intros [= <- <-].
    destruct (object_pairs_local _ _ _ _ E) as (core1 & -> & L1).
    exists (ws ++ QUOTE :: core1). split; [now rewrite Es, <- app_assoc|].
    intros r'. rewrite <- app_assoc, (skip_ws_app ws _ Hws). cbn [app].
    cbn [Json.skip_ws Json.is_ws N.eqb Pos.eqb orb].
    now rewrite L1.
Qed.
End ContainersLocal.

Lemma digit_not_space (c : char) :
  Json.is_digit c = true \/ c = 45%N -> py_isspace c = false.
Proof.
  intros H. apply printable_not_space.
  destruct H as [H| ->]; [apply is_digit_range in H|]; lia.
Qed.

Lemma literal_local (fuel : nat) (word : string) (v0 v : pyval) (s r : str) :
  Json.literal word v0 s = Some (v, r) -> s = L word ++ r /\ v = v0.
Proof.
  unfold Json.literal. destruct (strip_prefix (L word) s) as [r'|] eqn:E; [|discriminate].
  intros [= <- <-]. split; [now apply strip_prefix_Some|reflexivity].
Qed.

(** What [scan_once] consumes is a text without white space at its ends,
    and it is read the same in front of any rest that cannot continue a
    number. *)
Lemma scan_once_local (n : nat) :
  forall s v r, Json.scan_once n s = Some (v, r) ->
  exists core, s = core ++ r /\ solid core /\
               forall r', follow_ok r' = true ->
                          Json.scan_once n (core ++ r') = Some (v, r').
Proof.
  induction n as [|n IH]; intros s v r; cbn [Json.scan_once]; [discriminate|].
  destruct s as [|c s]; [discriminate|].
  destruct (N.eqb c QUOTE) eqn:E1.
  { destruct (Json.scanstring s) as [[t r']|] eqn:Es; [|discriminate].
    intros [= <- <-]. apply N.eqb_eq in E1. subst c.
    destruct (scanstring_local _ _ _ _ (le_n _) Es) as (body & -> & Lb & _).
    exists (QUOTE :: body ++ [QUOTE]). split; [now norm_app|].
    split; [now apply solid_wrap|].
    intros rr _. norm_app. cbn [Json.scan_once N.eqb Pos.eqb]. now rewrite Lb. }
  destruct (N.eqb c 123) eqn:E2.
  { intros H. apply N.eqb_eq in E2. subst c.
    destruct (parse_object_local _ IH _ _ _ _ H) as (core & -> & Lo).
    exists (123%N :: core ++ [125%N]). split; [now norm_app|].
    split; [now apply solid_wrap|].
    intros rr _. norm_app. cbn [Json.scan_once N.eqb Pos.eqb]. now rewrite Lo. }
  destruct (N.eqb c 91) eqn:E3.
  { intros H. apply N.eqb_eq in E3. subst c.
    destruct (parse_array_local _ IH _ _ _ _ H) as (core & -> & La).
    exists (91%N :: core ++ [93%N]). split; [now norm_app|].
    split; [now apply solid_wrap|].
    intros rr _. norm_app. cbn [Json.scan_once N.eqb Pos.eqb]. now rewrite La. }
  assert (Lit : forall word v0 front last,
            L word = front ++ [last] -> py_isspace last = false ->
            (forall r', Json.scan_once (S n) (L word ++ r') = Some (v0, r')) ->
            (exists t, L word = c :: t) ->
            py_isspace c = false ->
            Json.literal word v0 (c :: s) = Some (v, r) ->
            exists core, c :: s = core ++ r /\ solid core /\
                         forall r', follow_ok r' = true ->
                                    Json.scan_once (S n) (core ++ r') = Some (v, r')).
  { intros word v0 front last Ew Hl Hs (t & Et) Hc H.
    destruct (literal_local n word v0 v (c :: s) r H) as [E ->].
    exists (L word). split; [exact E|]. split.
    - split; [now exists c, t|now exists front, last].
    - intros rr _. apply Hs. }
  destruct (startswith (c :: s) (L "null")) eqn:S1.
  { destruct (startswith_true _ _ S1) as (x & Ex). injection Ex as -> _.
    now apply (Lit "null"%string PNone (L "nul") 108%N); try (eexists; reflexivity). }
  destruct (startswith (c :: s) (L "true")) eqn:S2.
  { destruct (startswith_true _ _ S2) as (x & Ex). injection Ex as -> _.
    now apply (Lit "true"%string (PBool true) (L "tru") 101%N);
      try (eexists; reflexivity). }
  destruct (startswith (c :: s) (L "false")) eqn:S3.
  { destruct (startswith_true _ _ S3) as (x & Ex). injection Ex as -> _.
    now apply (Lit "false"%string (PBool false) (L "fals") 101%N);
      try (eexists; reflexivity). }
  destruct (Json.match_number (c :: s)) as [[v' rn]|] eqn:En.
  { intros [= <- <-].
    destruct (match_number_local _ _ _ En) as (lex & E & (c' & t & -> & Hc) & Hd & Ln).
    injection E as <- ->.
    exists (c :: t). split; [reflexivity|]. split.
    - split.
      + exists c, t. split; [reflexivity|now apply digit_not_space].
      + destruct Hd as (front & d & Ed & Hdig). exists front, d.
        split; [exact Ed|]. apply digit_not_space. now left.
    - intros rr Hr'. cbn [app Json.scan_once]. rewrite E1, E2, E3.
      destruct (number_head_plain c Hc) as (_ & _ & _ & H4 & H5 & H6 & _).
      change (L "null") with (110%N :: L "ull").
      change (L "true") with (116%N :: L "rue").
      change (L "false") with (102%N :: L "alse").
      rewrite !startswith_head_differs by assumption.
      pose proof (Ln rr Hr') as Ln'. cbn [app] in Ln'. now rewrite Ln'. }
  destruct (startswith (c :: s) (L "NaN")) eqn:S4.
  { destruct (startswith_true _ _ S4) as (x & Ex). injection Ex as -> _.
    now apply (Lit "NaN"%string (PFloat (L "NaN")) (L "Na") 78%N);
      try (eexists; reflexivity). }
  destruct (startswith (c :: s) (L "Infinity")) eqn:S5.
  { destruct (startswith_true _ _ S5) as (x & Ex). injection Ex as -> _.
    now apply (Lit "Infinity"%string (PFloat (L "Infinity")) (L "Infinit") 121%N);
      try (eexists; reflexivity). }
  destruct (startswith (c :: s) (L "-Infinity")) eqn:S6.
  { destruct (startswith_true _ _ S6) as (x & Ex). injection Ex as -> _.
    now apply (Lit "-Infinity"%string (PFloat (L "-Infinity")) (L "-Infinit") 121%N);
      try (eexists; reflexivity). }
  discriminate.
Qed.

(** ** White space around a JSON document *)

Lemma skip_ws_nil (r : str) :
  Json.skip_ws r = [] -> forallb Json.is_ws r = true.
Proof.
  intros H. destruct (skip_ws_split r) as (ws & E & Hws).
  rewrite H, List.app_nil_r in E. now subst.
Qed.

Lemma ws_isspace (ws : str) :
  forallb Json.is_ws ws = true -> forallb py_isspace ws = true.
Proof.
  rewrite !forallb_forall. intros H c Hc. apply is_ws_py_isspace. auto.
Qed.

Lemma lstrip_by_all (p : char -> bool) (ws x : str) :
  forallb p ws = true -> lstrip_by p (ws ++ x) = lstrip_by p x.
Proof.
  induction ws as [|c ws IH]; [reflexivity|].
  cbn [forallb app lstrip_by]. intros H. apply andb_true_iff in H as [H1 H2].
  rewrite H1. auto.
Qed.

Lemma rstrip_by_all (p : char -> bool) (front : str) (c : char) (ws : str) :
  p c = false -> forallb p ws = true ->
  rstrip_by p (front ++ c :: ws) = front ++ [c].
Proof.
  intros Hc Hws. unfold rstrip_by.
  rewrite rev_app_distr. cbn [rev]. rewrite <- app_assoc. cbn [app].
  rewrite lstrip_by_all.
  - cbn [lstrip_by]. rewrite Hc. cbn [rev]. now rewrite rev_involutive.
  - rewrite forallb_forall in *. intros x Hx. apply Hws. now apply in_rev.
Qed.

Lemma str_strip_solid (ws0 core ws1 : str) :
  forallb py_isspace ws0 = true -> forallb py_isspace ws1 = true ->
  solid core -> str_strip (ws0 ++ core ++ ws1) = core.
Proof.
  intros H0 H1 [(c & t & E & Hc) (front & d & E' & Hd)].
  unfold str_strip, strip_by. rewrite lstrip_by_all by exact H0.
  assert (K : lstrip_by py_isspace (core ++ ws1) = core ++ ws1).
  { rewrite E. cbn [app lstrip_by]. now rewrite Hc. }
  rewrite K, E', <- app_assoc. cbn [app]. now apply rstrip_by_all.
Qed.

(** A text that [json.loads] accepts is a document between two runs of
    JSON white space; [strip] removes exactly those runs. *)
Lemma loads_core (text : str) (v : pyval) :
  Json.loads text = Some v ->
  exists ws0 core ws1,
    text = ws0 ++ core ++ ws1 /\
    forallb Json.is_ws ws0 = true /\ forallb Json.is_ws ws1 = true /\
    solid core /\ Json.loads core = Some v.
Proof.
  intros H. apply loads_fuel in H as (fuel & r & Hs & Hr).
  destruct (skip_ws_split text) as (ws0 & E & H0).
  destruct (scan_once_local _ _ _ _ Hs) as (core & Ec & Hc & Loc).
  exists ws0, core, r. split; [now rewrite <- Ec|].
  split; [exact H0|]. split; [now apply skip_ws_nil|]. split; [exact Hc|].
  apply loads_fuel. exists fuel, []. split; [|reflexivity].
  pose proof (solid_head_not_ws core [] Hc) as Hk. rewrite List.app_nil_r in Hk.
  rewrite Hk. specialize (Loc [] eq_refl). now rewrite List.app_nil_r in Loc.
Qed.

Lemma loads_strip (text : str) (v : pyval) :
  Json.loads text = Some v -> Json.loads (str_strip text) = Some v.
Proof.
  intros H. destruct (loads_core text v H) as (ws0 & core & ws1 & -> & H0 & H1 & Hc & Hl).
  rewrite str_strip_solid; auto using ws_isspace.
Qed.

(** On a text that is valid JSON and holds no fence, [parse_llm_json] is
    [json.loads]. *)
Lemma parse_llm_json_strict (text : str) (v : pyval) :
  Json.loads text = Some v -> occurs (L "```") text = false ->
  parse_llm_json text = v.
Proof.
  intros H Hf. unfold parse_llm_json.
  rewrite clean_llm_text_eq, (re_sub_fence_absent _ Hf).
  now rewrite (loads_strip text v H).
Qed.

(** ** Float literals *)

Lemma match_number_float (s f r : str) :
  Json.match_number s = Some (PFloat f, r) -> s = f ++ r.
Proof.
  unfold Json.match_number.
  destruct (Json.match_integer s) as [[i r0]|] eqn:Ei; [|discriminate].
  destruct (Json.match_frac r0) as [fr r1] eqn:Ef.
  destruct (Json.match_exp r1) as [ex r2] eqn:Ee.
  destruct (Json.is_nil fr && Json.is_nil ex); [discriminate|].
  intros [= <- <-].
  apply match_integer_local in Ei as (-> & _).
  apply match_frac_local in Ef as (-> & _).
  apply match_exp_local in Ee as (-> & _).
  now rewrite <- !app_assoc.
Qed.

Lemma span_digits_plain (s ds r : str) :
  Json.span_digits s = (ds, r) -> existsb (N.eqb BACKTICK) ds = false.
Proof.
  intros H. apply span_digits_split in H as [_ H]. now apply digits_plain.
Qed.

Lemma existsb_app_false {A : Type} (p : A -> bool) (a b : list A) :
  existsb p a = false -> existsb p b = false -> existsb p (a ++ b) = false.
Proof. intros Ha Hb. now rewrite existsb_app, Ha, Hb. Qed.

Lemma match_integer_plain (s i r : str) :
  Json.match_integer s = Some (i, r) -> existsb (N.eqb BACKTICK) i = false.
Proof.
  unfold Json.match_integer.
  assert (G : forall sign s1,
             existsb (N.eqb BACKTICK) sign = false ->
             match s1 with
             | c :: r0 =>
                 if (c =? 48)%N then Some (sign ++ [c], r0)
                 else if Json.is_digit c then
                   let (ds, r') := Json.span_digits r0 in Some (sign ++ c :: ds, r')
                 else None
             | [] => None
             end = Some (i, r) ->
             existsb (N.eqb BACKTICK) i = false).
  { intros sign [|c r0] Hs; [discriminate|].
    destruct (N.eqb_spec c 48) as [->|_].
    - intros [= <- _]. now apply existsb_app_false.
    - destruct (Json.is_digit c) eqn:Hc; [|discriminate].
      destruct (Json.span_digits r0) as [ds r'] eqn:Ed. intros [= <- _].
      apply existsb_app_false; [exact Hs|].
      apply (digits_plain (c :: ds)). cbn [forallb]. rewrite Hc.
      now apply span_digits_split in Ed as [_ ->]. }
  destruct s as [|c s']; [discriminate|].
  destruct (N.eqb_spec c 45) as [->|_]; intros H.
  - apply (G [45%N] s'); [reflexivity|exact H].
  - apply (G [] (c :: s')); [reflexivity|exact H].
Qed.

Lemma match_frac_plain (s fr r : str) :
  Json.match_frac s = (fr, r) -> existsb (N.eqb BACKTICK) fr = false.
Proof.
  unfold Json.match_frac. destruct s as [|c s']; [now intros [= <- _]|].
  destruct (N.eqb_spec c 46) as [->|_]; [|now intros [= <- _]].
  destruct (Json.span_digits s') as [[|d ds] r'] eqn:Ed; intros [= <- _];
    [reflexivity|].
  apply span_digits_plain in Ed. exact Ed.
Qed.

Lemma match_exp_plain (s ex r : str) :
  Json.match_exp s = (ex, r) -> existsb (N.eqb BACKTICK) ex = false.
Proof.
  unfold Json.match_exp. destruct s as [|e s']; [now intros [= <- _]|].
  destruct ((e =? 101) || (e =? 69))%N eqn:He; [|now intros [= <- _]].
  assert (Hb : N.eqb BACKTICK e = false).
  { apply N.eqb_neq. intros <-. discriminate. }
  assert (G : forall sg r1,
             existsb (N.eqb BACKTICK) sg = false ->
             match Json.span_digits r1 with
             | ([], _) => ([], e :: s')
             | (ds, r2) => (e :: sg ++ ds, r2)
             end = (ex, r) ->
             existsb (N.eqb BACKTICK) ex = false).
  { intros sg r1 Hs. destruct (Json.span_digits r1) as [[|d ds] r2] eqn:Ed;
      intros [= <- _]; [reflexivity|].
    cbn [existsb]. rewrite Hb. cbn [orb].
    apply existsb_app_false; [exact Hs|]. now apply span_digits_plain in Ed. }
  destruct s' as [|c r']; [intros H; apply (G [] []); [reflexivity|exact H]|].
  destruct ((c =? 45) || (c =? 43))%N eqn:Hc; intros H.
  - apply (G [c] r'); [|exact H].
    cbn [existsb]. rewrite orb_false_r. apply N.eqb_neq. intros <-. discriminate.
  - apply (G [] (c :: r')); [reflexivity|exact H].
Qed.

Lemma match_number_plain (s f r : str) :
  Json.match_number s = Some (PFloat f, r) -> existsb (N.eqb BACKTICK) f = false.
Proof.
  unfold Json.match_number.
  destruct (Json.match_integer s) as [[i r0]|] eqn:Ei; [|discriminate].
  destruct (Json.match_frac r0) as [fr r1] eqn:Ef.
  destruct (Json.match_exp r1) as [ex r2] eqn:Ee.
  destruct (Json.is_nil fr && Json.is_nil ex); [discriminate|].
  intros [= <- _].
  apply match_integer_plain in Ei. apply match_frac_plain in Ef.
  apply match_exp_plain in Ee.
  now repeat apply existsb_app_false.
Qed.

(** What [float_literal] accepts: a text that [match_number] reads as the
    float of that text, or one of the three names. *)
Lemma float_literal_cases (f : str) :
  float_literal f = true ->
  Json.match_number f = Some (PFloat f, []) \/
  f = L "NaN" \/ f = L "Infinity" \/ f = L "-Infinity".
Proof.
  unfold float_literal.
  destruct (Json.match_number f) as [[[| | |g| | |] [|? ?]]|]; try discriminate.
  - intros H. apply str_eqb_eq in H. subst g. now left.
  - intros H. right.
    apply orb_true_iff in H as [H|H]; [apply orb_true_iff in H as [H|H]|];
      apply str_eqb_eq in H; auto.
Qed.

(** A float literal is read as the float of that text, in front of any
    admissible rest. *)
Lemma float_literal_reads (f : str) (fuel : nat) (rest : str) :
  float_literal f = true -> follow_ok rest = true ->
  Json.scan_once (S fuel) (f ++ rest) = Some (PFloat f, rest).
Proof.
  intros Hf Hr.
  destruct (float_literal_cases f Hf) as [E | [-> | [-> | ->]]];
    try reflexivity.
  destruct (match_number_local f (PFloat f) [] E)
    as (lex & El & (c & t & Ec & Hc) & _ & Loc).
  rewrite List.app_nil_r in El. subst lex.
  specialize (Loc rest Hr). rewrite Ec in *. cbn [app] in *.
  destruct (number_head_plain c Hc) as (H1 & H2 & H3 & H4 & H5 & H6 & _).
  cbn [Json.scan_once]. rewrite H1, H2, H3.
  change (L "null") with (110%N :: L "ull").
  change (L "true") with (116%N :: L "rue").
  change (L "false") with (102%N :: L "alse").
  rewrite !startswith_head_differs by assumption.
  now rewrite Loc.
Qed.

(** A float literal holds no backtick and no white space at its ends,
    and does not begin with a closing bracket or brace. *)
Lemma float_literal_plain (f : str) :
  float_literal f = true ->
  existsb (N.eqb BACKTICK) f = false /\
  (exists c t, f = c :: t /\ Json.is_ws c = false /\ N.eqb c 93 = false /\
               N.eqb c 125 = false /\ py_isspace c = false) /\
  (exists front c, f = front ++ [c] /\ py_isspace c = false).
Proof.
  intros Hf.
  destruct (float_literal_cases f Hf) as [E | [-> | [-> | ->]]].
  - split; [exact (match_number_plain _ _ _ E)|].
    destruct (match_number_local f (PFloat f) [] E)
      as (lex & El & (c & t & Ec & Hc) & (front & d & Ed & Hd) & _).
    rewrite List.app_nil_r in El. subst lex.
    assert (R : (45 <= c <= 57)%N)
      by (destruct Hc as [H| ->]; [apply is_digit_range in H|]; lia).
    split.
    + exists c, t. split; [exact Ec|].
      destruct (number_head_plain c Hc) as (_ & _ & _ & _ & _ & _ & H7 & H8).
      repeat split; try assumption.
      * apply N.eqb_neq; lia.
      * apply printable_not_space; lia.
    + exists front, d. split; [exact Ed|]. apply printable_not_space.
      apply is_digit_range in Hd. lia.
  - split; [reflexivity|]. split.
    + exists 78%N, (L "aN"). repeat split.
    + exists (L "Na"), 78%N. split; reflexivity.
  - split; [reflexivity|]. split.
    + exists 73%N, (L "nfinity"). repeat split.
    + exists (L "Infinit"), 121%N. split; reflexivity.
  - split; [reflexivity|]. split.
    + exists 45%N, (L "Infinity"). repeat split.
    + exists (L "-Infinit"), 121%N. split; reflexivity.
Qed.

(** ** The floats that the parser builds are float literals *)

Lemma values_floats_set (p : str -> bool) (d : dict) (k : str) (v : pyval) :
  forallb (fun kv => floats_ok p (snd kv)) d = true -> floats_ok p v = true ->
  forallb (fun kv => floats_ok p (snd kv)) (dict_set d k v) = true.
Proof.
  intros Hd Hv. induction d as [|[k0 v0] d IH]; cbn [dict_set forallb snd].
  - now rewrite Hv.
  - cbn [forallb snd] in Hd. apply andb_true_iff in Hd as [H1 H2].
    destruct (str_eqb k0 k); cbn [forallb snd].
    + now rewrite Hv, H2.
    + now rewrite H1, (IH H2).
Qed.

Lemma dict_of_pairs_floats (p : str -> bool) (pairs : list (str * pyval)) :
  forallb (fun kv => floats_ok p (snd kv)) pairs = true ->
  floats_ok p (PDict (dict_of_pairs pairs)) = true.
Proof.
  unfold dict_of_pairs. cbn [floats_ok].
  assert (G : forall acc,
             forallb (fun kv => floats_ok p (snd kv)) acc = true ->
             forallb (fun kv => floats_ok p (snd kv)) pairs = true ->
             forallb (fun kv => floats_ok p (snd kv))
               (fold_left (fun d kv => dict_set d (fst kv) (snd kv)) pairs acc)
             = true).
  { induction pairs as [|[k v] pairs IH]; intros acc H2 H3; cbn [fold_left].
    - exact H2.
    - cbn [forallb snd fst] in *. apply andb_true_iff in H3 as [Hv H3].
      apply IH; [now apply values_floats_set|exact H3]. }
  intros H. now apply G.
Qed.

Section ContainersFloats.
Variable p : str -> bool.
Variable scan : str -> option (pyval * str).
Hypothesis scan_floats : forall s v r, scan s = Some (v, r) -> floats_ok p v = true.

Lemma array_items_floats (n : nat) :
  forall s l r, Json.array_items scan n s = Some (l, r) ->
                forallb (floats_ok p) l = true.
Proof.
  induction n as [|n IH]; intros s l r; cbn [Json.array_items]; [discriminate|].
  destruct (scan s) as [[v r1]|] eqn:E; [|discriminate].
  apply scan_floats in E.
  destruct (Json.skip_ws r1) as [|c r2]; [discriminate|].
  destruct (N.eqb c 93).
  - intros [= <- _]. cbn [forallb]. now rewrite E.
  - destruct (N.eqb c 44); [|discriminate].
    destruct (Json.array_items scan n (Json.skip_ws r2)) as [[l' r3]|] eqn:E2;
      [|discriminate].
    cbn [Json.push]. intros [= <- _]. cbn [forallb].
    now rewrite E, (IH _ _ _ E2).
Qed.

Lemma object_pairs_floats (n : nat) :
  forall s pairs r, Json.object_pairs scan n s = Some (pairs, r) ->
                    forallb (fun kv => floats_ok p (snd kv)) pairs = true.
Proof.
  induction n as [|n IH]; intros s pairs r; cbn [Json.object_pairs]; [discriminate|].
  destruct (Json.scanstring s) as [[key r0]|]; [|discriminate].
  destruct (Json.skip_ws r0) as [|c r1]; [discriminate|].
  destruct (N.eqb c 58); [|discriminate].
  destruct (scan (Json.skip_ws r1)) as [[v r2]|] eqn:E; [|discriminate].
  apply scan_floats in E.
  destruct (Json.skip_ws r2) as [|c2 r3]; [discriminate|].
  destruct (N.eqb c2 125).
  - intros [= <- _]. cbn [forallb snd]. now rewrite E.
  - destruct (N.eqb c2 44); [|discriminate].
    destruct (Json.skip_ws r3) as [|q r4]; [discriminate|].
    destruct (N.eqb q QUOTE); [|discriminate].
    destruct (Json.object_pairs scan n r4) as [[ps r5]|] eqn:E2; [|discriminate].
    cbn [Json.push]. intros [= <- _]. cbn [forallb snd].
    now rewrite E, (IH _ _ _ E2).
Qed.

Lemma parse_array_floats (n : nat) (s : str) (v : pyval) (r : str) :
  Json.parse_array scan n s = Some (v, r) -> floats_ok p v = true.
Proof.
  unfold Json.parse_array.
  destruct (Json.skip_ws s) as [|c r0]; [discriminate|].
  destruct (N.eqb c 93); [now intros [= <- _]|].
  destruct (Json.array_items scan n (c :: r0)) as [[l r1]|] eqn:E; [|discriminate].
  intros [= <- _]. cbn [floats_ok]. exact (array_items_floats _ _ _ _ E).
Qed.

Lemma parse_object_floats (n : nat) (s : str) (v : pyval) (r : str) :
  Json.parse_object scan n s = Some (v, r) -> floats_ok p v = true.
Proof.
  unfold Json.parse_object.
  destruct (Json.skip_ws s) as [|c r0]; [discriminate|].
  destruct (N.eqb c 125); [now intros [= <- _]|].
  destruct (N.eqb c QUOTE); [|discriminate].
  destruct (Json.object_pairs scan n r0) as [[ps r1]|] eqn:E; [|discriminate].
  intros [= <- _]. apply dict_of_pairs_floats. exact (object_pairs_floats _ _ _ _ E).
Qed.
End ContainersFloats.

Lemma literal_floats (word : string) (v0 v : pyval) (s r : str) :
  floats_ok float_literal v0 = true -> Json.literal word v0 s = Some (v, r) ->
  floats_ok float_literal v = true.
Proof.
  unfold Json.literal. intros H.
  destruct (strip_prefix (L word) s); [|discriminate]. now intros [= <- _].
Qed.

Lemma match_number_floats (s : str) (v : pyval) (r : str) :
  Json.match_number s = Some (v, r) -> floats_ok float_literal v = true.
Proof.
  intros E.
  destruct (match_number_local s v r E) as (lex & El & _ & _ & Loc).
  specialize (Loc [] eq_refl). rewrite List.app_nil_r in Loc.
  assert (Hv : (exists z, v = PInt z) \/ exists f, v = PFloat f).
  { revert E. unfold Json.match_number.
    destruct (Json.match_integer s) as [[i r0]|]; [|discriminate].
    destruct (Json.match_frac r0) as [fr r1].
    destruct (Json.match_exp r1) as [ex r2].
    destruct (Json.is_nil fr && Json.is_nil ex); intros [= <- _]; eauto. }
  destruct Hv as [[z ->] | [f ->]]; [reflexivity|].
  pose proof (match_number_float s f r E) as Ef. rewrite El in Ef.
  apply app_inv_tail in Ef. subst lex.
  cbn [floats_ok]. unfold float_literal. rewrite Loc. apply str_eqb_refl.
Qed.

Lemma scan_once_floats (fuel : nat) :
  forall s v r, Json.scan_once fuel s = Some (v, r) ->
                floats_ok float_literal v = true.
Proof.
  induction fuel as [|fuel IH]; intros s v r; cbn [Json.scan_once]; [discriminate|].
  destruct s as [|c s]; [discriminate|].
  destruct (N.eqb c QUOTE).
  { destruct (Json.scanstring s) as [[t r']|]; [|discriminate]. now intros [= <- _]. }
  destruct (N.eqb c 123); [now apply parse_object_floats|].
  destruct (N.eqb c 91); [now apply parse_array_floats|].
  destruct (startswith (c :: s) (L "null")); [now apply literal_floats|].
  destruct (startswith (c :: s) (L "true")); [now apply literal_floats|].
  destruct (startswith (c :: s) (L "false")); [now apply literal_floats|].
  destruct (Json.match_number (c :: s)) as [[v' r']|] eqn:E.
  { intros [= <- _]. exact (match_number_floats _ _ _ E). }
  destruct (startswith (c :: s) (L "NaN")); [now apply literal_floats|].
  destruct (startswith (c :: s) (L "Infinity")); [now apply literal_floats|].
  destruct (startswith (c :: s) (L "-Infinity")); [now apply literal_floats|].
  discriminate.
Qed.

Lemma loads_floats (s : str) (v : pyval) :
  Json.loads s = Some v -> floats_ok float_literal v = true.
Proof.
  unfold Json.loads.
  destruct (Json.scan_once _ _) as [[v' r]|] eqn:E; [|discriminate].
  destruct (Json.is_nil _); [|discriminate].
  intros [= <-]. exact (scan_once_floats _ _ _ _ E).
Qed.

(** ** Reading a serialized value with floats back *)

Section FloatsReadback.
Variable floatstr : str -> str.
Local Abbreviation dumps := (Encoder.dumps floatstr).
Local Abbreviation read_back_as := (read_back_as floatstr).

Lemma writable_head (v : pyval) :
  writable floatstr v = true ->
  exists c t, dumps v = c :: t /\ Json.is_ws c = false /\ N.eqb c 93 = false /\
              N.eqb c 125 = false /\ py_isspace c = false.
Proof.
  destruct v as [|[|]|z|f|s|l|d]; intros Hp;
    try (eexists; eexists; split; [reflexivity|repeat split]).
  - destruct (int_repr_head z) as (c & t & Ez & Hc).
    exists c, t. split; [exact Ez|].
    destruct (number_head_plain c Hc) as (_ & _ & _ & _ & _ & _ & H7 & H8).
    assert (R : (45 <= c <= 57)%N)
      by (destruct Hc as [H| ->]; [apply is_digit_range in H|]; lia).
    repeat split; try assumption.
    + apply N.eqb_neq; lia.
    + apply printable_not_space; lia.
  - destruct (float_literal_plain _ Hp) as (_ & (c & t & E & H) & _).
    exists c, t. cbn [Encoder.dumps]. now split.
Qed.

Lemma writable_last (v : pyval) :
  writable floatstr v = true ->
  exists front c, dumps v = front ++ [c] /\ py_isspace c = false.
Proof.
  destruct v as [|[|]|z|f|s|l|d]; intros Hp.
  - exists (L "nul"), 108%N. split; reflexivity.
  - exists (L "tru"), 101%N. split; reflexivity.
  - exists (L "fals"), 101%N. split; reflexivity.
  - destruct (int_repr_digits z) as (sign & ds & E & _ & Hne & Hd).
    destruct (exists_last Hne) as (front & c & ->).
    exists (sign ++ front), c. cbn [Encoder.dumps]. rewrite E, app_assoc.
    split; [reflexivity|]. apply printable_not_space.
    rewrite forallb_app in Hd. apply andb_true_iff in Hd as [_ Hd].
    cbn [forallb] in Hd. rewrite andb_true_r in Hd.
    apply is_digit_range in Hd. lia.
  - exact (proj2 (proj2 (float_literal_plain _ Hp))).
  - exists (QUOTE :: flat_map Encoder.escape_char s), QUOTE. split; reflexivity.
  - exists (L "[" ++ Encoder.join (L ", ") (map dumps l)), 93%N.
    cbn [Encoder.dumps]. rewrite <- app_assoc. split; reflexivity.
  - eexists (L "{" ++ Encoder.join (L ", ") _), 125%N.
    cbn [Encoder.dumps]. rewrite <- app_assoc. split; reflexivity.
Qed.

Lemma skip_ws_writable (v : pyval) (T : str) :
  writable floatstr v = true -> Json.skip_ws (dumps v ++ T) = dumps v ++ T.
Proof.
  intros Hp. destruct (writable_head v Hp) as (c & t & -> & Hc & _).
  cbn [app Json.skip_ws]. now rewrite Hc.
Qed.

Lemma array_items_rewritten (scan : str -> option (pyval * str))
      (l : list pyval) (n : nat) (rest : str) :
  Forall (read_back_as scan) l -> l <> [] -> length l <= n ->
  Json.array_items scan n
    (Encoder.join (L ", ") (map dumps l) ++ 93%N :: rest)
  = Some (map (rewritten floatstr) l, rest).
Proof.
  revert n. induction l as [|x l IH]; intros n Hl Hne Hn; [congruence|].
  destruct n as [|n]; [cbn [length] in Hn; lia|].
  inversion Hl as [|? ? [Hp Hx] Hl']; subst.
  destruct l as [|y l].
  - cbn [map Encoder.join Json.array_items].
    rewrite (Hx (93%N :: rest) eq_refl). reflexivity.
  - change (Encoder.join (L ", ") (map dumps (x :: y :: l)))
      with (dumps x ++ L ", " ++ Encoder.join (L ", ") (map dumps (y :: l))).
    rewrite <- !app_assoc.
    change (L ", " ++ ?X) with (44%N :: 32%N :: X).
    cbn [Json.array_items].
    rewrite Hx by reflexivity.
    cbn [Json.skip_ws Json.is_ws N.eqb Pos.eqb orb].
    assert (Ey : Json.skip_ws (Encoder.join (L ", ") (map dumps (y :: l)) ++ 93%N :: rest)
                 = Encoder.join (L ", ") (map dumps (y :: l)) ++ 93%N :: rest).
    { inversion Hl' as [|? ? [Hpy _] _]; subst.
      destruct l as [|y' l'].
      - cbn [map Encoder.join]. now apply skip_ws_writable.
      - change (Encoder.join (L ", ") (map dumps (y :: y' :: l')))
          with (dumps y ++ L ", " ++ Encoder.join (L ", ") (map dumps (y' :: l'))).
        rewrite <- app_assoc. now apply skip_ws_writable. }
    rewrite Ey, IH; [reflexivity|exact Hl'|discriminate|].
    cbn [length] in *. lia.
Qed.

Lemma parse_array_rewritten (scan : str -> option (pyval * str))
      (l : list pyval) (n : nat) (rest : str) :
  Forall (read_back_as scan) l -> length l <= n ->
  Json.parse_array scan n
    (Encoder.join (L ", ") (map dumps l) ++ 93%N :: rest)
  = Some (PList (map (rewritten floatstr) l), rest).
Proof.
  intros Hl Hn. unfold Json.parse_array.
  destruct l as [|x l]; [reflexivity|].
  assert (E : exists c t,
             Encoder.join (L ", ") (map dumps (x :: l)) ++ 93%N :: rest = c :: t /\
             Json.is_ws c = false /\ N.eqb c 93 = false).
  { inversion Hl as [|? ? [Hp _] _]; subst.
    destruct (writable_head x Hp) as (c & t & Ex & Hc & H93 & _).
    destruct l as [|y l]; cbn [map Encoder.join]; rewrite Ex; cbn [app];
      eexists; eexists; (split; [reflexivity|split; assumption]). }
  destruct E as (c & t & E & Hc & H93).
  rewrite E. cbn [Json.skip_ws]. rewrite Hc, H93. rewrite <- E.
  rewrite array_items_rewritten; [reflexivity|exact Hl|discriminate|exact Hn].
Qed.

Lemma object_pairs_rewritten (scan : str -> option (pyval * str)) (d : dict)
      (n : nat) (rest T : str) :
  Forall (fun kv => text_ok (fst kv) = true /\ read_back_as scan (snd kv)) d ->
  d <> [] -> length d <= n ->
  QUOTE :: T = Encoder.join (L ", ") (map (member floatstr) d) ++ 125%N :: rest ->
  Json.object_pairs scan n T
  = Some (map (fun kv => (fst kv, rewritten floatstr (snd kv))) d, rest).
Proof.
  revert n T. induction d as [|[k v] d IH]; intros n T Hd Hne Hn ET; [congruence|].
  destruct n as [|n]; [cbn [length] in Hn; lia|].
  inversion Hd as [|? ? [Hk [Hp Hv]] Hd']; subst. cbn [fst snd] in *.
  destruct (text_ok_parts k Hk) as (Hk1 & Hk2 & _).
  rewrite members_cons in ET. cbn [fst snd] in ET. injection ET as ->.
  cbn [Json.object_pairs]. rewrite (scanstring_encoded k _ Hk1 Hk2).
  cbn [Json.skip_ws Json.is_ws N.eqb Pos.eqb orb].
  rewrite (skip_ws_writable v _ Hp).
  destruct d as [|kv2 d].
  - rewrite Hv by reflexivity. reflexivity.
  - rewrite Hv by reflexivity.
    cbn [Json.skip_ws Json.is_ws N.eqb Pos.eqb orb].
    destruct (members_head floatstr (kv2 :: d) (125%N :: rest) ltac:(discriminate))
      as [T2 E2].
    rewrite E2. cbn [Json.skip_ws Json.is_ws N.eqb Pos.eqb orb].
    rewrite (IH n T2); [reflexivity|exact Hd'|discriminate| |now symmetry].
    cbn [length] in *. lia.
Qed.

Lemma has_key_rewritten (d : dict) (k : str) :
  has_key (map (fun kv => (fst kv, rewritten floatstr (snd kv))) d) k
  = has_key d k.
Proof.
  induction d as [|[k' v'] d IH]; [reflexivity|].
  cbn [map has_key fst snd]. now rewrite IH.
Qed.

Lemma distinct_keys_rewritten (d : dict) :
  distinct_keys (map (fun kv => (fst kv, rewritten floatstr (snd kv))) d)
  = distinct_keys d.
Proof.
  induction d as [|[k' v'] d IH]; [reflexivity|].
  cbn [map distinct_keys fst snd]. now rewrite IH, has_key_rewritten.
Qed.

Lemma parse_object_rewritten (scan : str -> option (pyval * str)) (d : dict)
      (n : nat) (rest : str) :
  Forall (fun kv => text_ok (fst kv) = true /\ read_back_as scan (snd kv)) d ->
  distinct_keys d = true -> length d <= n ->
  Json.parse_object scan n
    (Encoder.join (L ", ") (map (member floatstr) d) ++ 125%N :: rest)
  = Some (PDict (map (fun kv => (fst kv, rewritten floatstr (snd kv))) d), rest).
Proof.
  intros Hd Hk Hn. unfold Json.parse_object.
  destruct d as [|kv d]; [reflexivity|].
  destruct (members_head floatstr (kv :: d) (125%N :: rest) ltac:(discriminate))
    as [T E].
  rewrite E. cbn [Json.skip_ws Json.is_ws N.eqb Pos.eqb orb].
  rewrite (object_pairs_rewritten scan (kv :: d) n rest T Hd ltac:(discriminate) Hn
             (eq_sym E)).
  rewrite dict_of_pairs_distinct; [reflexivity|].
  now rewrite distinct_keys_rewritten.
Qed.

(** Every well-formed writable value is read back from its
    serialization, with as much fuel as the value has nodes. *)
Lemma scan_once_rewritten (n : nat) :
  forall v, size v <= n -> wf v = true -> writable floatstr v = true ->
  forall fuel rest, n <= fuel -> follow_ok rest = true ->
  Json.scan_once fuel (dumps v ++ rest) = Some (rewritten floatstr v, rest).
Proof.
  induction n as [|n IH]; intros v Hs Hw Hp fuel rest Hf Hr.
  { pose proof (size_pos v). lia. }
  destruct fuel as [|fuel]; [lia|].
  destruct v as [|[|]|z|f|s|l|d]; try reflexivity.
  - now apply scan_once_number.
  - now apply float_literal_reads.
  - destruct (text_ok_parts s Hp) as (H1 & H2 & _).
    cbn [Encoder.dumps]. unfold Encoder.encode_basestring_ascii.
    cbn [app]. rewrite <- app_assoc. cbn [app Json.scan_once N.eqb Pos.eqb].
    now rewrite (scanstring_encoded s rest H1 H2).
  - cbn [Encoder.dumps]. rewrite <- !app_assoc.
    change (L "[" ++ ?X) with (91%N :: X). change (L "]" ++ rest) with (93%N :: rest).
    cbn [Json.scan_once N.eqb Pos.eqb].
    cbn [size wf writable] in Hs, Hw, Hp.
    apply parse_array_rewritten.
    + apply Forall_forall. intros x Hx.
      rewrite forallb_forall in Hw, Hp. split; [now apply Hp|].
      intros rest' Hr'. apply IH; auto; try lia.
      pose proof (list_sum_in size x l Hx). lia.
    + pose proof (list_sum_length size l size_pos). lia.
  - cbn [Encoder.dumps]. rewrite <- !app_assoc.
    change (L "{" ++ ?X) with (123%N :: X). change (L "}" ++ rest) with (125%N :: rest).
    cbn [Json.scan_once N.eqb Pos.eqb].
    cbn [size wf writable] in Hs, Hw, Hp.
    apply andb_true_iff in Hw as [Hk Hw].
    apply (parse_object_rewritten (Json.scan_once fuel) d fuel rest); [|exact Hk|].
    + apply Forall_forall. intros [k x] Hx.
      rewrite forallb_forall in Hw, Hp.
      specialize (Hw _ Hx). specialize (Hp _ Hx). cbn [fst snd] in *.
      apply andb_true_iff in Hp as [Hpk Hpx].
      split; [exact Hpk|]. split; [exact Hpx|].
      intros rest' Hr'. apply IH; auto; try lia.
      pose proof (list_sum_in (fun kv => size (snd kv)) (k, x) d Hx).
      cbn [snd] in *. lia.
    + pose proof (list_sum_length (fun kv : str * pyval => size (snd kv)) d
                    (fun kv => size_pos (snd kv))). lia.
Qed.

Lemma sealed_writable (n : nat) :
  forall v, size v <= n -> writable floatstr v = true -> sealed 0 (dumps v).
Proof.
  induction n as [|n IH]; intros v Hs Hp.
  { pose proof (size_pos v). lia. }
  destruct v as [|[|]|z|f|s|l|d];
    try (apply sealed_plain; [discriminate|reflexivity]).
  - apply sealed_int_repr.
  - destruct (float_literal_plain _ Hp) as (Hb & (c & t & E & _) & _).
    cbn [Encoder.dumps]. apply sealed_plain; [|exact Hb]. rewrite E. discriminate.
  - now apply sealed_encoded.
  - cbn [Encoder.dumps]. cbn [size writable] in Hs, Hp.
    destruct l as [|x l]; [apply sealed_plain; [discriminate|reflexivity]|].
    apply sealed_app; [apply sealed_plain; [discriminate|reflexivity]|].
    apply sealed_app; [|apply sealed_plain; [discriminate|reflexivity]].
    apply sealed_join; [apply sealed_plain; [discriminate|reflexivity]| |discriminate].
    apply Forall_map, Forall_forall. intros y Hy.
    rewrite forallb_forall in Hp.
    apply IH; [|now apply Hp].
    pose proof (list_sum_in size y (x :: l) Hy). lia.
  - cbn [Encoder.dumps]. cbn [size writable] in Hs, Hp.
    destruct d as [|kv d]; [apply sealed_plain; [discriminate|reflexivity]|].
    apply sealed_app; [apply sealed_plain; [discriminate|reflexivity]|].
    apply sealed_app; [|apply sealed_plain; [discriminate|reflexivity]].
    apply sealed_join; [apply sealed_plain; [discriminate|reflexivity]| |discriminate].
    apply Forall_map, Forall_forall. intros [k y] Hy.
    rewrite forallb_forall in Hp. specialize (Hp _ Hy). cbn [fst snd] in *.
    apply andb_true_iff in Hp as [Hk Hpy].
    apply sealed_app; [now apply sealed_encoded|].
    apply sealed_app; [apply sealed_plain; [discriminate|reflexivity]|].
    apply IH; [|exact Hpy].
    pose proof (list_sum_in (fun kv => size (snd kv)) (k, y) (kv :: d) Hy).
    cbn [snd] in *. lia.
Qed.

Lemma writable_no_fence (v : pyval) :
  writable floatstr v = true -> occurs (L "```") (dumps v) = false.
Proof.
  intros Hp. rewrite <- has_run_occurs.
  exact (proj1 (sealed_writable (size v) v (le_n _) Hp)).
Qed.

(** A serialized value is at least as long as the value has nodes. *)
Lemma writable_length (n : nat) :
  forall v, size v <= n -> writable floatstr v = true ->
            size v <= length (dumps v).
Proof.
  induction n as [|n IH]; intros v Hs Hp.
  { pose proof (size_pos v). lia. }
  destruct v as [|[|]|z|f|s|l|d].
  1-3: cbv; lia.
  - destruct (int_repr_head z) as (c & t & E & _).
    cbn [size Encoder.dumps]. rewrite E. cbn [length]. lia.
  - destruct (float_literal_plain _ Hp) as (_ & (c & t & E & _) & _).
    cbn [size Encoder.dumps]. rewrite E. cbn [length]. lia.
  - cbn [size Encoder.dumps]. unfold Encoder.encode_basestring_ascii.
    cbn [length]. lia.
  - cbn [Encoder.dumps size]. cbn [size writable] in Hs, Hp.
    rewrite !length_app.
    pose proof (join_length (L ", ") (map dumps l)) as Hj. rewrite map_map in Hj.
    assert (Hl : list_sum (map size l) <= list_sum (map (fun x => length (dumps x)) l)).
    { apply list_sum_le. intros x Hx. rewrite forallb_forall in Hp.
      apply IH; [|now apply Hp]. pose proof (list_sum_in size x l Hx). lia. }
    change (length (L "[")) with 1. lia.
  - cbn [Encoder.dumps size]. cbn [size writable] in Hs, Hp.
    rewrite !length_app.
    pose proof (join_length (L ", ")
                  (map (fun kv => Encoder.encode_basestring_ascii (fst kv) ++
                                  L ": " ++ dumps (snd kv)) d)) as Hj.
    rewrite map_map in Hj.
    assert (Hl : list_sum (map (fun kv => size (snd kv)) d) <=
                 list_sum (map (fun kv => length
                                  (Encoder.encode_basestring_ascii (fst kv) ++
                                   L ": " ++ dumps (snd kv))) d)).
    { apply list_sum_le. intros [k x] Hx. rewrite forallb_forall in Hp.
      specialize (Hp _ Hx). cbn [fst snd] in *.
      apply andb_true_iff in Hp as [_ Hpx].
      pose proof (list_sum_in (fun kv => size (snd kv)) (k, x) d Hx) as Hin.
      cbn [snd] in Hin.
      specialize (IH x ltac:(lia) Hpx). rewrite !length_app. lia. }
    change (length (L "{")) with 1. lia.
Qed.

Lemma str_strip_writable (v : pyval) :
  writable floatstr v = true -> str_strip (dumps v) = dumps v.
Proof.
  intros Hp. unfold str_strip, strip_by.
  destruct (writable_head v Hp) as (c & t & E & _ & _ & _ & Hc).
  destruct (writable_last v Hp) as (front & c' & E' & Hc').
  rewrite E at 1. cbn [lstrip_by]. rewrite Hc, <- E, E'.
  now apply rstrip_by_plain.
Qed.

(** [json.loads] reads what [json.dumps] wrote for a well-formed
    writable value. *)
Lemma loads_rewritten (v : pyval) :
  wf v = true -> writable floatstr v = true ->
  Json.loads (dumps v) = Some (rewritten floatstr v).
Proof.
  intros Hw Hp. unfold Json.loads.
  pose proof (skip_ws_writable v [] Hp) as E. rewrite List.app_nil_r in E.
  assert (Hf : size v <= S (length (dumps v)))
    by (pose proof (writable_length (size v) v (le_n _) Hp); lia).
  pose proof (scan_once_rewritten (size v) v (le_n _) Hw Hp
                (S (length (dumps v))) [] Hf eq_refl) as Hs.
  rewrite List.app_nil_r in Hs. now rewrite E, Hs.
Qed.

Lemma parse_llm_json_rewritten (v : pyval) :
  wf v = true -> writable floatstr v = true ->
  parse_llm_json (dumps v) = rewritten floatstr v.
Proof.
  intros Hw Hp. unfold parse_llm_json.
  rewrite clean_llm_text_eq, (re_sub_fence_absent _ (writable_no_fence v Hp)).
  now rewrite (str_strip_writable v Hp), (loads_rewritten v Hw Hp).
Qed.

End FloatsReadback.

(** ** Values with floats *)

Lemma writable_of_literals (floatstr : str -> str) (n : nat) :
  (forall f, float_literal f = true -> float_literal (floatstr f) = true) ->
  forall v, size v <= n -> texts_ok v = true ->
            floats_ok float_literal v = true -> writable floatstr v = true.
Proof.
  intros Hc. induction n as [|n IH]; intros v Hs Ht Hf.
  { pose proof (size_pos v). lia. }
  destruct v as [|[|]|z|f|s|l|d]; try reflexivity.
  - now apply Hc.
  - exact Ht.
  - cbn [size texts_ok floats_ok writable] in *.
    rewrite forallb_forall in *. intros x Hx.
    apply IH; auto. pose proof (list_sum_in size x l Hx). lia.
  - cbn [size texts_ok floats_ok writable] in *.
    rewrite forallb_forall in *. intros [k x] Hx.
    specialize (Ht _ Hx). specialize (Hf _ Hx). cbn [fst snd] in *.
    apply andb_true_iff in Ht as [Hk Hx'].
    rewrite Hk. cbn [andb]. apply IH; auto.
    pose proof (list_sum_in (fun kv => size (snd kv)) (k, x) d Hx).
    cbn [snd] in *. lia.
Qed.

Lemma same_value_rewritten {Float : Type} (float_of : str -> Float)
      (floatstr : str -> str) (n : nat) :
  (forall f, float_literal f = true -> float_of (floatstr f) = float_of f) ->
  forall v, size v <= n -> floats_ok float_literal v = true ->
            floats_ok not_nan v = true ->
            same_value float_of v (rewritten floatstr v).
Proof.
  intros Hc. induction n as [|n IH]; intros v Hs Hf Hn.
  { pose proof (size_pos v). lia. }
  destruct v as [|[|]|z|f|s|l|d]; try reflexivity.
  - cbn [floats_ok rewritten same_value] in *. split; [exact Hn|].
    symmetry. now apply Hc.
  - cbn [size floats_ok rewritten same_value] in *.
    induction l as [|x l IHl]; [exact I|].
    cbn [forallb map list_sum fold_right] in *.
    apply andb_true_iff in Hf as [Hf1 Hf2].
    apply andb_true_iff in Hn as [Hn1 Hn2].
    unfold list_sum in *.
    split; [apply IH; auto; lia|]. apply IHl; auto; lia.
  - cbn [size floats_ok rewritten same_value] in *.
    induction d as [|[k x] d IHd]; [exact I|].
    cbn [forallb map list_sum fold_right fst snd] in *.
    apply andb_true_iff in Hf as [Hf1 Hf2].
    apply andb_true_iff in Hn as [Hn1 Hn2].
    unfold list_sum in *.
    split; [reflexivity|]. split; [apply IH; auto; lia|]. apply IHd; auto; lia.
Qed.

Lemma rewritten_float_free (floatstr : str -> str) (n : nat) :
  forall v, size v <= n -> floats_ok (fun _ => false) v = true ->
            rewritten floatstr v = v.
Proof.
  induction n as [|n IH]; intros v Hs Hf.
  { pose proof (size_pos v). lia. }
  destruct v as [|[|]|z|f|s|l|d]; try reflexivity; try discriminate.
  - cbn [size floats_ok rewritten] in *. f_equal.
    rewrite <- (map_id l) at 2. apply map_ext_in. intros x Hx.
    rewrite forallb_forall in Hf. apply IH; auto.
    pose proof (list_sum_in size x l Hx). lia.
  - cbn [size floats_ok rewritten] in *. f_equal.
    rewrite <- (map_id d) at 2. apply map_ext_in. intros [k x] Hx.
    rewrite forallb_forall in Hf. specialize (Hf _ Hx). cbn [fst snd] in *.
    f_equal. apply IH; auto.
    pose proof (list_sum_in (fun kv => size (snd kv)) (k, x) d Hx).
    cbn [snd] in *. lia.
Qed.

(** ** Idempotence of the normalizer *)

(** C8, as stated, fails: this text is valid JSON and holds no fence,
    yet it denotes the text of three backticks; serialized again, these
    stand unescaped between the quotes and are deleted as a fence, so
    the second pass yields the empty text. *)
Lemma normalizer_not_idempotent :
  Json.loads escaped_fence = Some (PStr (L "```")) /\
  occurs (L "```") escaped_fence = false /\
  parse_llm_json escaped_fence = PStr (L "```") /\
  Encoder.dumps Mock.floatstr (parse_llm_json escaped_fence) = Q (L "```") /\
  parse_llm_json (Encoder.dumps Mock.floatstr (parse_llm_json escaped_fence))
    = PStr [] /\
  parse_llm_json (Encoder.dumps Mock.floatstr (parse_llm_json escaped_fence))
    <> parse_llm_json escaped_fence.
Proof.
  assert (E1 : parse_llm_json escaped_fence = PStr (L "```"))
    by (vm_compute; reflexivity).
  assert (E2 : parse_llm_json (Encoder.dumps Mock.floatstr (parse_llm_json escaped_fence))
               = PStr []) by (vm_compute; reflexivity).
  repeat split; try (vm_compute; reflexivity).
  rewrite E2, E1. discriminate.
Qed.

(** A second way to lose a value on the way back: two code points that
    form a surrogate pair are written as two escapes and read as one
    code point. *)
Example surrogate_pair_joined :
  Json.loads split_pair = Some (PStr [55357%N; 56832%N]) /\
  occurs (L "```") split_pair = false /\
  parse_llm_json (Encoder.dumps Mock.floatstr (parse_llm_json split_pair))
    = PStr [128512%N].
Proof. vm_compute. repeat split; reflexivity. Qed.

(** A third way: the float that is no number is read back as itself,
    and is not equal to itself. *)
Example nan_read_back :
  Json.loads (L "NaN") = Some (PFloat (L "NaN")) /\
  occurs (L "```") (L "NaN") = false /\
  parse_llm_json (Encoder.dumps Mock.floatstr (parse_llm_json (L "NaN")))
    = PFloat (L "NaN") /\
  forall (Float : Type) (float_of : str -> Float),
    ~ same_value float_of (PFloat (L "NaN")) (PFloat (L "NaN")).
Proof.
  repeat split; try (vm_compute; reflexivity).
  intros Float float_of [H _]. discriminate.
Qed.

(** C8 (amended): let [json.dumps] write every float as a float literal
    that denotes the same float.  On a text that holds no fence and
    that [json.loads] accepts with a value [v] each of whose texts and
    keys consists of valid code points, has no three backticks in a row
    and no surrogate pair written as two code points, and none of whose
    floats is [NaN], the normalizer returns [v]; serializing the
    normalized value with [json.dumps] and normalizing that text again
    yields [v] with its floats as [json.dumps] wrote them, which is a
    value equal to [v], and is [v] itself when [v] holds no float. *)
Theorem normalizer_idempotent (Float : Type) (float_of : str -> Float)
        (floatstr : str -> str) (text : str) (v : pyval) :
  (forall f, float_literal f = true ->
             float_literal (floatstr f) = true /\
             float_of (floatstr f) = float_of f) ->
  Json.loads text = Some v ->
  occurs (L "```") text = false ->
  texts_ok v = true ->
  floats_ok not_nan v = true ->
  parse_llm_json text = v /\
  parse_llm_json (Encoder.dumps floatstr (parse_llm_json text))
    = rewritten floatstr v /\
  same_value float_of (parse_llm_json text)
    (parse_llm_json (Encoder.dumps floatstr (parse_llm_json text))) /\
  (floats_ok (fun _ => false) v = true ->
   parse_llm_json (Encoder.dumps floatstr (parse_llm_json text))
     = parse_llm_json text).
Proof.
  intros Hc Hl Hf Ht Hn.
  pose proof (parse_llm_json_strict text v Hl Hf) as E.
  pose proof (loads_floats text v Hl) as Hlit.
  assert (Hw : writable floatstr v = true).
  { apply (writable_of_literals floatstr (size v)); auto.
    intros f H. apply (Hc f H). }
  assert (E2 : parse_llm_json (Encoder.dumps floatstr v) = rewritten floatstr v).
  { apply parse_llm_json_rewritten; [|exact Hw].
    rewrite <- E. apply parse_llm_json_wf. }
  rewrite E, E2. split; [reflexivity|]. split; [reflexivity|]. split.
  - apply (same_value_rewritten float_of floatstr (size v)); auto.
    intros f H. apply (Hc f H).
  - intros H0. exact (rewritten_float_free floatstr (size v) v (le_n _) H0).
Qed.

(** A reply with floats, one of them with a trailing zero. *)
Lemma normalizer_idempotent_scenario :
  parse_llm_json (L "[2.50, -1.5e3, {" ++ Q (L "notes") ++ L ": " ++ Q [] ++ L "}]")
    = PList [PFloat (L "2.50"); PFloat (L "-1.5e3");
             PDict [(L "notes", PStr [])]] /\
  parse_llm_json
    (Encoder.dumps Mock.short_repr
       (parse_llm_json
          (L "[2.50, -1.5e3, {" ++ Q (L "notes") ++ L ": " ++ Q [] ++ L "}]")))
    = rewritten Mock.short_repr
        (PList [PFloat (L "2.50"); PFloat (L "-1.5e3");
                PDict [(L "notes", PStr [])]]) /\
  same_value Mock.short_repr
    (parse_llm_json
       (L "[2.50, -1.5e3, {" ++ Q (L "notes") ++ L ": " ++ Q [] ++ L "}]"))
    (parse_llm_json
       (Encoder.dumps Mock.short_repr
          (parse_llm_json
             (L "[2.50, -1.5e3, {" ++ Q (L "notes") ++ L ": " ++ Q [] ++ L "}]")))) /\
  (floats_ok (fun _ => false)
     (PList [PFloat (L "2.50"); PFloat (L "-1.5e3");
             PDict [(L "notes", PStr [])]]) = true ->
   parse_llm_json
     (Encoder.dumps Mock.short_repr
        (parse_llm_json
           (L "[2.50, -1.5e3, {" ++ Q (L "notes") ++ L ": " ++ Q [] ++ L "}]")))
   = parse_llm_json
       (L "[2.50, -1.5e3, {" ++ Q (L "notes") ++ L ": " ++ Q [] ++ L "}]")).
Proof.
  apply (normalizer_idempotent str Mock.short_repr Mock.short_repr);
    try (vm_compute; reflexivity).
  intros f Hf. unfold Mock.short_repr.
  destruct (str_eqb f (L "2.50")) eqn:E.
  - split; reflexivity.
  - rewrite E. split; [exact Hf|reflexivity].
Defined.

(** What the second pass returns there, and on the scenario of the
    specification. *)
Example second_pass_floats :
  parse_llm_json
    (Encoder.dumps Mock.short_repr
       (parse_llm_json
          (L "[2.50, -1.5e3, {" ++ Q (L "notes") ++ L ": " ++ Q [] ++ L "}]")))
    = PList [PFloat (L "2.5"); PFloat (L "-1.5e3");
             PDict [(L "notes", PStr [])]] /\
  parse_llm_json (Encoder.dumps Mock.floatstr (parse_llm_json scenario_reply))
    = parse_llm_json scenario_reply.
Proof. vm_compute. split; reflexivity. Qed.

(** ** Replies that wrap or surround a JSON document *)

Lemma value_first_digit (c : char) :
  Json.is_digit c = true \/ c = 45%N -> value_first c = true.
Proof.
  intros [H| ->]; [|reflexivity].
  apply is_digit_range in H.
  assert (R : (c = 48 \/ c = 49 \/ c = 50 \/ c = 51 \/ c = 52 \/ c = 53 \/
               c = 54 \/ c = 55 \/ c = 56 \/ c = 57)%N) by lia.
  repeat (destruct R as [-> | R]; [reflexivity|]). now subst.
Qed.

Lemma value_last_digit (c : char) : Json.is_digit c = true -> value_last c = true.
Proof.
  intros H. apply is_digit_range in H.
  assert (R : (c = 48 \/ c = 49 \/ c = 50 \/ c = 51 \/ c = 52 \/ c = 53 \/
               c = 54 \/ c = 55 \/ c = 56 \/ c = 57)%N) by lia.
  repeat (destruct R as [-> | R]; [reflexivity|]). now subst.
Qed.

(** What [scan_once] consumes begins and ends as a JSON value does. *)
Lemma scan_once_ends (n : nat) (s : str) (v : pyval) (r : str) :
  Json.scan_once n s = Some (v, r) ->
  exists core,
    s = core ++ r /\
    (exists c t, core = c :: t /\ value_first c = true) /\
    (exists front z, core = front ++ [z] /\ value_last z = true).
Proof.
  destruct n as [|n]; cbn [Json.scan_once]; [discriminate|].
  destruct s as [|c s]; [discriminate|].
  destruct (N.eqb c QUOTE) eqn:E1.
  { destruct (Json.scanstring s) as [[t r0]|] eqn:Es; [|discriminate].
    intros [= <- <-]. apply N.eqb_eq in E1. subst c.
    destruct (scanstring_local _ _ _ _ (le_n _) Es) as (body & -> & _).
    exists (QUOTE :: body ++ [QUOTE]). split; [now norm_app|]. split.
    - now exists QUOTE, (body ++ [QUOTE]).
    - now exists (QUOTE :: body), QUOTE. }
  destruct (N.eqb c 123) eqn:E2.
  { intros H. apply N.eqb_eq in E2. subst c.
    destruct (parse_object_local _ (scan_once_local n) _ _ _ _ H) as (core & -> & _).
    exists (123%N :: core ++ [125%N]). split; [now norm_app|]. split.
    - now exists 123%N, (core ++ [125%N]).
    - now exists (123%N :: core), 125%N. }
  destruct (N.eqb c 91) eqn:E3.
  { intros H. apply N.eqb_eq in E3. subst c.
    destruct (parse_array_local _ (scan_once_local n) _ _ _ _ H) as (core & -> & _).
    exists (91%N :: core ++ [93%N]). split; [now norm_app|]. split.
    - now exists 91%N, (core ++ [93%N]).
    - now exists (91%N :: core), 93%N. }
  assert (Lit : forall word v0 h t front z,
            L word = h :: t -> L word = front ++ [z] ->
            value_first h = true -> value_last z = true ->
            Json.literal word v0 (c :: s) = Some (v, r) ->
            exists core,
              c :: s = core ++ r /\
              (exists c0 t0, core = c0 :: t0 /\ value_first c0 = true) /\
              (exists front0 z0, core = front0 ++ [z0] /\ value_last z0 = true)).
  { intros word v0 h t front z Eh Ez Hh Hz H.
    destruct (literal_local n word v0 v (c :: s) r H) as [E _].
    exists (L word). split; [exact E|]. split.
    - now exists h, t.
    - now exists front, z. }
  destruct (startswith (c :: s) (L "null")) eqn:S1.
  { now apply (Lit "null"%string PNone 110%N (L "ull") (L "nul") 108%N). }
  destruct (startswith (c :: s) (L "true")) eqn:S2.
  { now apply (Lit "true"%string (PBool true) 116%N (L "rue") (L "tru") 101%N). }
  destruct (startswith (c :: s) (L "false")) eqn:S3.
  { now apply (Lit "false"%string (PBool false) 102%N (L "alse") (L "fals") 101%N). }
  destruct (Json.match_number (c :: s)) as [[v' rn]|] eqn:En.
  { intros [= <- <-].
    destruct (match_number_local _ _ _ En) as (lex & E & (c' & t & -> & Hc) & Hd & _).
    exists (c' :: t). split; [exact E|]. split.
    - exists c', t. split; [reflexivity|now apply value_first_digit].
    - destruct Hd as (front & d & Ed & Hdig). exists front, d.
      split; [exact Ed|now apply value_last_digit]. }
  destruct (startswith (c :: s) (L "NaN")) eqn:S4.
  { now apply (Lit "NaN"%string (PFloat (L "NaN")) 78%N (L "aN") (L "Na") 78%N). }
  destruct (startswith (c :: s) (L "Infinity")) eqn:S5.
  { now apply (Lit "Infinity"%string (PFloat (L "Infinity")) 73%N (L "nfinity")
                 (L "Infinit") 121%N). }
  destruct (startswith (c :: s) (L "-Infinity")) eqn:S6.
  { now apply (Lit "-Infinity"%string (PFloat (L "-Infinity")) 45%N (L "Infinity")
                 (L "-Infinit") 121%N). }
  discriminate.
Qed.

(** A text that [json.loads] accepts: white space, a document that
    begins and ends as a value does, white space. *)
Lemma loads_document (text : str) (v : pyval) :
  Json.loads text = Some v ->
  exists ws0 core ws1,
    text = ws0 ++ core ++ ws1 /\
    forallb Json.is_ws ws0 = true /\ forallb Json.is_ws ws1 = true /\
    solid core /\ Json.loads core = Some v /\
    (exists c t, core = c :: t /\ value_first c = true) /\
    (exists front z, core = front ++ [z] /\ value_last z = true) /\
    (forall r', follow_ok r' = true ->
                forall m, length (core ++ r') <= m ->
                          Json.scan_once m (core ++ r') = Some (v, r')).
Proof.
  intros H. pose proof H as H'. apply loads_fuel in H' as (fuel & r & Hs & Hr).
  destruct (skip_ws_split text) as (ws0 & E & H0).
  destruct (scan_once_local _ _ _ _ Hs) as (core & Ec & Hc & Loc).
  destruct (scan_once_ends _ _ _ _ Hs) as (core' & Ec' & Hfirst & Hlast).
  assert (core' = core) by (apply (app_inv_tail r); congruence). subst core'.
  exists ws0, core, r. split; [now rewrite <- Ec|].
  split; [exact H0|]. split; [now apply skip_ws_nil|]. split; [exact Hc|].
  split.
  { apply loads_fuel. exists fuel, []. split; [|reflexivity].
    pose proof (solid_head_not_ws core [] Hc) as Hk. rewrite List.app_nil_r in Hk.
    rewrite Hk. specialize (Loc [] eq_refl). now rewrite List.app_nil_r in Loc. }
  split; [exact Hfirst|]. split; [exact Hlast|].
  intros r' Hr' m Hm.
  exact (proj2 (scan_once_fuel _ _ _ _ (Loc r' Hr')) m Hm).
Qed.

Lemma isspace_not_backtick (ws : str) :
  forallb py_isspace ws = true -> existsb (N.eqb BACKTICK) ws = false.
Proof.
  induction ws as [|c ws IH]; [reflexivity|].
  cbn [forallb existsb]. intros H. apply andb_true_iff in H as [H1 H2].
  rewrite (IH H2), orb_false_r. apply N.eqb_neq. intros <-. discriminate.
Qed.

Lemma re_sub_fence_plain (a : str) :
  existsb (N.eqb BACKTICK) a = false -> re_sub_fence [] a = a.
Proof.
  intros H. pose proof (re_sub_fence_plain_prefix a [] H) as E.
  now rewrite !List.app_nil_r in E.
Qed.

(** A text without a fence that does not end in a backtick is kept as it
    is in front of whatever follows. *)
Lemma re_sub_fence_sealed_prefix (a X : str) :
  occurs (L "```") a = false ->
  (forall front z, a = front ++ [z] -> N.eqb z BACKTICK = false) ->
  re_sub_fence [] (a ++ X) = a ++ re_sub_fence [] X.
Proof.
  induction a as [|c a IH]; intros Ho Hl; [reflexivity|].
  assert (Hs : startswith ((c :: a) ++ X) (L "```") = false).
  { change (L "```") with [BACKTICK; BACKTICK; BACKTICK].
    destruct a as [|c2 [|c3 a]]; cbn [app].
    - rewrite startswith_cons, N.eqb_sym, (Hl [] c eq_refl). reflexivity.
    - rewrite !startswith_cons, (N.eqb_sym _ c2), (Hl [c] c2 eq_refl).
      now rewrite andb_false_r.
    - rewrite occurs_cons in Ho. apply orb_false_iff in Ho as [Ho _].
      change (L "```") with [BACKTICK; BACKTICK; BACKTICK] in Ho.
      rewrite !startswith_cons, startswith_nil in *. exact Ho. }
  cbn [app] in *. rewrite re_sub_fence_cons.
  destruct (fence_re_cases (c :: a ++ X)) as [[-> _] | (k & _ & H)]; [|congruence].
  f_equal. apply IH.
  - rewrite occurs_cons in Ho. now apply orb_false_iff in Ho as [_ Ho].
  - intros front z ->. apply (Hl (c :: front) z). reflexivity.
Qed.

Lemma value_first_not_j (c : char) : value_first c = true -> N.eqb c 106 = false.
Proof.
  intros H. destruct (N.eqb_spec c 106) as [->|]; [discriminate|reflexivity].
Qed.

Lemma value_last_not_backtick (c : char) :
  value_last c = true -> N.eqb c BACKTICK = false.
Proof.
  intros H. destruct (N.eqb_spec c BACKTICK) as [->|]; [discriminate|reflexivity].
Qed.

Lemma isspace_not_json (post : str) :
  forallb py_isspace post = true -> startswith post (L "json") = false.
Proof.
  destruct post as [|c post]; [reflexivity|].
  cbn [forallb]. intros H. apply andb_true_iff in H as [H _].
  change (L "json") with (106%N :: L "son"). apply startswith_head_differs.
  apply N.eqb_neq. intros ->. discriminate.
Qed.

(** The cleaned text of a fenced document is the document. *)
Lemma clean_fenced (pre lang doc post core ws0 ws1 : str) :
  doc = ws0 ++ core ++ ws1 ->
  forallb Json.is_ws ws0 = true -> forallb Json.is_ws ws1 = true ->
  solid core ->
  (exists c t, core = c :: t /\ value_first c = true) ->
  (exists front z, core = front ++ [z] /\ value_last z = true) ->
  occurs (L "```") doc = false ->
  lang = [] \/ lang = L "json" ->
  forallb py_isspace pre = true -> forallb py_isspace post = true ->
  clean_llm_text (pre ++ L "```" ++ lang ++ doc ++ L "```" ++ post) = core.
Proof.
  intros Ed H0 H1 Hc (c & t & Ec & Hfirst) (front & z & Ez & Hlast) Ho Hlang Hpre Hpost.
  rewrite clean_llm_text_eq.
  rewrite (re_sub_fence_plain_prefix pre _ (isspace_not_backtick pre Hpre)).
  assert (Eopen : re_sub_fence [] (L "```" ++ lang ++ doc ++ L "```" ++ post)
                  = re_sub_fence [] (doc ++ L "```" ++ post)).
  { destruct Hlang as [-> | ->].
    - cbn [app]. apply re_sub_fence_bare.
      rewrite Ed. change (L "json") with (106%N :: L "son").
      destruct ws0 as [|w ws0]; cbn [app].
      + rewrite Ec. cbn [app]. apply startswith_head_differs.
        now apply value_first_not_j.
      + apply startswith_head_differs. cbn [forallb] in H0.
        apply andb_true_iff in H0 as [H0 _]. apply N.eqb_neq. intros ->. discriminate.
    - change (L "```" ++ L "json" ++ ?X) with (L "```json" ++ X).
      apply re_sub_fence_json. }
  rewrite Eopen.
  assert (Edoc : re_sub_fence [] (doc ++ L "```" ++ post) = doc ++ post).
  { rewrite Ed.
    replace ((ws0 ++ core ++ ws1) ++ L "```" ++ post)
      with ((ws0 ++ core) ++ ws1 ++ L "```" ++ post) by now rewrite <- !app_assoc.
    rewrite re_sub_fence_sealed_prefix.
    - rewrite (re_sub_fence_plain_prefix ws1 _
                 (isspace_not_backtick ws1 (ws_isspace ws1 H1))).
      rewrite (re_sub_fence_bare post (isspace_not_json post Hpost)).
      rewrite (re_sub_fence_plain post (isspace_not_backtick post Hpost)).
      now rewrite <- !app_assoc.
    - apply (occurs_prefix _ _ ws1); [discriminate|].
      now rewrite <- app_assoc, <- Ed.
    - intros front' z' E'. rewrite Ez, app_assoc in E'.
      apply app_inj_tail in E' as [_ <-]. now apply value_last_not_backtick. }
  rewrite Edoc, Ed.
  replace (pre ++ (ws0 ++ core ++ ws1) ++ post)
    with ((pre ++ ws0) ++ core ++ (ws1 ++ post)) by now rewrite <- !app_assoc.
  apply str_strip_solid; [| |exact Hc]; rewrite forallb_app.
  - now rewrite Hpre, (ws_isspace ws0 H0).
  - now rewrite Hpost, (ws_isspace ws1 H1).
Qed.

Lemma parse_llm_json_fenced (pre lang doc post : str) (v : pyval) :
  Json.loads doc = Some v ->
  occurs (L "```") doc = false ->
  lang = [] \/ lang = L "json" ->
  forallb py_isspace pre = true -> forallb py_isspace post = true ->
  parse_llm_json (pre ++ L "```" ++ lang ++ doc ++ L "```" ++ post) = v.
Proof.
  intros Hl Ho Hlang Hpre Hpost.
  destruct (loads_document doc v Hl)
    as (ws0 & core & ws1 & Ed & H0 & H1 & Hc & Hcore & Hfirst & Hlast & _).
  unfold parse_llm_json.
  rewrite (clean_fenced pre lang doc post core ws0 ws1); auto.
  now rewrite Hcore.
Qed.

(** White space around a document does not matter to [json.loads]. *)
Lemma loads_padded (ws0 doc ws1 : str) (v : pyval) :
  Json.loads doc = Some v ->
  forallb Json.is_ws ws0 = true -> forallb Json.is_ws ws1 = true ->
  Json.loads (ws0 ++ doc ++ ws1) = Some v.
Proof.
  intros Hl H0 H1.
  destruct (loads_document doc v Hl)
    as (w0 & core & w1 & -> & Hw0 & Hw1 & Hc & _ & _ & _ & Loc).
  apply loads_fuel. exists (length (core ++ w1 ++ ws1)), (w1 ++ ws1).
  assert (Hall : forallb Json.is_ws (w1 ++ ws1) = true)
    by (rewrite forallb_app; now rewrite Hw1, H1).
  split.
  - replace (ws0 ++ (w0 ++ core ++ w1) ++ ws1)
      with ((ws0 ++ w0) ++ core ++ w1 ++ ws1) by now rewrite <- !app_assoc.
    rewrite skip_ws_app by (rewrite forallb_app; now rewrite H0, Hw0).
    rewrite (solid_head_not_ws core _ Hc).
    apply Loc; [|apply le_n].
    destruct (w1 ++ ws1) as [|c t]; [reflexivity|].
    cbn [forallb] in Hall. apply andb_true_iff in Hall as [Hc' _].
    now apply is_ws_follow_ok.
  - pose proof (skip_ws_app (w1 ++ ws1) [] Hall) as E.
    now rewrite List.app_nil_r in E.
Qed.

(** X1: a JSON document between a pair of fences, with or without the
    [json] tag and with white space around the fences, is read as the
    document alone, provided the document holds no three backticks in a
    row. *)
Theorem fenced_json_unwrapped (pre lang doc post : str) (v : pyval) :
  Json.loads doc = Some v ->
  occurs (L "```") doc = false ->
  lang = [] \/ lang = L "json" ->
  forallb py_isspace pre = true -> forallb py_isspace post = true ->
  parse_llm_json (pre ++ L "```" ++ lang ++ doc ++ L "```" ++ post) = v.
Proof. exact (parse_llm_json_fenced pre lang doc post v). Qed.

Lemma fenced_json_unwrapped_reply :
  parse_llm_json (L "```json" ++ [10%N] ++ scenario_reply ++ [10%N] ++ L "```")
    = PList [scenario_day].
Proof.
  apply (fenced_json_unwrapped [] (L "json") ([10%N] ++ scenario_reply ++ [10%N]) []
           (PList [scenario_day])); try (vm_compute; reflexivity).
  now right.
Defined.

(** ** Replies with text around the document *)

Lemma rstrip_by_keeps (p : char -> bool) (a : str) (c : char) (t : str) :
  p c = false -> exists t', rstrip_by p (a ++ c :: t) = a ++ c :: t'.
Proof.
  intros Hc. unfold rstrip_by. rewrite rev_app_distr. cbn [rev].
  rewrite <- app_assoc. cbn [app].
  destruct (lstrip_by_app p (rev t) (c :: rev a) c (rev a) eq_refl Hc) as (t0 & E & _).
  rewrite E, rev_app_distr. cbn [rev]. rewrite rev_involutive, <- app_assoc.
  now exists (rev t0).
Qed.

Lemma not_space_not_ws (c : char) : py_isspace c = false -> Json.is_ws c = false.
Proof.
  intros H. destruct (Json.is_ws c) eqn:E; [|reflexivity].
  apply is_ws_py_isspace in E. congruence.
Qed.

(** [strip] in front of a character that is not white space. *)
Lemma str_strip_head (ws : str) (c : char) (t : str) :
  forallb py_isspace ws = true -> py_isspace c = false ->
  exists t', str_strip (ws ++ c :: t) = c :: t'.
Proof.
  intros Hws Hc. unfold str_strip, strip_by. rewrite lstrip_by_all by exact Hws.
  cbn [lstrip_by]. rewrite Hc.
  destruct (rstrip_by_keeps py_isspace [] c t Hc) as (t' & E).
  now exists t'.
Qed.

(** A document followed by a character that is not white space is not
    accepted: [json.loads] reports extra data. *)
Lemma loads_extra_data (doc : str) (v : pyval) (pre : str) (c : char) (tail : str) :
  Json.loads doc = Some v ->
  forallb py_isspace pre = true ->
  py_isspace c = false ->
  follow_ok (c :: tail) = true ->
  Json.loads (str_strip (pre ++ doc ++ c :: tail)) = None.
Proof.
  intros Hl Hpre Hc Hf.
  destruct (loads_document doc v Hl)
    as (ws0 & core & ws1 & -> & H0 & H1 & Hs & _ & _ & _ & Loc).
  assert (E : exists tail',
             str_strip (pre ++ (ws0 ++ core ++ ws1) ++ c :: tail)
             = core ++ ws1 ++ c :: tail' /\ follow_ok (c :: tail') = true).
  { unfold str_strip, strip_by.
    replace (pre ++ (ws0 ++ core ++ ws1) ++ c :: tail)
      with ((pre ++ ws0) ++ core ++ ws1 ++ c :: tail) by now rewrite <- !app_assoc.
    rewrite lstrip_by_all
      by (rewrite forallb_app; now rewrite Hpre, (ws_isspace ws0 H0)).
    assert (K : lstrip_by py_isspace (core ++ ws1 ++ c :: tail)
                = core ++ ws1 ++ c :: tail).
    { destruct Hs as [(h & t & -> & Hh) _]. cbn [app lstrip_by]. now rewrite Hh. }
    rewrite K.
    replace (core ++ ws1 ++ c :: tail) with ((core ++ ws1) ++ c :: tail)
      by now rewrite <- app_assoc.
    destruct (rstrip_by_keeps py_isspace (core ++ ws1) c tail Hc) as (t' & ->).
    exists t'. split; [now rewrite <- app_assoc|exact Hf]. }
  destruct E as (tail' & -> & Hf').
  unfold Json.loads.
  rewrite (solid_head_not_ws core _ Hs).
  rewrite (Loc (ws1 ++ c :: tail') (follow_ok_ws_app ws1 c tail' H1 Hf')) by lia.
  rewrite (skip_ws_app ws1 _ H1). cbn [Json.skip_ws].
  now rewrite (not_space_not_ws c Hc).
Qed.

(** X2: a valid document followed by further text is not salvaged: when
    the text holds no fence and what follows the document starts with a
    character that is not white space and cannot continue a number, the
    whole reply becomes the description of the fallback Day. *)
Theorem trailing_text_falls_back (doc : str) (c : char) (tail : str) (v : pyval) :
  Json.loads doc = Some v ->
  py_isspace c = false ->
  follow_ok (c :: tail) = true ->
  occurs (L "```") (doc ++ c :: tail) = false ->
  parse_llm_json (doc ++ c :: tail) = fallback_itinerary (doc ++ c :: tail).
Proof.
  intros Hl Hc Hf Ho. apply parse_llm_json_failed.
  rewrite clean_llm_text_eq, (re_sub_fence_absent _ Ho).
  exact (loads_extra_data doc v [] c tail Hl eq_refl Hc Hf).
Qed.

Lemma trailing_text_falls_back_reply :
  parse_llm_json (L "[] Have a nice trip!")
    = fallback_itinerary (L "[] Have a nice trip!").
Proof.
  apply (trailing_text_falls_back (L "[] ") 72%N (L "ave a nice trip!") (PList []));
    vm_compute; reflexivity.
Defined.

(** X3: a fenced valid document followed by commentary is not salvaged
    either: when the text after the closing fence holds no backtick,
    does not start with [json], and starts with a character that is not
    white space and cannot continue a number, the whole reply becomes
    the description of the fallback Day. *)
Theorem fenced_then_text_falls_back
        (lang doc : str) (c : char) (tail : str) (v : pyval) :
  Json.loads doc = Some v ->
  occurs (L "```") doc = false ->
  lang = [] \/ lang = L "json" ->
  py_isspace c = false ->
  existsb (N.eqb BACKTICK) (c :: tail) = false ->
  startswith (c :: tail) (L "json") = false ->
  follow_ok (c :: tail) = true ->
  parse_llm_json (L "```" ++ lang ++ doc ++ L "```" ++ c :: tail)
    = fallback_itinerary (L "```" ++ lang ++ doc ++ L "```" ++ c :: tail).
Proof.
  intros Hl Ho Hlang Hc Hb Hj Hf. apply parse_llm_json_failed.
  rewrite clean_llm_text_eq.
  destruct (loads_document doc v Hl)
    as (ws0 & core & ws1 & Ed & H0 & H1 & Hs & _ & (h & t & Eh & Hh) &
        (front & z & Ez & Hz) & _).
  assert (Eopen : re_sub_fence [] (L "```" ++ lang ++ doc ++ L "```" ++ c :: tail)
                  = re_sub_fence [] (doc ++ L "```" ++ c :: tail)).
  { destruct Hlang as [-> | ->].
    - cbn [app]. apply re_sub_fence_bare.
      rewrite Ed. change (L "json") with (106%N :: L "son").
      destruct ws0 as [|w ws0]; cbn [app].
      + rewrite Eh. cbn [app]. apply startswith_head_differs.
        now apply value_first_not_j.
      + apply startswith_head_differs. cbn [forallb] in H0.
        apply andb_true_iff in H0 as [H0 _]. apply N.eqb_neq. intros ->. discriminate.
    - change (L "```" ++ L "json" ++ ?X) with (L "```json" ++ X).
      apply re_sub_fence_json. }
  rewrite Eopen.
  assert (Edoc : re_sub_fence [] (doc ++ L "```" ++ c :: tail) = doc ++ c :: tail).
  { rewrite Ed.
    replace ((ws0 ++ core ++ ws1) ++ L "```" ++ c :: tail)
      with ((ws0 ++ core) ++ ws1 ++ L "```" ++ c :: tail) by now rewrite <- !app_assoc.
    rewrite re_sub_fence_sealed_prefix.
    - rewrite (re_sub_fence_plain_prefix ws1 _
                 (isspace_not_backtick ws1 (ws_isspace ws1 H1))).
      rewrite (re_sub_fence_bare (c :: tail) Hj).
      rewrite (re_sub_fence_plain (c :: tail) Hb).
      now rewrite <- !app_assoc.
    - apply (occurs_prefix _ _ ws1); [discriminate|].
      now rewrite <- app_assoc, <- Ed.
    - intros front' z' E'. rewrite Ez, app_assoc in E'.
      apply app_inj_tail in E' as [_ <-]. now apply value_last_not_backtick. }
  rewrite Edoc.
  exact (loads_extra_data doc v [] c tail Hl eq_refl Hc Hf).
Qed.

Lemma fenced_then_text_falls_back_reply :
  parse_llm_json (L "```json[]```Have fun!")
    = fallback_itinerary (L "```json[]```Have fun!").
Proof.
  apply (fenced_then_text_falls_back (L "json") (L "[]") 72%N (L "ave fun!") (PList []));
    try (vm_compute; reflexivity).
  now right.
Defined.

(** X4: a reply that begins with prose yields the fallback whatever
    follows, be it a fenced, valid document. *)
Theorem leading_prose_falls_back (ws : str) (c : char) (rest : str) :
  forallb py_isspace ws = true ->
  py_isspace c = false -> value_first c = false -> N.eqb c BACKTICK = false ->
  parse_llm_json (ws ++ c :: rest) = fallback_itinerary (ws ++ c :: rest).
Proof.
  intros Hws Hc Hv Hb. apply parse_llm_json_failed.
  rewrite clean_llm_text_eq.
  replace (ws ++ c :: rest) with ((ws ++ [c]) ++ rest) by now rewrite <- app_assoc.
  rewrite re_sub_fence_plain_prefix.
  2:{ rewrite existsb_app, (isspace_not_backtick ws Hws). cbn [existsb].
      now rewrite N.eqb_sym, Hb. }
  rewrite <- app_assoc. cbn [app].
  destruct (str_strip_head ws c (re_sub_fence [] rest) Hws Hc) as (t' & ->).
  unfold Json.loads. cbn [Json.skip_ws]. rewrite (not_space_not_ws c Hc).
  destruct (Json.scan_once _ _) as [[v r]|] eqn:E; [|reflexivity].
  destruct (scan_once_ends _ _ _ _ E) as (core & Ec & (h & t & -> & Hh) & _).
  injection Ec as <- _. congruence.
Qed.

Lemma leading_prose_falls_back_reply :
  parse_llm_json (L "Here is your plan: []")
    = fallback_itinerary (L "Here is your plan: []").
Proof.
  apply (leading_prose_falls_back [] 72%N (L "ere is your plan: []"));
    vm_compute; reflexivity.
Defined.

(** X5: an empty reply, or one of white space only, yields the fallback. *)
Theorem blank_text_falls_back (text : str) :
  forallb py_isspace text = true ->
  parse_llm_json text = fallback_itinerary text.
Proof.
  intros H. apply parse_llm_json_failed.
  rewrite clean_llm_text_eq, (re_sub_fence_plain text (isspace_not_backtick text H)).
  assert (E : str_strip text = []).
  { unfold str_strip, strip_by.
    pose proof (lstrip_by_all py_isspace text [] H) as K.
    rewrite List.app_nil_r in K. now rewrite K. }
  now rewrite E.
Qed.

Lemma blank_text_falls_back_empty :
  parse_llm_json [] = fallback_itinerary [] /\
  parse_llm_json (L "  ") = fallback_itinerary (L "  ").
Proof.
  split; apply blank_text_falls_back; reflexivity.
Defined.

(** X6: after the substitution of line 36 no three backticks are left, so
    the [replace] of line 37 changes nothing. *)
Theorem second_replace_changes_nothing (text : str) :
  str_replace (L "```") [] (re_sub_fence [] text) = re_sub_fence [] text /\
  clean_llm_text text = str_strip (re_sub_fence [] text).
Proof.
  split.
  - apply str_replace_absent, re_sub_fence_no_fence.
  - apply clean_llm_text_eq.
Qed.

(** ** The notes after the annotation loop *)

Lemma lstrip_by_app_cases (p : char -> bool) (a b : str) :
  lstrip_by p (a ++ b) =
    match lstrip_by p a with
    | [] => lstrip_by p b
    | kept => kept ++ b
    end.
Proof.
  induction a as [|c a IH]; [reflexivity|].
  cbn [app lstrip_by]. destruct (p c); [exact IH|reflexivity].
Qed.

Lemma rstrip_by_ends_plain (kept weather : str) :
  ends_plain weather ->
  rstrip_by blank_or_bar (kept ++ L "Weather: " ++ weather)
    = kept ++ L "Weather: " ++ weather.
Proof.
  intros (front & c & -> & H1 & H2).
  rewrite !app_assoc. apply rstrip_by_plain.
  unfold blank_or_bar. change (L " |") with [32%N; 124%N]. cbn [existsb].
  apply N.eqb_neq in H1, H2. now rewrite H1, H2.
Qed.

(** The text that line 158 stores. *)
Lemma weather_note (notes weather : str) :
  ends_plain weather ->
  str_strip_chars (L " |") (notes ++ L " | Weather: " ++ weather) =
    match lstrip_by blank_or_bar notes with
    | [] => L "Weather: " ++ weather
    | kept => kept ++ L " | Weather: " ++ weather
    end.
Proof.
  intros Hw. unfold str_strip_chars, strip_by.
  change (fun c : char => existsb (N.eqb c) (L " |")) with blank_or_bar.
  rewrite lstrip_by_app_cases.
  destruct (lstrip_by blank_or_bar notes) as [|k kept] eqn:E.
  - change (lstrip_by blank_or_bar (L " | Weather: " ++ weather))
      with (L "Weather: " ++ weather).
    exact (rstrip_by_ends_plain [] weather Hw).
  - change ((k :: kept) ++ L " | Weather: " ++ weather)
      with ((k :: kept) ++ L " | " ++ L "Weather: " ++ weather).
    rewrite (app_assoc (k :: kept) (L " | ")).
    rewrite (rstrip_by_ends_plain ((k :: kept) ++ L " | ") weather Hw).
    now rewrite <- app_assoc.
Qed.

Lemma dict_get_set_other (d : dict) (k : str) (v : pyval) (k' : str) :
  str_eqb k' k = false -> dict_get (dict_set d k v) k' = dict_get d k'.
Proof.
  intros H. induction d as [|[k0 v0] d IH]; cbn [dict_set dict_get].
  - rewrite str_eqb_sym in H. now rewrite H.
  - destruct (str_eqb k0 k) eqn:E; cbn [dict_get].
    + apply str_eqb_eq in E. subst k0. rewrite str_eqb_sym in H. now rewrite H.
    + now rewrite IH.
Qed.

Lemma dict_set_keys (d : dict) (k : str) (v : pyval) :
  map fst (dict_set d k v) = if has_key d k then map fst d else map fst d ++ [k].
Proof.
  induction d as [|[k0 v0] d IH]; [reflexivity|].
  cbn [dict_set has_key]. destruct (str_eqb k0 k) eqn:E; cbn [orb map fst].
  - reflexivity.
  - rewrite IH. now destruct (has_key d k).
Qed.

Lemma annotate_day_same_but_notes (weather : str) (day day' : pyval) :
  annotate_day weather day = Ret day' -> same_but_notes day day'.
Proof.
  destruct day as [| | | | |l|d]; cbn [annotate_day same_but_notes];
    try (now intros [= <-]).
  destruct (add_str _ _) as [s|e]; cbn [obind]; [|discriminate].
  intros [= <-]. eexists. split; [reflexivity|]. split.
  - intros k Hk. now apply dict_get_set_other.
  - apply dict_set_keys.
Qed.

(** X7: the annotation loop changes nothing but [notes]: it keeps the
    number and the order of the elements, leaves what is no mapping as
    it is, and in a mapping keeps every other key with its value and
    the order of the keys. *)
Theorem weather_loop_keeps_rest (weather : str) (days days' : list pyval) :
  add_weather weather (PList days) = Ret (PList days') ->
  Forall2 same_but_notes days days' /\ length days' = length days.
Proof.
  cbn [add_weather].
  destruct (annotate_days weather days) as [l|e] eqn:E; cbn [obind]; [|discriminate].
  intros [= <-].
  assert (F : Forall2 same_but_notes days l).
  { revert l E. induction days as [|day days IH]; intros l; cbn [annotate_days].
    - intros [= <-]. constructor.
    - destruct (annotate_day weather day) as [day'|] eqn:Ed; cbn [obind]; [|discriminate].
      destruct (annotate_days weather days) as [rest|]; cbn [obind]; [|discriminate].
      intros [= <-]. constructor; [now apply (annotate_day_same_but_notes weather)|].
      now apply IH. }
  split; [exact F|]. symmetry. exact (Forall2_length F).
Qed.

Lemma weather_loop_keeps_rest_scenario :
  Forall2 same_but_notes
    [PInt 7; scenario_day]
    [PInt 7; PDict [(L "day", PInt 1); (L "activities", PList []);
                    (L "notes", PStr (L "Weather: Sunny"))]] /\
  length [PInt 7; PDict [(L "day", PInt 1); (L "activities", PList []);
                         (L "notes", PStr (L "Weather: Sunny"))]]
    = length [PInt 7; scenario_day].
Proof.
  apply (weather_loop_keeps_rest (L "Sunny")). vm_compute. reflexivity.
Defined.

Section PipelineFacts.
Variable World : Type.
Variable quote : str -> outcome str.
Variable requests_get_json : str -> Py World pyval.
Variable Template Messages : Type.
Variable from_messages : list (str * str) -> Template.
Variable template_error : list (str * str) -> option exn.
Variable format_messages : Template -> list (str * pyval) -> outcome Messages.
Variable llm_invoke : Messages -> Py World str.
Variable floatstr : str -> str.
Variable float_str : str -> str.
Variable container_str : pyval -> str.
Variable GENERATION_SYSTEM : str.

Local Abbreviation get_weather :=
  (get_weather World quote requests_get_json float_str container_str).
Local Abbreviation review_prompt :=
  (review_prompt Template from_messages template_error floatstr).
Local Abbreviation review_itinerary :=
  (review_itinerary World Template Messages from_messages template_error
     format_messages llm_invoke floatstr).
Local Abbreviation generation_prompt :=
  (generation_prompt Template from_messages GENERATION_SYSTEM).
Local Abbreviation create_itinerary :=
  (create_itinerary World quote requests_get_json Template Messages
     from_messages template_error format_messages llm_invoke floatstr
     float_str container_str GENERATION_SYSTEM).

(** X8: the notes that the loop stores for a mapping with text notes:
    the blanks and bars in front of the old notes are dropped; if
    nothing is left, the new notes are the bare weather suffix, and
    otherwise what is left, the separator and the suffix. *)
Theorem annotate_day_notes (city : str) (w w' : World) (weather notes : str)
        (d : dict) :
  get_weather city w = (Ret weather, w') ->
  dict_get_default d (L "notes") (PStr []) = PStr notes ->
  annotate_day weather (PDict d) =
    Ret (PDict (dict_set d (L "notes")
                  (PStr match lstrip_by blank_or_bar notes with
                        | [] => L "Weather: " ++ weather
                        | kept => kept ++ L " | Weather: " ++ weather
                        end))).
Proof.
  intros Hw Hn. cbn [annotate_day]. rewrite Hn. cbn [add_str obind].
  now rewrite (weather_note notes weather (get_weather_ends_plain _ _ _ _ _ _ _ _ _ Hw)).
Qed.

(** X9: once the generation call has returned, [create_itinerary] raises
    a [TypeError] from the annotation loop exactly when some mapping of
    the coerced reply has notes that are not text: after the weather
    lookup and before the review.  Otherwise the loop completes and the
    annotated sequence goes to [review_itinerary]: when the constructor
    of the review prompt raises, [create_itinerary] raises that
    exception, and when the prompt is built, [create_itinerary] returns
    a sequence. *)
Theorem create_itinerary_raises_iff
        (city : str) (days : Z) (interests : str) (w w1 : World)
        (messages : Messages) (content : str) :
  format_messages generation_prompt
    [(L "city", PStr city); (L "days", PInt days);
     (L "interests", PStr interests)] = Ret messages ->
  llm_invoke messages w = (Ret content, w1) ->
  exists l weather w2,
    coerce_shape (parse_llm_json content) = PList l /\
    get_weather city w1 = (Ret weather, w2) /\
    (forallb notes_text l = false ->
     create_itinerary city days interests w = (Raise TypeError, w2)) /\
    (forallb notes_text l = true ->
     exists l',
       add_weather weather (PList l) = Ret (PList l') /\
       create_itinerary city days interests w = review_itinerary (PList l') w2 /\
       match review_prompt (PList l') with
       | Raise e => create_itinerary city days interests w = (Raise e, w2)
       | Ret _ =>
           exists r w3,
             create_itinerary city days interests w = (Ret (PList r), w3)
       end).
Proof.
  intros Hf Hl.
  pose proof (coerce_shape_is_list (parse_llm_json content)) as Hc.
  destruct (coerce_shape (parse_llm_json content)) as [| | | | |l|] eqn:Ec;
    try discriminate.
  destruct (get_weather_returns World quote requests_get_json float_str
              container_str city w1) as (weather & w2 & Hw & _).
  exists l, weather, w2. split; [reflexivity|]. split; [exact Hw|].
  pose proof (create_itinerary_after_generation World quote requests_get_json
                Template Messages from_messages template_error format_messages
                llm_invoke floatstr float_str container_str GENERATION_SYSTEM
                city days interests w w1 messages content Hf Hl) as E.
  rewrite Hw, Ec in E. split.
  - intros Hn. now rewrite E, (add_weather_non_text _ _ Hn).
  - intros Hn.
    destruct (add_weather_text weather l
                (get_weather_ends_plain _ _ _ _ _ _ _ _ _ Hw) Hn) as (l' & Ea & _).
    rewrite Ea in E. exists l'. split; [exact Ea|]. split; [exact E|].
    rewrite E.
    exact (review_itinerary_of_list World Template Messages from_messages
             template_error format_messages llm_invoke floatstr l' w2).
Qed.

End PipelineFacts.

Lemma annotate_day_notes_bars :
  annotate_day (L "Weather data unavailable")
    (PDict [(L "day", PInt 1); (L "notes", PStr (L " | "))])
  = Ret (PDict [(L "day", PInt 1);
                (L "notes", PStr (L "Weather: Weather data unavailable"))]).
Proof.
  apply (annotate_day_notes Mock.World Mock.quote Mock.requests_get_json
           Mock.float_str Mock.container_str (L "Mumbai")
           {| Mock.llm_replies := []; Mock.http_reply := Mock.timeout |}
           {| Mock.llm_replies := []; Mock.http_reply := Mock.timeout |}
           (L "Weather data unavailable") (L " | ")
           [(L "day", PInt 1); (L "notes", PStr (L " | "))]);
    reflexivity.
Defined.

(** Three runs of the scripted world: notes that are a number, notes
    with a closing brace (the constructor of the review prompt raises)
    and the Day of the scenario (the prompt is built). *)
Lemma create_itinerary_raises_iff_runs :
  (exists l weather w2,
     coerce_shape (parse_llm_json non_text_notes_reply) = PList l /\
     Mock.get_weather (L "Mumbai") failing_world_1 = (Ret weather, w2) /\
     (forallb notes_text l = false ->
      Mock.create_itinerary (L "Mumbai") 1 (L "food") failing_world
        = (Raise TypeError, w2)) /\
     (forallb notes_text l = true ->
      exists l',
        add_weather weather (PList l) = Ret (PList l') /\
        Mock.create_itinerary (L "Mumbai") 1 (L "food") failing_world
          = Mock.review_itinerary (PList l') w2 /\
        match Mock.review_prompt (PList l') with
        | Raise e =>
            Mock.create_itinerary (L "Mumbai") 1 (L "food") failing_world
              = (Raise e, w2)
        | Ret _ =>
            exists r w3,
              Mock.create_itinerary (L "Mumbai") 1 (L "food") failing_world
                = (Ret (PList r), w3)
        end)) /\
  (exists l weather w2,
     coerce_shape (parse_llm_json brace_notes_reply) = PList l /\
     Mock.get_weather (L "Mumbai") failing_world_1 = (Ret weather, w2) /\
     (forallb notes_text l = false ->
      Mock.create_itinerary (L "Mumbai") 1 (L "food")
        (MockUI.world_of brace_notes_reply) = (Raise TypeError, w2)) /\
     (forallb notes_text l = true ->
      exists l',
        add_weather weather (PList l) = Ret (PList l') /\
        Mock.create_itinerary (L "Mumbai") 1 (L "food")
          (MockUI.world_of brace_notes_reply)
          = Mock.review_itinerary (PList l') w2 /\
        match Mock.review_prompt (PList l') with
        | Raise e =>
            Mock.create_itinerary (L "Mumbai") 1 (L "food")
              (MockUI.world_of brace_notes_reply) = (Raise e, w2)
        | Ret _ =>
            exists r w3,
              Mock.create_itinerary (L "Mumbai") 1 (L "food")
                (MockUI.world_of brace_notes_reply) = (Ret (PList r), w3)
        end)) /\
  (exists l weather w2,
     coerce_shape (parse_llm_json scenario_reply) = PList l /\
     Mock.get_weather (L "Mumbai") failing_world_1 = (Ret weather, w2) /\
     (forallb notes_text l = false ->
      Mock.create_itinerary (L "Mumbai") 1 (L "food")
        (MockUI.world_of scenario_reply) = (Raise TypeError, w2)) /\
     (forallb notes_text l = true ->
      exists l',
        add_weather weather (PList l) = Ret (PList l') /\
        Mock.create_itinerary (L "Mumbai") 1 (L "food")
          (MockUI.world_of scenario_reply)
          = Mock.review_itinerary (PList l') w2 /\
        match Mock.review_prompt (PList l') with
        | Raise e =>
            Mock.create_itinerary (L "Mumbai") 1 (L "food")
              (MockUI.world_of scenario_reply) = (Raise e, w2)
        | Ret _ =>
            exists r w3,
              Mock.create_itinerary (L "Mumbai") 1 (L "food")
                (MockUI.world_of scenario_reply) = (Ret (PList r), w3)
        end)).
Proof.
  pose (runs := fun reply w =>
          create_itinerary_raises_iff Mock.World Mock.quote
            Mock.requests_get_json Mock.Template Mock.Messages
            Mock.from_messages Mock.template_error Mock.format_messages
            Mock.llm_invoke Mock.floatstr Mock.float_str Mock.container_str
            Mock.GENERATION_SYSTEM (L "Mumbai") 1%Z (L "food")
            w failing_world_1 (Mock.asked (L "Mumbai") 1 (L "food")) reply).
  split; [|split].
  - apply (runs non_text_notes_reply failing_world); vm_compute; reflexivity.
  - apply (runs brace_notes_reply (MockUI.world_of brace_notes_reply));
      vm_compute; reflexivity.
  - apply (runs scenario_reply (MockUI.world_of scenario_reply));
      vm_compute; reflexivity.
Defined.

(** What the three runs end in. *)
Example create_itinerary_three_runs :
  Mock.create_itinerary (L "Mumbai") 1 (L "food") failing_world
    = (Raise TypeError, failing_world_1) /\
  Mock.create_itinerary (L "Mumbai") 1 (L "food")
    (MockUI.world_of brace_notes_reply)
    = (Raise Mock.VALUE_ERROR, failing_world_1) /\
  Mock.create_itinerary (L "Mumbai") 1 (L "food")
    (MockUI.world_of scenario_reply)
    = (Ret (PList [PDict [(L "day", PInt 1); (L "activities", PList []);
                          (L "notes",
                            PStr (L "Weather: Weather data unavailable"))]]),
       failing_world_1).
Proof. vm_compute. repeat split; reflexivity. Qed.

(** ** Reading the indented serialization back *)

Lemma newline_indent_ws (level : nat) :
  forallb Json.is_ws (Encoder.newline_indent level) = true.
Proof.
  unfold Encoder.newline_indent. cbn [forallb]. apply forallb_forall.
  intros c Hc. apply repeat_spec in Hc. now subst.
Qed.

Lemma skip_ws_indent (level : nat) (X : str) :
  Json.skip_ws (Encoder.newline_indent level ++ X) = Json.skip_ws X.
Proof. apply skip_ws_app, newline_indent_ws. Qed.

Lemma follow_ok_indent (level : nat) (X : str) :
  follow_ok (Encoder.newline_indent level ++ X) = true.
Proof. reflexivity. Qed.

Lemma sealed_indent (level : nat) : sealed 0 (Encoder.newline_indent level).
Proof.
  apply sealed_plain; [discriminate|].
  unfold Encoder.newline_indent. cbn [existsb].
  induction (2 * level) as [|n IH]; [reflexivity|exact IH].
Qed.

Lemma sealed_comma_indent (level : nat) :
  sealed 0 (L "," ++ Encoder.newline_indent level).
Proof.
  apply sealed_app; [|apply sealed_indent].
  apply sealed_plain; [discriminate|reflexivity].
Qed.

Lemma join_head (sep : str) (p : str) (ps : list str) (c : char) (t X : str) :
  p = c :: t -> exists T, Encoder.join sep (p :: ps) ++ X = c :: T.
Proof.
  intros ->. destruct ps as [|q ps]; cbn [Encoder.join app]; eexists; reflexivity.
Qed.

Section ReadbackIndent.
Variable floatstr : str -> str.
Local Abbreviation dumps := (Encoder.dumps floatstr).
Local Abbreviation dumps_indent := (Encoder.dumps_indent floatstr).
Local Abbreviation read_back_indent := (read_back_indent floatstr).
Local Abbreviation member_indent := (member_indent floatstr).
Local Abbreviation nl := Encoder.newline_indent.

Lemma dumps_indent_list (level : nat) (x : pyval) (l : list pyval) :
  dumps_indent level (PList (x :: l)) =
    91%N :: nl (S level) ++
    Encoder.join (44%N :: nl (S level)) (map (dumps_indent (S level)) (x :: l)) ++
    nl level ++ [93%N].
Proof. reflexivity. Qed.

Lemma dumps_indent_dict (level : nat) (kv : str * pyval) (d : dict) :
  dumps_indent level (PDict (kv :: d)) =
    123%N :: nl (S level) ++
    Encoder.join (44%N :: nl (S level)) (map (member_indent (S level)) (kv :: d)) ++
    nl level ++ [125%N].
Proof. reflexivity. Qed.

Lemma dumps_indent_flat (level : nat) (v : pyval) :
  match v with PList (_ :: _) | PDict (_ :: _) => False | _ => True end ->
  dumps_indent level v = dumps v.
Proof. destruct v as [|[|]|z|f|s|[|x l]|[|kv d]]; intros H; try reflexivity; contradiction. Qed.

Lemma dumps_indent_head (level : nat) (v : pyval) :
  plain v = true ->
  exists c t, dumps_indent level v = c :: t /\ Json.is_ws c = false /\
              N.eqb c 93 = false /\ N.eqb c 125 = false.
Proof.
  intros Hp.
  destruct v as [|[|]|z|f|s|[|x l]|[|kv d]];
    try (rewrite dumps_indent_flat by exact I; now apply dumps_head).
  - rewrite dumps_indent_list. eexists; eexists. split; [reflexivity|]. now repeat split.
  - rewrite dumps_indent_dict. eexists; eexists. split; [reflexivity|]. now repeat split.
Qed.

Lemma skip_ws_dumps_indent (level : nat) (v : pyval) (T : str) :
  plain v = true -> Json.skip_ws (dumps_indent level v ++ T) = dumps_indent level v ++ T.
Proof.
  intros Hp. destruct (dumps_indent_head level v Hp) as (c & t & -> & Hc & _).
  cbn [app Json.skip_ws]. now rewrite Hc.
Qed.

Section Indents.
(** The white space after a separator ([a]) and in front of the closing
    bracket ([b]). *)
Variables a b : str.
Hypothesis a_ws : forallb Json.is_ws a = true.
Hypothesis b_ws : forallb Json.is_ws b = true.
Hypothesis b_follow : forall X, follow_ok (b ++ X) = true.

Lemma array_items_indent (scan : str -> option (pyval * str)) (level : nat)
      (l : list pyval) (n : nat) (rest : str) :
  Forall (read_back_indent level scan) l -> l <> [] -> length l <= n ->
  Json.array_items scan n
    (Encoder.join (44%N :: a) (map (dumps_indent level) l) ++ b ++ 93%N :: rest)
  = Some (l, rest).
Proof.
  revert n. induction l as [|x l IH]; intros n Hl Hne Hn; [congruence|].
  destruct n as [|n]; [cbn [length] in Hn; lia|].
  inversion Hl as [|? ? [Hp Hx] Hl']; subst.
  destruct l as [|y l].
  - cbn [map Encoder.join Json.array_items].
    rewrite (Hx _ (b_follow _)), (skip_ws_app b _ b_ws).
    reflexivity.
  - change (Encoder.join (44%N :: a) (map (dumps_indent level) (x :: y :: l)))
      with (dumps_indent level x ++ (44%N :: a) ++
            Encoder.join (44%N :: a) (map (dumps_indent level) (y :: l))).
    rewrite <- !app_assoc. cbn [app Json.array_items].
    rewrite Hx by reflexivity.
    cbn [Json.skip_ws Json.is_ws N.eqb Pos.eqb orb].
    rewrite (skip_ws_app a _ a_ws).
    assert (Ey : Json.skip_ws (Encoder.join (44%N :: a)
                                 (map (dumps_indent level) (y :: l)) ++
                               b ++ 93%N :: rest)
                 = Encoder.join (44%N :: a) (map (dumps_indent level) (y :: l)) ++
                   b ++ 93%N :: rest).
    { inversion Hl' as [|? ? [Hpy _] _]; subst.
      destruct (dumps_indent_head level y Hpy) as (c & t & Ec & Hc & _).
      cbn [map].
      destruct (join_head (44%N :: a) _ (map (dumps_indent level) l) c t
                  (b ++ 93%N :: rest) Ec) as (T & ->).
      cbn [Json.skip_ws]. now rewrite Hc. }
    rewrite Ey, IH; [reflexivity|exact Hl'|discriminate|].
    cbn [length] in *. lia.
Qed.

Lemma parse_array_indent (scan : str -> option (pyval * str)) (level : nat)
      (x : pyval) (l : list pyval) (n : nat) (rest : str) :
  Forall (read_back_indent level scan) (x :: l) -> length (x :: l) <= n ->
  Json.parse_array scan n
    (a ++ Encoder.join (44%N :: a) (map (dumps_indent level) (x :: l)) ++
     b ++ 93%N :: rest) = Some (PList (x :: l), rest).
Proof.
  intros Hl Hn. unfold Json.parse_array. rewrite (skip_ws_app a _ a_ws).
  inversion Hl as [|? ? [Hp _] _]; subst.
  destruct (dumps_indent_head level x Hp) as (c & t & Ec & Hc & H93 & _).
  cbn [map].
  destruct (join_head (44%N :: a) _ (map (dumps_indent level) l) c t
              (b ++ 93%N :: rest) Ec) as (T & E).
  rewrite E. cbn [Json.skip_ws]. rewrite Hc, H93. rewrite <- E.
  change (dumps_indent level x :: map (dumps_indent level) l)
    with (map (dumps_indent level) (x :: l)).
  rewrite array_items_indent; [reflexivity|exact Hl|discriminate|exact Hn].
Qed.

Lemma members_indent_cons (level : nat) (kv : str * pyval) (d : dict) (X : str) :
  Encoder.join (44%N :: a) (map (member_indent level) (kv :: d)) ++ X =
  QUOTE :: flat_map Encoder.escape_char (fst kv) ++
  QUOTE :: 58%N :: 32%N :: dumps_indent level (snd kv) ++
  match d with
  | [] => X
  | _ :: _ => 44%N :: a ++ Encoder.join (44%N :: a) (map (member_indent level) d) ++ X
  end.
Proof.
  destruct d as [|kv2 d].
  - cbn [map Encoder.join]. unfold member_indent, Encoder.encode_basestring_ascii.
    cbn [app]. now rewrite <- !app_assoc.
  - change (Encoder.join (44%N :: a) (map (member_indent level) (kv :: kv2 :: d)))
      with (member_indent level kv ++ (44%N :: a) ++
            Encoder.join (44%N :: a) (map (member_indent level) (kv2 :: d))).
    unfold member_indent at 1, Encoder.encode_basestring_ascii.
    norm_app. reflexivity.
Qed.

Lemma object_pairs_indent (scan : str -> option (pyval * str)) (level : nat)
      (d : dict) (n : nat) (rest T : str) :
  Forall (fun kv => text_ok (fst kv) = true /\ read_back_indent level scan (snd kv)) d ->
  d <> [] -> length d <= n ->
  QUOTE :: T = Encoder.join (44%N :: a) (map (member_indent level) d) ++
               b ++ 125%N :: rest ->
  Json.object_pairs scan n T = Some (d, rest).
Proof.
  revert n T. induction d as [|[k v] d IH]; intros n T Hd Hne Hn ET; [congruence|].
  destruct n as [|n]; [cbn [length] in Hn; lia|].
  inversion Hd as [|? ? [Hk [Hp Hv]] Hd']; subst. cbn [fst snd] in *.
  destruct (text_ok_parts k Hk) as (Hk1 & Hk2 & _).
  rewrite members_indent_cons in ET. cbn [fst snd] in ET. injection ET as ->.
  cbn [Json.object_pairs]. rewrite (scanstring_encoded k _ Hk1 Hk2).
  cbn [Json.skip_ws Json.is_ws N.eqb Pos.eqb orb].
  rewrite (skip_ws_dumps_indent level v _ Hp).
  destruct d as [|kv2 d].
  - rewrite (Hv _ (b_follow _)), (skip_ws_app b _ b_ws). reflexivity.
  - rewrite Hv by reflexivity.
    cbn [Json.skip_ws Json.is_ws N.eqb Pos.eqb orb].
    rewrite (skip_ws_app a _ a_ws).
    pose proof (members_indent_cons level kv2 d (b ++ 125%N :: rest)) as E2.
    rewrite E2. cbn [Json.skip_ws Json.is_ws N.eqb Pos.eqb orb].
    rewrite (IH n _ Hd' ltac:(discriminate)); [reflexivity| |now symmetry].
    cbn [length] in *. lia.
Qed.

Lemma parse_object_indent (scan : str -> option (pyval * str)) (level : nat)
      (kv : str * pyval) (d : dict) (n : nat) (rest : str) :
  Forall (fun kv => text_ok (fst kv) = true /\ read_back_indent level scan (snd kv))
         (kv :: d) ->
  distinct_keys (kv :: d) = true -> length (kv :: d) <= n ->
  Json.parse_object scan n
    (a ++ Encoder.join (44%N :: a) (map (member_indent level) (kv :: d)) ++
     b ++ 125%N :: rest)
    = Some (PDict (kv :: d), rest).
Proof.
  intros Hd Hk Hn. unfold Json.parse_object. rewrite (skip_ws_app a _ a_ws).
  pose proof (members_indent_cons level kv d (b ++ 125%N :: rest)) as E.
  rewrite E. cbn [Json.skip_ws Json.is_ws N.eqb Pos.eqb orb].
  rewrite (object_pairs_indent scan level (kv :: d) n rest _ Hd ltac:(discriminate) Hn
             (eq_sym E)).
  now rewrite (dict_of_pairs_distinct _ Hk).
Qed.
End Indents.

(** Every well-formed plain value is read back from its indented
    serialization, whatever the nesting level it was written at. *)
Lemma scan_once_dumps_indent (n : nat) :
  forall v, size v <= n -> wf v = true -> plain v = true ->
  forall level fuel rest, n <= fuel -> follow_ok rest = true ->
  Json.scan_once fuel (dumps_indent level v ++ rest) = Some (v, rest).
Proof.
  induction n as [|n IH]; intros v Hs Hw Hp level fuel rest Hf Hr.
  { pose proof (size_pos v). lia. }
  destruct v as [|[|]|z|f|s|[|x l]|[|kv d]];
    try (rewrite dumps_indent_flat by exact I;
         now apply (scan_once_dumps floatstr (S n))).
  - rewrite dumps_indent_list.
    destruct fuel as [|fuel]; [lia|].
    cbn [app]. rewrite <- !app_assoc. cbn [app Json.scan_once N.eqb Pos.eqb].
    cbn [size wf plain] in Hs, Hw, Hp.
    apply (parse_array_indent (nl (S level)) (nl level)
             (newline_indent_ws _) (newline_indent_ws _) (follow_ok_indent level)).
    + apply Forall_forall. intros y Hy.
      rewrite forallb_forall in Hw, Hp. split; [now apply Hp|].
      intros rest' Hr'. apply IH; auto; try lia.
      pose proof (list_sum_in size y (x :: l) Hy). lia.
    + pose proof (list_sum_length size (x :: l) size_pos). lia.
  - rewrite dumps_indent_dict.
    destruct fuel as [|fuel]; [lia|].
    cbn [app]. rewrite <- !app_assoc. cbn [app Json.scan_once N.eqb Pos.eqb].
    cbn [size wf plain] in Hs, Hw, Hp.
    apply andb_true_iff in Hw as [Hk Hw].
    apply (parse_object_indent (nl (S level)) (nl level)
             (newline_indent_ws _) (newline_indent_ws _) (follow_ok_indent level)
             (Json.scan_once fuel) (S level) kv d fuel rest); [|exact Hk|].
    + apply Forall_forall. intros [k y] Hy.
      rewrite forallb_forall in Hw, Hp.
      specialize (Hw _ Hy). specialize (Hp _ Hy). cbn [fst snd] in *.
      apply andb_true_iff in Hp as [Hpk Hpy].
      split; [exact Hpk|]. split; [exact Hpy|].
      intros rest' Hr'. apply IH; auto; try lia.
      pose proof (list_sum_in (fun kv => size (snd kv)) (k, y) (kv :: d) Hy).
      cbn [snd] in *. lia.
    + pose proof (list_sum_length (fun kv : str * pyval => size (snd kv)) (kv :: d)
                    (fun kv => size_pos (snd kv))). lia.
Qed.

Lemma loads_dumps_indent (v : pyval) :
  wf v = true -> plain v = true -> Json.loads (dumps_indent 0 v) = Some v.
Proof.
  intros Hw Hp. apply loads_fuel. exists (size v), [].
  split; [|reflexivity].
  pose proof (skip_ws_dumps_indent 0 v [] Hp) as E.
  pose proof (scan_once_dumps_indent (size v) v (le_n _) Hw Hp 0 (size v) []
                (le_n _) eq_refl) as Hs.
  rewrite List.app_nil_r in E, Hs. now rewrite E.
Qed.

Lemma sealed_dumps_indent (n : nat) :
  forall v level, size v <= n -> plain v = true -> sealed 0 (dumps_indent level v).
Proof.
  induction n as [|n IH]; intros v level Hs Hp.
  { pose proof (size_pos v). lia. }
  destruct v as [|[|]|z|f|s|[|x l]|[|kv d]];
    try (rewrite dumps_indent_flat by exact I;
         now apply (sealed_dumps floatstr (S n))).
  - rewrite dumps_indent_list. cbn [size plain] in Hs, Hp.
    change (91%N :: ?X) with ([91%N] ++ X).
    apply sealed_app; [apply sealed_plain; [discriminate|reflexivity]|].
    apply sealed_app; [apply sealed_indent|].
    apply sealed_app;
      [|apply sealed_app;
        [apply sealed_indent|apply sealed_plain; [discriminate|reflexivity]]].
    apply sealed_join; [apply (sealed_comma_indent (S level))| |discriminate].
    apply Forall_map, Forall_forall. intros y Hy.
    rewrite forallb_forall in Hp.
    apply IH; [|now apply Hp].
    pose proof (list_sum_in size y (x :: l) Hy). lia.
  - rewrite dumps_indent_dict. cbn [size plain] in Hs, Hp.
    change (123%N :: ?X) with ([123%N] ++ X).
    apply sealed_app; [apply sealed_plain; [discriminate|reflexivity]|].
    apply sealed_app; [apply sealed_indent|].
    apply sealed_app;
      [|apply sealed_app;
        [apply sealed_indent|apply sealed_plain; [discriminate|reflexivity]]].
    apply sealed_join; [apply (sealed_comma_indent (S level))| |discriminate].
    apply Forall_map, Forall_forall. intros [k y] Hy.
    rewrite forallb_forall in Hp. specialize (Hp _ Hy). cbn [fst snd] in *.
    apply andb_true_iff in Hp as [Hk Hpy].
    apply sealed_app; [now apply sealed_encoded|].
    apply sealed_app; [apply sealed_plain; [discriminate|reflexivity]|].
    apply IH; [|exact Hpy].
    pose proof (list_sum_in (fun kv => size (snd kv)) (k, y) (kv :: d) Hy).
    cbn [snd] in *. lia.
Qed.

Lemma dumps_indent_no_fence (v : pyval) :
  plain v = true -> occurs (L "```") (dumps_indent 0 v) = false.
Proof.
  intros Hp. rewrite <- has_run_occurs.
  exact (proj1 (sealed_dumps_indent (size v) v 0 (le_n _) Hp)).
Qed.

End ReadbackIndent.

Lemma occurs_newlines (s : str) :
  occurs (L "```") s = false -> occurs (L "```") ([10%N] ++ s ++ [10%N]) = false.
Proof.
  intros H. rewrite <- has_run_occurs in *.
  cbn [app has_run N.eqb Pos.eqb].
  destruct s as [|c s]; [reflexivity|].
  assert (E : forall k t, has_run k (t ++ [10%N]) = has_run k t).
  { intros k t. revert k. induction t as [|x t IH]; intros k; [reflexivity|].
    cbn [app has_run]. destruct (x =? BACKTICK)%N; [|apply IH].
    destruct k as [|[|k]]; auto. }
  now rewrite E.
Qed.

(** X10: what line 59 writes into the review prompt is read back by the
    normalizer as the itinerary itself, both bare and between fences
    on lines of their own. *)
Theorem indented_round_trip (floatstr : str -> str) (v : pyval) :
  wf v = true -> plain v = true ->
  parse_llm_json (Encoder.dumps_indent floatstr 0 v) = v /\
  parse_llm_json
    (L "```json" ++ ([10%N] ++ Encoder.dumps_indent floatstr 0 v ++ [10%N]) ++ L "```")
  = v.
Proof.
  intros Hw Hp.
  pose proof (loads_dumps_indent floatstr v Hw Hp) as Hl.
  pose proof (dumps_indent_no_fence floatstr v Hp) as Ho.
  split; [exact (parse_llm_json_strict _ v Hl Ho)|].
  apply (parse_llm_json_fenced [] (L "json")
           ([10%N] ++ Encoder.dumps_indent floatstr 0 v ++ [10%N]) [] v);
    auto using occurs_newlines.
  exact (loads_padded [10%N] _ [10%N] v Hl eq_refl eq_refl).
Qed.

Lemma indented_round_trip_scenario :
  parse_llm_json (Encoder.dumps_indent Mock.floatstr 0 (PList [scenario_day]))
    = PList [scenario_day] /\
  parse_llm_json
    (L "```json" ++
     ([10%N] ++ Encoder.dumps_indent Mock.floatstr 0 (PList [scenario_day]) ++ [10%N]) ++
     L "```")
  = PList [scenario_day].
Proof. apply indented_round_trip; reflexivity. Defined.

(** ** The map of a day: [display_map_day] *)

(** X11: the colour of a day's markers, [colors[(day - 1) % 7]], is
    defined for every integer day number, the non-positive ones
    included, and repeats with period seven. *)
Theorem marker_colour_cycles (z : Z) :
  exists c,
    color_of_day (PInt z) = Ret c /\
    nth_error COLORS (Z.to_nat ((z - 1) mod 7)) = Some c /\
    color_of_day (PInt (z + 7)) = Ret c.
Proof.
  assert (E : ((z + 7 - 1) mod 7 = (z - 1) mod 7)%Z).
  { replace (z + 7 - 1)%Z with (z - 1 + 1 * 7)%Z by lia. apply Z_mod_plus_full. }
  cbn [color_of_day]. change (Z.of_nat (length COLORS)) with 7%Z. rewrite E.
  pose proof (Z.mod_pos_bound (z - 1) 7 ltac:(lia)) as B.
  set (m := ((z - 1) mod 7)%Z) in *.
  assert (R : (m = 0 \/ m = 1 \/ m = 2 \/ m = 3 \/ m = 4 \/ m = 5 \/ m = 6)%Z) by lia.
  repeat (destruct R as [-> | R]; [eexists; repeat split; reflexivity|]).
  subst m. rewrite R. eexists; repeat split; reflexivity.
Qed.

Section MapFacts.
Variable World : Type.
Variable float_str : str -> str.
Variable container_str : pyval -> str.
Variable float_bool : str -> bool.
Variable geocode : str -> Py World (option Location).
Variable repr_html : FoliumMap -> str.

Local Abbreviation format_value := (format_value float_str container_str).
Local Abbreviation truthy := (truthy float_bool).
Local Abbreviation has_place := (has_place float_bool).
Local Abbreviation place_marker :=
  (place_marker World float_str container_str geocode).
Local Abbreviation map_activities :=
  (map_activities World float_str container_str float_bool geocode).
Local Abbreviation city_map := (city_map World geocode).
Local Abbreviation display_map_day :=
  (display_map_day World float_str container_str float_bool geocode repr_html).

(** The guarded step for one activity: it never fails, leaves the page
    alone, and either leaves the map alone or adds one marker in the
    colour of the day. *)
Lemma place_marker_guarded (day : pyval) (city : str) (place desc : pyval)
      (fmap : FoliumMap) (w : World) (p : page) :
  exists w' fmap',
    ui_try World (place_marker day city place desc fmap) (ui_ret World fmap) (w, p)
      = (Done fmap', (w', p)) /\
    map_location fmap' = map_location fmap /\
    map_zoom_start fmap' = map_zoom_start fmap /\
    (fmap' = fmap \/
     exists m, day_color day = Ret (icon_color (marker_icon m)) /\
               map_children fmap' = map_children fmap ++ [m]).
Proof.
  unfold ui_try, place_marker, ui_bind, in_world, ui_pure, ui_ret.
  cbn [fst snd].
  destruct (geocode _ w) as [[[loc|]|e] w'].
  - destruct (day_color day) as [color|e] eqn:Ec.
    + eexists; eexists. split; [reflexivity|]. repeat split.
      right. eexists. split; [|reflexivity]. reflexivity.
    + exists w', fmap. repeat split. now left.
  - exists w', fmap. repeat split. now left.
  - exists w', fmap. repeat split. now left.
Qed.

(** The loop over activities that are mappings: it completes whatever the
    geocoder does, draws nothing, keeps the centre, and adds at most one
    marker for each activity that has a place, each in the colour of
    the day. *)
Lemma map_activities_total (day : pyval) (city : str) (acts : list pyval) :
  forallb is_dict acts = true ->
  forall (fmap : FoliumMap) (w : World) (p : page),
  exists w' fmap' added,
    map_activities day city acts fmap (w, p) = (Done fmap', (w', p)) /\
    map_location fmap' = map_location fmap /\
    map_zoom_start fmap' = map_zoom_start fmap /\
    map_children fmap' = map_children fmap ++ added /\
    length added <= length (filter has_place acts) /\
    Forall (fun m => day_color day = Ret (icon_color (marker_icon m))) added.
Proof.
  induction acts as [|act acts IH]; intros Ha fmap w p.
  - exists w, fmap, []. cbn. rewrite List.app_nil_r. repeat split; auto.
  - cbn [forallb] in Ha. apply andb_true_iff in Ha as [Hd Ha].
    destruct act as [| | | | | |a]; try discriminate.
    cbn [map_activities]. unfold ui_bind at 1 2, ui_lift.
    cbn [get_method filter has_place].
    destruct (truthy (dict_get_default a (L "place_name") (PStr []))) eqn:Et.
    + unfold ui_bind at 1.
      destruct (place_marker_guarded day city
                  (dict_get_default a (L "place_name") (PStr []))
                  (dict_get_default a (L "description") (PStr [])) fmap w p)
        as (w1 & fmap1 & E1 & Hl1 & Hz1 & Hc1).
      rewrite E1.
      destruct (IH Ha fmap1 w1 p) as (w' & fmap' & added & E & Hl & Hz & Hc & Hn & Hf).
      destruct Hc1 as [-> | (m & Hm & Hc1)].
      * exists w', fmap', added. repeat split; auto. cbn [length]. lia.
      * exists w', fmap', (m :: added). split; [exact E|].
        split; [congruence|]. split; [congruence|].
        split; [rewrite Hc, Hc1, <- app_assoc; reflexivity|].
        split; [cbn [length]; lia|]. now constructor.
    + destruct (IH Ha fmap w p) as (w' & fmap' & added & E & Hl & Hz & Hc & Hn & Hf).
      exists w', fmap', added. repeat split; auto.
Qed.

(** The map before the loop. *)
Lemma city_map_guarded (city : str) (w : World) (p : page) :
  ui_try World (city_map city) (ui_ret World (new_map DEFAULT_CENTER)) (w, p) =
    (Done (new_map match fst (geocode city w) with
                   | Ret (Some loc) => [PFloat (latitude loc); PFloat (longitude loc)]
                   | _ => DEFAULT_CENTER
                   end),
     (snd (geocode city w), p)).
Proof.
  unfold ui_try, city_map, ui_bind, in_world, ui_ret, ui_lift. cbn [fst snd].
  now destruct (geocode city w) as [[[loc|]|e] w'].
Qed.

Lemma display_map_day_run (d : dict) (acts : list pyval) (city : str)
      (w : World) (p : page) :
  dict_get_default d (L "activities") (PList []) = PList acts ->
  forallb is_dict acts = true ->
  exists w' fmap,
    display_map_day (PDict d) city (w, p)
      = (Done tt, (w', p ++ [st_html (repr_html fmap) 500])) /\
    map_location fmap = match fst (geocode city w) with
                        | Ret (Some loc) =>
                            [PFloat (latitude loc); PFloat (longitude loc)]
                        | _ => DEFAULT_CENTER
                        end /\
    map_zoom_start fmap = 12%Z /\
    length (map_children fmap) <= length (filter has_place acts) /\
    Forall (fun m => day_color (PDict d) = Ret (icon_color (marker_icon m)))
           (map_children fmap).
Proof.
  intros Hacts Hd. unfold display_map_day.
  unfold ui_bind at 1. rewrite city_map_guarded.
  unfold ui_bind at 1, ui_lift at 1. cbn [get_method]. rewrite Hacts.
  unfold ui_bind at 1, ui_lift at 1. cbn [iterate].
  unfold ui_bind.
  destruct (map_activities_total (PDict d) city acts Hd
              (new_map match fst (geocode city w) with
                       | Ret (Some loc) =>
                           [PFloat (latitude loc); PFloat (longitude loc)]
                       | _ => DEFAULT_CENTER
                       end)
              (snd (geocode city w)) p)
    as (w' & fmap & added & E & Hl & Hz & Hc & Hn & Hf).
  rewrite E. exists w', fmap. split; [reflexivity|].
  cbn [new_map map_location map_zoom_start map_children app] in Hl, Hz, Hc.
  rewrite Hc. repeat split; auto.
Qed.

(** X12: on a day that is a mapping whose activities are mappings,
    [display_map_day] completes whatever the geocoder does (a location,
    none, or an exception, for the city and for every place); it draws
    exactly one component, the map, which holds at most one marker for
    each activity with a place name. *)
Theorem display_map_day_survives_geocoder
        (d : dict) (acts : list pyval) (city : str) (w : World) (p : page) :
  dict_get_default d (L "activities") (PList []) = PList acts ->
  forallb is_dict acts = true ->
  exists w' fmap,
    display_map_day (PDict d) city (w, p)
      = (Done tt, (w', p ++ [st_html (repr_html fmap) 500])) /\
    length (map_children fmap) <= length (filter has_place acts).
Proof.
  intros Ha Hd.
  destruct (display_map_day_run d acts city w p Ha Hd) as (w' & fmap & E & _ & _ & H & _).
  now exists w', fmap.
Qed.

(** X13: the map is centred on the city when the geocoder finds it, and on
    the fixed default when it finds nothing or raises; the zoom is 12
    either way. *)
Theorem map_centre (d : dict) (acts : list pyval) (city : str) (w : World) (p : page) :
  dict_get_default d (L "activities") (PList []) = PList acts ->
  forallb is_dict acts = true ->
  exists w' fmap,
    display_map_day (PDict d) city (w, p)
      = (Done tt, (w', p ++ [st_html (repr_html fmap) 500])) /\
    map_zoom_start fmap = 12%Z /\
    (forall loc w1, geocode city w = (Ret (Some loc), w1) ->
       map_location fmap = [PFloat (latitude loc); PFloat (longitude loc)]) /\
    (forall w1, geocode city w = (Ret None, w1) ->
       map_location fmap = [PFloat (L "19.0760"); PFloat (L "72.8777")]) /\
    (forall e w1, geocode city w = (Raise e, w1) ->
       map_location fmap = [PFloat (L "19.0760"); PFloat (L "72.8777")]).
Proof.
  intros Ha Hd.
  destruct (display_map_day_run d acts city w p Ha Hd) as (w' & fmap & E & Hl & Hz & _).
  exists w', fmap. split; [exact E|]. split; [exact Hz|].
  repeat split; intros; rewrite Hl; now rewrite H.
Qed.

(** X14: without an integer day number there are no markers: when the
    day has no [day] key, or one that is neither an [int] nor a [bool],
    the marker of every activity is given up and the map stays empty,
    although the places are looked up all the same. *)
Theorem markers_need_day_number
        (d : dict) (acts : list pyval) (city : str) (w : World) (p : page) :
  dict_get_default d (L "activities") (PList []) = PList acts ->
  forallb is_dict acts = true ->
  (forall z, dict_get d (L "day") <> Some (PInt z)) ->
  (forall b, dict_get d (L "day") <> Some (PBool b)) ->
  exists w' fmap,
    display_map_day (PDict d) city (w, p)
      = (Done tt, (w', p ++ [st_html (repr_html fmap) 500])) /\
    map_children fmap = [].
Proof.
  intros Ha Hd Hz Hb.
  destruct (display_map_day_run d acts city w p Ha Hd)
    as (w' & fmap & E & _ & _ & _ & Hf).
  exists w', fmap. split; [exact E|].
  destruct (map_children fmap) as [|m ms]; [reflexivity|].
  inversion Hf as [|? ? Hm _]; subst. exfalso.
  unfold day_color, getitem_key in Hm.
  destruct (dict_get d (L "day")) as [v|] eqn:Ev; [|discriminate].
  cbn [obind] in Hm.
  destruct v; try discriminate; [now apply (Hb b)|now apply (Hz z)].
Qed.

(** X15: all markers of a day have the colour that its day number
    selects. *)
Theorem markers_share_day_colour
        (d : dict) (acts : list pyval) (city : str) (w : World) (p : page) (z : Z) :
  dict_get_default d (L "activities") (PList []) = PList acts ->
  forallb is_dict acts = true ->
  dict_get d (L "day") = Some (PInt z) ->
  exists w' fmap,
    display_map_day (PDict d) city (w, p)
      = (Done tt, (w', p ++ [st_html (repr_html fmap) 500])) /\
    Forall (fun m => nth_error COLORS (Z.to_nat ((z - 1) mod 7))
                     = Some (icon_color (marker_icon m)))
           (map_children fmap).
Proof.
  intros Ha Hd Hz.
  destruct (display_map_day_run d acts city w p Ha Hd)
    as (w' & fmap & E & _ & _ & _ & Hf).
  exists w', fmap. split; [exact E|].
  eapply Forall_impl; [|exact Hf]. intros m Hm. cbv beta in Hm.
  unfold day_color, getitem_key in Hm. rewrite Hz in Hm. cbn [obind] in Hm.
  cbn [color_of_day] in Hm. change (Z.of_nat (length COLORS)) with 7%Z in Hm.
  pose proof (Z.mod_pos_bound (z - 1) 7 ltac:(lia)) as B.
  set (k := ((z - 1) mod 7)%Z) in *.
  assert (R : (k = 0 \/ k = 1 \/ k = 2 \/ k = 3 \/ k = 4 \/ k = 5 \/ k = 6)%Z) by lia.
  clearbody k.
  repeat (destruct R as [-> | R]; [now injection Hm as <-|]).
  subst k. now injection Hm as <-.
Qed.

Lemma map_activities_unnamed (day : pyval) (city : str) (acts : list pyval) :
  forallb is_dict acts = true ->
  forallb (fun act => negb (has_place act)) acts = true ->
  forall (fmap : FoliumMap) (s : World * page),
    map_activities day city acts fmap s = (Done fmap, s).
Proof.
  induction acts as [|act acts IH]; intros Ha Hn fmap s; [reflexivity|].
  cbn [forallb] in Ha, Hn.
  apply andb_true_iff in Ha as [Hd Ha]. apply andb_true_iff in Hn as [Hp Hn].
  destruct act as [| | | | | |a]; try discriminate.
  cbn [map_activities]. unfold ui_bind at 1 2, ui_lift.
  cbn [get_method]. cbn [has_place] in Hp.
  apply negb_true_iff in Hp. rewrite Hp. now apply IH.
Qed.

(** X16: an activity without a place name (absent, empty, or otherwise
    false) is passed over without a lookup: when no activity has one,
    the only call to the geocoder is the one for the city, and the map
    is empty. *)
Theorem unnamed_places_not_geocoded
        (d : dict) (acts : list pyval) (city : str) (w : World) (p : page) :
  dict_get_default d (L "activities") (PList []) = PList acts ->
  forallb is_dict acts = true ->
  forallb (fun act => negb (has_place act)) acts = true ->
  display_map_day (PDict d) city (w, p) =
    (Done tt,
     (snd (geocode city w),
      p ++ [st_html
              (repr_html
                 (new_map match fst (geocode city w) with
                          | Ret (Some loc) =>
                              [PFloat (latitude loc); PFloat (longitude loc)]
                          | _ => DEFAULT_CENTER
                          end)) 500])).
Proof.
  intros Hacts Hd Hn. unfold display_map_day.
  unfold ui_bind at 1. rewrite city_map_guarded.
  unfold ui_bind at 1, ui_lift at 1. cbn [get_method]. rewrite Hacts.
  unfold ui_bind at 1, ui_lift at 1. cbn [iterate].
  unfold ui_bind. now rewrite (map_activities_unnamed _ _ _ Hd Hn).
Qed.

End MapFacts.

Lemma display_map_day_survives_geocoder_busy :
  exists w' fmap,
    MockUI.display_map_day (PDict MockUI.busy_day) (L "Mumbai") (MockUI.world_after, [])
      = (Done tt, (w', [] ++ [st_html (MockUI.repr_html fmap) 500])) /\
    length (map_children fmap) <=
    length (filter (has_place MockUI.float_bool)
              [PDict [(L "place_name", PStr (L "Gateway of India"))];
               PDict [(L "place_name", PStr (L "Atlantis Cafe"))];
               PDict [(L "place_name", PStr (L "Offline Market"))];
               PDict [(L "description", PStr (L "A walk"))]]).
Proof.
  apply (display_map_day_survives_geocoder Mock.World Mock.float_str
           Mock.container_str MockUI.float_bool MockUI.geocode MockUI.repr_html
           MockUI.busy_day); reflexivity.
Defined.

Example busy_day_map :
  MockUI.display_map_day (PDict MockUI.busy_day) (L "Mumbai") (MockUI.world_after, [])
    = (Done tt, (MockUI.world_after, [st_html (L "markers: 1") 500])).
Proof. vm_compute. reflexivity. Qed.

Lemma map_centre_atlantis :
  exists w' fmap,
    MockUI.display_map_day (PDict MockUI.quiet_day) (L "Atlantis")
      (MockUI.world_after, [])
      = (Done tt, (w', [] ++ [st_html (MockUI.repr_html fmap) 500])) /\
    map_zoom_start fmap = 12%Z /\
    (forall loc w1, MockUI.geocode (L "Atlantis") MockUI.world_after
                    = (Ret (Some loc), w1) ->
       map_location fmap = [PFloat (latitude loc); PFloat (longitude loc)]) /\
    (forall w1, MockUI.geocode (L "Atlantis") MockUI.world_after = (Ret None, w1) ->
       map_location fmap = [PFloat (L "19.0760"); PFloat (L "72.8777")]) /\
    (forall e w1, MockUI.geocode (L "Atlantis") MockUI.world_after = (Raise e, w1) ->
       map_location fmap = [PFloat (L "19.0760"); PFloat (L "72.8777")]).
Proof.
  apply (map_centre Mock.World Mock.float_str Mock.container_str MockUI.float_bool
           MockUI.geocode MockUI.repr_html MockUI.quiet_day
           [PDict [(L "description", PStr (L "A walk"))];
            PDict [(L "place_name", PStr [])]]); reflexivity.
Defined.

Lemma markers_need_day_number_quiet :
  exists w' fmap,
    MockUI.display_map_day
      (PDict [(L "day", PStr (L "one"));
              (L "activities",
                PList [PDict [(L "place_name", PStr (L "Gateway of India"))]])])
      (L "Mumbai") (MockUI.world_after, [])
      = (Done tt, (w', [] ++ [st_html (MockUI.repr_html fmap) 500])) /\
    map_children fmap = [].
Proof.
  apply (markers_need_day_number Mock.World Mock.float_str Mock.container_str
           MockUI.float_bool MockUI.geocode MockUI.repr_html
           [(L "day", PStr (L "one"));
            (L "activities",
              PList [PDict [(L "place_name", PStr (L "Gateway of India"))]])]
           [PDict [(L "place_name", PStr (L "Gateway of India"))]]);
    try reflexivity; intros x H; vm_compute in H; discriminate.
Defined.

Lemma markers_share_day_colour_busy :
  exists w' fmap,
    MockUI.display_map_day (PDict MockUI.busy_day) (L "Mumbai") (MockUI.world_after, [])
      = (Done tt, (w', [] ++ [st_html (MockUI.repr_html fmap) 500])) /\
    Forall (fun m => nth_error COLORS (Z.to_nat ((9 - 1) mod 7))
                     = Some (icon_color (marker_icon m)))
           (map_children fmap).
Proof.
  apply (markers_share_day_colour Mock.World Mock.float_str Mock.container_str
           MockUI.float_bool MockUI.geocode MockUI.repr_html MockUI.busy_day
           [PDict [(L "place_name", PStr (L "Gateway of India"))];
            PDict [(L "place_name", PStr (L "Atlantis Cafe"))];
            PDict [(L "place_name", PStr (L "Offline Market"))];
            PDict [(L "description", PStr (L "A walk"))]]); reflexivity.
Defined.

Lemma unnamed_places_not_geocoded_quiet :
  MockUI.display_map_day (PDict MockUI.quiet_day) (L "Mumbai") (MockUI.world_after, [])
    = (Done tt, (MockUI.world_after, [st_html (L "markers: 0") 500])).
Proof.
  apply (unnamed_places_not_geocoded Mock.World Mock.float_str Mock.container_str
           MockUI.float_bool MockUI.geocode MockUI.repr_html MockUI.quiet_day
           [PDict [(L "description", PStr (L "A walk"))];
            PDict [(L "place_name", PStr [])]] (L "Mumbai") MockUI.world_after []);
    reflexivity.
Defined.

(** ** The cards, the notes and the button *)

Lemma str_strip_blank (s : str) : forallb py_isspace s = true -> str_strip s = [].
Proof.
  intros H. unfold str_strip, strip_by.
  pose proof (lstrip_by_all py_isspace s [] H) as K.
  rewrite List.app_nil_r in K. now rewrite K.
Qed.

Lemma strip_by_keeps (p : char -> bool) (a : str) (c : char) (b : str) :
  p c = false -> strip_by p (a ++ c :: b) <> [].
Proof.
  intros Hc. unfold strip_by.
  destruct (lstrip_by_app p a (c :: b) c b eq_refl Hc) as (t & E & _).
  rewrite E. destruct (rstrip_by_keeps p t c b Hc) as (t' & ->).
  now destruct t.
Qed.

(** The notes that the annotation loop stores are never empty. *)
Lemma annotate_day_notes_nonempty (weather : str) (d : dict) (day' : pyval) :
  annotate_day weather (PDict d) = Ret day' ->
  exists notes,
    day' = PDict (dict_set d (L "notes") (PStr notes)) /\ notes <> [].
Proof.
  cbn [annotate_day].
  destruct (add_str _ _) as [s|e] eqn:E; cbn [obind]; [|discriminate].
  intros [= <-]. eexists. split; [reflexivity|].
  unfold add_str in E.
  destruct (dict_get_default d (L "notes") (PStr [])) as [| | | |n| |];
    try discriminate.
  assert (Es : s = n ++ L " | Weather: " ++ weather) by congruence.
  rewrite Es. unfold str_strip_chars.
  change (n ++ L " | Weather: " ++ weather)
    with (n ++ L " | " ++ 87%N :: L "eather: " ++ weather).
  rewrite app_assoc. now apply strip_by_keeps.
Qed.

Section PageFacts.
Variable World : Type.
Variable quote : str -> outcome str.
Variable requests_get_json : str -> Py World pyval.
Variable Template Messages : Type.
Variable from_messages : list (str * str) -> Template.
Variable template_error : list (str * str) -> option exn.
Variable format_messages : Template -> list (str * pyval) -> outcome Messages.
Variable llm_invoke : Messages -> Py World str.
Variable floatstr : str -> str.
Variable float_str : str -> str.
Variable container_str : pyval -> str.
Variable GENERATION_SYSTEM : str.
Variable float_bool : str -> bool.
Variable geocode : str -> Py World (option Location).
Variable repr_html : FoliumMap -> str.

Local Abbreviation format_value := (format_value float_str container_str).
Local Abbreviation generation_prompt :=
  (generation_prompt Template from_messages GENERATION_SYSTEM).
Local Abbreviation create_itinerary :=
  (create_itinerary World quote requests_get_json Template Messages
     from_messages template_error format_messages llm_invoke floatstr
     float_str container_str GENERATION_SYSTEM).
Local Abbreviation render_activity :=
  (render_activity World quote float_str container_str).
Local Abbreviation render_activities :=
  (render_activities World quote float_str container_str).
Local Abbreviation display_itinerary_day :=
  (display_itinerary_day World quote float_str container_str float_bool).
Local Abbreviation day_details :=
  (day_details World quote float_str container_str float_bool).
Local Abbreviation render_day :=
  (render_day World quote float_str container_str float_bool geocode repr_html).
Local Abbreviation render_days :=
  (render_days World quote float_str container_str float_bool geocode repr_html).
Local Abbreviation generate_button :=
  (generate_button World quote requests_get_json Template Messages
     from_messages template_error format_messages llm_invoke floatstr
     float_str container_str GENERATION_SYSTEM float_bool geocode repr_html).

(** X17: a blank city is turned away: the only call is the error message,
    and nothing outside the process is touched. *)
Theorem blank_city_rejected (city : str) (days : Z) (interests : str)
        (w : World) (p : page) :
  forallb py_isspace city = true ->
  generate_button true city days interests (w, p)
    = (Done tt, (w, p ++ [st_error CITY_ERROR])).
Proof.
  intros H. unfold generate_button.
  now rewrite (str_strip_blank city H).
Qed.

(** The handler once the pipeline has returned. *)
Lemma generate_button_after_pipeline (city : str) (days : Z) (interests : str)
      (w w1 : World) (p : page) (l : list pyval) :
  Json.is_nil (str_strip city) = false ->
  create_itinerary city days interests w = (Ret (PList l), w1) ->
  generate_button true city days interests (w, p) =
    render_days city l
      (w1, p ++ [st_enter (st_spinner (spinner_text (Encoder.int_repr days) city));
                 st_exit (st_spinner (spinner_text (Encoder.int_repr days) city));
                 st_success (success_text (Encoder.int_repr days) city);
                 st_markdown (L "---") false]).
Proof.
  intros Hc Hp. unfold generate_button. rewrite Hc.
  unfold ui_bind at 1, with_block, in_world. cbn [fst snd]. rewrite Hp.
  unfold ui_bind at 1, emit at 1. unfold ui_bind at 1, emit at 1.
  unfold ui_bind at 1, ui_lift. cbn [iterate fst snd].
  now rewrite <- !app_assoc.
Qed.

(** X18: a failure of the generation call is not caught by the handler
    either: it leaves the spinner block and ends the script run; no
    success message and no day are drawn. *)
Theorem generation_failure_surfaces (city : str) (days : Z) (interests : str)
        (w w' : World) (p : page) (messages : Messages) (e : exn) :
  Json.is_nil (str_strip city) = false ->
  format_messages generation_prompt
    [(L "city", PStr city); (L "days", PInt days);
     (L "interests", PStr interests)] = Ret messages ->
  llm_invoke messages w = (Raise e, w') ->
  generate_button true city days interests (w, p) =
    (Failed (Exn e),
     (w', p ++ [st_enter (st_spinner (spinner_text (Encoder.int_repr days) city));
                st_exit (st_spinner (spinner_text (Encoder.int_repr days) city))])).
Proof.
  intros Hc Hf Hl.
  assert (E : create_itinerary city days interests w = (Raise e, w')).
  { unfold create_itinerary, bind, lift. now rewrite Hf, Hl. }
  unfold generate_button. rewrite Hc.
  unfold ui_bind at 1, with_block, in_world. cbn [fst snd]. rewrite E.
  cbn [fst snd]. now rewrite <- !app_assoc.
Qed.

(** X19: when the pipeline returns the empty sequence, the handler
    announces the itinerary and draws no day. *)
Theorem empty_itinerary_announced (city : str) (days : Z) (interests : str)
        (w w1 : World) (p : page) :
  Json.is_nil (str_strip city) = false ->
  create_itinerary city days interests w = (Ret (PList []), w1) ->
  generate_button true city days interests (w, p) =
    (Done tt,
     (w1, p ++ [st_enter (st_spinner (spinner_text (Encoder.int_repr days) city));
                st_exit (st_spinner (spinner_text (Encoder.int_repr days) city));
                st_success (success_text (Encoder.int_repr days) city);
                st_markdown (L "---") false])).
Proof.
  intros Hc Hp. now rewrite (generate_button_after_pipeline _ _ _ _ _ _ _ Hc Hp).
Qed.

(** X20: an element of the itinerary that is no mapping ends the script
    run with an [AttributeError], after the success message and before
    anything of that day is drawn. *)
Theorem non_mapping_day_crashes (city : str) (days : Z) (interests : str)
        (w w1 : World) (p : page) (day : pyval) (rest : list pyval) :
  Json.is_nil (str_strip city) = false ->
  create_itinerary city days interests w = (Ret (PList (day :: rest)), w1) ->
  is_dict day = false ->
  generate_button true city days interests (w, p) =
    (Failed AttributeError,
     (w1, p ++ [st_enter (st_spinner (spinner_text (Encoder.int_repr days) city));
                st_exit (st_spinner (spinner_text (Encoder.int_repr days) city));
                st_success (success_text (Encoder.int_repr days) city);
                st_markdown (L "---") false])).
Proof.
  intros Hc Hp Hd. rewrite (generate_button_after_pipeline _ _ _ _ _ _ _ Hc Hp).
  destruct day; try discriminate; reflexivity.
Qed.

Lemma render_activity_bad_place (card : str -> str -> str -> str -> str -> str)
      (city : str) (a : dict) (v : pyval) (s : World * page) :
  dict_get a (L "place_name") = Some v -> is_str v = false ->
  render_activity card city (PDict a) s = (Failed (Exn TypeError), s).
Proof.
  intros Hv Hs. unfold render_activity, ui_bind, ui_lift, ui_pure.
  cbn [get_method]. unfold dict_get_default at 1. rewrite Hv.
  destruct v; try discriminate; reflexivity.
Qed.

(** X21: an activity whose [place_name] is present and not text (a JSON
    [null] or number, say) ends the display with a [TypeError], in
    [display_itinerary_day] after the title of the day and on the page
    inside the first column. *)
Theorem non_text_place_crashes (d a : dict) (rest : list pyval) (v : pyval)
        (city : str) (w : World) (p : page) :
  dict_get_default d (L "activities") (PList []) = PList (PDict a :: rest) ->
  dict_get a (L "place_name") = Some v -> is_str v = false ->
  display_itinerary_day (PDict d) city (w, p) =
    (Failed (Exn TypeError),
     (w, p ++ [st_markdown
                 (day_title (format_value (dict_get_default d (L "day") (PStr (L "?")))))
                 false])) /\
  render_day city (PDict d) (w, p) =
    (Failed (Exn TypeError),
     (w, p ++ [st_markdown
                 (day_header_html
                    (format_value (dict_get_default d (L "day") (PStr (L "?")))))
                 true;
               st_columns [PFloat (L "1.3"); PInt 1];
               st_enter (st_column 1); st_exit (st_column 1)])).
Proof.
  intros Ha Hv Hs. split.
  - unfold display_itinerary_day.
    unfold ui_bind at 1, ui_lift at 1. cbn [get_method].
    unfold ui_bind at 1, emit at 1. cbn [fst snd].
    unfold ui_bind at 1, ui_lift at 1. cbn [get_method]. rewrite Ha.
    unfold ui_bind at 1, ui_lift at 1. cbn [iterate].
    unfold ui_bind at 1. cbn [render_activities]. unfold ui_bind at 1.
    now rewrite (render_activity_bad_place _ _ _ _ _ Hv Hs).
  - unfold render_day.
    unfold ui_bind at 1, ui_lift at 1. cbn [get_method].
    unfold ui_bind at 1, emit at 1. cbn [fst snd].
    unfold ui_bind at 1, emit at 1. cbn [fst snd].
    unfold ui_bind at 1, with_block at 1. cbn [fst snd].
    unfold day_details.
    unfold ui_bind at 1, ui_lift at 1. cbn [get_method]. rewrite Ha.
    unfold ui_bind at 1, ui_lift at 1. cbn [iterate].
    unfold ui_bind at 1. cbn [render_activities]. unfold ui_bind at 1.
    rewrite (render_activity_bad_place _ _ _ _ _ Hv Hs). cbn [fst snd].
    now rewrite <- !app_assoc.
Qed.

(** X22: after the annotation loop the notes of a day are never empty, so
    the box with the notes is always drawn: [display_itinerary_day] and
    the first column of the page end with it whenever the cards of the
    day have been drawn. *)
Theorem annotated_notes_are_shown (weather : str) (d : dict) (day' : pyval)
        (acts : list pyval) (city : str) (w : World) (p : page) :
  annotate_day weather (PDict d) = Ret day' ->
  dict_get_default d (L "activities") (PList []) = PList acts ->
  exists notes,
    getitem_key day' (L "notes") = Ret (PStr notes) /\ notes <> [] /\
    display_itinerary_day day' city (w, p) =
      match render_activities day_card_html city acts
              (w, p ++ [st_markdown
                          (day_title
                             (format_value (dict_get_default d (L "day") (PStr (L "?")))))
                          false])
      with
      | (Done _, (w1, p1)) =>
          (Done tt, (w1, p1 ++ [st_info (notes_info notes); st_divider]))
      | (Failed e, s1) => (Failed e, s1)
      end /\
    day_details city day' (w, p) =
      match render_activities activity_card_html city acts (w, p) with
      | (Done _, (w1, p1)) =>
          (Done tt, (w1, p1 ++ [st_markdown (notes_box_html notes) true]))
      | (Failed e, s1) => (Failed e, s1)
      end.
Proof.
  intros Hann Hacts.
  destruct (annotate_day_notes_nonempty weather d day' Hann) as (notes & -> & Hn).
  exists notes.
  assert (Eget : dict_get (dict_set d (L "notes") (PStr notes)) (L "notes")
                 = Some (PStr notes)) by apply dict_get_set_same.
  assert (Eday : dict_get_default (dict_set d (L "notes") (PStr notes)) (L "day")
                   (PStr (L "?"))
                 = dict_get_default d (L "day") (PStr (L "?"))).
  { unfold dict_get_default. now rewrite dict_get_set_other. }
  assert (Eacts : dict_get_default (dict_set d (L "notes") (PStr notes))
                    (L "activities") (PList []) = PList acts).
  { unfold dict_get_default in *. now rewrite dict_get_set_other. }
  assert (Enotes : forall dflt,
             dict_get_default (dict_set d (L "notes") (PStr notes)) (L "notes") dflt
             = PStr notes).
  { intros dflt. unfold dict_get_default. now rewrite Eget. }
  assert (Ht : truthy float_bool (PStr notes) = true)
    by (destruct notes; [congruence|reflexivity]).
  split; [cbn [getitem_key]; now rewrite Eget|]. split; [exact Hn|]. split.
  - unfold display_itinerary_day.
    unfold ui_bind at 1, ui_lift at 1. cbn [get_method]. rewrite Eday.
    unfold ui_bind at 1, emit at 1. cbn [fst snd].
    unfold ui_bind at 1, ui_lift at 1. cbn [get_method]. rewrite Eacts.
    unfold ui_bind at 1, ui_lift at 1. cbn [iterate].
    unfold ui_bind at 1.
    destruct (render_activities day_card_html city acts _) as [[[]|e] [w1 p1]];
      [|reflexivity].
    unfold ui_bind at 1, ui_lift at 1. cbn [get_method]. rewrite Enotes, Ht.
    unfold ui_bind, ui_pure, emit. cbn [getitem_key]. rewrite Eget.
    cbn [fst snd format_value]. now rewrite <- !app_assoc.
  - unfold day_details.
    unfold ui_bind at 1, ui_lift at 1. cbn [get_method]. rewrite Eacts.
    unfold ui_bind at 1, ui_lift at 1. cbn [iterate].
    unfold ui_bind at 1.
    destruct (render_activities activity_card_html city acts _) as [[[]|e] [w1 p1]];
      [|reflexivity].
    unfold ui_bind at 1, ui_lift at 1. cbn [get_method]. rewrite Enotes, Ht.
    unfold ui_bind, ui_pure, emit. cbn [getitem_key]. rewrite Eget.
    reflexivity.
Qed.

Lemma activity_shaped_parts (act : pyval) :
  activity_shaped act = true ->
  exists a place,
    act = PDict a /\
    dict_get_default a (L "place_name") (PStr (L "Unknown Place")) = PStr place.
Proof.
  destruct act as [| | | | | |a]; try discriminate.
  cbn [activity_shaped]. intros H.
  apply andb_true_iff in H as [H _]. apply andb_true_iff in H as [H _].
  apply andb_true_iff in H as [_ H].
  unfold field_ok in H. exists a. unfold dict_get_default.
  destruct (dict_get a (L "place_name")) as [v|].
  - destruct v; try discriminate. eexists; split; reflexivity.
  - eexists; split; reflexivity.
Qed.

Lemma activity_shaped_is_dict (acts : list pyval) :
  forallb activity_shaped acts = true -> forallb is_dict acts = true.
Proof.
  rewrite !forallb_forall. intros H x Hx. specialize (H x Hx).
  destruct x; try discriminate; reflexivity.
Qed.

(** The cards of activities that have the shape of the data model are
    all drawn, when quoting succeeds. *)
Lemma render_activities_shaped
      (card : str -> str -> str -> str -> str -> str) (city : str)
      (acts : list pyval) :
  (forall s, exists q, quote s = Ret q) ->
  forallb activity_shaped acts = true ->
  forall (w : World) (p : page),
  exists cards,
    render_activities card city acts (w, p) = (Done tt, (w, p ++ cards)) /\
    length cards = length acts /\
    Forall (fun c => exists body, c = st_markdown body true) cards.
Proof.
  intros Hq. induction acts as [|act acts IH]; intros Ha w p.
  - exists []. rewrite List.app_nil_r. repeat split. constructor.
  - cbn [forallb] in Ha. apply andb_true_iff in Ha as [H1 H2].
    destruct (activity_shaped_parts act H1) as (a & place & -> & Ep).
    destruct (Hq ((place ++ L ", ") ++ city)) as (q & Eq).
    cbn [render_activities]. unfold ui_bind at 1.
    assert (E : render_activity card city (PDict a) (w, p)
                = (Done tt,
                   (w, p ++ [st_markdown
                               (card (format_value (dict_get_default a (L "time") (PStr [])))
                                     (maps_search_url q) place
                                     (format_value
                                        (dict_get_default a (L "description") (PStr [])))
                                     (format_value
                                        (dict_get_default a (L "category") (PStr []))))
                               true]))).
    { unfold render_activity, ui_bind, ui_lift, ui_pure, emit.
      cbn [get_method]. rewrite Ep. cbn [add_str obind]. rewrite Eq. reflexivity. }
    rewrite E.
    destruct (IH H2 w (p ++ [st_markdown
                               (card (format_value (dict_get_default a (L "time") (PStr [])))
                                     (maps_search_url q) place
                                     (format_value
                                        (dict_get_default a (L "description") (PStr [])))
                                     (format_value
                                        (dict_get_default a (L "category") (PStr []))))
                               true]))
      as (cards & Ec & Hl & Hf).
    eexists (_ :: cards). split; [rewrite Ec, <- app_assoc; reflexivity|].
    split; [cbn [length]; now rewrite Hl|].
    constructor; [now eexists|exact Hf].
Qed.

Lemma day_shaped_parts (day : pyval) :
  day_shaped day = true ->
  exists d,
    day = PDict d /\
    dict_get_default d (L "activities") (PList []) = PList (activities_of day) /\
    forallb activity_shaped (activities_of day) = true /\
    (dict_get d (L "notes") = None \/ exists s, dict_get d (L "notes") = Some (PStr s)).
Proof.
  destruct day as [| | | | | |d]; try discriminate.
  cbn [day_shaped]. intros H.
  apply andb_true_iff in H as [H Hn]. apply andb_true_iff in H as [_ Ha].
  exists d. split; [reflexivity|].
  unfold field_ok in Ha, Hn. cbn [activities_of]. unfold dict_get_default.
  destruct (dict_get d (L "activities")) as [v|].
  - destruct v; try discriminate. cbn [activities_shaped] in Ha.
    split; [reflexivity|]. split; [exact Ha|].
    destruct (dict_get d (L "notes")) as [x|]; [|now left].
    destruct x; try discriminate. right. now eexists.
  - split; [reflexivity|]. split; [reflexivity|].
    destruct (dict_get d (L "notes")) as [x|]; [|now left].
    destruct x; try discriminate. right. now eexists.
Qed.

Lemma render_day_shaped (city : str) (day : pyval) (w : World) (p : page) :
  (forall s, exists q, quote s = Ret q) ->
  day_shaped day = true ->
  exists w' calls,
    render_day city day (w, p) = (Done tt, (w', p ++ calls)) /\ day_drawn day calls.
Proof.
  intros Hq Hday.
  destruct (day_shaped_parts day Hday) as (d & -> & Eacts & Hacts & Hnotes).
  set (acts := activities_of (PDict d)) in *.
  set (header := st_markdown
                   (day_header_html
                      (format_value (dict_get_default d (L "day") (PStr (L "?")))))
                   true).
  set (p1 := (p ++ [header]) ++ [st_columns [PFloat (L "1.3"); PInt 1]]).
  destruct (render_activities_shaped activity_card_html city acts Hq Hacts w
              (p1 ++ [st_enter (st_column 1)])) as (cards & Ec & Hl & Hf).
  assert (Ed : exists notes,
             day_details city (PDict d) (w, p1 ++ [st_enter (st_column 1)])
             = (Done tt, (w, ((p1 ++ [st_enter (st_column 1)]) ++ cards) ++ notes)) /\
             (notes = [] \/ exists body, notes = [st_markdown body true])).
  { unfold day_details.
    unfold ui_bind at 1, ui_lift at 1. cbn [get_method]. rewrite Eacts.
    unfold ui_bind at 1, ui_lift at 1. cbn [iterate].
    unfold ui_bind at 1. rewrite Ec.
    unfold ui_bind at 1, ui_lift at 1. cbn [get_method]. unfold dict_get_default at 1.
    destruct Hnotes as [En | (s & En)]; rewrite En.
    - exists []. cbn [truthy]. unfold ui_ret. rewrite List.app_nil_r. auto.
    - destruct s as [|c s]; cbn [truthy Json.is_nil negb].
      + exists []. unfold ui_ret. rewrite List.app_nil_r. auto.
      + eexists. unfold ui_bind, ui_pure, emit. cbn [getitem_key]. rewrite En.
        cbn [fst snd]. split; [reflexivity|]. right. now eexists. }
  destruct Ed as (notes & Ed & Hn).
  destruct (display_map_day_run World float_str container_str float_bool geocode
              repr_html d acts city w
              ((((p1 ++ [st_enter (st_column 1)]) ++ cards) ++ notes) ++
               [st_exit (st_column 1)] ++ [st_enter (st_column 2)])
              Eacts (activity_shaped_is_dict acts Hacts))
    as (w' & fmap & Em & _).
  exists w'. eexists. split.
  - unfold render_day.
    unfold ui_bind at 1, ui_lift at 1. cbn [get_method].
    unfold ui_bind at 1, emit at 1. cbn [fst snd]. fold header.
    unfold ui_bind at 1, emit at 1. cbn [fst snd]. fold p1.
    unfold ui_bind at 1, with_block at 1. cbn [fst snd]. rewrite Ed. cbn [fst snd].
    unfold ui_bind at 1, with_block at 1. cbn [fst snd].
    rewrite <- (app_assoc _ [st_exit (st_column 1)] [st_enter (st_column 2)]).
    rewrite Em. cbn [fst snd]. unfold emit. cbn [fst snd].
    unfold p1. rewrite <- !app_assoc. cbn [app]. reflexivity.
  - exists (format_value (dict_get_default d (L "day") (PStr (L "?")))), cards, notes,
      (repr_html fmap).
    split; [reflexivity|auto].
Qed.

(** X23: an itinerary that has the shape of the data model is drawn
    completely, whatever the geocoder does, provided quoting a place
    succeeds: for each day in turn the heading, the columns, one card
    for each activity, at most one box of notes, one map and the rule. *)
Theorem shaped_itinerary_is_drawn (l : list pyval) (city : str)
        (w : World) (p : page) :
  (forall s, exists q, quote s = Ret q) ->
  forallb day_shaped l = true ->
  exists w' drawn,
    render_days city l (w, p) = (Done tt, (w', p ++ concat drawn)) /\
    Forall2 day_drawn l drawn.
Proof.
  intros Hq. revert w p. induction l as [|day l IH]; intros w p Hl.
  - exists w, []. cbn. rewrite List.app_nil_r. split; [reflexivity|constructor].
  - cbn [forallb] in Hl. apply andb_true_iff in Hl as [H1 H2].
    destruct (render_day_shaped city day w p Hq H1) as (w1 & calls & E1 & Hd).
    destruct (IH w1 (p ++ calls) H2) as (w' & drawn & E & Hf).
    exists w', (calls :: drawn). split; [|now constructor].
    cbn [render_days concat]. unfold ui_bind. rewrite E1, E.
    now rewrite <- app_assoc.
Qed.

End PageFacts.

Lemma blank_city_rejected_spaces :
  MockUI.generate_button true (L "   ") 3 (L "food") (MockUI.world_of (L "[]"), [])
    = (Done tt, (MockUI.world_of (L "[]"), [st_error CITY_ERROR])).
Proof.
  apply (blank_city_rejected Mock.World Mock.quote Mock.requests_get_json
           Mock.Template Mock.Messages Mock.from_messages Mock.template_error Mock.format_messages
           Mock.llm_invoke Mock.floatstr Mock.float_str Mock.container_str
           Mock.GENERATION_SYSTEM MockUI.float_bool MockUI.geocode MockUI.repr_html
           (L "   ") 3%Z (L "food") (MockUI.world_of (L "[]")) []).
  reflexivity.
Defined.

Lemma generation_failure_surfaces_offline :
  MockUI.generate_button true (L "Mumbai") 3 (L "food")
    ({| Mock.llm_replies := [Raise (ExternalError 3)];
        Mock.http_reply := Mock.timeout |}, [])
  = (Failed (Exn (ExternalError 3)),
     (MockUI.world_after,
      [st_enter (st_spinner (L "Creating your 3-day plan for Mumbai..."));
       st_exit (st_spinner (L "Creating your 3-day plan for Mumbai..."))])).
Proof.
  apply (generation_failure_surfaces Mock.World Mock.quote Mock.requests_get_json
           Mock.Template Mock.Messages Mock.from_messages Mock.template_error Mock.format_messages
           Mock.llm_invoke Mock.floatstr Mock.float_str Mock.container_str
           Mock.GENERATION_SYSTEM MockUI.float_bool MockUI.geocode MockUI.repr_html
           (L "Mumbai") 3%Z (L "food")
           {| Mock.llm_replies := [Raise (ExternalError 3)];
              Mock.http_reply := Mock.timeout |}
           MockUI.world_after []
           (Mock.asked (L "Mumbai") 3 (L "food"))
           (ExternalError 3)); reflexivity.
Defined.

Lemma empty_itinerary_announced_review :
  MockUI.generate_button true (L "Mumbai") 3 (L "food")
    ({| Mock.llm_replies := [Ret (L "[]"); Raise (ExternalError 2)];
        Mock.http_reply := Mock.sunny |}, [])
  = (Done tt,
     ({| Mock.llm_replies := []; Mock.http_reply := Mock.sunny |},
      [st_enter (st_spinner (L "Creating your 3-day plan for Mumbai..."));
       st_exit (st_spinner (L "Creating your 3-day plan for Mumbai..."));
       st_success ([127881%N] ++ L " Your 3-day itinerary for **Mumbai** is ready!");
       st_markdown (L "---") false])).
Proof.
  apply (empty_itinerary_announced Mock.World Mock.quote Mock.requests_get_json
           Mock.Template Mock.Messages Mock.from_messages Mock.template_error
           Mock.format_messages
           Mock.llm_invoke Mock.floatstr Mock.float_str Mock.container_str
           Mock.GENERATION_SYSTEM MockUI.float_bool MockUI.geocode MockUI.repr_html
           (L "Mumbai") 3%Z (L "food")
           {| Mock.llm_replies := [Ret (L "[]"); Raise (ExternalError 2)];
              Mock.http_reply := Mock.sunny |}
           {| Mock.llm_replies := []; Mock.http_reply := Mock.sunny |} []);
    vm_compute; reflexivity.
Defined.

Lemma non_mapping_day_crashes_number :
  MockUI.generate_button true (L "Mumbai") 3 (L "food") (MockUI.world_of (L "[1]"), [])
  = (Failed AttributeError,
     (MockUI.world_after,
      [st_enter (st_spinner (L "Creating your 3-day plan for Mumbai..."));
       st_exit (st_spinner (L "Creating your 3-day plan for Mumbai..."));
       st_success ([127881%N] ++ L " Your 3-day itinerary for **Mumbai** is ready!");
       st_markdown (L "---") false])).
Proof.
  apply (non_mapping_day_crashes Mock.World Mock.quote Mock.requests_get_json
           Mock.Template Mock.Messages Mock.from_messages Mock.template_error Mock.format_messages
           Mock.llm_invoke Mock.floatstr Mock.float_str Mock.container_str
           Mock.GENERATION_SYSTEM MockUI.float_bool MockUI.geocode MockUI.repr_html
           (L "Mumbai") 3%Z (L "food") (MockUI.world_of (L "[1]")) MockUI.world_after
           [] (PInt 1) []);
    vm_compute; reflexivity.
Defined.

Lemma non_text_place_crashes_null :
  MockUI.display_itinerary_day
    (PDict [(L "day", PInt 1);
            (L "activities", PList [PDict [(L "place_name", PNone)]])])
    (L "Mumbai") (MockUI.world_after, [])
  = (Failed (Exn TypeError),
     (MockUI.world_after, [st_markdown (L "### " ++ [128197%N] ++ L " Day 1") false])) /\
  MockUI.render_day (L "Mumbai")
    (PDict [(L "day", PInt 1);
            (L "activities", PList [PDict [(L "place_name", PNone)]])])
    (MockUI.world_after, [])
  = (Failed (Exn TypeError),
     (MockUI.world_after,
      [st_markdown (day_header_html (L "1")) true;
       st_columns [PFloat (L "1.3"); PInt 1];
       st_enter (st_column 1); st_exit (st_column 1)])).
Proof.
  apply (non_text_place_crashes Mock.World Mock.quote Mock.float_str
           Mock.container_str MockUI.float_bool MockUI.geocode MockUI.repr_html
           [(L "day", PInt 1);
            (L "activities", PList [PDict [(L "place_name", PNone)]])]
           [(L "place_name", PNone)] [] PNone (L "Mumbai") MockUI.world_after []);
    reflexivity.
Defined.

Lemma annotated_notes_are_shown_scenario :
  exists notes,
    getitem_key
      (PDict [(L "day", PInt 1); (L "activities", PList []);
              (L "notes", PStr (L "Weather: Sunny"))])
      (L "notes") = Ret (PStr notes) /\
    notes <> [] /\
    MockUI.display_itinerary_day
      (PDict [(L "day", PInt 1); (L "activities", PList []);
              (L "notes", PStr (L "Weather: Sunny"))])
      (L "Mumbai") (MockUI.world_after, [])
    = match render_activities Mock.World Mock.quote Mock.float_str
              Mock.container_str day_card_html (L "Mumbai") []
              (MockUI.world_after,
               [] ++ [st_markdown (day_title (L "1")) false])
      with
      | (Done _, (w1, p1)) =>
          (Done tt, (w1, p1 ++ [st_info (notes_info notes); st_divider]))
      | (Failed e, s1) => (Failed e, s1)
      end /\
    MockUI.day_details (L "Mumbai")
      (PDict [(L "day", PInt 1); (L "activities", PList []);
              (L "notes", PStr (L "Weather: Sunny"))])
      (MockUI.world_after, [])
    = match render_activities Mock.World Mock.quote Mock.float_str
              Mock.container_str activity_card_html (L "Mumbai") []
              (MockUI.world_after, [])
      with
      | (Done _, (w1, p1)) =>
          (Done tt, (w1, p1 ++ [st_markdown (notes_box_html notes) true]))
      | (Failed e, s1) => (Failed e, s1)
      end.
Proof.
  apply (annotated_notes_are_shown Mock.World Mock.quote Mock.float_str
           Mock.container_str MockUI.float_bool (L "Sunny")
           [(L "day", PInt 1); (L "activities", PList []); (L "notes", PStr [])]
           (PDict [(L "day", PInt 1); (L "activities", PList []);
                   (L "notes", PStr (L "Weather: Sunny"))])
           [] (L "Mumbai") MockUI.world_after []);
    reflexivity.
Defined.

Lemma shaped_itinerary_is_drawn_busy :
  exists w' drawn,
    render_days Mock.World Mock.quote Mock.float_str Mock.container_str
      MockUI.float_bool MockUI.geocode MockUI.repr_html (L "Mumbai")
      [PDict MockUI.busy_day; scenario_day] (MockUI.world_after, [])
    = (Done tt, (w', [] ++ concat drawn)) /\
    Forall2 day_drawn [PDict MockUI.busy_day; scenario_day] drawn.
Proof.
  apply (shaped_itinerary_is_drawn Mock.World Mock.quote Mock.float_str
           Mock.container_str MockUI.float_bool MockUI.geocode MockUI.repr_html
           [PDict MockUI.busy_day; scenario_day] (L "Mumbai") MockUI.world_after []).
  - intros s. exists s. reflexivity.
  - reflexivity.
Defined.

(** ** A reply that is no JSON, through the pipeline *)

Section FallbackFacts.
Variable World : Type.
Variable quote : str -> outcome str.
Variable requests_get_json : str -> Py World pyval.
Variable Template Messages : Type.
Variable from_messages : list (str * str) -> Template.
Variable template_error : list (str * str) -> option exn.
Variable format_messages : Template -> list (str * pyval) -> outcome Messages.
Variable llm_invoke : Messages -> Py World str.
Variable floatstr : str -> str.
Variable float_str : str -> str.
Variable container_str : pyval -> str.
Variable GENERATION_SYSTEM : str.

Local Abbreviation get_weather :=
  (get_weather World quote requests_get_json float_str container_str).
Local Abbreviation review_itinerary :=
  (review_itinerary World Template Messages from_messages template_error
     format_messages llm_invoke floatstr).
Local Abbreviation generation_prompt :=
  (generation_prompt Template from_messages GENERATION_SYSTEM).
Local Abbreviation create_itinerary :=
  (create_itinerary World quote requests_get_json Template Messages
     from_messages template_error format_messages llm_invoke floatstr
     float_str container_str GENERATION_SYSTEM).

(** X24: when the reply of the generation call cannot be parsed, what
    [create_itinerary] hands to [review_itinerary] is one Day whose
    single activity has the reply itself as its description and whose
    notes are the bare weather suffix; the outcome of [create_itinerary]
    is the outcome of that review. *)
Theorem unparseable_reply_reviewed
        (city : str) (days : Z) (interests : str) (w w1 w2 : World)
        (messages : Messages) (content weather : str) :
  format_messages generation_prompt
    [(L "city", PStr city); (L "days", PInt days);
     (L "interests", PStr interests)] = Ret messages ->
  llm_invoke messages w = (Ret content, w1) ->
  Json.loads (clean_llm_text content) = None ->
  get_weather city w1 = (Ret weather, w2) ->
  create_itinerary city days interests w =
    review_itinerary
      (PList [PDict [(L "day", PInt 1);
                     (L "activities",
                       PList [PDict [(L "time", PStr (L "All day"));
                                     (L "place_name", PStr (L "Unknown"));
                                     (L "description", PStr content)]]);
                     (L "notes", PStr (L "Weather: " ++ weather))]])
      w2.
Proof.
  intros Hf Hl Hp Hw.
  rewrite (create_itinerary_after_generation World quote requests_get_json
             Template Messages from_messages template_error format_messages llm_invoke
             floatstr float_str container_str GENERATION_SYSTEM
             city days interests w w1 messages content Hf Hl), Hw.
  rewrite (parse_llm_json_failed content Hp).
  cbn [fallback_itinerary coerce_shape add_weather annotate_days annotate_day].
  change (dict_get_default _ (L "notes") (PStr [])) with (PStr []).
  cbn [add_str obind app].
  pose proof (weather_note [] weather
                (get_weather_ends_plain _ _ _ _ _ _ _ _ _ Hw)) as Hn.
  cbn [app lstrip_by] in Hn. now rewrite Hn.
Qed.

End FallbackFacts.

Lemma unparseable_reply_reviewed_sorry :
  Mock.create_itinerary (L "Mumbai") 1 (L "food")
    (MockUI.world_of (L "Sorry, I cannot help."))
  = Mock.review_itinerary
      (PList [PDict [(L "day", PInt 1);
                     (L "activities",
                       PList [PDict [(L "time", PStr (L "All day"));
                                     (L "place_name", PStr (L "Unknown"));
                                     (L "description",
                                       PStr (L "Sorry, I cannot help."))]]);
                     (L "notes",
                       PStr (L "Weather: " ++ L "Weather data unavailable"))]])
      {| Mock.llm_replies := [Raise (ExternalError 2)];
         Mock.http_reply := Mock.timeout |}.
Proof.
  apply (unparseable_reply_reviewed Mock.World Mock.quote Mock.requests_get_json
           Mock.Template Mock.Messages Mock.from_messages Mock.template_error Mock.format_messages
           Mock.llm_invoke Mock.floatstr Mock.float_str Mock.container_str
           Mock.GENERATION_SYSTEM (L "Mumbai") 1%Z (L "food")
           (MockUI.world_of (L "Sorry, I cannot help."))
           {| Mock.llm_replies := [Raise (ExternalError 2)];
              Mock.http_reply := Mock.timeout |}
           {| Mock.llm_replies := [Raise (ExternalError 2)];
              Mock.http_reply := Mock.timeout |}
           (Mock.asked (L "Mumbai") 1 (L "food"))
           (L "Sorry, I cannot help.") (L "Weather data unavailable"));
    vm_compute; reflexivity.
Defined.

(** In the scripted world that run ends in the constructor of the
    review prompt: the Day holds a mapping inside a mapping. *)
Example unparseable_reply_run :
  Mock.create_itinerary (L "Mumbai") 1 (L "food")
    (MockUI.world_of (L "Sorry, I cannot help."))
  = (Raise Mock.VALUE_ERROR,
     {| Mock.llm_replies := [Raise (ExternalError 2)];
        Mock.http_reply := Mock.timeout |}).
Proof. vm_compute. reflexivity. Qed.
